(** * Verification of the placement net-cost engine, the manual-move panel
      and the block-memory elaborator

    The development has two parts.  Part I embeds the code: the net-cost /
    bounding-box engine of [vpr/src/place] (module [NetCost]), the
    submit handler of the manual-move panel of [vpr/src/draw/manual_moves.cpp]
    (module [ManualMoves]) and the address optimisation and shape selection of
    [ODIN_II/SRC/BlockMemories.cc] (module [BlockMemories]).  Part II states
    and proves the properties.

    Conventions of the embedding:
    - C++ [int] and [size_t] values are integers of [Z]; where the source
      converts between the two the conversion is written out ([to_size_t]).
      Signed overflow is undefined in the source and is not modelled.
    - [float] and [double] costs are exact rationals of [Q]: the decimal
      literals of the source are read as written and rounding is not modelled.
    - [vtr::vector], [std::vector] and matrix rows are total maps from the
      index; the loop bounds ([num_layers], the nets of the netlist) are
      carried by the context.
    - [VTR_ASSERT] aborts the run: a function that can fail one returns
      [option], [None] being the abort.  [VTR_ASSERT_SAFE] is compiled out at
      the default assertion level and is not modelled. *)

From Stdlib Require Import ZArith QArith Qabs List Bool Lia Permutation.
From Stdlib Require String Ascii Decimal DecimalNat DecimalString.
Import ListNotations.

(** * Part I: the embedding *)

Module NetCost.

Local Open Scope Z_scope.

(** ** Identifiers, locations and boxes *)

Definition ClusterNetId := nat.
Definition ClusterBlockId := nat.
Definition ClusterPinId := nat.

(** [t_pl_loc]: where a block sits. *)
Record t_pl_loc := mk_pl_loc {
  pl_x : Z;
  pl_y : Z;
  pl_sub_tile : Z;
  pl_layer : Z
}.

(** [t_physical_tile_loc]: where a pin sits. *)
Record t_physical_tile_loc := mk_tile_loc {
  tile_x : Z;
  tile_y : Z;
  tile_layer_num : Z
}.

(** [t_bb]: the cube bounding box.  The source type also has [layer_min] and
    [layer_max]; no function of the engine reads or writes them. *)
Record t_bb := mk_bb {
  xmin : Z;
  xmax : Z;
  ymin : Z;
  ymax : Z
}.

(** [t_2D_bb]: the box of one layer. *)
Record t_2D_bb := mk_2D_bb {
  l_xmin : Z;
  l_xmax : Z;
  l_ymin : Z;
  l_ymax : Z;
  layer_num : Z
}.

(** [t_pl_moved_block]. *)
Record t_pl_moved_block := mk_moved_block {
  block_num : ClusterBlockId;
  old_loc : t_pl_loc;
  new_loc : t_pl_loc
}.

(** The states of a bounding box during one swap ([#define]d as the
    characters 'N', 'U' and 'S'). *)
Inductive bb_flag := NOT_UPDATED_YET | UPDATED_ONCE | GOT_FROM_SCRATCH.

Definition bb_flag_eqb (a b : bb_flag) : bool :=
  match a, b with
  | NOT_UPDATED_YET, NOT_UPDATED_YET => true
  | UPDATED_ONCE, UPDATED_ONCE => true
  | GOT_FROM_SCRATCH, GOT_FROM_SCRATCH => true
  | _, _ => false
  end.


(** ** The context the engine reads

    [g_vpr_ctx] (clustering, placement, device) and the constants of headers
    that the engine uses.  [SMALL_NET] and [OPEN] are defined in a shared
    header; they are fields here. *)
Record vpr_ctx := mk_ctx {
  (* clustering().clb_nlist *)
  nets : list ClusterNetId;
  net_is_ignored : ClusterNetId -> bool;
  net_driver_block : ClusterNetId -> ClusterBlockId;
  net_sinks : ClusterNetId -> list ClusterPinId;
  block_pins : ClusterBlockId -> list ClusterPinId;
  pin_net : ClusterPinId -> ClusterNetId;
  pin_block : ClusterPinId -> ClusterBlockId;
  pin_is_driver : ClusterPinId -> bool;
  (* tile_pin_index(pin), net_pin_to_tile_pin_index(net, 0) *)
  tile_pin_index : ClusterPinId -> Z;
  net_driver_tile_pin_index : ClusterNetId -> Z;
  (* physical_tile_type(blk)->pin_width_offset[pnum], ->pin_height_offset[pnum] *)
  pin_width_offset : ClusterBlockId -> Z -> Z;
  pin_height_offset : ClusterBlockId -> Z -> Z;
  (* placement() *)
  block_locs : ClusterBlockId -> t_pl_loc;
  cube_bb : bool;
  (* device().grid *)
  grid_width : Z;
  grid_height : Z;
  num_layers : Z;
  (* constants *)
  SMALL_NET : Z;
  OPEN : Z;
  (* chanx_place_cost_fac[high][low], chany_place_cost_fac[high][low] *)
  chanx_place_cost_fac : Z -> Z -> Q;
  chany_place_cost_fac : Z -> Z -> Q
}.

(** [net_pins(net).size()]: the driver and the sinks. *)
Definition net_pins_size (c : vpr_ctx) (net : ClusterNetId) : Z :=
  Z.of_nat (S (length (net_sinks c net))).

(** The same context after the blocks have been placed elsewhere. *)
Definition with_block_locs (c : vpr_ctx) (locs : ClusterBlockId -> t_pl_loc) : vpr_ctx :=
  mk_ctx (nets c) (net_is_ignored c) (net_driver_block c) (net_sinks c)
         (block_pins c) (pin_net c) (pin_block c) (pin_is_driver c)
         (tile_pin_index c) (net_driver_tile_pin_index c)
         (pin_width_offset c) (pin_height_offset c)
         locs (cube_bb c) (grid_width c) (grid_height c) (num_layers c)
         (SMALL_NET c) (OPEN c) (chanx_place_cost_fac c) (chany_place_cost_fac c).

(** ** Maps and loops *)

Definition upd {A : Type} (f : nat -> A) (k : nat) (v : A) : nat -> A :=
  fun k' => if Nat.eqb k' k then v else f k'.

Definition updz {A : Type} (f : Z -> A) (k : Z) (v : A) : Z -> A :=
  fun k' => if Z.eqb k' k then v else f k'.

(** The indices [0 .. n-1] of a loop [for (i = 0; i < n; i++)]. *)
Definition zrange (n : Z) : list Z := map Z.of_nat (seq 0 (Z.to_nat n)).

(** Conversion of an [int] to [size_t]. *)
Definition to_size_t (z : Z) : Z := z mod 2 ^ 64.

Definition Qltb (a b : Q) : bool := negb (Qle_bool b a).

(** ** Crossing counts *)

Local Open Scope Q_scope.

Definition cross_count : list Q :=
  [1.0; 1.0; 1.0; 1.0828;
   1.1536; 1.2206; 1.2823; 1.3385; 1.3991; 1.4493; 1.4974; 1.5455; 1.5937;
   1.6418; 1.6899; 1.7304; 1.7709; 1.8114; 1.8519; 1.8924; 1.9288; 1.9652;
   2.0015; 2.0379; 2.0743; 2.1061; 2.1379; 2.1698; 2.2016; 2.2334; 2.2646;
   2.2958; 2.3271; 2.3583; 2.3895; 2.4187; 2.4479; 2.4772; 2.5064; 2.5356;
   2.5610; 2.5864; 2.6117; 2.6371; 2.6625; 2.6887; 2.7148; 2.7410; 2.7671;
   2.7933].

(** [cross_count[i]] for a [size_t] index; a read outside the 50 entries is
    undefined in the source and is [None] here. *)
Definition cross_count_at (i : Z) : option Q :=
  if ((0 <=? i) && (i <? 50))%Z then nth_error cross_count (Z.to_nat i) else None.

(** [wirelength_crossing_count(size_t fanout)]; [fanout - 1] is computed in
    [size_t]. *)
Definition wirelength_crossing_count (fanout : Z) : option Q :=
  if (fanout >? 50)%Z then Some (2.7933 + 0.02616 * inject_Z (fanout - 50))
  else cross_count_at (to_size_t (fanout - 1)).

(** ** Cost of one net *)

(** [get_net_cost(net_id, bb)]. *)
Definition get_net_cost (c : vpr_ctx) (net_id : ClusterNetId) (bb : t_bb) : option Q :=
  match wirelength_crossing_count (net_pins_size c net_id) with
  | None => None
  | Some crossing =>
      let ncost := inject_Z (xmax bb - xmin bb + 1) * crossing
                   * chanx_place_cost_fac c (ymax bb) (ymin bb - 1) in
      let ncost := ncost + inject_Z (ymax bb - ymin bb + 1) * crossing
                           * chany_place_cost_fac c (xmax bb) (xmin bb - 1) in
      Some ncost
  end.

(** One iteration of the loop of [get_net_layer_cost]. *)
Definition net_layer_cost_step (c : vpr_ctx) (bb : Z -> t_2D_bb)
    (layer_pin_sink_count : Z -> Z) (ncost : Q) (layer : Z) : option Q :=
  if (layer_pin_sink_count layer =? OPEN c)%Z then None (* VTR_ASSERT *)
  else if (layer_pin_sink_count layer =? 0)%Z then Some ncost (* continue *)
  else
    match wirelength_crossing_count (to_size_t (layer_pin_sink_count layer + 1)) with
    | None => None
    | Some crossing =>
        let ncost := ncost + inject_Z (l_xmax (bb layer) - l_xmin (bb layer) + 1) * crossing
                             * chanx_place_cost_fac c (l_ymax (bb layer)) (l_ymin (bb layer) - 1) in
        let ncost := ncost + inject_Z (l_ymax (bb layer) - l_ymin (bb layer) + 1) * crossing
                             * chany_place_cost_fac c (l_xmax (bb layer)) (l_xmin (bb layer) - 1) in
        Some ncost
    end.

Fixpoint net_layer_cost_loop (c : vpr_ctx) (bb : Z -> t_2D_bb)
    (layer_pin_sink_count : Z -> Z) (layers : list Z) (ncost : Q) : option Q :=
  match layers with
  | [] => Some ncost
  | layer :: rest =>
      match net_layer_cost_step c bb layer_pin_sink_count ncost layer with
      | None => None
      | Some ncost' => net_layer_cost_loop c bb layer_pin_sink_count rest ncost'
      end
  end.

(** [get_net_layer_cost(net_id, bb, layer_pin_sink_count)]. *)
Definition get_net_layer_cost (c : vpr_ctx) (bb : Z -> t_2D_bb)
    (layer_pin_sink_count : Z -> Z) : option Q :=
  net_layer_cost_loop c bb layer_pin_sink_count (zrange (num_layers c)) 0.

Local Close Scope Q_scope.

(** ** The state the engine owns

    The committed tables of [g_placer_ctx.move()] and the file-level tables
    of the engine: the cost caches, the freshness flags and the scratch
    tables of the swap in flight. *)
Record cost_state := mk_state {
  (* committed: place_move_ctx *)
  bb_coords : ClusterNetId -> t_bb;
  bb_num_on_edges : ClusterNetId -> t_bb;
  layer_bb_coords : ClusterNetId -> Z -> t_2D_bb;
  layer_bb_num_on_edges : ClusterNetId -> Z -> t_2D_bb;
  num_sink_pin_layer : ClusterNetId -> Z -> Z;
  net_cost : ClusterNetId -> Q;
  (* swap in flight *)
  proposed_net_cost : ClusterNetId -> Q;
  bb_updated_before : ClusterNetId -> bb_flag;
  ts_bb_coord_new : ClusterNetId -> t_bb;
  ts_bb_edge_new : ClusterNetId -> t_bb;
  layer_ts_bb_edge_new : ClusterNetId -> Z -> t_2D_bb;
  layer_ts_bb_coord_new : ClusterNetId -> Z -> t_2D_bb;
  ts_layer_sink_pin_count : ClusterNetId -> Z -> Z;
  ts_nets_to_update : Z -> ClusterNetId
}.

Definition set_bb_coords (s : cost_state) (net : ClusterNetId) (v : t_bb) : cost_state :=
  mk_state (upd (bb_coords s) net v) (bb_num_on_edges s) (layer_bb_coords s)
    (layer_bb_num_on_edges s) (num_sink_pin_layer s) (net_cost s)
    (proposed_net_cost s) (bb_updated_before s) (ts_bb_coord_new s) (ts_bb_edge_new s)
    (layer_ts_bb_edge_new s) (layer_ts_bb_coord_new s) (ts_layer_sink_pin_count s)
    (ts_nets_to_update s).

Definition set_bb_num_on_edges (s : cost_state) (net : ClusterNetId) (v : t_bb) : cost_state :=
  mk_state (bb_coords s) (upd (bb_num_on_edges s) net v) (layer_bb_coords s)
    (layer_bb_num_on_edges s) (num_sink_pin_layer s) (net_cost s)
    (proposed_net_cost s) (bb_updated_before s) (ts_bb_coord_new s) (ts_bb_edge_new s)
    (layer_ts_bb_edge_new s) (layer_ts_bb_coord_new s) (ts_layer_sink_pin_count s)
    (ts_nets_to_update s).

Definition set_layer_bb_coords (s : cost_state) (net : ClusterNetId) (v : Z -> t_2D_bb) : cost_state :=
  mk_state (bb_coords s) (bb_num_on_edges s) (upd (layer_bb_coords s) net v)
    (layer_bb_num_on_edges s) (num_sink_pin_layer s) (net_cost s)
    (proposed_net_cost s) (bb_updated_before s) (ts_bb_coord_new s) (ts_bb_edge_new s)
    (layer_ts_bb_edge_new s) (layer_ts_bb_coord_new s) (ts_layer_sink_pin_count s)
    (ts_nets_to_update s).

Definition set_layer_bb_num_on_edges (s : cost_state) (net : ClusterNetId) (v : Z -> t_2D_bb) : cost_state :=
  mk_state (bb_coords s) (bb_num_on_edges s) (layer_bb_coords s)
    (upd (layer_bb_num_on_edges s) net v) (num_sink_pin_layer s) (net_cost s)
    (proposed_net_cost s) (bb_updated_before s) (ts_bb_coord_new s) (ts_bb_edge_new s)
    (layer_ts_bb_edge_new s) (layer_ts_bb_coord_new s) (ts_layer_sink_pin_count s)
    (ts_nets_to_update s).

Definition set_num_sink_pin_layer (s : cost_state) (net : ClusterNetId) (v : Z -> Z) : cost_state :=
  mk_state (bb_coords s) (bb_num_on_edges s) (layer_bb_coords s)
    (layer_bb_num_on_edges s) (upd (num_sink_pin_layer s) net v) (net_cost s)
    (proposed_net_cost s) (bb_updated_before s) (ts_bb_coord_new s) (ts_bb_edge_new s)
    (layer_ts_bb_edge_new s) (layer_ts_bb_coord_new s) (ts_layer_sink_pin_count s)
    (ts_nets_to_update s).

Definition set_net_cost (s : cost_state) (net : ClusterNetId) (v : Q) : cost_state :=
  mk_state (bb_coords s) (bb_num_on_edges s) (layer_bb_coords s)
    (layer_bb_num_on_edges s) (num_sink_pin_layer s) (upd (net_cost s) net v)
    (proposed_net_cost s) (bb_updated_before s) (ts_bb_coord_new s) (ts_bb_edge_new s)
    (layer_ts_bb_edge_new s) (layer_ts_bb_coord_new s) (ts_layer_sink_pin_count s)
    (ts_nets_to_update s).

Definition set_proposed_net_cost (s : cost_state) (net : ClusterNetId) (v : Q) : cost_state :=
  mk_state (bb_coords s) (bb_num_on_edges s) (layer_bb_coords s)
    (layer_bb_num_on_edges s) (num_sink_pin_layer s) (net_cost s)
    (upd (proposed_net_cost s) net v) (bb_updated_before s) (ts_bb_coord_new s) (ts_bb_edge_new s)
    (layer_ts_bb_edge_new s) (layer_ts_bb_coord_new s) (ts_layer_sink_pin_count s)
    (ts_nets_to_update s).

Definition set_bb_updated_before (s : cost_state) (net : ClusterNetId) (v : bb_flag) : cost_state :=
  mk_state (bb_coords s) (bb_num_on_edges s) (layer_bb_coords s)
    (layer_bb_num_on_edges s) (num_sink_pin_layer s) (net_cost s)
    (proposed_net_cost s) (upd (bb_updated_before s) net v) (ts_bb_coord_new s) (ts_bb_edge_new s)
    (layer_ts_bb_edge_new s) (layer_ts_bb_coord_new s) (ts_layer_sink_pin_count s)
    (ts_nets_to_update s).

Definition set_ts_bb_coord_new (s : cost_state) (net : ClusterNetId) (v : t_bb) : cost_state :=
  mk_state (bb_coords s) (bb_num_on_edges s) (layer_bb_coords s)
    (layer_bb_num_on_edges s) (num_sink_pin_layer s) (net_cost s)
    (proposed_net_cost s) (bb_updated_before s) (upd (ts_bb_coord_new s) net v) (ts_bb_edge_new s)
    (layer_ts_bb_edge_new s) (layer_ts_bb_coord_new s) (ts_layer_sink_pin_count s)
    (ts_nets_to_update s).

Definition set_ts_bb_edge_new (s : cost_state) (net : ClusterNetId) (v : t_bb) : cost_state :=
  mk_state (bb_coords s) (bb_num_on_edges s) (layer_bb_coords s)
    (layer_bb_num_on_edges s) (num_sink_pin_layer s) (net_cost s)
    (proposed_net_cost s) (bb_updated_before s) (ts_bb_coord_new s) (upd (ts_bb_edge_new s) net v)
    (layer_ts_bb_edge_new s) (layer_ts_bb_coord_new s) (ts_layer_sink_pin_count s)
    (ts_nets_to_update s).

Definition set_layer_ts_bb_edge_new (s : cost_state) (net : ClusterNetId) (v : Z -> t_2D_bb) : cost_state :=
  mk_state (bb_coords s) (bb_num_on_edges s) (layer_bb_coords s)
    (layer_bb_num_on_edges s) (num_sink_pin_layer s) (net_cost s)
    (proposed_net_cost s) (bb_updated_before s) (ts_bb_coord_new s) (ts_bb_edge_new s)
    (upd (layer_ts_bb_edge_new s) net v) (layer_ts_bb_coord_new s) (ts_layer_sink_pin_count s)
    (ts_nets_to_update s).

Definition set_layer_ts_bb_coord_new (s : cost_state) (net : ClusterNetId) (v : Z -> t_2D_bb) : cost_state :=
  mk_state (bb_coords s) (bb_num_on_edges s) (layer_bb_coords s)
    (layer_bb_num_on_edges s) (num_sink_pin_layer s) (net_cost s)
    (proposed_net_cost s) (bb_updated_before s) (ts_bb_coord_new s) (ts_bb_edge_new s)
    (layer_ts_bb_edge_new s) (upd (layer_ts_bb_coord_new s) net v) (ts_layer_sink_pin_count s)
    (ts_nets_to_update s).

Definition set_ts_layer_sink_pin_count (s : cost_state) (net : ClusterNetId) (v : Z -> Z) : cost_state :=
  mk_state (bb_coords s) (bb_num_on_edges s) (layer_bb_coords s)
    (layer_bb_num_on_edges s) (num_sink_pin_layer s) (net_cost s)
    (proposed_net_cost s) (bb_updated_before s) (ts_bb_coord_new s) (ts_bb_edge_new s)
    (layer_ts_bb_edge_new s) (layer_ts_bb_coord_new s) (upd (ts_layer_sink_pin_count s) net v)
    (ts_nets_to_update s).

Definition set_ts_nets_to_update (s : cost_state) (i : Z) (net : ClusterNetId) : cost_state :=
  mk_state (bb_coords s) (bb_num_on_edges s) (layer_bb_coords s)
    (layer_bb_num_on_edges s) (num_sink_pin_layer s) (net_cost s)
    (proposed_net_cost s) (bb_updated_before s) (ts_bb_coord_new s) (ts_bb_edge_new s)
    (layer_ts_bb_edge_new s) (layer_ts_bb_coord_new s) (ts_layer_sink_pin_count s)
    (updz (ts_nets_to_update s) i net).

(** ** Pin positions and clipping *)

(** [block_locs[bnum].loc.x + physical_tile_type(bnum)->pin_width_offset[pnum]]. *)
Definition pin_x (c : vpr_ctx) (bnum : ClusterBlockId) (pnum : Z) : Z :=
  pl_x (block_locs c bnum) + pin_width_offset c bnum pnum.

Definition pin_y (c : vpr_ctx) (bnum : ClusterBlockId) (pnum : Z) : Z :=
  pl_y (block_locs c bnum) + pin_height_offset c bnum pnum.

(** [max(min<int>(v, dim - 2), 1)]. *)
Definition clip (v dim : Z) : Z := Z.max (Z.min v (dim - 2)) 1.

(** The four clipping assignments that open [update_bb] and
    [update_layer_bb]. *)
Definition clip_loc (c : vpr_ctx) (l : t_physical_tile_loc) : t_physical_tile_loc :=
  mk_tile_loc (clip (tile_x l) (grid_width c)) (clip (tile_y l) (grid_height c))
              (tile_layer_num l).

(** [for (layer_num < num_layers) v[layer_num] = 0]. *)
Definition zero_layers (n : Z) (v : Z -> Z) : Z -> Z :=
  fun l => if (0 <=? l) && (l <? n) then 0 else v l.

(** [for (layer_num < num_layers) dst[layer_num] = src[layer_num]]. *)
Definition copy_layers {A : Type} (n : Z) (src dst : Z -> A) : Z -> A :=
  fun l => if (0 <=? l) && (l <? n) then src l else dst l.

(** ** Bounding boxes of the cube kind *)

(** The body of the sink loop of [get_non_updatable_bb]; [bb] holds the
    locals [xmin], [xmax], [ymin], [ymax]. *)
Definition non_updatable_sink (c : vpr_ctx) (acc : t_bb * (Z -> Z))
    (pin_id : ClusterPinId) : t_bb * (Z -> Z) :=
  let bnum := pin_block c pin_id in
  let pnum := tile_pin_index c pin_id in
  let x := pin_x c bnum pnum in
  let y := pin_y c bnum pnum in
  let layer := pl_layer (block_locs c bnum) in
  let bb := fst acc in
  let bb := if x <? xmin bb then mk_bb x (xmax bb) (ymin bb) (ymax bb)
            else if x >? xmax bb then mk_bb (xmin bb) x (ymin bb) (ymax bb)
            else bb in
  let bb := if y <? ymin bb then mk_bb (xmin bb) (xmax bb) y (ymax bb)
            else if y >? ymax bb then mk_bb (xmin bb) (xmax bb) (ymin bb) y
            else bb in
  (bb, updz (snd acc) layer (snd acc layer + 1)).

(** [get_non_updatable_bb(net_id, bb_coord_new, num_sink_pin_layer)]: the
    new box and the new sink counts. *)
Definition get_non_updatable_bb (c : vpr_ctx) (net_id : ClusterNetId)
    (num_sink_pin_layer : Z -> Z) : t_bb * (Z -> Z) :=
  let bnum := net_driver_block c net_id in
  let pnum := net_driver_tile_pin_index c net_id in
  let x := pin_x c bnum pnum in
  let y := pin_y c bnum pnum in
  let acc := fold_left (non_updatable_sink c) (net_sinks c net_id)
               (mk_bb x x y y, zero_layers (num_layers c) num_sink_pin_layer) in
  (mk_bb (clip (xmin (fst acc)) (grid_width c)) (clip (xmax (fst acc)) (grid_width c))
         (clip (ymin (fst acc)) (grid_height c)) (clip (ymax (fst acc)) (grid_height c)),
   snd acc).

(** One axis of the sink loop of the from-scratch routines: the pin
    coordinate [v] against the running [lo], [hi] and their edge counts.
    The source writes this block once for x and once for y. *)
Definition scratch_axis (v lo hi lo_edge hi_edge : Z) : Z * Z * Z * Z :=
  let lo_edge := if v =? lo then lo_edge + 1 else lo_edge in
  if v =? hi then (lo, hi, lo_edge, hi_edge + 1)
  else if v <? lo then (v, hi, 1, hi_edge)
  else if v >? hi then (lo, v, lo_edge, 1)
  else (lo, hi, lo_edge, hi_edge).

(** Locals of [get_bb_from_scratch]: coordinates, edge counts, sink counts. *)
Definition scratch_acc : Type := t_bb * t_bb * (Z -> Z).

Definition from_scratch_sink (c : vpr_ctx) (acc : scratch_acc)
    (pin_id : ClusterPinId) : scratch_acc :=
  let '(co, ed, cnt) := acc in
  let bnum := pin_block c pin_id in
  let pnum := tile_pin_index c pin_id in
  let pin_layer := pl_layer (block_locs c bnum) in
  let x := clip (pin_x c bnum pnum) (grid_width c) in
  let y := clip (pin_y c bnum pnum) (grid_height c) in
  let '(x_lo, x_hi, x_lo_edge, x_hi_edge) := scratch_axis x (xmin co) (xmax co) (xmin ed) (xmax ed) in
  let '(y_lo, y_hi, y_lo_edge, y_hi_edge) := scratch_axis y (ymin co) (ymax co) (ymin ed) (ymax ed) in
  (mk_bb x_lo x_hi y_lo y_hi, mk_bb x_lo_edge x_hi_edge y_lo_edge y_hi_edge,
   updz cnt pin_layer (cnt pin_layer + 1)).

(** [get_bb_from_scratch(net_id, coords, num_on_edges, num_sink_pin_layer)]. *)
Definition get_bb_from_scratch (c : vpr_ctx) (net_id : ClusterNetId)
    (num_sink_pin_layer : Z -> Z) : scratch_acc :=
  let bnum := net_driver_block c net_id in
  let pnum := net_driver_tile_pin_index c net_id in
  let x := clip (pin_x c bnum pnum) (grid_width c) in
  let y := clip (pin_y c bnum pnum) (grid_height c) in
  fold_left (from_scratch_sink c) (net_sinks c net_id)
    (mk_bb x x y y, mk_bb 1 1 1 1, zero_layers (num_layers c) num_sink_pin_layer).

(** One axis of [update_bb]: the pin moves from [old] to [new] along an axis
    whose current box is [cmin .. cmax] with [emin], [emax] pins on the edges.
    [None]: the pin was alone on the edge it leaves and the box must be
    recomputed.  The source writes this block once for x and once for y. *)
Definition update_axis (old new cmin cmax emin emax : Z) : option (Z * Z * Z * Z) :=
  if new <? old then
    if (old =? cmax) && (emax =? 1) then None
    else
      let nemax := if old =? cmax then emax - 1 else emax in
      if new <? cmin then Some (new, cmax, 1, nemax)
      else if new =? cmin then Some (new, cmax, emin + 1, nemax)
      else Some (cmin, cmax, emin, nemax)
  else if new >? old then
    if (old =? cmin) && (emin =? 1) then None
    else
      let nemin := if old =? cmin then emin - 1 else emin in
      if new >? cmax then Some (cmin, new, nemin, 1)
      else if new =? cmax then Some (cmin, new, nemin, emax + 1)
      else Some (cmin, cmax, nemin, emax)
  else Some (cmin, cmax, emin, emax).

(** The three statements of every from-scratch exit of [update_bb]. *)
Definition update_bb_from_scratch (c : vpr_ctx) (s : cost_state)
    (net_id : ClusterNetId) : cost_state :=
  let '(co, ed, cnt) := get_bb_from_scratch c net_id (ts_layer_sink_pin_count s net_id) in
  let s := set_ts_bb_coord_new s net_id co in
  let s := set_ts_bb_edge_new s net_id ed in
  let s := set_ts_layer_sink_pin_count s net_id cnt in
  set_bb_updated_before s net_id GOT_FROM_SCRATCH.

(** The layer block that closes [update_bb]. *)
Definition update_bb_layer_counts (c : vpr_ctx) (curr new : Z -> Z)
    (pin_old_loc pin_new_loc : t_physical_tile_loc) (src_pin : bool) : Z -> Z :=
  if num_layers c >? 1 then
    let new := copy_layers (num_layers c) curr new in
    if negb src_pin then
      if negb (tile_layer_num pin_old_loc =? tile_layer_num pin_new_loc) then
        let new := updz new (tile_layer_num pin_old_loc) (curr (tile_layer_num pin_old_loc) - 1) in
        updz new (tile_layer_num pin_new_loc) (curr (tile_layer_num pin_new_loc) + 1)
      else new
    else new
  else new.

(** [update_bb(net_id, bb_edge_new, bb_coord_new, num_sink_pin_layer_new,
    pin_old_loc, pin_new_loc, src_pin)], called with the scratch entries of
    [net_id].  When the net was updated before, [curr_bb_edge] and
    [curr_bb_coord] point to the scratch entries themselves; each field is
    read before the same field is written, so the values read are those at
    entry. *)
Definition update_bb (c : vpr_ctx) (s : cost_state) (net_id : ClusterNetId)
    (pin_old_loc pin_new_loc : t_physical_tile_loc) (src_pin : bool) : cost_state :=
  let pin_new_loc := clip_loc c pin_new_loc in
  let pin_old_loc := clip_loc c pin_old_loc in
  match bb_updated_before s net_id with
  | GOT_FROM_SCRATCH => s
  | flag =>
      let first := bb_flag_eqb flag NOT_UPDATED_YET in
      let curr_num_sink_pin_layer :=
        if first then num_sink_pin_layer s net_id else ts_layer_sink_pin_count s net_id in
      let curr_bb_edge := if first then bb_num_on_edges s net_id else ts_bb_edge_new s net_id in
      let curr_bb_coord := if first then bb_coords s net_id else ts_bb_coord_new s net_id in
      let s := if first then set_bb_updated_before s net_id UPDATED_ONCE else s in
      match update_axis (tile_x pin_old_loc) (tile_x pin_new_loc)
              (xmin curr_bb_coord) (xmax curr_bb_coord)
              (xmin curr_bb_edge) (xmax curr_bb_edge) with
      | None => update_bb_from_scratch c s net_id
      | Some (nxmin, nxmax, exmin, exmax) =>
          match update_axis (tile_y pin_old_loc) (tile_y pin_new_loc)
                  (ymin curr_bb_coord) (ymax curr_bb_coord)
                  (ymin curr_bb_edge) (ymax curr_bb_edge) with
          | None => update_bb_from_scratch c s net_id
          | Some (nymin, nymax, eymin, eymax) =>
              let s := set_ts_bb_coord_new s net_id (mk_bb nxmin nxmax nymin nymax) in
              let s := set_ts_bb_edge_new s net_id (mk_bb exmin exmax eymin eymax) in
              let s := set_ts_layer_sink_pin_count s net_id
                         (update_bb_layer_counts c curr_num_sink_pin_layer
                            (ts_layer_sink_pin_count s net_id)
                            pin_old_loc pin_new_loc src_pin) in
              if bb_flag_eqb (bb_updated_before s net_id) NOT_UPDATED_YET
              then set_bb_updated_before s net_id UPDATED_ONCE
              else s
          end
      end
  end.

(** ** Bounding boxes of the per-layer kind *)

(** Abort on a failed [VTR_ASSERT], sequencing of steps that can abort. *)
Definition vtr_assert (b : bool) : option unit := if b then Some tt else None.

Definition bind {A B : Type} (m : option A) (k : A -> option B) : option B :=
  match m with
  | Some a => k a
  | None => None
  end.

Notation "x <- m ;; k" := (bind m (fun x => k))
  (at level 61, m at next level, right associativity).

(** The body of the sink loop of [get_non_updatable_layer_bb]; the first
    component holds the local vectors [xmin], [xmax], [ymin], [ymax]. *)
Definition non_updatable_layer_sink (c : vpr_ctx) (acc : (Z -> t_bb) * (Z -> Z))
    (pin_id : ClusterPinId) : (Z -> t_bb) * (Z -> Z) :=
  let bnum := pin_block c pin_id in
  let pnum := tile_pin_index c pin_id in
  let x := pin_x c bnum pnum in
  let y := pin_y c bnum pnum in
  let layer_num := pl_layer (block_locs c bnum) in
  let cnt := updz (snd acc) layer_num (snd acc layer_num + 1) in
  let bb := fst acc layer_num in
  let bb := if x <? xmin bb then mk_bb x (xmax bb) (ymin bb) (ymax bb)
            else if x >? xmax bb then mk_bb (xmin bb) x (ymin bb) (ymax bb)
            else bb in
  let bb := if y <? ymin bb then mk_bb (xmin bb) (xmax bb) y (ymax bb)
            else if y >? ymax bb then mk_bb (xmin bb) (xmax bb) (ymin bb) y
            else bb in
  (updz (fst acc) layer_num bb, cnt).

(** [get_non_updatable_layer_bb(net_id, bb_coord_new, num_sink_layer)]. *)
Definition get_non_updatable_layer_bb (c : vpr_ctx) (net_id : ClusterNetId)
    (bb_coord_new : Z -> t_2D_bb) (num_sink_layer : Z -> Z)
    : (Z -> t_2D_bb) * (Z -> Z) :=
  let bnum := net_driver_block c net_id in
  let pnum := net_driver_tile_pin_index c net_id in
  let src_x := pin_x c bnum pnum in
  let src_y := pin_y c bnum pnum in
  let acc := fold_left (non_updatable_layer_sink c) (net_sinks c net_id)
               (fun _ => mk_bb src_x src_x src_y src_y,
                zero_layers (num_layers c) num_sink_layer) in
  (copy_layers (num_layers c)
     (fun l => mk_2D_bb (clip (xmin (fst acc l)) (grid_width c))
                        (clip (xmax (fst acc l)) (grid_width c))
                        (clip (ymin (fst acc l)) (grid_height c))
                        (clip (ymax (fst acc l)) (grid_height c)) l)
     bb_coord_new,
   snd acc).

(** Locals of [get_layer_bb_from_scratch]: per layer the coordinates and the
    edge counts, and the local [num_sink_pin_layer]. *)
Definition layer_scratch_acc : Type := (Z -> t_bb) * (Z -> t_bb) * (Z -> Z).

Definition layer_from_scratch_sink (c : vpr_ctx) (acc : option layer_scratch_acc)
    (pin_id : ClusterPinId) : option layer_scratch_acc :=
  acc <- acc ;;
  let '(co, ed, cnt) := acc in
  let bnum := pin_block c pin_id in
  let pnum := tile_pin_index c pin_id in
  let layer := pl_layer (block_locs c bnum) in
  _ <- vtr_assert ((layer >=? 0) && (layer <? num_layers c)) ;;
  let cnt := updz cnt layer (cnt layer + 1) in
  let x := clip (pin_x c bnum pnum) (grid_width c) in
  let y := clip (pin_y c bnum pnum) (grid_height c) in
  let '(x_lo, x_hi, x_lo_edge, x_hi_edge) :=
    scratch_axis x (xmin (co layer)) (xmax (co layer)) (xmin (ed layer)) (xmax (ed layer)) in
  let '(y_lo, y_hi, y_lo_edge, y_hi_edge) :=
    scratch_axis y (ymin (co layer)) (ymax (co layer)) (ymin (ed layer)) (ymax (ed layer)) in
  Some (updz co layer (mk_bb x_lo x_hi y_lo y_hi),
        updz ed layer (mk_bb x_lo_edge x_hi_edge y_lo_edge y_hi_edge),
        cnt).

(** [get_layer_bb_from_scratch(net_id, num_on_edges, coords,
    layer_pin_sink_count)]: the new edges, coordinates and sink counts. *)
Definition get_layer_bb_from_scratch (c : vpr_ctx) (net_id : ClusterNetId)
    (num_on_edges coords : Z -> t_2D_bb) (layer_pin_sink_count : Z -> Z)
    : option ((Z -> t_2D_bb) * (Z -> t_2D_bb) * (Z -> Z)) :=
  let bnum := net_driver_block c net_id in
  let pnum_src := net_driver_tile_pin_index c net_id in
  let x_src := clip (pin_x c bnum pnum_src) (grid_width c) in
  let y_src := clip (pin_y c bnum pnum_src) (grid_height c) in
  acc <- fold_left (layer_from_scratch_sink c) (net_sinks c net_id)
           (Some (fun _ => mk_bb x_src x_src y_src y_src,
                  fun _ => mk_bb 1 1 1 1,
                  fun _ => 0)) ;;
  let '(co, ed, cnt) := acc in
  Some (copy_layers (num_layers c)
          (fun l => mk_2D_bb (xmin (ed l)) (xmax (ed l)) (ymin (ed l)) (ymax (ed l)) l)
          num_on_edges,
        copy_layers (num_layers c)
          (fun l => mk_2D_bb (xmin (co l)) (xmax (co l)) (ymin (co l)) (ymax (co l)) l)
          coords,
        copy_layers (num_layers c) cnt layer_pin_sink_count).

(** The four [int] fields that [update_bb_edge] is handed by reference. *)
Inductive bb_field := F_xmin | F_xmax | F_ymin | F_ymax.

Definition get_field (b : t_2D_bb) (f : bb_field) : Z :=
  match f with
  | F_xmin => l_xmin b
  | F_xmax => l_xmax b
  | F_ymin => l_ymin b
  | F_ymax => l_ymax b
  end.

Definition set_field (b : t_2D_bb) (f : bb_field) (v : Z) : t_2D_bb :=
  match f with
  | F_xmin => mk_2D_bb v (l_xmax b) (l_ymin b) (l_ymax b) (layer_num b)
  | F_xmax => mk_2D_bb (l_xmin b) v (l_ymin b) (l_ymax b) (layer_num b)
  | F_ymin => mk_2D_bb (l_xmin b) (l_xmax b) v (l_ymax b) (layer_num b)
  | F_ymax => mk_2D_bb (l_xmin b) (l_xmax b) (l_ymin b) v (layer_num b)
  end.

(** What the per-layer routines hold of one net through their reference
    parameters: [bb_updated_before[net_id]], [bb_edge_new], [bb_coord_new]
    and the new sink counts. *)
Record layer_scratch := mk_layer_scratch {
  ls_flag : bb_flag;
  ls_edge : Z -> t_2D_bb;
  ls_coord : Z -> t_2D_bb;
  ls_count : Z -> Z
}.

(** [v[layer].f = x]. *)
Definition set_vec_field (v : Z -> t_2D_bb) (layer : Z) (f : bb_field) (x : Z)
    : Z -> t_2D_bb :=
  updz v layer (set_field (v layer) f x).

(** [update_bb_pin_sink_count(net_id, pin_old_loc, pin_new_loc,
    curr_layer_pin_sink_count, bb_pin_sink_count_new, is_output_pin)]. *)
Definition update_bb_pin_sink_count (c : vpr_ctx)
    (pin_old_loc pin_new_loc : t_physical_tile_loc)
    (curr_layer_pin_sink_count bb_pin_sink_count_new : Z -> Z)
    (is_output_pin : bool) : option (Z -> Z) :=
  _ <- vtr_assert ((curr_layer_pin_sink_count (tile_layer_num pin_old_loc) >? 0)
                   || is_output_pin) ;;
  let new := copy_layers (num_layers c) curr_layer_pin_sink_count bb_pin_sink_count_new in
  if negb is_output_pin then
    let new := updz new (tile_layer_num pin_old_loc) (new (tile_layer_num pin_old_loc) - 1) in
    Some (updz new (tile_layer_num pin_new_loc) (new (tile_layer_num pin_new_loc) + 1))
  else Some new.

(** [update_bb_edge(net_id, bb_edge_new, bb_coord_new, bb_layer_pin_sink_count,
    old_num_block_on_edge, old_edge_coord, new_num_block_on_edge,
    new_edge_coord)], the last two being field [f] of entry [layer] of
    [bb_edge_new] and [bb_coord_new]. *)
Definition update_bb_edge (c : vpr_ctx) (net_id : ClusterNetId) (r : layer_scratch)
    (layer : Z) (f : bb_field) (old_num_block_on_edge old_edge_coord : Z)
    : option layer_scratch :=
  if old_num_block_on_edge =? 1 then
    res <- get_layer_bb_from_scratch c net_id (ls_edge r) (ls_coord r) (ls_count r) ;;
    let '(ed, co, cnt) := res in
    Some (mk_layer_scratch GOT_FROM_SCRATCH ed co cnt)
  else
    Some (mk_layer_scratch (ls_flag r)
            (set_vec_field (ls_edge r) layer f (old_num_block_on_edge - 1))
            (set_vec_field (ls_coord r) layer f old_edge_coord)
            (ls_count r)).

(** A call of [update_bb_edge] followed by
    [if (bb_updated_before[net_id] == GOT_FROM_SCRATCH) return;] and then by
    the rest [k] of the caller. *)
Definition edge_then (res : option layer_scratch)
    (k : layer_scratch -> option layer_scratch) : option layer_scratch :=
  r <- res ;;
  if bb_flag_eqb (ls_flag r) GOT_FROM_SCRATCH then Some r else k r.

(** The second half of one axis of [update_bb_same_layer]: the pin arrives
    beyond, on or inside the edge [f] of the current box. *)
Definition arrive_at_edge (r : layer_scratch) (layer : Z) (f : bb_field)
    (beyond : bool) (v_new : Z) (curr_bb_edge curr_bb_coord : Z -> t_2D_bb)
    : layer_scratch :=
  if beyond then
    mk_layer_scratch (ls_flag r)
      (set_vec_field (ls_edge r) layer f 1)
      (set_vec_field (ls_coord r) layer f v_new)
      (ls_count r)
  else if v_new =? get_field (curr_bb_coord layer) f then
    mk_layer_scratch (ls_flag r)
      (set_vec_field (ls_edge r) layer f (get_field (curr_bb_edge layer) f + 1))
      (set_vec_field (ls_coord r) layer f (get_field (curr_bb_coord layer) f))
      (ls_count r)
  else r.

(** One axis of [update_bb_same_layer]: [lo] and [hi] are [F_xmin], [F_xmax]
    for the x block and [F_ymin], [F_ymax] for the y block; [k] is what
    follows the block. *)
Definition same_layer_axis (c : vpr_ctx) (net_id : ClusterNetId) (r : layer_scratch)
    (layer : Z) (lo hi : bb_field) (v_old v_new : Z)
    (curr_bb_edge curr_bb_coord : Z -> t_2D_bb)
    (k : layer_scratch -> option layer_scratch) : option layer_scratch :=
  if v_new <? v_old then
    let rest (r : layer_scratch) :=
      k (arrive_at_edge r layer lo (v_new <? get_field (curr_bb_coord layer) lo)
           v_new curr_bb_edge curr_bb_coord) in
    if v_old =? get_field (curr_bb_coord layer) hi then
      edge_then (update_bb_edge c net_id r layer hi
                   (get_field (curr_bb_edge layer) hi) (get_field (curr_bb_coord layer) hi))
                rest
    else rest r
  else if v_new >? v_old then
    let rest (r : layer_scratch) :=
      k (arrive_at_edge r layer hi (v_new >? get_field (curr_bb_coord layer) hi)
           v_new curr_bb_edge curr_bb_coord) in
    if v_old =? get_field (curr_bb_coord layer) lo then
      edge_then (update_bb_edge c net_id r layer lo
                   (get_field (curr_bb_edge layer) lo) (get_field (curr_bb_coord layer) lo))
                rest
    else rest r
  else k r.

(** [update_bb_same_layer(net_id, pin_old_loc, pin_new_loc, curr_bb_edge,
    curr_bb_coord, bb_pin_sink_count_new, bb_edge_new, bb_coord_new)]. *)
Definition update_bb_same_layer (c : vpr_ctx) (net_id : ClusterNetId) (r : layer_scratch)
    (pin_old_loc pin_new_loc : t_physical_tile_loc)
    (curr_bb_edge curr_bb_coord : Z -> t_2D_bb) : option layer_scratch :=
  let layer_num := tile_layer_num pin_old_loc in
  same_layer_axis c net_id r layer_num F_xmin F_xmax
    (tile_x pin_old_loc) (tile_x pin_new_loc) curr_bb_edge curr_bb_coord
    (fun r =>
       same_layer_axis c net_id r layer_num F_ymin F_ymax
         (tile_y pin_old_loc) (tile_y pin_new_loc) curr_bb_edge curr_bb_coord
         (fun r => Some r)).

(** One of the four blocks of [add_block_to_bb]: the new pin against the
    edge [f] of the old box; [beyond] is the first comparison. *)
Definition add_to_edge (f : bb_field) (beyond : bool) (v_new : Z)
    (bb_edge_old bb_coord_old : t_2D_bb) (acc : t_2D_bb * t_2D_bb)
    : t_2D_bb * t_2D_bb :=
  if beyond then (set_field (fst acc) f 1, set_field (snd acc) f v_new)
  else if v_new =? get_field bb_coord_old f
       then (set_field (fst acc) f (get_field bb_edge_old f + 1), snd acc)
       else acc.

(** [add_block_to_bb(new_pin_loc, bb_edge_old, bb_coord_old, bb_edge_new,
    bb_coord_new)]: the new edges and coordinates. *)
Definition add_block_to_bb (new_pin_loc : t_physical_tile_loc)
    (bb_edge_old bb_coord_old bb_edge_new bb_coord_new : t_2D_bb)
    : t_2D_bb * t_2D_bb :=
  let x_new := tile_x new_pin_loc in
  let y_new := tile_y new_pin_loc in
  let acc := (bb_edge_new, bb_coord_new) in
  let acc := add_to_edge F_xmax (x_new >? l_xmax bb_coord_old) x_new
               bb_edge_old bb_coord_old acc in
  let acc := add_to_edge F_xmin (x_new <? l_xmin bb_coord_old) x_new
               bb_edge_old bb_coord_old acc in
  let acc := add_to_edge F_ymax (y_new >? l_ymax bb_coord_old) y_new
               bb_edge_old bb_coord_old acc in
  add_to_edge F_ymin (y_new <? l_ymin bb_coord_old) y_new bb_edge_old bb_coord_old acc.

(** One axis of the old layer in [update_bb_layer_changed]. *)
Definition layer_changed_axis (c : vpr_ctx) (net_id : ClusterNetId) (r : layer_scratch)
    (old_layer_num : Z) (lo hi : bb_field) (v_old : Z)
    (curr_bb_edge curr_bb_coord : Z -> t_2D_bb)
    (k : layer_scratch -> option layer_scratch) : option layer_scratch :=
  if v_old =? get_field (curr_bb_coord old_layer_num) hi then
    edge_then (update_bb_edge c net_id r old_layer_num hi
                 (get_field (curr_bb_edge old_layer_num) hi)
                 (get_field (curr_bb_coord old_layer_num) hi))
              k
  else if v_old =? get_field (curr_bb_coord old_layer_num) lo then
    edge_then (update_bb_edge c net_id r old_layer_num lo
                 (get_field (curr_bb_edge old_layer_num) lo)
                 (get_field (curr_bb_coord old_layer_num) lo))
              k
  else k r.

(** [update_bb_layer_changed(net_id, pin_old_loc, pin_new_loc, curr_bb_edge,
    curr_bb_coord, bb_pin_sink_count_new, bb_edge_new, bb_coord_new)]. *)
Definition update_bb_layer_changed (c : vpr_ctx) (net_id : ClusterNetId)
    (r : layer_scratch) (pin_old_loc pin_new_loc : t_physical_tile_loc)
    (curr_bb_edge curr_bb_coord : Z -> t_2D_bb) : option layer_scratch :=
  let old_layer_num := tile_layer_num pin_old_loc in
  let new_layer_num := tile_layer_num pin_new_loc in
  layer_changed_axis c net_id r old_layer_num F_xmin F_xmax (tile_x pin_old_loc)
    curr_bb_edge curr_bb_coord
    (fun r =>
       layer_changed_axis c net_id r old_layer_num F_ymin F_ymax (tile_y pin_old_loc)
         curr_bb_edge curr_bb_coord
         (fun r =>
            let added :=
              add_block_to_bb pin_new_loc
                (curr_bb_edge new_layer_num) (curr_bb_coord new_layer_num)
                (ls_edge r new_layer_num) (ls_coord r new_layer_num) in
            Some (mk_layer_scratch (ls_flag r)
                    (updz (ls_edge r) new_layer_num (fst added))
                    (updz (ls_coord r) new_layer_num (snd added))
                    (ls_count r)))).

(** The scratch entries of [net] written back. *)
Definition store_layer_scratch (s : cost_state) (net : ClusterNetId) (r : layer_scratch)
    : cost_state :=
  let s := set_layer_ts_bb_edge_new s net (ls_edge r) in
  let s := set_layer_ts_bb_coord_new s net (ls_coord r) in
  let s := set_ts_layer_sink_pin_count s net (ls_count r) in
  set_bb_updated_before s net (ls_flag r).

(** [update_layer_bb(net_id, bb_edge_new, bb_coord_new, bb_pin_sink_count_new,
    pin_old_loc, pin_new_loc, is_output_pin)], called with the scratch
    entries of [net_id].  As in [update_bb], when the net was updated before
    the current vectors are the scratch vectors themselves; the callees read
    each field before they write it, and the layer that [add_block_to_bb]
    reads is not the one written before it, so the values read are those at
    entry. *)
Definition update_layer_bb (c : vpr_ctx) (s : cost_state) (net_id : ClusterNetId)
    (pin_old_loc pin_new_loc : t_physical_tile_loc) (is_output_pin : bool)
    : option cost_state :=
  let pin_new_loc := clip_loc c pin_new_loc in
  let pin_old_loc := clip_loc c pin_old_loc in
  match bb_updated_before s net_id with
  | GOT_FROM_SCRATCH => Some s
  | flag =>
      let first := bb_flag_eqb flag NOT_UPDATED_YET in
      let curr_layer_pin_sink_count :=
        if first then num_sink_pin_layer s net_id else ts_layer_sink_pin_count s net_id in
      let curr_bb_edge :=
        if first then layer_bb_num_on_edges s net_id else layer_ts_bb_edge_new s net_id in
      let curr_bb_coord :=
        if first then layer_bb_coords s net_id else layer_ts_bb_coord_new s net_id in
      let flag := if first then UPDATED_ONCE else flag in
      cnt <- update_bb_pin_sink_count c pin_old_loc pin_new_loc
               curr_layer_pin_sink_count (ts_layer_sink_pin_count s net_id) is_output_pin ;;
      let layer_changed :=
        negb (tile_layer_num pin_old_loc =? tile_layer_num pin_new_loc) in
      let r := mk_layer_scratch flag curr_bb_edge curr_bb_coord cnt in
      r <- (if layer_changed
            then update_bb_layer_changed c net_id r pin_old_loc pin_new_loc
                   curr_bb_edge curr_bb_coord
            else update_bb_same_layer c net_id r pin_old_loc pin_new_loc
                   curr_bb_edge curr_bb_coord) ;;
      let r := if bb_flag_eqb (ls_flag r) NOT_UPDATED_YET
               then mk_layer_scratch UPDATED_ONCE (ls_edge r) (ls_coord r) (ls_count r)
               else r in
      Some (store_layer_scratch s net_id r)
  end.

(** ** One swap: affected nets, their boxes and their costs *)

(** [update_net_bb(net, blk, blk_pin, pl_moved_block)]. *)
Definition update_net_bb (c : vpr_ctx) (s : cost_state) (net : ClusterNetId)
    (blk : ClusterBlockId) (blk_pin : ClusterPinId) (pl_moved_block : t_pl_moved_block)
    : cost_state :=
  if Z.of_nat (length (net_sinks c net)) <? SMALL_NET c then
    if bb_flag_eqb (bb_updated_before s net) NOT_UPDATED_YET then
      let r := get_non_updatable_bb c net (ts_layer_sink_pin_count s net) in
      let s := set_ts_bb_coord_new s net (fst r) in
      set_ts_layer_sink_pin_count s net (snd r)
    else s
  else
    let iblk_pin := tile_pin_index c blk_pin in
    let src_pin := pin_is_driver c blk_pin in
    let pin_width_offset := pin_width_offset c blk iblk_pin in
    let pin_height_offset := pin_height_offset c blk iblk_pin in
    update_bb c s net
      (mk_tile_loc (pl_x (old_loc pl_moved_block) + pin_width_offset)
                   (pl_y (old_loc pl_moved_block) + pin_height_offset)
                   (pl_layer (old_loc pl_moved_block)))
      (mk_tile_loc (pl_x (new_loc pl_moved_block) + pin_width_offset)
                   (pl_y (new_loc pl_moved_block) + pin_height_offset)
                   (pl_layer (new_loc pl_moved_block)))
      src_pin.

(** [update_net_layer_bb(net, blk, blk_pin, pl_moved_block)]. *)
Definition update_net_layer_bb (c : vpr_ctx) (s : cost_state) (net : ClusterNetId)
    (blk : ClusterBlockId) (blk_pin : ClusterPinId) (pl_moved_block : t_pl_moved_block)
    : option cost_state :=
  if Z.of_nat (length (net_sinks c net)) <? SMALL_NET c then
    if bb_flag_eqb (bb_updated_before s net) NOT_UPDATED_YET then
      let r := get_non_updatable_layer_bb c net (layer_ts_bb_coord_new s net)
                 (ts_layer_sink_pin_count s net) in
      let s := set_layer_ts_bb_coord_new s net (fst r) in
      Some (set_ts_layer_sink_pin_count s net (snd r))
    else Some s
  else
    let iblk_pin := tile_pin_index c blk_pin in
    let src_pin := pin_is_driver c blk_pin in
    let pin_width_offset := pin_width_offset c blk iblk_pin in
    let pin_height_offset := pin_height_offset c blk iblk_pin in
    update_layer_bb c s net
      (mk_tile_loc (pl_x (old_loc pl_moved_block) + pin_width_offset)
                   (pl_y (old_loc pl_moved_block) + pin_height_offset)
                   (pl_layer (old_loc pl_moved_block)))
      (mk_tile_loc (pl_x (new_loc pl_moved_block) + pin_width_offset)
                   (pl_y (new_loc pl_moved_block) + pin_height_offset)
                   (pl_layer (new_loc pl_moved_block)))
      src_pin.

(** [record_affected_net(net, num_affected_nets)]. *)
Definition record_affected_net (s : cost_state) (net : ClusterNetId)
    (num_affected_nets : Z) : cost_state * Z :=
  if Qltb (proposed_net_cost s net) 0 then
    let s := set_ts_nets_to_update s num_affected_nets net in
    (set_proposed_net_cost s net 1, num_affected_nets + 1)
  else (s, num_affected_nets).

(** [update_net_info_on_pin_move]: the bounding-box part.  The call of
    [update_td_delta_costs] that ends the source function writes the timing
    tables and the list of affected pins only; they are not part of
    [cost_state]. *)
Definition update_net_info_on_pin_move (c : vpr_ctx) (s : cost_state)
    (blk_id : ClusterBlockId) (pin_id : ClusterPinId)
    (moving_blk_inf : t_pl_moved_block) (num_affected_nets : Z)
    : option (cost_state * Z) :=
  let net_id := pin_net c pin_id in
  if net_is_ignored c net_id then Some (s, num_affected_nets)
  else
    let '(s, num_affected_nets) := record_affected_net s net_id num_affected_nets in
    if cube_bb c then
      Some (update_net_bb c s net_id blk_id pin_id moving_blk_inf, num_affected_nets)
    else
      s <- update_net_layer_bb c s net_id blk_id pin_id moving_blk_inf ;;
      Some (s, num_affected_nets).

(** The loop over the pins of one moved block. *)
Definition update_block_pins (c : vpr_ctx) (moving_block_inf : t_pl_moved_block)
    (acc : option (cost_state * Z)) : option (cost_state * Z) :=
  fold_left
    (fun acc blk_pin =>
       a <- acc ;;
       update_net_info_on_pin_move c (fst a) (block_num moving_block_inf) blk_pin
         moving_block_inf (snd a))
    (block_pins c (block_num moving_block_inf)) acc.

(** The loop that prices the affected nets. *)
Definition price_affected_net (c : vpr_ctx) (acc : option (cost_state * Q))
    (inet_affected : Z) : option (cost_state * Q) :=
  a <- acc ;;
  let s := fst a in
  let net_id := ts_nets_to_update s inet_affected in
  cost <- (if cube_bb c then get_net_cost c net_id (ts_bb_coord_new s net_id)
           else get_net_layer_cost c (layer_ts_bb_coord_new s net_id)
                  (ts_layer_sink_pin_count s net_id)) ;;
  let s := set_proposed_net_cost s net_id cost in
  Some (s, (snd a + (proposed_net_cost s net_id - net_cost s net_id))%Q).

(** [find_affected_nets_and_update_costs] on cluster blocks, with
    [moved_blocks] the first [num_moved_blocks] entries of
    [blocks_affected.moved_blocks]: the new state, the number of affected
    nets and [bb_delta_c]. *)
Definition find_affected_nets_and_update_costs (c : vpr_ctx) (s : cost_state)
    (moved_blocks : list t_pl_moved_block) : option (cost_state * Z * Q) :=
  a <- fold_left (fun acc blk => update_block_pins c blk acc) moved_blocks (Some (s, 0)) ;;
  let num_affected_nets := snd a in
  b <- fold_left (price_affected_net c) (zrange num_affected_nets) (Some (fst a, 0%Q)) ;;
  Some (fst b, num_affected_nets, snd b).

(** One iteration of [update_move_nets]. *)
Definition update_move_net (c : vpr_ctx) (cube_bb : bool) (s : cost_state)
    (inet_affected : Z) : cost_state :=
  let net_id := ts_nets_to_update s inet_affected in
  let s := if cube_bb then set_bb_coords s net_id (ts_bb_coord_new s net_id)
           else set_layer_bb_coords s net_id (layer_ts_bb_coord_new s net_id) in
  let s := set_num_sink_pin_layer s net_id
             (copy_layers (num_layers c) (ts_layer_sink_pin_count s net_id)
                (num_sink_pin_layer s net_id)) in
  let s := if Z.of_nat (length (net_sinks c net_id)) >=? SMALL_NET c then
             if cube_bb then set_bb_num_on_edges s net_id (ts_bb_edge_new s net_id)
             else set_layer_bb_num_on_edges s net_id (layer_ts_bb_edge_new s net_id)
           else s in
  let s := set_net_cost s net_id (proposed_net_cost s net_id) in
  let s := set_proposed_net_cost s net_id (-1) in
  set_bb_updated_before s net_id NOT_UPDATED_YET.

(** [update_move_nets(num_nets_affected, cube_bb)]: the swap is kept. *)
Definition update_move_nets (c : vpr_ctx) (s : cost_state) (num_nets_affected : Z)
    (cube_bb : bool) : cost_state :=
  fold_left (update_move_net c cube_bb) (zrange num_nets_affected) s.

(** One iteration of [reset_move_nets]. *)
Definition reset_move_net (s : cost_state) (inet_affected : Z) : cost_state :=
  let net_id := ts_nets_to_update s inet_affected in
  let s := set_proposed_net_cost s net_id (-1) in
  set_bb_updated_before s net_id NOT_UPDATED_YET.

(** [reset_move_nets(num_nets_affected)]: the swap is dropped. *)
Definition reset_move_nets (s : cost_state) (num_nets_affected : Z) : cost_state :=
  fold_left reset_move_net (zrange num_nets_affected) s.

(** ** Costs from scratch *)

Inductive e_cost_methods := NORMAL | CHECK.

(** One iteration of [comp_bb_cost]. *)
Definition comp_bb_cost_net (c : vpr_ctx) (method : e_cost_methods)
    (acc : option (cost_state * Q)) (net_id : ClusterNetId) : option (cost_state * Q) :=
  a <- acc ;;
  let s := fst a in
  if negb (net_is_ignored c net_id) then
    let s :=
      if (Z.of_nat (length (net_sinks c net_id)) >=? SMALL_NET c)
         && match method with NORMAL => true | CHECK => false end
      then
        let '(co, ed, cnt) := get_bb_from_scratch c net_id (num_sink_pin_layer s net_id) in
        let s := set_bb_coords s net_id co in
        let s := set_bb_num_on_edges s net_id ed in
        set_num_sink_pin_layer s net_id cnt
      else
        let r := get_non_updatable_bb c net_id (num_sink_pin_layer s net_id) in
        let s := set_bb_coords s net_id (fst r) in
        set_num_sink_pin_layer s net_id (snd r) in
    cost <- get_net_cost c net_id (bb_coords s net_id) ;;
    let s := set_net_cost s net_id cost in
    Some (s, (snd a + net_cost s net_id)%Q)
  else Some a.

(** [comp_bb_cost(method)]; the wire-length estimate that [CHECK] logs is not
    part of the result. *)
Definition comp_bb_cost (c : vpr_ctx) (s : cost_state) (method : e_cost_methods)
    : option (cost_state * Q) :=
  fold_left (comp_bb_cost_net c method) (nets c) (Some (s, 0%Q)).

(** One iteration of [comp_layer_bb_cost]. *)
Definition comp_layer_bb_cost_net (c : vpr_ctx) (method : e_cost_methods)
    (acc : option (cost_state * Q)) (net_id : ClusterNetId) : option (cost_state * Q) :=
  a <- acc ;;
  let s := fst a in
  if negb (net_is_ignored c net_id) then
    s <- (if (Z.of_nat (length (net_sinks c net_id)) >=? SMALL_NET c)
             && match method with NORMAL => true | CHECK => false end
          then
            r <- get_layer_bb_from_scratch c net_id (layer_bb_num_on_edges s net_id)
                   (layer_bb_coords s net_id) (num_sink_pin_layer s net_id) ;;
            let '(ed, co, cnt) := r in
            let s := set_layer_bb_num_on_edges s net_id ed in
            let s := set_layer_bb_coords s net_id co in
            Some (set_num_sink_pin_layer s net_id cnt)
          else
            let r := get_non_updatable_layer_bb c net_id (layer_bb_coords s net_id)
                       (num_sink_pin_layer s net_id) in
            let s := set_layer_bb_coords s net_id (fst r) in
            Some (set_num_sink_pin_layer s net_id (snd r))) ;;
    cost <- get_net_layer_cost c (layer_bb_coords s net_id) (num_sink_pin_layer s net_id) ;;
    let s := set_net_cost s net_id cost in
    Some (s, (snd a + net_cost s net_id)%Q)
  else Some a.

(** [comp_layer_bb_cost(method)]. *)
Definition comp_layer_bb_cost (c : vpr_ctx) (s : cost_state) (method : e_cost_methods)
    : option (cost_state * Q) :=
  fold_left (comp_layer_bb_cost_net c method) (nets c) (Some (s, 0%Q)).

(** [recompute_bb_cost()]. *)
Definition recompute_bb_cost (c : vpr_ctx) (s : cost_state) : Q :=
  fold_left
    (fun cost net_id =>
       if negb (net_is_ignored c net_id) then (cost + net_cost s net_id)%Q else cost)
    (nets c) 0%Q.

(** ** The consistency check *)

Local Open Scope Q_scope.

Definition ERROR_TOL : Q := 0.01.

(** The fields of [t_placer_costs] that [recompute_costs_from_scratch]
    reads or writes. *)
Record t_placer_costs := mk_costs {
  cost : Q;
  bb_cost : Q;
  timing_cost : Q;
  bb_cost_norm : Q;
  noc_aggregate_bandwidth_cost : Q;
  noc_latency_cost : Q
}.

(** What the function learns from its arguments and from its callees:
    [placer_opts.place_algorithm] through the two tests made on it,
    [noc_opts.noc], the results of [comp_td_costs] and of
    [recompute_noc_costs], and the constant
    [MIN_EXPECTED_NOC_LATENCY_COST] of the NoC header. *)
Record recompute_inputs := mk_inputs {
  is_timing_driven : bool;
  is_bounding_box_place : bool;
  noc : bool;
  new_timing_cost : Q;
  new_noc_aggregate_bandwidth_cost : Q;
  new_noc_latency_cost : Q;
  MIN_EXPECTED_NOC_LATENCY_COST : Q
}.

(** The four [VPR_ERROR(VPR_ERROR_PLACE, ...)] of the function, with the two
    values each reports. *)
Inductive place_error :=
| bb_cost_error (new_v old_v : Q)
| timing_cost_error (new_v old_v : Q)
| noc_aggregate_bandwidth_cost_error (new_v old_v : Q)
| noc_latency_cost_error (new_v old_v : Q).

Inductive outcome (A : Type) :=
| Returned (a : A)
| Fatal (e : place_error)     (* VPR_ERROR: the exception that ends the run *)
| AssertionFailed.            (* VTR_ASSERT *)

Arguments Returned {A} a.
Arguments Fatal {A} e.
Arguments AssertionFailed {A}.

(** [fabs(new_v - old_v) > old_v * ERROR_TOL]. *)
Definition out_of_tolerance (new_v old_v : Q) : bool :=
  Qltb (old_v * ERROR_TOL) (Qabs (new_v - old_v)).

(** [recompute_costs_from_scratch(placer_opts, noc_opts, delay_model,
    criticalities, costs)]. *)
Definition recompute_costs_from_scratch (c : vpr_ctx) (s : cost_state)
    (inp : recompute_inputs) (costs : t_placer_costs) : outcome t_placer_costs :=
  let new_bb_cost := recompute_bb_cost c s in
  if out_of_tolerance new_bb_cost (bb_cost costs) then
    Fatal (bb_cost_error new_bb_cost (bb_cost costs))
  else
    let costs := mk_costs (cost costs) new_bb_cost (timing_cost costs) (bb_cost_norm costs)
                   (noc_aggregate_bandwidth_cost costs) (noc_latency_cost costs) in
    let after_timing : outcome t_placer_costs :=
      if is_timing_driven inp then
        if out_of_tolerance (new_timing_cost inp) (timing_cost costs) then
          Fatal (timing_cost_error (new_timing_cost inp) (timing_cost costs))
        else
          Returned (mk_costs (cost costs) (bb_cost costs) (new_timing_cost inp)
                      (bb_cost_norm costs) (noc_aggregate_bandwidth_cost costs)
                      (noc_latency_cost costs))
      else if is_bounding_box_place inp then
        Returned (mk_costs (new_bb_cost * bb_cost_norm costs) (bb_cost costs)
                    (timing_cost costs) (bb_cost_norm costs)
                    (noc_aggregate_bandwidth_cost costs) (noc_latency_cost costs))
      else AssertionFailed in
    match after_timing with
    | Returned costs =>
        if noc inp then
          if out_of_tolerance (new_noc_aggregate_bandwidth_cost inp)
               (noc_aggregate_bandwidth_cost costs) then
            Fatal (noc_aggregate_bandwidth_cost_error
                     (new_noc_aggregate_bandwidth_cost inp)
                     (noc_aggregate_bandwidth_cost costs))
          else
            let costs := mk_costs (cost costs) (bb_cost costs) (timing_cost costs)
                           (bb_cost_norm costs) (new_noc_aggregate_bandwidth_cost inp)
                           (noc_latency_cost costs) in
            if Qltb (MIN_EXPECTED_NOC_LATENCY_COST inp) (new_noc_latency_cost inp)
               && out_of_tolerance (new_noc_latency_cost inp) (noc_latency_cost costs)
            then
              Fatal (noc_latency_cost_error (new_noc_latency_cost inp)
                       (noc_latency_cost costs))
            else
              Returned (mk_costs (cost costs) (bb_cost costs) (timing_cost costs)
                          (bb_cost_norm costs) (noc_aggregate_bandwidth_cost costs)
                          (new_noc_latency_cost inp))
        else Returned costs
    | other => other
    end.

(** ** Vocabulary of the statements about costs *)

(** The computation yields a value, and the value is the rational [q]. *)
Definition returns (r : option Q) (q : Q) : Prop :=
  exists v, r = Some v /\ v == q.

(** The bounding-box formula for one box and one crossing count. *)
Definition bb_formula (c : vpr_ctx) (crossing : Q) (x_min x_max y_min y_max : Z) : Q :=
  inject_Z (x_max - x_min + 1) * crossing * chanx_place_cost_fac c y_max (y_min - 1)
  + inject_Z (y_max - y_min + 1) * crossing * chany_place_cost_fac c x_max (x_min - 1).

(** The crossing count of a fanout, 0 where the source reads outside its
    table. *)
Definition crossing_of (fanout : Z) : Q :=
  match wirelength_crossing_count fanout with
  | Some q => q
  | None => 0
  end.

Definition sum_Q (l : list Q) : Q := fold_right Qplus 0 l.

(** The layers of the device whose sink count is not zero. *)
Definition layers_with_sinks (c : vpr_ctx) (layer_pin_sink_count : Z -> Z) : list Z :=
  filter (fun l => negb (layer_pin_sink_count l =? 0)%Z) (zrange (num_layers c)).

(** [fabs(new_v - old_v) > old_v * ERROR_TOL] as a proposition. *)
Definition differs_beyond_tolerance (new_v old_v : Q) : Prop :=
  old_v * ERROR_TOL < Qabs (new_v - old_v).

Local Close Scope Q_scope.

(** ** Vocabulary of the statements about boxes, flags and swaps *)

(** A cube box within rows and columns 1 .. dimension - 2. *)
Definition bb_in_range (c : vpr_ctx) (bb : t_bb) : Prop :=
  1 <= xmin bb <= grid_width c - 2 /\ 1 <= xmax bb <= grid_width c - 2
  /\ 1 <= ymin bb <= grid_height c - 2 /\ 1 <= ymax bb <= grid_height c - 2.

(** The same for the box of one layer. *)
Definition layer_bb_in_range (c : vpr_ctx) (bb : t_2D_bb) : Prop :=
  1 <= l_xmin bb <= grid_width c - 2 /\ 1 <= l_xmax bb <= grid_width c - 2
  /\ 1 <= l_ymin bb <= grid_height c - 2 /\ 1 <= l_ymax bb <= grid_height c - 2.

(** The values an incremental update of [net] starts from: the committed
    ones on the first touch of the swap, the scratch ones afterwards. *)
Definition current_coord (s : cost_state) (net : ClusterNetId) : t_bb :=
  if bb_flag_eqb (bb_updated_before s net) NOT_UPDATED_YET
  then bb_coords s net else ts_bb_coord_new s net.

Definition current_layer_coord (s : cost_state) (net : ClusterNetId) : Z -> t_2D_bb :=
  if bb_flag_eqb (bb_updated_before s net) NOT_UPDATED_YET
  then layer_bb_coords s net else layer_ts_bb_coord_new s net.

Definition current_sink_count (s : cost_state) (net : ClusterNetId) : Z -> Z :=
  if bb_flag_eqb (bb_updated_before s net) NOT_UPDATED_YET
  then num_sink_pin_layer s net else ts_layer_sink_pin_count s net.

Definition current_edge (s : cost_state) (net : ClusterNetId) : t_bb :=
  if bb_flag_eqb (bb_updated_before s net) NOT_UPDATED_YET
  then bb_num_on_edges s net else ts_bb_edge_new s net.

Definition current_layer_edge (s : cost_state) (net : ClusterNetId) : Z -> t_2D_bb :=
  if bb_flag_eqb (bb_updated_before s net) NOT_UPDATED_YET
  then layer_bb_num_on_edges s net else layer_ts_bb_edge_new s net.

(** The first touch of a net in a swap marks it UPDATED_ONCE. *)
Definition touch (s : cost_state) (net : ClusterNetId) : cost_state :=
  if bb_flag_eqb (bb_updated_before s net) NOT_UPDATED_YET
  then set_bb_updated_before s net UPDATED_ONCE else s.

(** The total of a per-layer vector over the layers of the device. *)
Definition sum_layers (n : Z) (v : Z -> Z) : Z :=
  fold_right Z.add 0 (map v (zrange n)).

(** What an incremental update makes of the sink counts [curr] when a pin
    moves from layer [old_layer] to layer [new_layer]. *)
Definition moved_sink_count (curr : Z -> Z) (old_layer new_layer : Z)
    (is_driver : bool) : Z -> Z :=
  fun l =>
    if is_driver || (old_layer =? new_layer) then curr l
    else if l =? new_layer then curr l + 1
    else if l =? old_layer then curr l - 1
    else curr l.

(** The committed tables of two states agree. *)
Definition committed_same (s s' : cost_state) : Prop :=
  bb_coords s' = bb_coords s
  /\ bb_num_on_edges s' = bb_num_on_edges s
  /\ layer_bb_coords s' = layer_bb_coords s
  /\ layer_bb_num_on_edges s' = layer_bb_num_on_edges s
  /\ num_sink_pin_layer s' = num_sink_pin_layer s
  /\ net_cost s' = net_cost s.

(** The scratch boxes, scratch sink counts and the list of affected nets of
    two states agree. *)
Definition scratch_same (s s' : cost_state) : Prop :=
  ts_bb_coord_new s' = ts_bb_coord_new s
  /\ ts_bb_edge_new s' = ts_bb_edge_new s
  /\ layer_ts_bb_edge_new s' = layer_ts_bb_edge_new s
  /\ layer_ts_bb_coord_new s' = layer_ts_bb_coord_new s
  /\ ts_layer_sink_pin_count s' = ts_layer_sink_pin_count s
  /\ ts_nets_to_update s' = ts_nets_to_update s.

(** [net] is among the first [n] entries of the list of affected nets. *)
Definition recorded (s : cost_state) (n : Z) (net : ClusterNetId) : Prop :=
  exists i, 0 <= i < n /\ ts_nets_to_update s i = net.

(** Between swaps: every flag is NOT_UPDATED_YET and every proposed cost is
    negative. *)
Definition between_swaps (s : cost_state) : Prop :=
  forall net,
    bb_updated_before s net = NOT_UPDATED_YET /\ (proposed_net_cost s net < 0)%Q.

(** Outside the flag and the scratch entries of [net] the two states
    agree. *)
Definition trial_frame (net : ClusterNetId) (s s' : cost_state) : Prop :=
  committed_same s s'
  /\ proposed_net_cost s' = proposed_net_cost s
  /\ ts_nets_to_update s' = ts_nets_to_update s
  /\ forall net', net' <> net ->
       bb_updated_before s' net' = bb_updated_before s net'
       /\ ts_bb_coord_new s' net' = ts_bb_coord_new s net'
       /\ ts_bb_edge_new s' net' = ts_bb_edge_new s net'
       /\ layer_ts_bb_edge_new s' net' = layer_ts_bb_edge_new s net'
       /\ layer_ts_bb_coord_new s' net' = layer_ts_bb_coord_new s net'
       /\ ts_layer_sink_pin_count s' net' = ts_layer_sink_pin_count s net'.

(** In a swap that started in [s0] and has found [n] affected nets so far:
    the committed tables are those of [s0], and a net that is not among the
    affected ones has its flag and its proposed cost as between swaps. *)
Definition swap_invariant (s0 s : cost_state) (n : Z) : Prop :=
  0 <= n
  /\ committed_same s0 s
  /\ forall net,
       recorded s n net
       \/ (bb_updated_before s net = NOT_UPDATED_YET
           /\ (proposed_net_cost s net < 0)%Q).


(** A value fit for field [f] of a box: a column for the x fields, a row for
    the y fields. *)
Definition field_in_range (c : vpr_ctx) (f : bb_field) (v : Z) : Prop :=
  match f with
  | F_xmin | F_xmax => 1 <= v <= grid_width c - 2
  | F_ymin | F_ymax => 1 <= v <= grid_height c - 2
  end.

(** The boxes of all layers of the device lie inside it. *)
Definition layers_in_range (c : vpr_ctx) (co : Z -> t_2D_bb) : Prop :=
  forall l, 0 <= l < num_layers c -> layer_bb_in_range c (co l).

(** The committed box of [net], of the kind the run uses, lies inside the
    device; the same for its scratch box. *)
Definition committed_box_in_range (c : vpr_ctx) (s : cost_state) (net : ClusterNetId)
    : Prop :=
  if cube_bb c then bb_in_range c (bb_coords s net)
  else layers_in_range c (layer_bb_coords s net).

Definition scratch_box_in_range (c : vpr_ctx) (s : cost_state) (net : ClusterNetId)
    : Prop :=
  if cube_bb c then bb_in_range c (ts_bb_coord_new s net)
  else layers_in_range c (layer_ts_bb_coord_new s net).

(** What a swap in progress keeps of the boxes of [net]: the committed box
    lies inside the device, and so does the scratch box once the net is
    marked or listed as affected. *)
Definition box_invariant (c : vpr_ctx) (net : ClusterNetId) (s : cost_state) (n : Z)
    : Prop :=
  committed_box_in_range c s net
  /\ (bb_updated_before s net <> NOT_UPDATED_YET -> scratch_box_in_range c s net)
  /\ (recorded s n net -> scratch_box_in_range c s net).
(** The scratch record is marked as touched. *)
Definition flag_marked (r : layer_scratch) : Prop := ls_flag r <> NOT_UPDATED_YET.

(** The sink counts of the scratch record are [cnt0], unless the box was
    recomputed, and then they total the sinks of the net. *)
Definition counts_kept (c : vpr_ctx) (net : ClusterNetId) (cnt0 : Z -> Z)
    (r : layer_scratch) : Prop :=
  (ls_flag r = GOT_FROM_SCRATCH ->
   sum_layers (num_layers c) (ls_count r) = Z.of_nat (length (net_sinks c net)))
  /\ (ls_flag r <> GOT_FROM_SCRATCH -> ls_count r = cnt0).




(** ** A small design to run the engine on

    Six blocks on a 6 x 6 grid.  Net 0 is driven by pin 0 of block 0 and has
    the five sinks 1 .. 5 on blocks 1 .. 5; net 1 is driven by pin 6 of block
    1 and has the one sink 7 on block 0.  All pin offsets are 0 and every
    channel factor is 1. *)
Definition demo_locs (b : ClusterBlockId) : t_pl_loc :=
  match b with
  | 0%nat => mk_pl_loc 2 2 0 0
  | 1%nat => mk_pl_loc 1 1 0 0
  | 2%nat => mk_pl_loc 1 4 0 0
  | 3%nat => mk_pl_loc 4 1 0 0
  | 4%nat => mk_pl_loc 4 4 0 0
  | _ => mk_pl_loc 1 1 0 0
  end.

Definition demo_ctx (locs : ClusterBlockId -> t_pl_loc) (layers : Z) (cube : bool)
    : vpr_ctx :=
  mk_ctx [0%nat; 1%nat]
    (fun _ => false)
    (fun net => match net with 0%nat => 0%nat | _ => 1%nat end)
    (fun net => match net with 0%nat => [1; 2; 3; 4; 5]%nat | 1%nat => [7%nat] | _ => [] end)
    (fun b => match b with 0%nat => [0; 7]%nat | 1%nat => [1; 6]%nat | _ => [b] end)
    (fun p => match p with 6%nat | 7%nat => 1%nat | _ => 0%nat end)
    (fun p => match p with 6%nat => 1%nat | 7%nat => 0%nat | _ => p end)
    (fun p => match p with 0%nat | 6%nat => true | _ => false end)
    (fun p => Z.of_nat p)
    (fun net => match net with 0%nat => 0 | _ => 6 end)
    (fun _ _ => 0) (fun _ _ => 0)
    locs cube 6 6 layers 4 (-1)
    (fun _ _ => 1%Q) (fun _ _ => 1%Q).

(** The state after [init_net_cost_structs] and
    [init_try_swap_net_cost_structs]: costs -1, flags NOT_UPDATED_YET,
    scratch sink counts [OPEN]. *)
Definition demo_init : cost_state :=
  mk_state (fun _ => mk_bb 0 0 0 0) (fun _ => mk_bb 0 0 0 0)
    (fun _ _ => mk_2D_bb 0 0 0 0 0) (fun _ _ => mk_2D_bb 0 0 0 0 0)
    (fun _ _ => 0) (fun _ => (-1)%Q)
    (fun _ => (-1)%Q) (fun _ => NOT_UPDATED_YET)
    (fun _ => mk_bb 0 0 0 0) (fun _ => mk_bb 0 0 0 0)
    (fun _ _ => mk_2D_bb 0 0 0 0 0) (fun _ _ => mk_2D_bb 0 0 0 0 0)
    (fun _ _ => -1) (fun _ => 0%nat).

(** The state after the first [comp_bb_cost(NORMAL)], for the cube kind and
    the per-layer kind. *)
Definition demo_placed (c : vpr_ctx) : cost_state :=
  match (if cube_bb c then comp_bb_cost c demo_init NORMAL
         else comp_layer_bb_cost c demo_init NORMAL) with
  | Some r => fst r
  | None => demo_init
  end.

(** Block 5 moves from (1, 1) to (3, 3), and with it sink 5 of net 0. *)
Definition demo_move : t_pl_moved_block :=
  mk_moved_block 5%nat (mk_pl_loc 1 1 0 0) (mk_pl_loc 3 3 0 0).

Definition demo_locs_moved (b : ClusterBlockId) : t_pl_loc :=
  match b with
  | 5%nat => mk_pl_loc 3 3 0 0
  | _ => demo_locs b
  end.

(** The design before and after [demo_move] on a device of [layers]
    layers. *)
Definition demo_before (layers : Z) (cube : bool) : vpr_ctx :=
  demo_ctx demo_locs layers cube.

Definition demo_after (layers : Z) (cube : bool) : vpr_ctx :=
  demo_ctx demo_locs_moved layers cube.

(** A run that ends without a failed assertion. *)
Definition completes {A : Type} (r : option A) : bool :=
  match r with
  | Some _ => true
  | None => false
  end.

(** A bounding-box driven run without timing or NoC, and tracked costs with
    a bounding-box cost of [tracked]. *)
Definition demo_inputs : recompute_inputs :=
  mk_inputs false true false 0%Q 0%Q 0%Q 0%Q.

Definition demo_costs (tracked : Q) : t_placer_costs :=
  mk_costs tracked tracked 0%Q 1%Q 0%Q 0%Q.

(** ** Vocabulary of the exactness and accounting properties *)

(** The from-scratch routines assert that the driver of the net has a
    tile pin index; the embedding of them leaves the assertion out and is
    theirs under this condition. *)
Definition driver_pin_known (c : vpr_ctx) (net : ClusterNetId) : Prop :=
  0 <= net_driver_tile_pin_index c net.

(** The clipped coordinates of the pins of a net, the driver first. *)
Definition net_pin_xs (c : vpr_ctx) (net : ClusterNetId) : list Z :=
  clip (pin_x c (net_driver_block c net) (net_driver_tile_pin_index c net)) (grid_width c)
  :: map (fun pin => clip (pin_x c (pin_block c pin) (tile_pin_index c pin)) (grid_width c))
       (net_sinks c net).

Definition net_pin_ys (c : vpr_ctx) (net : ClusterNetId) : list Z :=
  clip (pin_y c (net_driver_block c net) (net_driver_tile_pin_index c net)) (grid_height c)
  :: map (fun pin => clip (pin_y c (pin_block c pin) (tile_pin_index c pin)) (grid_height c))
       (net_sinks c net).

(** How many entries of [l] are [v]. *)
Definition count_at (v : Z) (l : list Z) : Z := Z.of_nat (count_occ Z.eq_dec l v).

(** [lo .. hi] is the tight interval around the coordinates [l], with
    [lo_edge] of them on [lo] and [hi_edge] of them on [hi]. *)
Definition tight (l : list Z) (lo hi lo_edge hi_edge : Z) : Prop :=
  In lo l /\ In hi l /\ (forall v, In v l -> lo <= v <= hi)
  /\ lo_edge = count_at lo l /\ hi_edge = count_at hi l.

(** [lo .. hi] spans the coordinates [l]: both ends are taken. *)
Definition spans (l : list Z) (lo hi : Z) : Prop :=
  In lo l /\ In hi l /\ forall v, In v l -> lo <= v <= hi.

(** A box and its edge counts are exact for pins at [xs], [ys]. *)
Definition exact_box (xs ys : list Z) (co ed : t_bb) : Prop :=
  tight xs (xmin co) (xmax co) (xmin ed) (xmax ed)
  /\ tight ys (ymin co) (ymax co) (ymin ed) (ymax ed).

(** The sinks of a net that sit on layer [l]. *)
Definition layer_sinks (c : vpr_ctx) (net : ClusterNetId) (l : Z) : list ClusterPinId :=
  filter (fun pin => pl_layer (block_locs c (pin_block c pin)) =? l) (net_sinks c net).

(** Every sink of the net sits on a layer of the device. *)
Definition sinks_on_device (c : vpr_ctx) (net : ClusterNetId) : Prop :=
  forall pin, In pin (net_sinks c net) ->
    0 <= pl_layer (block_locs c (pin_block c pin)) < num_layers c.

(** The clipped coordinates of the driver and of the sinks on layer [l]. *)
Definition layer_pin_xs (c : vpr_ctx) (net : ClusterNetId) (l : Z) : list Z :=
  clip (pin_x c (net_driver_block c net) (net_driver_tile_pin_index c net)) (grid_width c)
  :: map (fun pin => clip (pin_x c (pin_block c pin) (tile_pin_index c pin)) (grid_width c))
       (layer_sinks c net l).

Definition layer_pin_ys (c : vpr_ctx) (net : ClusterNetId) (l : Z) : list Z :=
  clip (pin_y c (net_driver_block c net) (net_driver_tile_pin_index c net)) (grid_height c)
  :: map (fun pin => clip (pin_y c (pin_block c pin) (tile_pin_index c pin)) (grid_height c))
       (layer_sinks c net l).

(** The coordinates and the edge counts of a per-layer box as cube boxes. *)
Definition flat (b : t_2D_bb) : t_bb := mk_bb (l_xmin b) (l_xmax b) (l_ymin b) (l_ymax b).

(** The cost of a net in the placement of [c]: the cost of its tight box. *)
Definition exact_net_cost (c : vpr_ctx) (net : ClusterNetId) : Q :=
  match get_net_cost c net (fst (fst (get_bb_from_scratch c net (fun _ => 0)))) with
  | Some q => q
  | None => 0%Q
  end.

(** The cost of the placement of [c]: the costs of the nets that are not
    ignored, added in the order of the netlist. *)
Definition placement_cost (c : vpr_ctx) : Q :=
  fold_left
    (fun cost net => if negb (net_is_ignored c net) then (cost + exact_net_cost c net)%Q
                     else cost)
    (nets c) 0%Q.

(** No channel factor is negative. *)
Definition channel_factors_nonnegative (c : vpr_ctx) : Prop :=
  forall a b, (0 <= chanx_place_cost_fac c a b)%Q /\ (0 <= chany_place_cost_fac c a b)%Q.

(** The first [n] entries of the list of affected nets are nets that are not
    ignored, and no net is listed twice. *)
Definition listed_once (c : vpr_ctx) (s : cost_state) (n : Z) : Prop :=
  (forall i, 0 <= i < n -> net_is_ignored c (ts_nets_to_update s i) = false)
  /\ forall i j, 0 <= i < n -> 0 <= j < n ->
       ts_nets_to_update s i = ts_nets_to_update s j -> i = j.

(** [net] is not ignored and is the net of a pin of a moved block. *)
Definition net_of_moved_pin (c : vpr_ctx) (moved : list t_pl_moved_block)
    (net : ClusterNetId) : Prop :=
  net_is_ignored c net = false
  /\ exists blk pin,
       In blk moved /\ In pin (block_pins c (block_num blk)) /\ pin_net c pin = net.

(** While the affected nets are collected: they are listed once, each is the
    net of a moved pin, and each carries the mark of [record_affected_net], a
    proposed cost that is not negative. *)
Definition find_invariant (c : vpr_ctx) (moved : list t_pl_moved_block)
    (s : cost_state) (n : Z) : Prop :=
  listed_once c s n
  /\ (forall i, 0 <= i < n ->
        ~ (proposed_net_cost s (ts_nets_to_update s i) < 0)%Q)
  /\ forall i, 0 <= i < n -> net_of_moved_pin c moved (ts_nets_to_update s i).

(** Every net of the netlist that is not ignored passes the assertion of the
    from-scratch routines. *)
Definition drivers_known (c : vpr_ctx) : Prop :=
  forall net, In net (nets c) -> net_is_ignored c net = false -> driver_pin_known c net.

(** [tight] and [exact_box] as tests. *)
Definition tightb (l : list Z) (lo hi lo_edge hi_edge : Z) : bool :=
  existsb (Z.eqb lo) l && existsb (Z.eqb hi) l
  && forallb (fun v => (lo <=? v) && (v <=? hi)) l
  && (lo_edge =? count_at lo l) && (hi_edge =? count_at hi l).

Definition exact_boxb (xs ys : list Z) (co ed : t_bb) : bool :=
  tightb xs (xmin co) (xmax co) (xmin ed) (xmax ed)
  && tightb ys (ymin co) (ymax co) (ymin ed) (ymax ed).

(** The placement before block [blk] moved: that of [c] with the block back
    at [loc]. *)
Definition placed_back (c : vpr_ctx) (blk : ClusterBlockId) (loc : t_pl_loc) : vpr_ctx :=
  with_block_locs c (upd (block_locs c) blk loc).

(** [pin] is the one pin of [net] on block [blk]: the driver, with every
    sink on another block, or one sink, with the driver and the other sinks
    on other blocks. *)
Definition sole_pin_on_block (c : vpr_ctx) (net : ClusterNetId) (blk : ClusterBlockId)
    (pin : ClusterPinId) : Prop :=
  (pin_is_driver c pin = true
   /\ net_driver_block c net = blk
   /\ net_driver_tile_pin_index c net = tile_pin_index c pin
   /\ forall p, In p (net_sinks c net) -> pin_block c p <> blk)
  \/ (pin_is_driver c pin = false
      /\ pin_block c pin = blk
      /\ net_driver_block c net <> blk
      /\ exists l1 l2,
           net_sinks c net = l1 ++ pin :: l2
           /\ forall p, In p (l1 ++ l2) -> pin_block c p <> blk).

(** The committed tables of [s] are exact for the placement of [c]: every
    net of the netlist that is not ignored has its tight box, the edge
    counts of that box if the net is updated incrementally, and the cost of
    that box. *)
Definition state_exact (c : vpr_ctx) (s : cost_state) : Prop :=
  forall net, In net (nets c) -> net_is_ignored c net = false ->
    bb_coords s net = fst (fst (get_bb_from_scratch c net (fun _ => 0)))
    /\ (SMALL_NET c <= Z.of_nat (length (net_sinks c net)) ->
        bb_num_on_edges s net = snd (fst (get_bb_from_scratch c net (fun _ => 0))))
    /\ net_cost s net = exact_net_cost c net.

(** No pin of [net] is on block [blk]. *)
Definition off_block (c : vpr_ctx) (net : ClusterNetId) (blk : ClusterBlockId) : Prop :=
  net_driver_block c net <> blk
  /\ forall p, In p (net_sinks c net) -> pin_block c p <> blk.

(** The pins of block [blk] that count. *)
Definition live_pins (c : vpr_ctx) (blk : ClusterBlockId) : list ClusterPinId :=
  filter (fun pin => negb (net_is_ignored c (pin_net c pin))) (block_pins c blk).

(** Block [blk] has one pin on each net it touches: its pins that count are
    on different nets of the netlist, each is the one pin of its net on the
    block, and a net of the netlist without a pin among them has no pin on
    the block. *)
Definition one_pin_per_net (c : vpr_ctx) (blk : ClusterBlockId) : Prop :=
  NoDup (map (pin_net c) (live_pins c blk))
  /\ (forall pin, In pin (live_pins c blk) ->
        In (pin_net c pin) (nets c) /\ sole_pin_on_block c (pin_net c pin) blk pin)
  /\ forall net, In net (nets c) -> net_is_ignored c net = false ->
       In net (map (pin_net c) (live_pins c blk)) \/ off_block c net blk.

(** The cost of a net in the placement of [c], layer by layer: the cost of
    its per-layer boxes and sink counts. *)
Definition layer_net_cost (c : vpr_ctx) (net : ClusterNetId) : Q :=
  match get_net_layer_cost c
          (fst (get_non_updatable_layer_bb c net (fun _ => mk_2D_bb 0 0 0 0 0) (fun _ => 0)))
          (snd (get_non_updatable_layer_bb c net (fun _ => mk_2D_bb 0 0 0 0 0) (fun _ => 0)))
  with
  | Some q => q
  | None => 0%Q
  end.

(** The per-layer cost of the placement of [c]. *)
Definition layer_placement_cost (c : vpr_ctx) : Q :=
  fold_left
    (fun cost net => if negb (net_is_ignored c net) then (cost + layer_net_cost c net)%Q
                     else cost)
    (nets c) 0%Q.

(** Per-layer boxes and sink counts that are those of the net: on each layer
    of the device the box spans the driver and the sinks on the layer and
    carries the number of the layer, and the count is the number of those
    sinks. *)
Definition layer_boxes_exact (c : vpr_ctx) (net : ClusterNetId) (co : Z -> t_2D_bb)
    (cnt : Z -> Z) : Prop :=
  forall l, 0 <= l < num_layers c ->
    spans (layer_pin_xs c net l) (l_xmin (co l)) (l_xmax (co l))
    /\ spans (layer_pin_ys c net l) (l_ymin (co l)) (l_ymax (co l))
    /\ layer_num (co l) = l
    /\ cnt l = Z.of_nat (length (layer_sinks c net l)).

(** The nets of the netlist that are not ignored have their sinks on the
    layers of the device, and fewer of them than an [int] can count. *)
Definition sinks_placed (c : vpr_ctx) : Prop :=
  forall net, In net (nets c) -> net_is_ignored c net = false ->
    sinks_on_device c net /\ Z.of_nat (length (net_sinks c net)) < 2 ^ 31.

(** The two fields of one axis of a box. *)
Definition is_axis (lo hi : bb_field) : Prop :=
  (lo = F_xmin /\ hi = F_xmax) \/ (lo = F_ymin /\ hi = F_ymax).

(** [r'] is [r] with, at most, the fields [lo] and [hi] of layer [L] of the
    coordinates and of the edge counts rewritten. *)
Definition same_but_axis (r r' : layer_scratch) (L : Z) (lo hi : bb_field) : Prop :=
  ls_flag r' = ls_flag r
  /\ ls_count r' = ls_count r
  /\ (forall l, l <> L -> ls_coord r' l = ls_coord r l /\ ls_edge r' l = ls_edge r l)
  /\ layer_num (ls_coord r' L) = layer_num (ls_coord r L)
  /\ forall f, f <> lo -> f <> hi ->
       get_field (ls_coord r' L) f = get_field (ls_coord r L) f
       /\ get_field (ls_edge r' L) f = get_field (ls_edge r L) f.

(** The from-scratch exit of [update_bb_edge]. *)
Definition recomputed (c : vpr_ctx) (net : ClusterNetId) (r : layer_scratch)
    : option layer_scratch :=
  res <- get_layer_bb_from_scratch c net (ls_edge r) (ls_coord r) (ls_count r) ;;
  let '(ed, co, cnt) := res in
  Some (mk_layer_scratch GOT_FROM_SCRATCH ed co cnt).

(** The boxes, edge counts and sink counts [r] holds are those of [net] in
    the placement of [c], on every layer of the device. *)
Definition layer_scratch_ok (c : vpr_ctx) (net : ClusterNetId) (r : layer_scratch) : Prop :=
  forall l, 0 <= l < num_layers c ->
    exact_box (layer_pin_xs c net l) (layer_pin_ys c net l)
      (flat (ls_coord r l)) (flat (ls_edge r l))
    /\ ls_count r l = Z.of_nat (length (layer_sinks c net l))
    /\ layer_num (ls_coord r l) = l.

(** The per-layer scratch tables of [net] in [s] are those of the net in
    the placement of [c]: boxes, edge counts and sink counts, with the layer
    numbers, on every layer of the device. *)
Definition layer_scratch_exact (c : vpr_ctx) (s : cost_state) (net : ClusterNetId) : Prop :=
  layer_scratch_ok c net
    (mk_layer_scratch (bb_updated_before s net) (layer_ts_bb_edge_new s net)
       (layer_ts_bb_coord_new s net) (ts_layer_sink_pin_count s net)).

(** Per-layer tables that are those of [net] in the placement of [c]: the
    boxes with their layer numbers and the sink counts and, for a net that
    is updated incrementally, the edge counts. *)
Definition layer_tables_exact (c : vpr_ctx) (net : ClusterNetId)
    (co ed : Z -> t_2D_bb) (cnt : Z -> Z) : Prop :=
  layer_boxes_exact c net co cnt
  /\ (SMALL_NET c <= Z.of_nat (length (net_sinks c net)) ->
      forall l, 0 <= l < num_layers c ->
        exact_box (layer_pin_xs c net l) (layer_pin_ys c net l) (flat (co l)) (flat (ed l))).

End NetCost.

Module ManualMoves.

Import String Ascii.
Local Open Scope Z_scope.

(** ** The panel's record and what it talks to *)

(** [t_pl_loc(x, y, sub_tile)] as the panel builds it. *)
Record t_pl_loc := mk_pl_loc {
  pl_x : Z;
  pl_y : Z;
  pl_sub_tile : Z
}.

Inductive e_move_result := REJECTED | ACCEPTED | ABORTED.

(** [ManualMovesInfo]: the request and the answers to it. *)
Record ManualMovesInfo := mk_info {
  blockID : Z;
  x_pos : Z;
  y_pos : Z;
  subtile : Z;
  to_location : t_pl_loc;
  valid_input : bool;
  delta_cost : Q;
  delta_timing : Q;
  delta_bounding_box : Q;
  placer_move_outcome : e_move_result;
  user_move_outcome : e_move_result
}.

(** [ManualMovesGlobals], the single instance [manual_moves_global]. *)
Record ManualMovesGlobals := mk_globals {
  manual_move_info : ManualMovesInfo;
  mm_window_is_open : bool;
  user_highlighted_block : bool;
  manual_move_flag : bool
}.

(** The calls the handler makes on the user interface, in order. *)
Inductive gui_event :=
| invalid_breakpoint_entry_window (message : string)
| deselect_all
| draw_highlight_blocks_color (clb_index : Z)
| refresh_drawing
| press_proceed.

(** What the handler reads from the netlist and the placement.
    [find_block] is the block id as the handler stores it in an [int]
    ([size_t(ClusterBlockId)] narrowed).  [block_locs] is read at the id
    without a bounds check, so it is a total map here. *)
Record panel_ctx := mk_panel_ctx {
  valid_block_id : Z -> bool;
  find_block : string -> Z;
  is_legal_swap_to_location : Z -> t_pl_loc -> bool;
  block_locs : Z -> t_pl_loc
}.

(** ** Reading the fields *)

Definition isdigit (ch : ascii) : bool :=
  (48 <=? Z.of_nat (nat_of_ascii ch)) && (Z.of_nat (nat_of_ascii ch) <=? 57).

Definition isspace (ch : ascii) : bool :=
  (Z.of_nat (nat_of_ascii ch) =? 32)
  || ((9 <=? Z.of_nat (nat_of_ascii ch)) && (Z.of_nat (nat_of_ascii ch) <=? 13)).

(** [string_is_a_number(block_id)]. *)
Fixpoint string_is_a_number (block_id : string) : bool :=
  match block_id with
  | EmptyString => true
  | String ch rest => if isdigit ch then string_is_a_number rest else false
  end.

Fixpoint atoi_digits (text : string) (acc : Z) : Z :=
  match text with
  | EmptyString => acc
  | String ch rest =>
      if isdigit ch then atoi_digits rest (10 * acc + (Z.of_nat (nat_of_ascii ch) - 48))
      else acc
  end.

Fixpoint skip_spaces (text : string) : string :=
  match text with
  | EmptyString => EmptyString
  | String ch rest => if isspace ch then skip_spaces rest else text
  end.

(** [std::atoi]: leading white space, an optional sign, then digits; 0 when
    there is no digit.  A value that does not fit an [int] is undefined in
    the source and is not wrapped here. *)
Definition atoi (text : string) : Z :=
  match skip_spaces text with
  | String "-"%char rest => - atoi_digits rest 0
  | String "+"%char rest => atoi_digits rest 0
  | rest => atoi_digits rest 0
  end.

Definition empty (text : string) : bool :=
  match text with
  | EmptyString => true
  | _ => false
  end.

(** ** The submit handler *)

(** [calculate_cost_callback(widget, grid)]; the four strings are the texts
    of the entries of [grid]. *)
Definition calculate_cost_callback (e : panel_ctx) (g : ManualMovesGlobals)
    (block_entry x_position_entry y_position_entry subtile_position_entry : string)
    : ManualMovesGlobals * list gui_event :=
  let valid_input := true in
  let events : list gui_event := [] in
  let block_id_string := block_entry in
  let block_id :=
    if string_is_a_number block_id_string then atoi block_id_string
    else find_block e block_entry in
  let '(valid_input, events) :=
    if negb (valid_block_id e block_id)
    then (false, events ++ [invalid_breakpoint_entry_window "Invalid block ID/Name"%string])
    else (valid_input, events) in
  let x_location := atoi x_position_entry in
  let y_location := atoi y_position_entry in
  let subtile_location := atoi subtile_position_entry in
  let to := mk_pl_loc x_location y_location subtile_location in
  let valid_input :=
    if negb (is_legal_swap_to_location e block_id to) then false else valid_input in
  let current_block := block_id in
  let current_block_loc := block_locs e current_block in
  let '(valid_input, events) :=
    if (x_location =? pl_x current_block_loc)
       && (y_location =? pl_y current_block_loc)
       && (subtile_location =? pl_sub_tile current_block_loc)
    then (false, events ++ [invalid_breakpoint_entry_window
                              "The block is currently in this location"%string])
    else (valid_input, events) in
  let '(valid_input, events) :=
    if empty block_entry || empty x_position_entry || empty y_position_entry
       || empty subtile_position_entry
    then (false, events ++ [invalid_breakpoint_entry_window "Not all fields are complete"%string])
    else (valid_input, events) in
  let info := manual_move_info g in
  if valid_input then
    let info := mk_info block_id x_location y_location subtile_location to true
                  (delta_cost info) (delta_timing info) (delta_bounding_box info)
                  (placer_move_outcome info) (user_move_outcome info) in
    let clb_index := blockID info in
    (mk_globals info (mm_window_is_open g) (user_highlighted_block g) (manual_move_flag g),
     events ++ [deselect_all; draw_highlight_blocks_color clb_index; refresh_drawing;
                press_proceed])
  else
    let info := mk_info (blockID info) (x_pos info) (y_pos info) (subtile info)
                  (to_location info) false
                  (delta_cost info) (delta_timing info) (delta_bounding_box info)
                  (placer_move_outcome info) (user_move_outcome info) in
    (mk_globals info (mm_window_is_open g) (user_highlighted_block g) (manual_move_flag g),
     events).

(** ** Vocabulary of the statements about the handler *)

(** The block id the handler reads from the block entry. *)
Definition entered_block (e : panel_ctx) (block_entry : string) : Z :=
  if string_is_a_number block_entry then atoi block_entry else find_block e block_entry.

(** The destination the handler reads from the three position entries. *)
Definition entered_location (x_position_entry y_position_entry subtile_position_entry : string)
    : t_pl_loc :=
  mk_pl_loc (atoi x_position_entry) (atoi y_position_entry) (atoi subtile_position_entry).

Definition some_field_empty (block_entry x_position_entry y_position_entry
    subtile_position_entry : string) : Prop :=
  empty block_entry = true \/ empty x_position_entry = true
  \/ empty y_position_entry = true \/ empty subtile_position_entry = true.

Definition shows (events : list gui_event) (message : string) : Prop :=
  In (invalid_breakpoint_entry_window message) events.

(** The request part of the panel's record. *)
Definition request (g : ManualMovesGlobals) : Z * Z * Z * Z * t_pl_loc :=
  let info := manual_move_info g in
  (blockID info, x_pos info, y_pos info, subtile info, to_location info).

Definition all_checks_pass (e : panel_ctx) (block_entry x_position_entry y_position_entry
    subtile_position_entry : string) : Prop :=
  valid_block_id e (entered_block e block_entry) = true
  /\ is_legal_swap_to_location e (entered_block e block_entry)
       (entered_location x_position_entry y_position_entry subtile_position_entry) = true
  /\ entered_location x_position_entry y_position_entry subtile_position_entry
     <> block_locs e (entered_block e block_entry)
  /\ ~ some_field_empty block_entry x_position_entry y_position_entry subtile_position_entry.

(** A netlist of four blocks, block 1 named [alu] and placed at (2,3,0);
    any other name is not found. *)
Definition demo_panel : panel_ctx :=
  mk_panel_ctx
    (fun id => (0 <=? id) && (id <? 4))
    (fun name => if String.eqb name "alu" then 1 else -1)
    (fun id to => (0 <=? pl_x to) && (pl_x to <? 6) && (0 <=? pl_y to) && (pl_y to <? 6)
                  && (pl_sub_tile to =? 0))
    (fun id => if id =? 1 then mk_pl_loc 2 3 0 else mk_pl_loc 0 0 0).

Definition demo_globals : ManualMovesGlobals :=
  mk_globals (mk_info 0 0 0 0 (mk_pl_loc 0 0 0) false 0 0 0 REJECTED REJECTED)
    true false false.

(** ** Vocabulary of the statements about the entries *)


End ManualMoves.

Module BlockMemories.

Local Open Scope Z_scope.

(** ** Pins, signal lists and memories *)

(** The net a pin is attached to, by identity: a net of the design, the pad
    net and the ground net of the netlist, or a floating net made for an
    unused output bit. *)
Inductive nnet_t :=
| design_net (id : Z)
| pad_net
| zero_net
| floating_net (index : Z).

Definition nnet_eqb (a b : nnet_t) : bool :=
  match a, b with
  | design_net i, design_net j => i =? j
  | pad_net, pad_net => true
  | zero_net, zero_net => true
  | floating_net i, floating_net j => i =? j
  | _, _ => false
  end.

(** [npin_t], as far as the lowering looks at it. *)
Record npin_t := mk_pin {
  net : nnet_t
}.

(** [signal_list_t]: [pins] with [count] their number. *)
Definition signal_list_t := list npin_t.

Definition count (sig : signal_list_t) : Z := Z.of_nat (length sig).

(** [node->attributes]. *)
Record attributes_t := mk_attributes {
  size : Z;
  ABITS : Z;
  DBITS : Z;
  RD_PORTS : Z;
  WR_PORTS : Z
}.

(** [block_memory]; a signal list that can be [NULL] is an [option]. *)
Record block_memory := mk_block_memory {
  read_addr : option signal_list_t;
  read_clk : signal_list_t;
  read_en : signal_list_t;
  read_data : signal_list_t;
  write_addr : option signal_list_t;
  write_clk : signal_list_t;
  write_data : signal_list_t;
  write_en : signal_list_t;
  clk : signal_list_t;
  attributes : attributes_t
}.

(** What the lowering reads outside the memory: whether
    [find_hard_block(LUTRAM_string)] finds a model, and the two area
    thresholds of the header. *)
Record odin_ctx := mk_odin_ctx {
  lutram_model : bool;
  LUTRAM_MIN_THRESHOLD_AREA : Z;
  LUTRAM_MAX_THRESHOLD_AREA : Z
}.

(** ** Address-width optimisation *)

(** Modelled from the spec: [shift_left_value_with_overflow_check] is not in
    the sources at hand.  The spec describes the loop that calls it as
    doubling: the value shifted left by [shift_by] bits. *)
Definition shift_left_value_with_overflow_check (input_value shift_by : Z) : Z :=
  Z.shiftl input_value shift_by.

(** The [while] loop of [perform_optimization], with the number of rounds
    bounded by [fuel]: [None] when the bound is reached. *)
Fixpoint needed_addr_width_loop (fuel : nat) (depth needed_addr_width shifted_value : Z)
    : option Z :=
  if shifted_value <? depth then
    match fuel with
    | O => None
    | S fuel' =>
        let needed_addr_width := needed_addr_width + 1 in
        let shifted_value := shift_left_value_with_overflow_check 1 needed_addr_width in
        needed_addr_width_loop fuel' depth needed_addr_width shifted_value
    end
  else Some needed_addr_width.

(** The slices of [signal_width] pins of a signal list, one per port. *)
Fixpoint split_signal_list (num_of_signals : nat) (signal_width : nat)
    (sig : signal_list_t) : list signal_list_t :=
  match num_of_signals with
  | O => []
  | S n => firstn signal_width sig :: split_signal_list n signal_width (skipn signal_width sig)
  end.

(** Modelled from the spec: [prune_signal] is not in the sources at hand.
    The spec has it prune an address signal list to the needed width if it
    is wider: of each port's [signal_width] pins the first [prune_size] are
    kept. *)
Definition prune_signal (signalsvar : signal_list_t)
    (signal_width prune_size num_of_signals : Z) : signal_list_t :=
  if prune_size >=? signal_width then signalsvar
  else
    concat (map (firstn (Z.to_nat prune_size))
              (split_signal_list (Z.to_nat num_of_signals) (Z.to_nat signal_width)
                 signalsvar)).

(** [perform_optimization(memory)]; [depth] is an [int], so 64 rounds are
    more than the loop can take. *)
Definition perform_optimization (memory : block_memory) : option block_memory :=
  let node := attributes memory in
  let depth := size node in
  let addr_width := ABITS node in
  let rd_ports := RD_PORTS node in
  let wr_ports := WR_PORTS node in
  match needed_addr_width_loop 64 depth 0 0 with
  | None => None
  | Some needed_addr_width =>
      let read_addr' :=
        match read_addr memory with
        | Some sig => Some (prune_signal sig addr_width needed_addr_width rd_ports)
        | None => None
        end in
      let write_addr' :=
        match write_addr memory with
        | Some sig => Some (prune_signal sig addr_width needed_addr_width wr_ports)
        | None => None
        end in
      Some (mk_block_memory read_addr' (read_clk memory) (read_en memory)
              (read_data memory) write_addr' (write_clk memory) (write_data memory)
              (write_en memory) (clk memory)
              (mk_attributes (size node) needed_addr_width (DBITS node)
                 (RD_PORTS node) (WR_PORTS node)))
  end.

(** ** Shape selection *)

(** The loop of [check_same_addrs] over the pin pairs. *)
Fixpoint same_nets (read_pins write_pins : signal_list_t) : bool :=
  match read_pins, write_pins with
  | read_addr_pin :: rs, write_addr_pin :: ws =>
      if negb (nnet_eqb (net read_addr_pin) (net write_addr_pin)) then false
      else same_nets rs ws
  | _, _ => true
  end.

(** [check_same_addrs(bram)] on the two address lists. *)
Definition check_same_addrs (read_addr write_addr : signal_list_t) : bool :=
  let read_addr_width := count read_addr in
  let write_addr_width := count write_addr in
  if negb (read_addr_width =? write_addr_width) then false
  else same_nets read_addr write_addr.

(** [sp_ram_signals] and [dp_ram_signals]: what is handed to
    [create_single_port_ram] and [create_dual_port_ram]. *)
Record sp_ram_signals := mk_sp {
  sp_addr : signal_list_t;
  sp_clk : option npin_t;
  sp_data : signal_list_t;
  sp_we : option npin_t;
  sp_out : signal_list_t
}.

Record dp_ram_signals := mk_dp {
  dp_addr1 : signal_list_t;
  dp_addr2 : signal_list_t;
  dp_clk : option npin_t;
  dp_data1 : signal_list_t;
  dp_data2 : signal_list_t;
  dp_we1 : npin_t;
  dp_we2 : option npin_t;
  dp_out1 : signal_list_t;
  dp_out2 : signal_list_t
}.

(** [get_pad_pin(netlist)] and [get_zero_pin(netlist)]. *)
Definition get_pad_pin : npin_t := mk_pin pad_net.
Definition get_zero_pin : npin_t := mk_pin zero_net.

(** [signals] as [create_rw_single_port_ram] fills it. *)
Definition create_rw_single_port_ram (read_addr : signal_list_t) (bram : block_memory)
    : sp_ram_signals :=
  mk_sp read_addr (hd_error (clk bram)) (write_data bram) (hd_error (write_en bram))
        (read_data bram).

(** The padding loop of [create_rw_dual_port_ram]: pad pins up to
    [max_addr_width]. *)
Definition pad_to (max_addr_width : Z) (sig : signal_list_t) : signal_list_t :=
  sig ++ repeat get_pad_pin (Z.to_nat (max_addr_width - count sig)).

(** [signals] as [create_rw_dual_port_ram] fills it. *)
Definition create_rw_dual_port_ram (read_addr write_addr : signal_list_t)
    (bram : block_memory) : dp_ram_signals :=
  let max_addr_width := Z.max (count read_addr) (count write_addr) in
  let offset := count (read_data bram) in
  mk_dp (pad_to max_addr_width read_addr) (pad_to max_addr_width write_addr)
        (hd_error (clk bram))
        (repeat get_pad_pin (length (write_data bram)))
        (write_data bram)
        get_zero_pin
        (hd_error (write_en bram))
        (read_data bram)
        (map (fun i => mk_pin (floating_net (offset + Z.of_nat i)))
             (seq 0 (length (read_data bram)))).

(** What [map_bram_to_mem_hardblocks] does with a memory. *)
Inductive lowering :=
| lutram_branch                          (* the branch that maps to LUTRAM: empty *)
| rw_single_port_ram (signals : sp_ram_signals)
| rw_dual_port_ram (signals : dp_ram_signals)
| r2w_dual_port_ram
| r2_w_dual_port_ram
| r2_w2_dual_port_ram
| invalid_memory_block.                  (* error_message(NETLIST, ...) *)

(** Narrowing of a [long] to [int]. *)
Definition to_int (z : Z) : Z := (z + 2 ^ 31) mod 2 ^ 32 - 2 ^ 31.

(** [map_bram_to_mem_hardblocks(bram, netlist)].  [None]: an address list
    that is [NULL] is dereferenced, which [init_block_memory] rules out.  The
    product [depth * width] is exact here; in the source it is undefined when
    it overflows. *)
Definition map_bram_to_mem_hardblocks (o : odin_ctx) (bram : block_memory)
    : option lowering :=
  let node := attributes bram in
  let width := DBITS node in
  let depth := to_int (shift_left_value_with_overflow_check 1 (ABITS node)) in
  let rd_ports := RD_PORTS node in
  let wr_ports := WR_PORTS node in
  let bram_relative_area := depth * width in
  if lutram_model o
     && (LUTRAM_MIN_THRESHOLD_AREA o <=? bram_relative_area)
     && (bram_relative_area <=? LUTRAM_MAX_THRESHOLD_AREA o)
  then Some lutram_branch
  else if wr_ports =? (if rd_ports =? 1 then 1 else 0) then
    match read_addr bram, write_addr bram with
    | Some read_addr, Some write_addr =>
        if check_same_addrs read_addr write_addr
        then Some (rw_single_port_ram (create_rw_single_port_ram read_addr bram))
        else Some (rw_dual_port_ram (create_rw_dual_port_ram read_addr write_addr bram))
    | _, _ => None
    end
  else if (rd_ports =? 1) && (wr_ports =? 2) then Some r2w_dual_port_ram
  else if (rd_ports =? 2) && (wr_ports =? 1) then Some r2_w_dual_port_ram
  else if (rd_ports =? 2) && (wr_ports =? 2) then Some r2_w2_dual_port_ram
  else Some invalid_memory_block.

(** ** Vocabulary of the statements about memories, and some memories *)

(** Two address lists of equal width whose pins are pair by pair on the
    same net. *)
Definition driven_alike (read_pins write_pins : signal_list_t) : Prop :=
  Forall2 (fun r w => net r = net w) read_pins write_pins.

(** [w] is the least width from [from] on whose power of two covers
    [depth]. *)
Definition minimal_width (from depth w : Z) : Prop :=
  from <= w /\ depth <= 2 ^ w /\ forall w', from <= w' -> depth <= 2 ^ w' -> w <= w'.

(** The test that sends a memory to the LUTRAM branch. *)
Definition lutram_taken (o : odin_ctx) (bram : block_memory) : Prop :=
  lutram_model o = true
  /\ LUTRAM_MIN_THRESHOLD_AREA o
     <= to_int (shift_left_value_with_overflow_check 1 (ABITS (attributes bram)))
        * DBITS (attributes bram)
     <= LUTRAM_MAX_THRESHOLD_AREA o.

(** An address list, when there is one, holds [width] pins for each of the
    [ports] ports. *)
Definition well_formed_addr (ports width : Z) (addr : option signal_list_t) : Prop :=
  match addr with
  | Some sig => count sig = ports * width
  | None => True
  end.

(** What the optimisation makes of an address list of [old_width] pins per
    port when [w] pins are needed: nothing when it is not wider, [w] pins per
    port when it is; no list stays no list. *)
Definition pruned_to (ports old_width w : Z)
    (before after : option signal_list_t) : Prop :=
  match before, after with
  | Some sig, Some sig' =>
      (old_width <= w -> sig' = sig)
      /\ (w < old_width -> count sig' = ports * w)
  | None, None => True
  | _, _ => False
  end.

(** Pins on the design nets of the given numbers. *)
Definition demo_pins (ids : list Z) : signal_list_t :=
  map (fun i => mk_pin (design_net i)) ids.

(** A memory of [depth] words of one bit with one read and one write port,
    its address pins on the nets [ra] and [wa]. *)
Definition demo_memory (depth abits : Z) (ra wa : list Z) : block_memory :=
  mk_block_memory (Some (demo_pins ra)) (demo_pins [100]) (demo_pins [101])
    (demo_pins [102]) (Some (demo_pins wa)) (demo_pins [100]) (demo_pins [103])
    (demo_pins [104]) (demo_pins [100])
    (mk_attributes depth abits 1 1 1).

Definition ids_upto (n : nat) : list Z := map Z.of_nat (seq 0 n).

Definition one_word_memory : block_memory :=
  demo_memory 1 4 [1; 2; 3; 4] [5; 6; 7; 8].

Definition hundred_word_memory : block_memory :=
  demo_memory 100 32 (ids_upto 32) (ids_upto 32).

Definition shared_addr_memory : block_memory :=
  demo_memory 16 4 [1; 2; 3; 4] [1; 2; 3; 4].

Definition split_addr_memory : block_memory :=
  demo_memory 16 4 [1; 2; 3; 4] [5; 6; 7].

(** An architecture with a LUTRAM model and one without, the area window
    being 1 .. 1024 bits. *)
Definition lutram_ctx : odin_ctx := mk_odin_ctx true 1 1024.
Definition plain_ctx : odin_ctx := mk_odin_ctx false 1 1024.

(** ** Memories from their nodes, and the two-read-port ROM *)

(** [nnode_t], as far as [init_block_memory] and [init_read_only_memory]
    read it. *)
Record nnode_t := mk_node {
  input_port_sizes : list Z;
  input_pins : list npin_t;
  output_port_sizes : list Z;
  output_pins : list npin_t;
  node_attributes : attributes_t
}.

(** [pins[i]]; a read outside the array is undefined in the source and is
    [None] here. *)
Definition pin_at {A : Type} (pins : list A) (i : Z) : option A :=
  if i <? 0 then None else nth_error pins (Z.to_nat i).

(** The loop [for (i = 0; i < width; i++)
    add_pin_to_signal_list(sig, pins[offset + i])] on a new list [sig]. *)
Definition take_pins (pins : signal_list_t) (offset width : Z) : option signal_list_t :=
  fold_left
    (fun acc i =>
       match acc with
       | None => None
       | Some sig =>
           match pin_at pins (offset + i) with
           | None => None
           | Some pin => Some (sig ++ [pin])
           end
       end)
    (NetCost.zrange width) (Some []).

(** The loop [for (i = 0; i < width; i++)
    add_pin_to_signal_list(sig, get_pad_pin(netlist))] on a new list. *)
Definition pad_pins (width : Z) : signal_list_t :=
  repeat get_pad_pin (Z.to_nat width).

(** [init_block_memory(node, netlist)]: the signal lists of the memory.
    [clk] is what [merge_read_write_clks] returns for the two clock lists. *)
Definition init_block_memory (node : nnode_t) (clk : signal_list_t -> signal_list_t -> signal_list_t)
    : option block_memory :=
  match pin_at (input_port_sizes node) 0, pin_at (input_port_sizes node) 1,
        pin_at (output_port_sizes node) 0, pin_at (input_port_sizes node) 2,
        pin_at (input_port_sizes node) 3, pin_at (input_port_sizes node) 4,
        pin_at (input_port_sizes node) 5, pin_at (input_port_sizes node) 6 with
  | Some RD_ADDR_width, Some RD_CLK_width, Some RD_DATA_width, Some RD_ENABLE_width,
    Some WR_ADDR_width, Some WR_CLK_width, Some WR_DATA_width, Some WR_ENABLE_width =>
      let offset := 0 in
      match take_pins (input_pins node) offset RD_ADDR_width with
      | None => None
      | Some read_addr =>
      let offset := offset + RD_ADDR_width in
      match take_pins (input_pins node) offset RD_CLK_width with
      | None => None
      | Some read_clk =>
      let offset := offset + RD_CLK_width in
      match take_pins (input_pins node) offset RD_ENABLE_width with
      | None => None
      | Some read_en =>
      let offset := offset + RD_ENABLE_width in
      match take_pins (input_pins node) offset WR_ADDR_width with
      | None => None
      | Some write_addr =>
      let offset := offset + WR_ADDR_width in
      match take_pins (input_pins node) offset WR_CLK_width with
      | None => None
      | Some write_clk =>
      let offset := offset + WR_CLK_width in
      match take_pins (input_pins node) offset WR_DATA_width with
      | None => None
      | Some write_data =>
      let offset := offset + WR_DATA_width in
      match take_pins (input_pins node) offset WR_ENABLE_width with
      | None => None
      | Some write_en =>
      let offset := 0 in
      match take_pins (output_pins node) offset RD_DATA_width with
      | None => None
      | Some read_data =>
          Some (mk_block_memory (Some read_addr) read_clk read_en read_data
                  (Some write_addr) write_clk write_data write_en
                  (clk read_clk write_clk) (node_attributes node))
      end end end end end end end end
  | _, _, _, _, _, _, _, _ => None
  end.

(** [init_read_only_memory(node, netlist)].  [clk] is what
    [create_single_clk_pin] returns for a copy of the read clocks.  The
    write clock and write enable lists, [NULL] in the source, are empty. *)
Definition init_read_only_memory (node : nnode_t) (clk : signal_list_t -> signal_list_t)
    : option block_memory :=
  match pin_at (input_port_sizes node) 0, pin_at (input_port_sizes node) 1,
        pin_at (output_port_sizes node) 0, pin_at (input_port_sizes node) 2 with
  | Some RD_ADDR_width, Some RD_CLK_width, Some RD_DATA_width, Some RD_ENABLE_width =>
      let WR_DATA_width := RD_DATA_width in
      let offset := 0 in
      match take_pins (input_pins node) offset RD_ADDR_width with
      | None => None
      | Some read_addr =>
      let offset := offset + RD_ADDR_width in
      match take_pins (input_pins node) offset RD_CLK_width with
      | None => None
      | Some read_clk =>
      let offset := offset + RD_CLK_width in
      match take_pins (input_pins node) offset RD_ENABLE_width with
      | None => None
      | Some read_en =>
      let offset := 0 in
      match take_pins (output_pins node) offset RD_DATA_width with
      | None => None
      | Some read_data =>
          let write_data := pad_pins WR_DATA_width in
          Some (mk_block_memory (Some read_addr) read_clk read_en read_data
                  None [] write_data []
                  (clk read_clk) (node_attributes node))
      end end end end
  | _, _, _, _ => None
  end.

(** [oassert(b)]. *)
Definition oassert (b : bool) : option unit := if b then Some tt else None.

(** [signals] as [create_2r_dual_port_ram] fills it.  [None]: an [oassert]
    fails, or a list that is [NULL] or too short is read. *)
Definition create_2r_dual_port_ram (rom : block_memory) : option dp_ram_signals :=
  let data_width := DBITS (attributes rom) in
  let addr_width := ABITS (attributes rom) in
  let num_rd_ports := RD_PORTS (attributes rom) in
  let num_wr_ports := WR_PORTS (attributes rom) in
  match oassert (num_rd_ports =? 2), oassert (num_wr_ports =? 0), read_addr rom with
  | Some _, Some _, Some rom_read_addr =>
      match oassert (count rom_read_addr =? 2 * addr_width),
            oassert (count (read_data rom) =? 2 * data_width) with
      | Some _, Some _ =>
          match take_pins rom_read_addr 0 addr_width with
          | None => None
          | Some addr1 =>
          let data1 := pad_pins data_width in
          let we1 := get_zero_pin in
          match pin_at (read_en rom) 0, pin_at (clk rom) 0 with
          | Some _, Some clk_pin =>
          match take_pins (read_data rom) 0 data_width with
          | None => None
          | Some out1 =>
          let offset := addr_width in
          match take_pins rom_read_addr offset addr_width with
          | None => None
          | Some addr2 =>
          let we2 := get_zero_pin in
          match pin_at (read_en rom) 1 with
          | None => None
          | Some _ =>
          let data2 := pad_pins data_width in
          let offset := data_width in
          match take_pins (read_data rom) offset data_width with
          | None => None
          | Some out2 =>
              Some (mk_dp addr1 addr2 (Some clk_pin) data1 data2 we1 (Some we2) out1 out2)
          end end end end
          | _, _ => None
          end end
      | _, _ => None
      end
  | _, _, _ => None
  end.

(** ** Vocabulary of the statements about them *)

(** The seven input ports of a memory node, in the order of the node. *)
Definition input_ports (bram : block_memory) : list signal_list_t :=
  [match read_addr bram with Some sig => sig | None => [] end;
   read_clk bram; read_en bram;
   match write_addr bram with Some sig => sig | None => [] end;
   write_clk bram; write_data bram; write_en bram].

End BlockMemories.

(** * Part II: the properties *)

Section CostProperties.

Import NetCost.
Local Open Scope Z_scope.

Lemma zrange_bounds (n l : Z) : In l (zrange n) <-> 0 <= l < n.
Proof.
  unfold zrange. rewrite in_map_iff. split.
  - intros [k [Hk Hin]]. apply in_seq in Hin. lia.
  - intros H. exists (Z.to_nat l). split; [lia|]. apply in_seq. lia.
Qed.

Lemma to_size_t_small (z : Z) : 0 <= z < 2 ^ 64 -> to_size_t z = z.
Proof. intros H. unfold to_size_t. apply Z.mod_small. exact H. Qed.

Lemma crossing_count_above_50 (f : Z) :
  50 < f ->
  wirelength_crossing_count f = Some (2.7933 + 0.02616 * inject_Z (f - 50))%Q.
Proof.
  intros H. unfold wirelength_crossing_count.
  destruct (f >? 50) eqn:E; [reflexivity|]. lia.
Qed.

(** Every fanout from 1 on has a crossing count. *)
Lemma crossing_count_defined (f : Z) :
  1 <= f -> exists q, wirelength_crossing_count f = Some q.
Proof.
  intros H. destruct (Z_lt_le_dec 50 f) as [Hbig|Hsmall].
  - eexists. apply crossing_count_above_50. exact Hbig.
  - unfold wirelength_crossing_count.
    destruct (f >? 50) eqn:E; [lia|].
    rewrite to_size_t_small
      by (split; [lia|]; apply Z.lt_trans with 51; [lia|reflexivity]).
    unfold cross_count_at.
    destruct ((0 <=? f - 1) && (f - 1 <? 50)) eqn:E2; [|lia].
    destruct (nth_error cross_count (Z.to_nat (f - 1))) eqn:E3; [eauto|].
    apply nth_error_None in E3. simpl in E3. lia.
Qed.

(** C2.  The crossing count is exactly 1.0 for a fanout of 1, 2 or 3, is
    2.7933 at fanout 50 and is 2.7933 + 0.02616 (f - 50) for every fanout f
    above 50; so 51 gives 2.81946 and 100 gives 4.1013.  (Costs are exact
    rationals in this development.) *)
Theorem crossing_count_boundaries :
  (forall f, 1 <= f <= 3 -> returns (wirelength_crossing_count f) 1.0)
  /\ returns (wirelength_crossing_count 50) 2.7933
  /\ (forall f, 50 < f ->
        returns (wirelength_crossing_count f) (2.7933 + 0.02616 * inject_Z (f - 50)))
  /\ returns (wirelength_crossing_count 51) 2.81946
  /\ returns (wirelength_crossing_count 100) 4.1013.
Proof.
  repeat split.
  - intros f Hf.
    assert (Hcases : f = 1 \/ f = 2 \/ f = 3) by lia.
    destruct Hcases as [-> | [-> | ->]]; eexists; split; reflexivity.
  - eexists; split; reflexivity.
  - intros f Hf. eexists. split; [apply crossing_count_above_50; exact Hf|].
    reflexivity.
  - eexists; split; reflexivity.
  - eexists; split; reflexivity.
Qed.

Lemma crossing_count_boundaries_witness :
  returns (wirelength_crossing_count 2) 1.0
  /\ returns (wirelength_crossing_count 75) (2.7933 + 0.02616 * inject_Z (75 - 50)).
Proof.
  split.
  - apply (proj1 crossing_count_boundaries 2). lia.
  - apply (proj1 (proj2 (proj2 crossing_count_boundaries)) 75). lia.
Defined.

Lemma net_pins_size_bounds (c : vpr_ctx) (net : ClusterNetId) :
  1 <= net_pins_size c net.
Proof. unfold net_pins_size. lia. Qed.

(** The cube cost of a net whose pin count has a crossing count. *)
Lemma get_net_cost_formula (c : vpr_ctx) (net : ClusterNetId) (bb : t_bb) (crossing : Q) :
  wirelength_crossing_count (net_pins_size c net) = Some crossing ->
  get_net_cost c net bb
  = Some (bb_formula c crossing (xmin bb) (xmax bb) (ymin bb) (ymax bb)).
Proof. intros H. unfold get_net_cost. rewrite H. reflexivity. Qed.

(** One round of the per-layer loop on a layer whose count is a sink count. *)
Lemma net_layer_cost_step_formula (c : vpr_ctx) (bb : Z -> t_2D_bb)
    (counts : Z -> Z) (ncost : Q) (l : Z) :
  OPEN c < 0 ->
  0 <= counts l < 2 ^ 31 ->
  exists v,
    net_layer_cost_step c bb counts ncost l = Some v
    /\ (v == ncost
             + (if counts l =? 0 then 0
                else bb_formula c (crossing_of (counts l + 1))
                       (l_xmin (bb l)) (l_xmax (bb l)) (l_ymin (bb l)) (l_ymax (bb l))))%Q.
Proof.
  intros Hopen Hcnt. unfold net_layer_cost_step.
  destruct (counts l =? OPEN c) eqn:E1; [lia|].
  destruct (counts l =? 0) eqn:E2.
  - exists ncost. split; [reflexivity|]. ring.
  - assert (Hsz : to_size_t (counts l + 1) = counts l + 1).
    { apply to_size_t_small. split; [lia|].
      apply Z.lt_trans with (2 ^ 31 + 1); [lia|]. reflexivity. }
    rewrite Hsz.
    destruct (crossing_count_defined (counts l + 1)) as [q Hq]; [lia|].
    unfold crossing_of. rewrite Hq.
    eexists. split; [reflexivity|]. unfold bb_formula. ring.
Qed.

Lemma net_layer_cost_loop_sum (c : vpr_ctx) (bb : Z -> t_2D_bb) (counts : Z -> Z)
    (layers : list Z) :
  OPEN c < 0 ->
  (forall l, In l layers -> 0 <= counts l < 2 ^ 31) ->
  forall ncost,
  exists v,
    net_layer_cost_loop c bb counts layers ncost = Some v
    /\ (v == ncost
             + sum_Q (map (fun l => bb_formula c (crossing_of (counts l + 1))
                                      (l_xmin (bb l)) (l_xmax (bb l))
                                      (l_ymin (bb l)) (l_ymax (bb l)))
                        (filter (fun l => negb (counts l =? 0)) layers)))%Q.
Proof.
  intros Hopen. induction layers as [|l rest IH]; intros Hcnt ncost.
  - exists ncost. split; [reflexivity|]. simpl. ring.
  - destruct (net_layer_cost_step_formula c bb counts ncost l Hopen) as [v1 [Hv1 Heq1]].
    { apply Hcnt. left. reflexivity. }
    destruct (IH (fun l' Hin => Hcnt l' (or_intror Hin)) v1) as [v [Hv Heq]].
    exists v. split.
    + simpl. rewrite Hv1. exact Hv.
    + rewrite Heq, Heq1. simpl filter.
      destruct (counts l =? 0); simpl; ring.
Qed.

(** C1.  The cost [get_net_cost] computes for a net and a box is the
    bounding-box formula with the crossing count of the net's pin count; the
    cost [get_net_layer_cost] computes is the sum of the same formula over
    exactly the layers with a non-zero sink count, layer by layer with the
    crossing count of that layer's sink count plus one. *)
Theorem net_cost_is_bounding_box_formula (c : vpr_ctx) :
  (forall net bb,
      exists crossing,
        wirelength_crossing_count (net_pins_size c net) = Some crossing
        /\ get_net_cost c net bb
           = Some (inject_Z (xmax bb - xmin bb + 1) * crossing
                   * chanx_place_cost_fac c (ymax bb) (ymin bb - 1)
                   + inject_Z (ymax bb - ymin bb + 1) * crossing
                     * chany_place_cost_fac c (xmax bb) (xmin bb - 1))%Q)
  /\ (forall bb layer_pin_sink_count,
        OPEN c < 0 ->
        (forall l, 0 <= l < num_layers c -> 0 <= layer_pin_sink_count l < 2 ^ 31) ->
        returns (get_net_layer_cost c bb layer_pin_sink_count)
          (sum_Q (map (fun l =>
                         bb_formula c (crossing_of (layer_pin_sink_count l + 1))
                           (l_xmin (bb l)) (l_xmax (bb l)) (l_ymin (bb l)) (l_ymax (bb l)))
                      (layers_with_sinks c layer_pin_sink_count)))).
Proof.
  split.
  - intros net bb.
    destruct (crossing_count_defined (net_pins_size c net)) as [q Hq];
      [apply net_pins_size_bounds|].
    exists q. split; [exact Hq|].
    rewrite (get_net_cost_formula c net bb q Hq). reflexivity.
  - intros bb counts Hopen Hcnt.
    destruct (net_layer_cost_loop_sum c bb counts (zrange (num_layers c)) Hopen) with (ncost := 0%Q)
      as [v [Hv Heq]].
    { intros l Hin. apply Hcnt. apply zrange_bounds. exact Hin. }
    exists v. split; [exact Hv|].
    rewrite Heq. unfold layers_with_sinks. ring.
Qed.

Lemma net_cost_is_bounding_box_formula_witness :
  returns
    (get_net_layer_cost (demo_before 2 false) (fun _ => mk_2D_bb 1 4 1 4 0)
       (fun l => if l =? 0 then 3 else 0))
    (sum_Q (map (fun l =>
                   bb_formula (demo_before 2 false)
                     (crossing_of ((if l =? 0 then 3 else 0) + 1)) 1 4 1 4)
              (layers_with_sinks (demo_before 2 false) (fun l => if l =? 0 then 3 else 0)))).
Proof.
  apply (proj2 (net_cost_is_bounding_box_formula (demo_before 2 false))
           (fun _ => mk_2D_bb 1 4 1 4 0) (fun l => if l =? 0 then 3 else 0)).
  - reflexivity.
  - intros l _. destruct (l =? 0); split; first [discriminate | reflexivity].
Defined.

End CostProperties.

Section EngineProperties.

Import NetCost.
Local Open Scope Z_scope.

(** ** Maps and loops *)

Lemma upd_same {A : Type} (f : nat -> A) (k : nat) (v : A) : upd f k v k = v.
Proof. unfold upd. rewrite Nat.eqb_refl. reflexivity. Qed.

Lemma upd_other {A : Type} (f : nat -> A) (k k' : nat) (v : A) :
  k' <> k -> upd f k v k' = f k'.
Proof.
  intros H. unfold upd. destruct (Nat.eqb k' k) eqn:E; [|reflexivity].
  apply Nat.eqb_eq in E. contradiction.
Qed.

Lemma updz_same {A : Type} (f : Z -> A) (k : Z) (v : A) : updz f k v k = v.
Proof. unfold updz. rewrite Z.eqb_refl. reflexivity. Qed.

Lemma updz_other {A : Type} (f : Z -> A) (k k' : Z) (v : A) :
  k' <> k -> updz f k v k' = f k'.
Proof.
  intros H. unfold updz. destruct (Z.eqb k' k) eqn:E; [|reflexivity].
  apply Z.eqb_eq in E. contradiction.
Qed.

Lemma fold_left_invariant {A B : Type} (P : A -> Prop) (f : A -> B -> A) (l : list B) :
  (forall a b, In b l -> P a -> P (f a b)) ->
  forall a, P a -> P (fold_left f l a).
Proof.
  induction l as [|b l IH]; intros Hstep a Ha; simpl; [exact Ha|].
  apply IH.
  - intros a' b' Hin. apply Hstep. right. exact Hin.
  - apply Hstep; [left; reflexivity|exact Ha].
Qed.

Lemma bb_flag_eqb_eq (a b : bb_flag) : bb_flag_eqb a b = true <-> a = b.
Proof. destruct a, b; simpl; split; intros H; congruence. Qed.

(** ** The flag under [update_bb] *)

Lemma touch_flag (s : cost_state) (net : ClusterNetId) :
  bb_updated_before s net <> GOT_FROM_SCRATCH ->
  bb_updated_before (touch s net) net = UPDATED_ONCE.
Proof.
  intros H. unfold touch.
  destruct (bb_updated_before s net) eqn:E; simpl.
  - apply upd_same.
  - exact E.
  - contradiction.
Qed.

Lemma touch_flag_other (s : cost_state) (net net' : ClusterNetId) :
  net' <> net -> bb_updated_before (touch s net) net' = bb_updated_before s net'.
Proof.
  intros H. unfold touch.
  destruct (bb_flag_eqb (bb_updated_before s net) NOT_UPDATED_YET); simpl;
    [apply upd_other; exact H|reflexivity].
Qed.

(** [update_bb] on a net that was not found from scratch: the net is marked,
    then either the box is recomputed or the scratch entries are written. *)
Lemma update_bb_unfold (c : vpr_ctx) (s : cost_state) (net : ClusterNetId)
    (pin_old_loc pin_new_loc : t_physical_tile_loc) (src_pin : bool) :
  bb_updated_before s net <> GOT_FROM_SCRATCH ->
  update_bb c s net pin_old_loc pin_new_loc src_pin
  = match update_axis (tile_x (clip_loc c pin_old_loc)) (tile_x (clip_loc c pin_new_loc))
            (xmin (current_coord s net)) (xmax (current_coord s net))
            (xmin (current_edge s net)) (xmax (current_edge s net)) with
    | None => update_bb_from_scratch c (touch s net) net
    | Some (nxmin, nxmax, exmin, exmax) =>
        match update_axis (tile_y (clip_loc c pin_old_loc)) (tile_y (clip_loc c pin_new_loc))
                (ymin (current_coord s net)) (ymax (current_coord s net))
                (ymin (current_edge s net)) (ymax (current_edge s net)) with
        | None => update_bb_from_scratch c (touch s net) net
        | Some (nymin, nymax, eymin, eymax) =>
            set_ts_layer_sink_pin_count
              (set_ts_bb_edge_new
                 (set_ts_bb_coord_new (touch s net) net (mk_bb nxmin nxmax nymin nymax))
                 net (mk_bb exmin exmax eymin eymax))
              net
              (update_bb_layer_counts c (current_sink_count s net)
                 (ts_layer_sink_pin_count s net)
                 (clip_loc c pin_old_loc) (clip_loc c pin_new_loc) src_pin)
        end
    end.
Proof.
  intros Hflag.
  unfold update_bb, current_coord, current_edge, current_sink_count, touch.
  destruct (bb_updated_before s net) eqn:E; [| |contradiction]; simpl bb_flag_eqb; cbv iota.
  - destruct (update_axis _ _ (xmin _) _ _ _) as [[[[? ?] ?] ?]|]; [|reflexivity].
    destruct (update_axis _ _ (ymin _) _ _ _) as [[[[? ?] ?] ?]|]; [|reflexivity].
    simpl. rewrite upd_same. simpl. reflexivity.
  - destruct (update_axis _ _ (xmin _) _ _ _) as [[[[? ?] ?] ?]|]; [|reflexivity].
    destruct (update_axis _ _ (ymin _) _ _ _) as [[[[? ?] ?] ?]|]; [|reflexivity].
    simpl. rewrite E. simpl. reflexivity.
Qed.

(** ** What a step on one net leaves alone *)

Lemma committed_same_refl (s : cost_state) : committed_same s s.
Proof. unfold committed_same. repeat split. Qed.

Lemma committed_same_trans (s1 s2 s3 : cost_state) :
  committed_same s1 s2 -> committed_same s2 s3 -> committed_same s1 s3.
Proof.
  unfold committed_same.
  intros (A1 & A2 & A3 & A4 & A5 & A6) (B1 & B2 & B3 & B4 & B5 & B6).
  repeat split; congruence.
Qed.

Lemma trial_frame_refl (net : ClusterNetId) (s : cost_state) : trial_frame net s s.
Proof.
  unfold trial_frame. split; [apply committed_same_refl|].
  repeat split; reflexivity.
Qed.

Lemma trial_frame_trans (net : ClusterNetId) (s1 s2 s3 : cost_state) :
  trial_frame net s1 s2 -> trial_frame net s2 s3 -> trial_frame net s1 s3.
Proof.
  intros (A1 & A2 & A3 & A4) (B1 & B2 & B3 & B4).
  split; [eapply committed_same_trans; eassumption|].
  split; [congruence|]. split; [congruence|].
  intros net' Hne.
  destruct (A4 net' Hne) as (a1 & a2 & a3 & a4 & a5 & a6).
  destruct (B4 net' Hne) as (b1 & b2 & b3 & b4 & b5 & b6).
  repeat split; congruence.
Qed.

Ltac frame_setter :=
  unfold trial_frame, committed_same; simpl;
  repeat split; try reflexivity;
  try (apply upd_other; assumption).

Lemma frame_set_flag (net : ClusterNetId) (s : cost_state) (v : bb_flag) :
  trial_frame net s (set_bb_updated_before s net v).
Proof. frame_setter. Qed.

Lemma frame_set_ts_coord (net : ClusterNetId) (s : cost_state) (v : t_bb) :
  trial_frame net s (set_ts_bb_coord_new s net v).
Proof. frame_setter. Qed.

Lemma frame_set_ts_edge (net : ClusterNetId) (s : cost_state) (v : t_bb) :
  trial_frame net s (set_ts_bb_edge_new s net v).
Proof. frame_setter. Qed.

Lemma frame_set_ts_count (net : ClusterNetId) (s : cost_state) (v : Z -> Z) :
  trial_frame net s (set_ts_layer_sink_pin_count s net v).
Proof. frame_setter. Qed.

Lemma frame_set_layer_ts_edge (net : ClusterNetId) (s : cost_state) (v : Z -> t_2D_bb) :
  trial_frame net s (set_layer_ts_bb_edge_new s net v).
Proof. frame_setter. Qed.

Lemma frame_set_layer_ts_coord (net : ClusterNetId) (s : cost_state) (v : Z -> t_2D_bb) :
  trial_frame net s (set_layer_ts_bb_coord_new s net v).
Proof. frame_setter. Qed.

Lemma frame_touch (net : ClusterNetId) (s : cost_state) : trial_frame net s (touch s net).
Proof.
  unfold touch. destruct (bb_flag_eqb _ _); [apply frame_set_flag|apply trial_frame_refl].
Qed.

Lemma frame_update_bb_from_scratch (c : vpr_ctx) (net : ClusterNetId) (s : cost_state) :
  trial_frame net s (update_bb_from_scratch c s net).
Proof.
  unfold update_bb_from_scratch.
  destruct (get_bb_from_scratch c net _) as [[co ed] cnt].
  eapply trial_frame_trans; [|apply frame_set_flag].
  eapply trial_frame_trans; [|apply frame_set_ts_count].
  eapply trial_frame_trans; [|apply frame_set_ts_edge].
  apply frame_set_ts_coord.
Qed.

Lemma update_bb_noop (c : vpr_ctx) (s : cost_state) (net : ClusterNetId)
    (pin_old_loc pin_new_loc : t_physical_tile_loc) (src_pin : bool) :
  bb_updated_before s net = GOT_FROM_SCRATCH ->
  update_bb c s net pin_old_loc pin_new_loc src_pin = s.
Proof. intros H. unfold update_bb. rewrite H. reflexivity. Qed.

Lemma frame_update_bb (c : vpr_ctx) (s : cost_state) (net : ClusterNetId)
    (pin_old_loc pin_new_loc : t_physical_tile_loc) (src_pin : bool) :
  trial_frame net s (update_bb c s net pin_old_loc pin_new_loc src_pin).
Proof.
  destruct (bb_updated_before s net) eqn:E.
  3: { rewrite update_bb_noop by exact E. apply trial_frame_refl. }
  all: rewrite update_bb_unfold by congruence.
  all: destruct (update_axis _ _ (xmin _) _ _ _) as [[[[? ?] ?] ?]|];
       [destruct (update_axis _ _ (ymin _) _ _ _) as [[[[? ?] ?] ?]|]|].
  all: try (eapply trial_frame_trans; [apply frame_touch|apply frame_update_bb_from_scratch]).
  all: eapply trial_frame_trans; [apply frame_touch|].
  all: eapply trial_frame_trans; [|apply frame_set_ts_count].
  all: eapply trial_frame_trans; [|apply frame_set_ts_edge].
  all: apply frame_set_ts_coord.
Qed.

Lemma flag_update_bb_from_scratch (c : vpr_ctx) (net : ClusterNetId) (s : cost_state) :
  bb_updated_before (update_bb_from_scratch c s net) net = GOT_FROM_SCRATCH.
Proof.
  unfold update_bb_from_scratch.
  destruct (get_bb_from_scratch c net _) as [[co ed] cnt]. simpl. apply upd_same.
Qed.


(** ** The per-layer routines, one property at a time

    A property of the scratch record that every call of [update_bb_edge],
    every arrival at an edge and the final [add_block_to_bb] keep is kept by
    the two routines built from them. *)

Section LayerClosure.

Variables (c : vpr_ctx) (net : ClusterNetId) (P : layer_scratch -> Prop).
Variables (curr_bb_edge curr_bb_coord : Z -> t_2D_bb).

Lemma edge_then_closed (res : option layer_scratch)
    (k : layer_scratch -> option layer_scratch) (r' : layer_scratch) :
  (forall r1, res = Some r1 -> P r1) ->
  (forall r1 r2, P r1 -> k r1 = Some r2 -> P r2) ->
  edge_then res k = Some r' -> P r'.
Proof.
  intros Hres Hk H. unfold edge_then, bind in H.
  destruct res as [r1|]; [|discriminate].
  destruct (bb_flag_eqb (ls_flag r1) GOT_FROM_SCRATCH).
  - injection H as <-. apply Hres. reflexivity.
  - eapply Hk; [apply Hres; reflexivity|exact H].
Qed.

Lemma same_layer_axis_closed (layer : Z) (lo hi : bb_field) (v_old v_new : Z)
    (k : layer_scratch -> option layer_scratch) :
  (forall f r1 r2, f = lo \/ f = hi -> P r1 ->
     update_bb_edge c net r1 layer f (get_field (curr_bb_edge layer) f)
       (get_field (curr_bb_coord layer) f) = Some r2 -> P r2) ->
  (forall f b r1, f = lo \/ f = hi -> P r1 ->
     P (arrive_at_edge r1 layer f b v_new curr_bb_edge curr_bb_coord)) ->
  (forall r1 r2, P r1 -> k r1 = Some r2 -> P r2) ->
  forall r r', P r ->
    same_layer_axis c net r layer lo hi v_old v_new curr_bb_edge curr_bb_coord k = Some r' ->
    P r'.
Proof.
  intros Hedge Harr Hk r r' Hr H. unfold same_layer_axis in H.
  destruct (v_new <? v_old).
  - destruct (v_old =? get_field (curr_bb_coord layer) hi).
    + eapply edge_then_closed; [| |exact H].
      * intros r1 H1. eapply (Hedge hi); [right; reflexivity|exact Hr|exact H1].
      * intros r1 r2 H1 H2. eapply Hk; [|exact H2]. apply Harr; [left; reflexivity|exact H1].
    + eapply Hk; [|exact H]. apply Harr; [left; reflexivity|exact Hr].
  - destruct (v_new >? v_old).
    + destruct (v_old =? get_field (curr_bb_coord layer) lo).
      * eapply edge_then_closed; [| |exact H].
        -- intros r1 H1. eapply (Hedge lo); [left; reflexivity|exact Hr|exact H1].
        -- intros r1 r2 H1 H2. eapply Hk; [|exact H2].
           apply Harr; [right; reflexivity|exact H1].
      * eapply Hk; [|exact H]. apply Harr; [right; reflexivity|exact Hr].
    + eapply Hk; [exact Hr|exact H].
Qed.

Lemma layer_changed_axis_closed (layer : Z) (lo hi : bb_field) (v_old : Z)
    (k : layer_scratch -> option layer_scratch) :
  (forall f r1 r2, f = lo \/ f = hi -> P r1 ->
     update_bb_edge c net r1 layer f (get_field (curr_bb_edge layer) f)
       (get_field (curr_bb_coord layer) f) = Some r2 -> P r2) ->
  (forall r1 r2, P r1 -> k r1 = Some r2 -> P r2) ->
  forall r r', P r ->
    layer_changed_axis c net r layer lo hi v_old curr_bb_edge curr_bb_coord k = Some r' ->
    P r'.
Proof.
  intros Hedge Hk r r' Hr H. unfold layer_changed_axis in H.
  destruct (v_old =? get_field (curr_bb_coord layer) hi).
  - eapply edge_then_closed; [|exact Hk|exact H].
    intros r1 H1. eapply (Hedge hi); [right; reflexivity|exact Hr|exact H1].
  - destruct (v_old =? get_field (curr_bb_coord layer) lo).
    + eapply edge_then_closed; [|exact Hk|exact H].
      intros r1 H1. eapply (Hedge lo); [left; reflexivity|exact Hr|exact H1].
    + eapply Hk; [exact Hr|exact H].
Qed.

Variables (pin_old_loc pin_new_loc : t_physical_tile_loc).

Hypothesis P_edge : forall f r1 r2, P r1 ->
  update_bb_edge c net r1 (tile_layer_num pin_old_loc) f
    (get_field (curr_bb_edge (tile_layer_num pin_old_loc)) f)
    (get_field (curr_bb_coord (tile_layer_num pin_old_loc)) f) = Some r2 -> P r2.

Lemma update_bb_same_layer_closed :
  (forall f b r1, (f = F_xmin \/ f = F_xmax) -> P r1 ->
     P (arrive_at_edge r1 (tile_layer_num pin_old_loc) f b (tile_x pin_new_loc)
          curr_bb_edge curr_bb_coord)) ->
  (forall f b r1, (f = F_ymin \/ f = F_ymax) -> P r1 ->
     P (arrive_at_edge r1 (tile_layer_num pin_old_loc) f b (tile_y pin_new_loc)
          curr_bb_edge curr_bb_coord)) ->
  forall r r', P r ->
    update_bb_same_layer c net r pin_old_loc pin_new_loc curr_bb_edge curr_bb_coord
      = Some r' ->
    P r'.
Proof.
  intros Hx Hy r r' Hr H. unfold update_bb_same_layer in H.
  eapply same_layer_axis_closed; [| | |exact Hr|exact H].
  - intros f r1 r2 _. apply P_edge.
  - exact Hx.
  - intros r1 r2 H1 H2.
    eapply same_layer_axis_closed; [| | |exact H1|exact H2].
    + intros f r3 r4 _. apply P_edge.
    + exact Hy.
    + intros r3 r4 H3 H4. injection H4 as <-. exact H3.
Qed.

Lemma update_bb_layer_changed_closed :
  (forall r1, P r1 ->
     P (mk_layer_scratch (ls_flag r1)
          (updz (ls_edge r1) (tile_layer_num pin_new_loc)
             (fst (add_block_to_bb pin_new_loc
                     (curr_bb_edge (tile_layer_num pin_new_loc))
                     (curr_bb_coord (tile_layer_num pin_new_loc))
                     (ls_edge r1 (tile_layer_num pin_new_loc))
                     (ls_coord r1 (tile_layer_num pin_new_loc)))))
          (updz (ls_coord r1) (tile_layer_num pin_new_loc)
             (snd (add_block_to_bb pin_new_loc
                     (curr_bb_edge (tile_layer_num pin_new_loc))
                     (curr_bb_coord (tile_layer_num pin_new_loc))
                     (ls_edge r1 (tile_layer_num pin_new_loc))
                     (ls_coord r1 (tile_layer_num pin_new_loc)))))
          (ls_count r1))) ->
  forall r r', P r ->
    update_bb_layer_changed c net r pin_old_loc pin_new_loc curr_bb_edge curr_bb_coord
      = Some r' ->
    P r'.
Proof.
  intros Hadd r r' Hr H. unfold update_bb_layer_changed in H.
  eapply layer_changed_axis_closed; [| |exact Hr|exact H].
  - intros f r1 r2 _. apply P_edge.
  - intros r1 r2 H1 H2.
    eapply layer_changed_axis_closed; [| |exact H1|exact H2].
    + intros f r3 r4 _. apply P_edge.
    + intros r3 r4 H3 H4. injection H4 as <-. apply Hadd. exact H3.
Qed.

End LayerClosure.

(** The flag of the scratch record. *)

Lemma update_bb_edge_flag (c : vpr_ctx) (net : ClusterNetId) (r r' : layer_scratch)
    (layer : Z) (f : bb_field) (n co : Z) :
  update_bb_edge c net r layer f n co = Some r' ->
  (ls_flag r' = GOT_FROM_SCRATCH
   /\ exists ed cd cnt,
        get_layer_bb_from_scratch c net (ls_edge r) (ls_coord r) (ls_count r)
          = Some (ed, cd, cnt)
        /\ r' = mk_layer_scratch GOT_FROM_SCRATCH ed cd cnt)
  \/ r' = mk_layer_scratch (ls_flag r) (set_vec_field (ls_edge r) layer f (n - 1))
            (set_vec_field (ls_coord r) layer f co) (ls_count r).
Proof.
  unfold update_bb_edge, bind. intros H.
  destruct (n =? 1).
  - destruct (get_layer_bb_from_scratch c net _ _ _) as [[[ed cd] cnt]|]; [|discriminate].
    injection H as <-. left. split; [reflexivity|]. eauto.
  - injection H as <-. right. reflexivity.
Qed.

Lemma arrive_at_edge_flag (r : layer_scratch) (layer : Z) (f : bb_field) (b : bool)
    (v : Z) (ce cc : Z -> t_2D_bb) :
  ls_flag (arrive_at_edge r layer f b v ce cc) = ls_flag r
  /\ ls_count (arrive_at_edge r layer f b v ce cc) = ls_count r.
Proof.
  unfold arrive_at_edge. destruct b; [split; reflexivity|].
  destruct (v =? _); split; reflexivity.
Qed.

Lemma flag_marked_edge (c : vpr_ctx) (net : ClusterNetId) (r r' : layer_scratch)
    (layer : Z) (f : bb_field) (n co : Z) :
  flag_marked r -> update_bb_edge c net r layer f n co = Some r' -> flag_marked r'.
Proof.
  unfold flag_marked. intros Hr H.
  destruct (update_bb_edge_flag _ _ _ _ _ _ _ _ H) as [[Hs _]| ->].
  - rewrite Hs. discriminate.
  - exact Hr.
Qed.

Lemma flag_marked_arrive (r : layer_scratch) (layer : Z) (f : bb_field) (b : bool)
    (v : Z) (ce cc : Z -> t_2D_bb) :
  flag_marked r -> flag_marked (arrive_at_edge r layer f b v ce cc).
Proof.
  unfold flag_marked. intros Hr.
  rewrite (proj1 (arrive_at_edge_flag r layer f b v ce cc)). exact Hr.
Qed.

Lemma flag_marked_same_layer (c : vpr_ctx) (net : ClusterNetId) (r r' : layer_scratch)
    (pin_old_loc pin_new_loc : t_physical_tile_loc) (ce cc : Z -> t_2D_bb) :
  flag_marked r ->
  update_bb_same_layer c net r pin_old_loc pin_new_loc ce cc = Some r' ->
  flag_marked r'.
Proof.
  intros Hr H.
  eapply (update_bb_same_layer_closed c net flag_marked); [| | |exact Hr|exact H].
  - intros; eapply flag_marked_edge; eassumption.
  - intros; apply flag_marked_arrive; assumption.
  - intros; apply flag_marked_arrive; assumption.
Qed.

Lemma flag_marked_layer_changed (c : vpr_ctx) (net : ClusterNetId) (r r' : layer_scratch)
    (pin_old_loc pin_new_loc : t_physical_tile_loc) (ce cc : Z -> t_2D_bb) :
  flag_marked r ->
  update_bb_layer_changed c net r pin_old_loc pin_new_loc ce cc = Some r' ->
  flag_marked r'.
Proof.
  intros Hr H.
  eapply (update_bb_layer_changed_closed c net flag_marked); [| |exact Hr|exact H].
  - intros; eapply flag_marked_edge; eassumption.
  - intros r1 Hr1. exact Hr1.
Qed.

(** [update_layer_bb] on a net that was not found from scratch. *)
Lemma update_layer_bb_inv (c : vpr_ctx) (s s' : cost_state) (net : ClusterNetId)
    (pin_old_loc pin_new_loc : t_physical_tile_loc) (is_output_pin : bool) :
  bb_updated_before s net <> GOT_FROM_SCRATCH ->
  update_layer_bb c s net pin_old_loc pin_new_loc is_output_pin = Some s' ->
  exists cnt r,
    update_bb_pin_sink_count c (clip_loc c pin_old_loc) (clip_loc c pin_new_loc)
      (current_sink_count s net) (ts_layer_sink_pin_count s net) is_output_pin
      = Some cnt
    /\ (if negb (tile_layer_num pin_old_loc =? tile_layer_num pin_new_loc)
        then update_bb_layer_changed c net
               (mk_layer_scratch UPDATED_ONCE (current_layer_edge s net)
                  (current_layer_coord s net) cnt)
               (clip_loc c pin_old_loc) (clip_loc c pin_new_loc)
               (current_layer_edge s net) (current_layer_coord s net)
        else update_bb_same_layer c net
               (mk_layer_scratch UPDATED_ONCE (current_layer_edge s net)
                  (current_layer_coord s net) cnt)
               (clip_loc c pin_old_loc) (clip_loc c pin_new_loc)
               (current_layer_edge s net) (current_layer_coord s net)) = Some r
    /\ flag_marked r
    /\ s' = store_layer_scratch s net r.
Proof.
  intros Hflag H.
  unfold update_layer_bb in H.
  unfold current_sink_count, current_layer_edge, current_layer_coord.
  destruct (bb_updated_before s net) eqn:E; [| |contradiction].
  all: simpl bb_flag_eqb in *; cbv iota in H; unfold bind in H.
  all: simpl tile_layer_num in *.
  all: match type of H with
       | match ?u with _ => _ end = _ => destruct u as [cnt|] eqn:Hcnt; [|discriminate]
       end.
  all: match type of H with
       | match ?u with _ => _ end = _ => destruct u as [r|] eqn:Hr; [|discriminate]
       end.
  all: exists cnt, r; split; [reflexivity|]; split; [exact Hr|].
  all: assert (Hm : flag_marked r)
    by (destruct (negb (tile_layer_num pin_old_loc =? tile_layer_num pin_new_loc));
        [eapply flag_marked_layer_changed|eapply flag_marked_same_layer];
        try exact Hr; discriminate).
  all: split; [exact Hm|].
  all: unfold flag_marked in Hm.
  all: destruct (ls_flag r) eqn:Er; [contradiction| |]; simpl in H; injection H as <-;
       reflexivity.
Qed.

Lemma update_layer_bb_noop (c : vpr_ctx) (s : cost_state) (net : ClusterNetId)
    (pin_old_loc pin_new_loc : t_physical_tile_loc) (is_output_pin : bool) :
  bb_updated_before s net = GOT_FROM_SCRATCH ->
  update_layer_bb c s net pin_old_loc pin_new_loc is_output_pin = Some s.
Proof. intros H. unfold update_layer_bb. rewrite H. reflexivity. Qed.

Lemma frame_store_layer_scratch (net : ClusterNetId) (s : cost_state) (r : layer_scratch) :
  trial_frame net s (store_layer_scratch s net r).
Proof.
  unfold store_layer_scratch.
  eapply trial_frame_trans; [|apply frame_set_flag].
  eapply trial_frame_trans; [|apply frame_set_ts_count].
  eapply trial_frame_trans; [|apply frame_set_layer_ts_coord].
  apply frame_set_layer_ts_edge.
Qed.

Lemma store_layer_scratch_fields (net : ClusterNetId) (s : cost_state) (r : layer_scratch) :
  bb_updated_before (store_layer_scratch s net r) net = ls_flag r
  /\ layer_ts_bb_edge_new (store_layer_scratch s net r) net = ls_edge r
  /\ layer_ts_bb_coord_new (store_layer_scratch s net r) net = ls_coord r
  /\ ts_layer_sink_pin_count (store_layer_scratch s net r) net = ls_count r.
Proof. unfold store_layer_scratch. simpl. repeat split; apply upd_same. Qed.

Lemma frame_update_layer_bb (c : vpr_ctx) (s s' : cost_state) (net : ClusterNetId)
    (pin_old_loc pin_new_loc : t_physical_tile_loc) (is_output_pin : bool) :
  update_layer_bb c s net pin_old_loc pin_new_loc is_output_pin = Some s' ->
  trial_frame net s s'.
Proof.
  intros H. destruct (bb_updated_before s net) eqn:E.
  3: { rewrite update_layer_bb_noop in H by exact E. injection H as <-.
       apply trial_frame_refl. }
  all: destruct (update_layer_bb_inv c s s' net _ _ _ ltac:(congruence) H)
         as (cnt & r & _ & _ & _ & ->).
  all: apply frame_store_layer_scratch.
Qed.


(** ** One swap keeps its books *)

Lemma Qltb_true (a b : Q) : Qltb a b = true <-> (a < b)%Q.
Proof.
  unfold Qltb. rewrite negb_true_iff. split.
  - intros H. apply Qnot_le_lt. intros Hle. apply Qle_bool_iff in Hle. congruence.
  - intros H. destruct (Qle_bool b a) eqn:E; [|reflexivity].
    apply Qle_bool_iff in E. exfalso. apply (Qlt_not_le _ _ H E).
Qed.

Lemma Qltb_false (a b : Q) : Qltb a b = false <-> ~ (a < b)%Q.
Proof.
  split.
  - intros H Hlt. apply Qltb_true in Hlt. congruence.
  - intros H. destruct (Qltb a b) eqn:E; [|reflexivity].
    apply Qltb_true in E. contradiction.
Qed.

Lemma swap_invariant_start (s : cost_state) : between_swaps s -> swap_invariant s s 0.
Proof.
  intros H. split; [lia|]. split; [apply committed_same_refl|].
  intros net. right. apply H.
Qed.

Lemma record_affected_net_invariant (s0 s : cost_state) (net : ClusterNetId) (n : Z) :
  swap_invariant s0 s n ->
  swap_invariant s0 (fst (record_affected_net s net n)) (snd (record_affected_net s net n))
  /\ recorded (fst (record_affected_net s net n)) (snd (record_affected_net s net n)) net.
Proof.
  intros (Hn & Hc & Hinv). unfold record_affected_net.
  destruct (Qltb (proposed_net_cost s net) 0) eqn:E; simpl.
  - split.
    + split; [lia|]. split.
      { eapply committed_same_trans; [exact Hc|]. unfold committed_same. simpl.
        repeat split. }
      intros net'. destruct (Nat.eq_dec net' net) as [->|Hne].
      * left. exists n. simpl. split; [lia|apply updz_same].
      * destruct (Hinv net') as [[i [Hi Hrec]]|[Hf Hp]].
        -- left. exists i. simpl. split; [lia|]. rewrite updz_other by lia. exact Hrec.
        -- right. simpl. rewrite upd_other by exact Hne. split; assumption.
    + exists n. simpl. split; [lia|apply updz_same].
  - assert (Hrec : recorded s n net).
    { destruct (Hinv net) as [Hrec|[_ Hp]]; [exact Hrec|].
      apply Qltb_false in E. contradiction. }
    split; [|exact Hrec].
    split; [exact Hn|]. split; [exact Hc|exact Hinv].
Qed.

Lemma swap_invariant_frame (s0 s s' : cost_state) (net : ClusterNetId) (n : Z) :
  swap_invariant s0 s n -> recorded s n net -> trial_frame net s s' ->
  swap_invariant s0 s' n.
Proof.
  intros (Hn & Hc & Hinv) [i0 [Hi0 Hrec0]] (Fc & Fp & Ft & Fo).
  split; [exact Hn|]. split; [eapply committed_same_trans; eassumption|].
  intros net'. destruct (Nat.eq_dec net' net) as [->|Hne].
  - left. exists i0. rewrite Ft. split; assumption.
  - destruct (Hinv net') as [[i [Hi Hrec]]|[Hf Hp]].
    + left. exists i. rewrite Ft. split; assumption.
    + right. rewrite Fp. destruct (Fo net' Hne) as (-> & _). split; assumption.
Qed.

Lemma frame_update_net_bb (c : vpr_ctx) (s : cost_state) (net : ClusterNetId)
    (blk : ClusterBlockId) (blk_pin : ClusterPinId) (mv : t_pl_moved_block) :
  trial_frame net s (update_net_bb c s net blk blk_pin mv).
Proof.
  unfold update_net_bb.
  destruct (Z.of_nat (length (net_sinks c net)) <? SMALL_NET c).
  - destruct (bb_flag_eqb _ _); [|apply trial_frame_refl].
    eapply trial_frame_trans; [apply frame_set_ts_coord|apply frame_set_ts_count].
  - apply frame_update_bb.
Qed.

Lemma frame_update_net_layer_bb (c : vpr_ctx) (s s' : cost_state) (net : ClusterNetId)
    (blk : ClusterBlockId) (blk_pin : ClusterPinId) (mv : t_pl_moved_block) :
  update_net_layer_bb c s net blk blk_pin mv = Some s' ->
  trial_frame net s s'.
Proof.
  unfold update_net_layer_bb. intros H.
  destruct (Z.of_nat (length (net_sinks c net)) <? SMALL_NET c).
  - destruct (bb_flag_eqb _ _); injection H as <-; [|apply trial_frame_refl].
    eapply trial_frame_trans; [apply frame_set_layer_ts_coord|apply frame_set_ts_count].
  - eapply frame_update_layer_bb. exact H.
Qed.

Lemma update_net_info_on_pin_move_invariant (c : vpr_ctx) (s0 s s' : cost_state)
    (blk : ClusterBlockId) (pin : ClusterPinId) (mv : t_pl_moved_block) (n n' : Z) :
  swap_invariant s0 s n ->
  update_net_info_on_pin_move c s blk pin mv n = Some (s', n') ->
  swap_invariant s0 s' n'.
Proof.
  intros Hinv H. unfold update_net_info_on_pin_move in H.
  destruct (net_is_ignored c (pin_net c pin)).
  - injection H as <- <-. exact Hinv.
  - destruct (record_affected_net_invariant s0 s (pin_net c pin) n Hinv) as [Hinv1 Hrec].
    destruct (record_affected_net s (pin_net c pin) n) as [s1 n1]. simpl in *.
    destruct (cube_bb c).
    + injection H as <- <-.
      eapply swap_invariant_frame; [exact Hinv1|exact Hrec|apply frame_update_net_bb].
    + unfold bind in H.
      destruct (update_net_layer_bb c s1 (pin_net c pin) blk pin mv) as [s2|] eqn:E;
        [|discriminate].
      injection H as <- <-.
      eapply swap_invariant_frame; [exact Hinv1|exact Hrec|].
      eapply frame_update_net_layer_bb. exact E.
Qed.




(** ** Dropping and keeping the swap *)

Lemma scratch_same_refl (s : cost_state) : scratch_same s s.
Proof. unfold scratch_same. repeat split. Qed.

Lemma scratch_same_trans (s1 s2 s3 : cost_state) :
  scratch_same s1 s2 -> scratch_same s2 s3 -> scratch_same s1 s3.
Proof.
  unfold scratch_same.
  intros (A1 & A2 & A3 & A4 & A5 & A6) (B1 & B2 & B3 & B4 & B5 & B6).
  repeat split; congruence.
Qed.

(** The loop of [reset_move_nets] over the indices [l]: a net either is one
    of the listed ones and is reset, or is none of them and keeps its flag
    and its proposed cost. *)
Lemma reset_loop (l : list Z) :
  forall s,
    committed_same s (fold_left reset_move_net l s)
    /\ scratch_same s (fold_left reset_move_net l s)
    /\ forall net,
         (bb_updated_before (fold_left reset_move_net l s) net = NOT_UPDATED_YET
          /\ proposed_net_cost (fold_left reset_move_net l s) net = (-1)%Q
          /\ exists i, In i l /\ ts_nets_to_update s i = net)
         \/ (bb_updated_before (fold_left reset_move_net l s) net = bb_updated_before s net
             /\ proposed_net_cost (fold_left reset_move_net l s) net = proposed_net_cost s net
             /\ forall i, In i l -> ts_nets_to_update s i <> net).
Proof.
  induction l as [|i l IH]; intros s; simpl.
  - split; [apply committed_same_refl|]. split; [apply scratch_same_refl|].
    intros net. right. repeat split. intros i [].
  - destruct (IH (reset_move_net s i)) as (Hc & Hs & Hnets).
    assert (Hc1 : committed_same s (reset_move_net s i))
      by (unfold committed_same, reset_move_net; simpl; repeat split).
    assert (Hs1 : scratch_same s (reset_move_net s i))
      by (unfold scratch_same, reset_move_net; simpl; repeat split).
    split; [eapply committed_same_trans; eassumption|].
    split; [eapply scratch_same_trans; eassumption|].
    intros net.
    destruct (Hnets net) as [(Hf & Hp & j & Hj & Hrec)|(Hf & Hp & Hnone)].
    + left. split; [exact Hf|]. split; [exact Hp|].
      exists j. split; [right; exact Hj|exact Hrec].
    + destruct (Nat.eq_dec net (ts_nets_to_update s i)) as [->|Hne].
      * left. rewrite Hf, Hp. unfold reset_move_net. simpl. rewrite !upd_same.
        split; [reflexivity|]. split; [reflexivity|].
        exists i. split; [left; reflexivity|reflexivity].
      * right. rewrite Hf, Hp. unfold reset_move_net. simpl.
        rewrite !upd_other by exact Hne.
        split; [reflexivity|]. split; [reflexivity|].
        intros j [<-|Hj]; [congruence|]. apply Hnone. exact Hj.
Qed.

Lemma update_move_net_fields (c : vpr_ctx) (cube : bool) (s : cost_state) (i : Z) :
  scratch_same s (update_move_net c cube s i)
  /\ bb_updated_before (update_move_net c cube s i)
     = upd (bb_updated_before s) (ts_nets_to_update s i) NOT_UPDATED_YET
  /\ proposed_net_cost (update_move_net c cube s i)
     = upd (proposed_net_cost s) (ts_nets_to_update s i) (-1)%Q.
Proof.
  unfold update_move_net, scratch_same.
  destruct cube; destruct (Z.of_nat (length (net_sinks c _)) >=? SMALL_NET c); simpl;
    repeat split.
Qed.



(** ** Clipping keeps every box inside the device *)

Lemma clip_in_range (v dim : Z) : 3 <= dim -> 1 <= clip v dim <= dim - 2.
Proof. intros H. unfold clip. lia. Qed.

Lemma get_non_updatable_bb_in_range (c : vpr_ctx) (net : ClusterNetId) (cnt : Z -> Z) :
  3 <= grid_width c -> 3 <= grid_height c ->
  bb_in_range c (fst (get_non_updatable_bb c net cnt)).
Proof.
  intros Hw Hh. unfold get_non_updatable_bb, bb_in_range. simpl.
  repeat split; apply clip_in_range; assumption.
Qed.

Lemma scratch_axis_in_range (v lo hi lo_edge hi_edge d : Z) :
  1 <= v <= d -> 1 <= lo <= d -> 1 <= hi <= d ->
  1 <= fst (fst (fst (scratch_axis v lo hi lo_edge hi_edge))) <= d
  /\ 1 <= snd (fst (fst (scratch_axis v lo hi lo_edge hi_edge))) <= d.
Proof.
  intros Hv Hlo Hhi. unfold scratch_axis.
  destruct (v =? hi); [simpl; lia|].
  destruct (v <? lo); [simpl; lia|].
  destruct (v >? hi); simpl; lia.
Qed.

Lemma from_scratch_sink_in_range (c : vpr_ctx) (acc : scratch_acc) (pin : ClusterPinId) :
  3 <= grid_width c -> 3 <= grid_height c ->
  bb_in_range c (fst (fst acc)) ->
  bb_in_range c (fst (fst (from_scratch_sink c acc pin))).
Proof.
  intros Hw Hh Hacc. destruct acc as [[co ed] cnt]. unfold from_scratch_sink.
  destruct Hacc as (H1 & H2 & H3 & H4). simpl in H1, H2, H3, H4.
  pose proof (scratch_axis_in_range
                (clip (pin_x c (pin_block c pin) (tile_pin_index c pin)) (grid_width c))
                (xmin co) (xmax co) (xmin ed) (xmax ed) (grid_width c - 2)
                (clip_in_range _ _ Hw) H1 H2) as Hx.
  pose proof (scratch_axis_in_range
                (clip (pin_y c (pin_block c pin) (tile_pin_index c pin)) (grid_height c))
                (ymin co) (ymax co) (ymin ed) (ymax ed) (grid_height c - 2)
                (clip_in_range _ _ Hh) H3 H4) as Hy.
  destruct (scratch_axis _ (xmin co) _ _ _) as [[[a1 a2] a3] a4].
  destruct (scratch_axis _ (ymin co) _ _ _) as [[[b1 b2] b3] b4].
  simpl in *. unfold bb_in_range. simpl. lia.
Qed.

Lemma get_bb_from_scratch_in_range (c : vpr_ctx) (net : ClusterNetId) (cnt : Z -> Z) :
  3 <= grid_width c -> 3 <= grid_height c ->
  bb_in_range c (fst (fst (get_bb_from_scratch c net cnt))).
Proof.
  intros Hw Hh. unfold get_bb_from_scratch.
  apply (fold_left_invariant (fun acc => bb_in_range c (fst (fst acc)))).
  - intros acc pin _ Hacc. apply from_scratch_sink_in_range; assumption.
  - unfold bb_in_range. simpl.
    pose proof (clip_in_range (pin_x c (net_driver_block c net)
                                 (net_driver_tile_pin_index c net)) _ Hw).
    pose proof (clip_in_range (pin_y c (net_driver_block c net)
                                 (net_driver_tile_pin_index c net)) _ Hh).
    lia.
Qed.

Lemma update_axis_in_range (old new cmin cmax emin emax d a b e1 e2 : Z) :
  1 <= new <= d -> 1 <= cmin <= d -> 1 <= cmax <= d ->
  update_axis old new cmin cmax emin emax = Some (a, b, e1, e2) ->
  1 <= a <= d /\ 1 <= b <= d.
Proof.
  intros Hn Hlo Hhi. unfold update_axis.
  destruct (new <? old).
  - destruct ((old =? cmax) && (emax =? 1)); [discriminate|].
    destruct (new <? cmin); [intros H; injection H as <- <- <- <-; lia|].
    destruct (new =? cmin); intros H; injection H as <- <- <- <-; lia.
  - destruct (new >? old).
    + destruct ((old =? cmin) && (emin =? 1)); [discriminate|].
      destruct (new >? cmax); [intros H; injection H as <- <- <- <-; lia|].
      destruct (new =? cmax); intros H; injection H as <- <- <- <-; lia.
    + intros H; injection H as <- <- <- <-; lia.
Qed.

Lemma update_bb_from_scratch_fields (c : vpr_ctx) (s : cost_state) (net : ClusterNetId) :
  ts_bb_coord_new (update_bb_from_scratch c s net) net
  = fst (fst (get_bb_from_scratch c net (ts_layer_sink_pin_count s net)))
  /\ ts_bb_edge_new (update_bb_from_scratch c s net) net
     = snd (fst (get_bb_from_scratch c net (ts_layer_sink_pin_count s net)))
  /\ ts_layer_sink_pin_count (update_bb_from_scratch c s net) net
     = snd (get_bb_from_scratch c net (ts_layer_sink_pin_count s net)).
Proof.
  unfold update_bb_from_scratch.
  destruct (get_bb_from_scratch c net _) as [[co ed] cnt]. simpl.
  rewrite !upd_same. repeat split.
Qed.

Lemma touch_fields (s : cost_state) (net : ClusterNetId) :
  ts_bb_coord_new (touch s net) = ts_bb_coord_new s
  /\ ts_bb_edge_new (touch s net) = ts_bb_edge_new s
  /\ ts_layer_sink_pin_count (touch s net) = ts_layer_sink_pin_count s.
Proof. unfold touch. destruct (bb_flag_eqb _ _); simpl; repeat split. Qed.

(** The box [update_bb] leaves in the scratch entry lies inside the device
    when the box it started from does. *)
Lemma update_bb_in_range (c : vpr_ctx) (s : cost_state) (net : ClusterNetId)
    (pin_old_loc pin_new_loc : t_physical_tile_loc) (src_pin : bool) :
  3 <= grid_width c -> 3 <= grid_height c ->
  bb_in_range c (current_coord s net) ->
  bb_in_range c (ts_bb_coord_new (update_bb c s net pin_old_loc pin_new_loc src_pin) net).
Proof.
  intros Hw Hh Hcur.
  destruct (bb_updated_before s net) eqn:E.
  3: { rewrite update_bb_noop by exact E. unfold current_coord in Hcur.
       rewrite E in Hcur. exact Hcur. }
  all: rewrite update_bb_unfold by congruence.
  all: destruct Hcur as (H1 & H2 & H3 & H4).
  all: destruct (update_axis _ _ (xmin _) _ _ _) as [[[[a1 a2] a3] a4]|] eqn:Ex;
       [destruct (update_axis _ _ (ymin _) _ _ _) as [[[[b1 b2] b3] b4]|] eqn:Ey|].
  all: try (rewrite (proj1 (update_bb_from_scratch_fields c _ net));
            apply get_bb_from_scratch_in_range; assumption).
  all: simpl; rewrite upd_same.
  all: apply update_axis_in_range with (d := grid_width c - 2) in Ex;
       [|simpl; apply clip_in_range; assumption|assumption|assumption].
  all: apply update_axis_in_range with (d := grid_height c - 2) in Ey;
       [|simpl; apply clip_in_range; assumption|assumption|assumption].
  all: unfold bb_in_range; simpl; lia.
Qed.

Lemma set_field_in_range (c : vpr_ctx) (b : t_2D_bb) (f : bb_field) (v : Z) :
  layer_bb_in_range c b -> field_in_range c f v -> layer_bb_in_range c (set_field b f v).
Proof.
  unfold layer_bb_in_range, field_in_range. intros (H1 & H2 & H3 & H4) Hv.
  destruct f; simpl; repeat split; lia.
Qed.

Lemma get_field_in_range (c : vpr_ctx) (b : t_2D_bb) (f : bb_field) :
  layer_bb_in_range c b -> field_in_range c f (get_field b f).
Proof.
  unfold layer_bb_in_range, field_in_range. intros (H1 & H2 & H3 & H4).
  destruct f; simpl; lia.
Qed.

Lemma set_vec_field_in_range (c : vpr_ctx) (co : Z -> t_2D_bb) (layer : Z)
    (f : bb_field) (v : Z) :
  layers_in_range c co ->
  (0 <= layer < num_layers c -> field_in_range c f v) ->
  layers_in_range c (set_vec_field co layer f v).
Proof.
  intros Hco Hv l Hl. unfold set_vec_field, updz.
  destruct (l =? layer) eqn:E; [|apply Hco; exact Hl].
  apply Z.eqb_eq in E. subst l.
  apply set_field_in_range; [apply Hco; exact Hl|apply Hv; exact Hl].
Qed.

Lemma get_non_updatable_layer_bb_in_range (c : vpr_ctx) (net : ClusterNetId)
    (co : Z -> t_2D_bb) (cnt : Z -> Z) :
  3 <= grid_width c -> 3 <= grid_height c ->
  layers_in_range c (fst (get_non_updatable_layer_bb c net co cnt)).
Proof.
  intros Hw Hh l Hl. unfold get_non_updatable_layer_bb, copy_layers. simpl.
  destruct ((0 <=? l) && (l <? num_layers c)) eqn:E; [|lia].
  unfold layer_bb_in_range. simpl. repeat split; apply clip_in_range; assumption.
Qed.

Lemma layer_from_scratch_sink_in_range (c : vpr_ctx) (acc : option layer_scratch_acc)
    (pin : ClusterPinId) :
  3 <= grid_width c -> 3 <= grid_height c ->
  match acc with
  | Some a => forall l, bb_in_range c (fst (fst a) l)
  | None => True
  end ->
  match layer_from_scratch_sink c acc pin with
  | Some a => forall l, bb_in_range c (fst (fst a) l)
  | None => True
  end.
Proof.
  intros Hw Hh Hacc. unfold layer_from_scratch_sink, bind.
  destruct acc as [[[co ed] cnt]|]; [|exact I].
  destruct (vtr_assert _); [|exact I].
  simpl in Hacc.
  set (layer := pl_layer (block_locs c (pin_block c pin))).
  destruct (Hacc layer) as (H1 & H2 & H3 & H4).
  pose proof (scratch_axis_in_range
                (clip (pin_x c (pin_block c pin) (tile_pin_index c pin)) (grid_width c))
                (xmin (co layer)) (xmax (co layer)) (xmin (ed layer)) (xmax (ed layer))
                (grid_width c - 2) (clip_in_range _ _ Hw) H1 H2) as Hx.
  pose proof (scratch_axis_in_range
                (clip (pin_y c (pin_block c pin) (tile_pin_index c pin)) (grid_height c))
                (ymin (co layer)) (ymax (co layer)) (ymin (ed layer)) (ymax (ed layer))
                (grid_height c - 2) (clip_in_range _ _ Hh) H3 H4) as Hy.
  destruct (scratch_axis _ (xmin (co layer)) _ _ _) as [[[a1 a2] a3] a4].
  destruct (scratch_axis _ (ymin (co layer)) _ _ _) as [[[b1 b2] b3] b4].
  simpl in *. intros l. unfold updz.
  destruct (l =? layer); [|apply Hacc].
  unfold bb_in_range. simpl. lia.
Qed.

Lemma get_layer_bb_from_scratch_in_range (c : vpr_ctx) (net : ClusterNetId)
    (ed0 co0 : Z -> t_2D_bb) (cnt0 : Z -> Z) (ed co : Z -> t_2D_bb) (cnt : Z -> Z) :
  3 <= grid_width c -> 3 <= grid_height c ->
  get_layer_bb_from_scratch c net ed0 co0 cnt0 = Some (ed, co, cnt) ->
  layers_in_range c co.
Proof.
  intros Hw Hh H. unfold get_layer_bb_from_scratch, bind in H.
  match type of H with
  | match ?u with _ => _ end = _ =>
      assert (Hinv : match u with
                     | Some a => forall l, bb_in_range c (fst (fst a) l)
                     | None => True
                     end)
  end.
  { apply (fold_left_invariant
             (fun acc => match acc with
                         | Some a => forall l, bb_in_range c (fst (fst a) l)
                         | None => True
                         end)).
    - intros acc pin _ Hacc. apply layer_from_scratch_sink_in_range; assumption.
    - simpl. intros _. unfold bb_in_range. simpl.
      pose proof (clip_in_range (pin_x c (net_driver_block c net)
                                   (net_driver_tile_pin_index c net)) _ Hw).
      pose proof (clip_in_range (pin_y c (net_driver_block c net)
                                   (net_driver_tile_pin_index c net)) _ Hh).
      lia. }
  match type of H with
  | match ?u with _ => _ end = _ => destruct u as [[[co1 ed1] cnt1]|]; [|discriminate]
  end.
  injection H as <- <- <-. simpl in Hinv.
  intros l Hl. unfold copy_layers.
  destruct ((0 <=? l) && (l <? num_layers c)) eqn:E; [|lia].
  destruct (Hinv l) as (H1 & H2 & H3 & H4).
  unfold layer_bb_in_range. simpl. lia.
Qed.

Lemma add_to_edge_in_range (c : vpr_ctx) (f : bb_field) (b : bool) (v : Z)
    (eo co : t_2D_bb) (acc : t_2D_bb * t_2D_bb) :
  field_in_range c f v -> layer_bb_in_range c (snd acc) ->
  layer_bb_in_range c (snd (add_to_edge f b v eo co acc)).
Proof.
  intros Hv Hacc. unfold add_to_edge.
  destruct b; [simpl; apply set_field_in_range; assumption|].
  destruct (v =? get_field co f); simpl; exact Hacc.
Qed.

Lemma add_block_to_bb_in_range (c : vpr_ctx) (p : t_physical_tile_loc)
    (eo co en cn : t_2D_bb) :
  1 <= tile_x p <= grid_width c - 2 -> 1 <= tile_y p <= grid_height c - 2 ->
  layer_bb_in_range c cn ->
  layer_bb_in_range c (snd (add_block_to_bb p eo co en cn)).
Proof.
  intros Hx Hy Hcn. unfold add_block_to_bb.
  repeat apply add_to_edge_in_range; simpl; assumption.
Qed.

(** The boxes [update_layer_bb] leaves in the scratch entries lie inside the
    device when the boxes it started from do. *)
Lemma update_layer_bb_in_range (c : vpr_ctx) (s s' : cost_state) (net : ClusterNetId)
    (pin_old_loc pin_new_loc : t_physical_tile_loc) (is_output_pin : bool) :
  3 <= grid_width c -> 3 <= grid_height c ->
  layers_in_range c (current_layer_coord s net) ->
  update_layer_bb c s net pin_old_loc pin_new_loc is_output_pin = Some s' ->
  layers_in_range c (layer_ts_bb_coord_new s' net).
Proof.
  intros Hw Hh Hcur H.
  destruct (bb_updated_before s net) eqn:E.
  3: { rewrite update_layer_bb_noop in H by exact E. injection H as <-.
       unfold current_layer_coord in Hcur. rewrite E in Hcur. exact Hcur. }
  all: destruct (update_layer_bb_inv c s s' net _ _ _ ltac:(congruence) H)
         as (cnt & r & _ & Hr & _ & ->).
  all: rewrite (proj1 (proj2 (proj2 (store_layer_scratch_fields net s r)))).
  all: set (P := fun r : layer_scratch => layers_in_range c (ls_coord r)).
  all: assert (Pedge : forall f r1 r2, P r1 ->
         update_bb_edge c net r1 (tile_layer_num (clip_loc c pin_old_loc)) f
           (get_field (current_layer_edge s net (tile_layer_num (clip_loc c pin_old_loc))) f)
           (get_field (current_layer_coord s net (tile_layer_num (clip_loc c pin_old_loc))) f)
         = Some r2 -> P r2).
  1, 3: intros f r1 r2 H1 H2;
    destruct (update_bb_edge_flag _ _ _ _ _ _ _ _ H2) as [[_ (ed & cd & cn & Hs & ->)]| ->];
    [ unfold P; simpl; eapply get_layer_bb_from_scratch_in_range; eassumption
    | unfold P; simpl; apply set_vec_field_in_range; [exact H1|];
      intros Hl; apply get_field_in_range; apply Hcur; exact Hl ].
  all: assert (Px : 1 <= tile_x (clip_loc c pin_new_loc) <= grid_width c - 2)
         by (simpl; apply clip_in_range; assumption).
  all: assert (Py : 1 <= tile_y (clip_loc c pin_new_loc) <= grid_height c - 2)
         by (simpl; apply clip_in_range; assumption).
  all: assert (Parr : forall f b v r1, field_in_range c f v -> P r1 ->
         P (arrive_at_edge r1 (tile_layer_num (clip_loc c pin_old_loc)) f b v
              (current_layer_edge s net) (current_layer_coord s net))).
  1, 3: intros f b v r1 Hv H1; unfold arrive_at_edge;
    destruct b;
    [ unfold P; simpl; apply set_vec_field_in_range; [exact H1|intros _; exact Hv]
    | destruct (v =? _); [|exact H1];
      unfold P; simpl; apply set_vec_field_in_range; [exact H1|];
      intros Hl; apply get_field_in_range; apply Hcur; exact Hl ].
  all: assert (Padd : forall r1, P r1 ->
     P (mk_layer_scratch (ls_flag r1)
          (updz (ls_edge r1) (tile_layer_num (clip_loc c pin_new_loc))
             (fst (add_block_to_bb (clip_loc c pin_new_loc)
                     (current_layer_edge s net (tile_layer_num (clip_loc c pin_new_loc)))
                     (current_layer_coord s net (tile_layer_num (clip_loc c pin_new_loc)))
                     (ls_edge r1 (tile_layer_num (clip_loc c pin_new_loc)))
                     (ls_coord r1 (tile_layer_num (clip_loc c pin_new_loc))))))
          (updz (ls_coord r1) (tile_layer_num (clip_loc c pin_new_loc))
             (snd (add_block_to_bb (clip_loc c pin_new_loc)
                     (current_layer_edge s net (tile_layer_num (clip_loc c pin_new_loc)))
                     (current_layer_coord s net (tile_layer_num (clip_loc c pin_new_loc)))
                     (ls_edge r1 (tile_layer_num (clip_loc c pin_new_loc)))
                     (ls_coord r1 (tile_layer_num (clip_loc c pin_new_loc))))))
          (ls_count r1))).
  1, 3: intros r1 H1 l Hl; cbn [ls_coord]; unfold updz;
    destruct (l =? _) eqn:El; [|exact (H1 l Hl)];
    apply Z.eqb_eq in El; subst l;
    apply add_block_to_bb_in_range; [exact Px|exact Py|exact (H1 _ Hl)].
  all: assert (Hx : forall f b r1, f = F_xmin \/ f = F_xmax -> P r1 ->
         P (arrive_at_edge r1 (tile_layer_num (clip_loc c pin_old_loc)) f b
              (tile_x (clip_loc c pin_new_loc))
              (current_layer_edge s net) (current_layer_coord s net)))
         by (intros f b r1 [-> | ->] H1; apply Parr; try exact H1; exact Px).
  all: assert (Hy : forall f b r1, f = F_ymin \/ f = F_ymax -> P r1 ->
         P (arrive_at_edge r1 (tile_layer_num (clip_loc c pin_old_loc)) f b
              (tile_y (clip_loc c pin_new_loc))
              (current_layer_edge s net) (current_layer_coord s net)))
         by (intros f b r1 [-> | ->] H1; apply Parr; try exact H1; exact Py).
  all: destruct (negb (tile_layer_num pin_old_loc =? tile_layer_num pin_new_loc)).
  all: first
    [ exact (update_bb_layer_changed_closed c net P _ _ _ _ Pedge Padd
               (mk_layer_scratch UPDATED_ONCE _ _ cnt) r Hcur Hr)
    | exact (update_bb_same_layer_closed c net P _ _ _ _ Pedge Hx Hy
               (mk_layer_scratch UPDATED_ONCE _ _ cnt) r Hcur Hr) ].
Qed.

(** ** Sink counts per layer *)

Lemma zrange_NoDup (n : Z) : NoDup (zrange n).
Proof.
  unfold zrange. apply NoDup_map_NoDup_ForallPairs.
  - intros a b _ _ Hab. apply Nat2Z.inj. exact Hab.
  - apply seq_NoDup.
Qed.

Lemma sum_map_ext (f g : Z -> Z) (l : list Z) :
  (forall k, In k l -> f k = g k) ->
  fold_right Z.add 0 (map f l) = fold_right Z.add 0 (map g l).
Proof.
  induction l as [|a l IH]; intros H; simpl; [reflexivity|].
  rewrite (H a) by (left; reflexivity).
  rewrite IH; [reflexivity|]. intros k Hk. apply H. right. exact Hk.
Qed.

Lemma sum_map_updz (v : Z -> Z) (k x : Z) (l : list Z) :
  NoDup l -> In k l ->
  fold_right Z.add 0 (map (updz v k x) l) = fold_right Z.add 0 (map v l) + x - v k.
Proof.
  induction l as [|a l IH]; intros Hnd Hin; [destruct Hin|].
  inversion Hnd as [|a' l' Hnotin Hnd']; subst. simpl.
  destruct Hin as [->|Hin].
  - rewrite updz_same.
    rewrite (sum_map_ext (updz v k x) v l); [lia|].
    intros j Hj. apply updz_other. intros ->. contradiction.
  - rewrite IH by assumption.
    rewrite updz_other; [lia|]. intros ->. contradiction.
Qed.

Lemma sum_layers_ext (n : Z) (f g : Z -> Z) :
  (forall l, 0 <= l < n -> f l = g l) -> sum_layers n f = sum_layers n g.
Proof.
  intros H. unfold sum_layers. apply sum_map_ext.
  intros k Hk. apply H. apply zrange_bounds. exact Hk.
Qed.

Lemma sum_layers_updz (n : Z) (v : Z -> Z) (k x : Z) :
  0 <= k < n -> sum_layers n (updz v k x) = sum_layers n v + x - v k.
Proof.
  intros Hk. unfold sum_layers. apply sum_map_updz.
  - apply zrange_NoDup.
  - apply zrange_bounds. exact Hk.
Qed.

Lemma sum_layers_zero (n : Z) (v : Z -> Z) : sum_layers n (zero_layers n v) = 0.
Proof.
  rewrite (sum_layers_ext n _ (fun _ => 0)).
  - unfold sum_layers. induction (zrange n) as [|a l IH]; simpl; [reflexivity|exact IH].
  - intros l Hl. unfold zero_layers.
    destruct ((0 <=? l) && (l <? n)) eqn:E; [reflexivity|lia].
Qed.

Lemma copy_layers_inside {A : Type} (n : Z) (src dst : Z -> A) (l : Z) :
  0 <= l < n -> copy_layers n src dst l = src l.
Proof.
  intros Hl. unfold copy_layers.
  destruct ((0 <=? l) && (l <? n)) eqn:E; [reflexivity|lia].
Qed.

(** Moving a pin keeps the total of the sink counts. *)
Lemma sum_layers_moved (n : Z) (curr : Z -> Z) (old_layer new_layer : Z) (drv : bool) :
  0 <= old_layer < n -> 0 <= new_layer < n ->
  sum_layers n (moved_sink_count curr old_layer new_layer drv) = sum_layers n curr.
Proof.
  intros Ho Hn.
  destruct (drv || (old_layer =? new_layer)) eqn:E.
  - apply sum_layers_ext. intros l _. unfold moved_sink_count. rewrite E. reflexivity.
  - apply orb_false_iff in E. destruct E as [-> Hne].
    rewrite (sum_layers_ext n _
               (updz (updz curr old_layer (curr old_layer - 1)) new_layer
                  (curr new_layer + 1))).
    + apply Z.eqb_neq in Hne.
      rewrite sum_layers_updz by exact Hn.
      rewrite sum_layers_updz by exact Ho.
      rewrite updz_other by lia. lia.
    + intros l _. unfold moved_sink_count, updz. simpl. rewrite Hne.
      destruct (l =? new_layer) eqn:E1; [apply Z.eqb_eq in E1; subst l; reflexivity|].
      destruct (l =? old_layer) eqn:E2; [apply Z.eqb_eq in E2; subst l|]; reflexivity.
Qed.

Lemma update_bb_layer_counts_moved (c : vpr_ctx) (curr new0 : Z -> Z)
    (po pn : t_physical_tile_loc) (src_pin : bool) (l : Z) :
  1 < num_layers c -> 0 <= l < num_layers c ->
  update_bb_layer_counts c curr new0 po pn src_pin l
  = moved_sink_count curr (tile_layer_num po) (tile_layer_num pn) src_pin l.
Proof.
  intros Hn Hl. unfold update_bb_layer_counts, moved_sink_count.
  destruct (num_layers c >? 1) eqn:E; [|lia].
  destruct src_pin; simpl; [apply copy_layers_inside; exact Hl|].
  destruct (tile_layer_num po =? tile_layer_num pn) eqn:E2; simpl;
    [apply copy_layers_inside; exact Hl|].
  unfold updz.
  destruct (l =? tile_layer_num pn) eqn:E3; [apply Z.eqb_eq in E3; subst l; reflexivity|].
  destruct (l =? tile_layer_num po) eqn:E4; [apply Z.eqb_eq in E4; subst l; reflexivity|].
  apply copy_layers_inside. exact Hl.
Qed.

Lemma update_bb_pin_sink_count_moved (c : vpr_ctx) (po pn : t_physical_tile_loc)
    (curr new0 v : Z -> Z) (is_output_pin : bool) (l : Z) :
  0 <= tile_layer_num po < num_layers c -> 0 <= tile_layer_num pn < num_layers c ->
  update_bb_pin_sink_count c po pn curr new0 is_output_pin = Some v ->
  0 <= l < num_layers c ->
  v l = moved_sink_count curr (tile_layer_num po) (tile_layer_num pn) is_output_pin l.
Proof.
  intros Ho Hn H Hl. unfold update_bb_pin_sink_count, bind in H.
  destruct (vtr_assert _); [|discriminate].
  unfold moved_sink_count.
  destruct is_output_pin; simpl in *.
  - injection H as <-. apply copy_layers_inside. exact Hl.
  - injection H as <-. unfold updz.
    destruct (Z.eqb_spec l (tile_layer_num pn)) as [E1|E1];
      destruct (Z.eqb_spec (tile_layer_num pn) (tile_layer_num po)) as [E2|E2];
      destruct (Z.eqb_spec (tile_layer_num po) (tile_layer_num pn)) as [E3|E3];
      destruct (Z.eqb_spec l (tile_layer_num po)) as [E4|E4];
      try congruence; subst;
      rewrite ?copy_layers_inside by assumption; try lia; try congruence.
    rewrite E2. lia.
Qed.

(** The sink counts of a box found from scratch total the sinks of the net,
    each of which sits on a layer of the device. *)
Lemma from_scratch_sinks_total (c : vpr_ctx) (sinks : list ClusterPinId) :
  (forall pin, In pin sinks ->
     0 <= pl_layer (block_locs c (pin_block c pin)) < num_layers c) ->
  forall acc : scratch_acc,
    sum_layers (num_layers c) (snd (fold_left (from_scratch_sink c) sinks acc))
    = sum_layers (num_layers c) (snd acc) + Z.of_nat (length sinks).
Proof.
  induction sinks as [|pin sinks IH]; intros Hl acc; simpl fold_left.
  - simpl. lia.
  - rewrite IH by (intros p Hp; apply Hl; right; exact Hp).
    destruct acc as [[co ed] cnt]. unfold from_scratch_sink.
    destruct (scratch_axis _ (xmin co) _ _ _) as [[[a1 a2] a3] a4].
    destruct (scratch_axis _ (ymin co) _ _ _) as [[[b1 b2] b3] b4].
    cbn [snd].
    rewrite sum_layers_updz by (apply Hl; left; reflexivity).
    simpl length. lia.
Qed.

Lemma get_bb_from_scratch_total (c : vpr_ctx) (net : ClusterNetId) (cnt : Z -> Z) :
  (forall pin, In pin (net_sinks c net) ->
     0 <= pl_layer (block_locs c (pin_block c pin)) < num_layers c) ->
  sum_layers (num_layers c) (snd (get_bb_from_scratch c net cnt))
  = Z.of_nat (length (net_sinks c net)).
Proof.
  intros Hl. unfold get_bb_from_scratch.
  rewrite from_scratch_sinks_total by exact Hl.
  cbn [snd]. rewrite sum_layers_zero. lia.
Qed.

Lemma layer_from_scratch_fold_none (c : vpr_ctx) (sinks : list ClusterPinId) :
  fold_left (layer_from_scratch_sink c) sinks None = None.
Proof. induction sinks as [|pin sinks IH]; simpl; [reflexivity|exact IH]. Qed.

Lemma layer_from_scratch_sinks_total (c : vpr_ctx) (sinks : list ClusterPinId) :
  forall acc acc' : layer_scratch_acc,
    fold_left (layer_from_scratch_sink c) sinks (Some acc) = Some acc' ->
    sum_layers (num_layers c) (snd acc')
    = sum_layers (num_layers c) (snd acc) + Z.of_nat (length sinks).
Proof.
  induction sinks as [|pin sinks IH]; intros acc acc' H; simpl in H.
  - injection H as <-. simpl. lia.
  - destruct acc as [[co ed] cnt]. unfold bind in H.
    set (layer := pl_layer (block_locs c (pin_block c pin))) in H.
    destruct (vtr_assert ((layer >=? 0) && (layer <? num_layers c))) eqn:Ea.
    2: { rewrite layer_from_scratch_fold_none in H. discriminate. }
    unfold vtr_assert in Ea.
    destruct ((layer >=? 0) && (layer <? num_layers c)) eqn:Eb; [|discriminate].
    destruct (scratch_axis _ (xmin (co layer)) _ _ _) as [[[a1 a2] a3] a4].
    destruct (scratch_axis _ (ymin (co layer)) _ _ _) as [[[b1 b2] b3] b4].
    apply IH in H. rewrite H. cbn [snd].
    rewrite sum_layers_updz by lia.
    simpl length. lia.
Qed.

Lemma get_layer_bb_from_scratch_total (c : vpr_ctx) (net : ClusterNetId)
    (ed0 co0 : Z -> t_2D_bb) (cnt0 : Z -> Z) (ed co : Z -> t_2D_bb) (cnt : Z -> Z) :
  get_layer_bb_from_scratch c net ed0 co0 cnt0 = Some (ed, co, cnt) ->
  sum_layers (num_layers c) cnt = Z.of_nat (length (net_sinks c net)).
Proof.
  intros H. unfold get_layer_bb_from_scratch, bind in H.
  match type of H with
  | match ?u with _ => _ end = _ => destruct u as [[[co1 ed1] cnt1]|] eqn:E; [|discriminate]
  end.
  injection H as <- <- <-.
  apply layer_from_scratch_sinks_total in E. cbn [snd] in E.
  rewrite (sum_layers_ext _ _ cnt1) by (intros l Hl; apply copy_layers_inside; exact Hl).
  rewrite E.
  rewrite (sum_layers_ext _ (fun _ => 0) (zero_layers (num_layers c) (fun _ => 0))).
  - rewrite sum_layers_zero. lia.
  - intros l Hl. unfold zero_layers. destruct ((0 <=? l) && (l <? num_layers c)); reflexivity.
Qed.

(** The sink counts of the scratch record: kept by the incremental steps,
    recounted by a recomputation. *)

Lemma counts_kept_edge (c : vpr_ctx) (net : ClusterNetId) (cnt0 : Z -> Z)
    (r r' : layer_scratch) (layer : Z) (f : bb_field) (n co : Z) :
  counts_kept c net cnt0 r -> update_bb_edge c net r layer f n co = Some r' ->
  counts_kept c net cnt0 r'.
Proof.
  intros Hr H.
  destruct (update_bb_edge_flag _ _ _ _ _ _ _ _ H) as [[_ (ed & cd & cn & Hs & ->)]| ->].
  - split; [|intros Hne; exfalso; apply Hne; reflexivity].
    intros _. simpl. eapply get_layer_bb_from_scratch_total. exact Hs.
  - exact Hr.
Qed.

Lemma counts_kept_arrive (c : vpr_ctx) (net : ClusterNetId) (cnt0 : Z -> Z)
    (r : layer_scratch) (layer : Z) (f : bb_field) (b : bool) (v : Z)
    (ce cc : Z -> t_2D_bb) :
  counts_kept c net cnt0 r -> counts_kept c net cnt0 (arrive_at_edge r layer f b v ce cc).
Proof.
  unfold counts_kept.
  destruct (arrive_at_edge_flag r layer f b v ce cc) as [-> ->]. intros H. exact H.
Qed.

Lemma counts_kept_update (c : vpr_ctx) (net : ClusterNetId) (cnt0 : Z -> Z)
    (r r' : layer_scratch) (po pn : t_physical_tile_loc) (ce cc : Z -> t_2D_bb) :
  counts_kept c net cnt0 r ->
  (if negb (tile_layer_num po =? tile_layer_num pn)
   then update_bb_layer_changed c net r po pn ce cc
   else update_bb_same_layer c net r po pn ce cc) = Some r' ->
  counts_kept c net cnt0 r'.
Proof.
  intros Hr H.
  destruct (negb (tile_layer_num po =? tile_layer_num pn)).
  - eapply (update_bb_layer_changed_closed c net (counts_kept c net cnt0));
      [| |exact Hr|exact H].
    + intros; eapply counts_kept_edge; eassumption.
    + intros r1 H1. exact H1.
  - eapply (update_bb_same_layer_closed c net (counts_kept c net cnt0));
      [| | |exact Hr|exact H].
    + intros; eapply counts_kept_edge; eassumption.
    + intros; apply counts_kept_arrive; assumption.
    + intros; apply counts_kept_arrive; assumption.
Qed.

(** ** The first touch reads the committed values *)

Lemma update_layer_bb_run (c : vpr_ctx) (s : cost_state) (net : ClusterNetId)
    (pin_old_loc pin_new_loc : t_physical_tile_loc) (is_output_pin : bool)
    (cnt : Z -> Z) (r : layer_scratch) :
  bb_updated_before s net <> GOT_FROM_SCRATCH ->
  update_bb_pin_sink_count c (clip_loc c pin_old_loc) (clip_loc c pin_new_loc)
    (current_sink_count s net) (ts_layer_sink_pin_count s net) is_output_pin = Some cnt ->
  (if negb (tile_layer_num pin_old_loc =? tile_layer_num pin_new_loc)
   then update_bb_layer_changed c net
          (mk_layer_scratch UPDATED_ONCE (current_layer_edge s net)
             (current_layer_coord s net) cnt)
          (clip_loc c pin_old_loc) (clip_loc c pin_new_loc)
          (current_layer_edge s net) (current_layer_coord s net)
   else update_bb_same_layer c net
          (mk_layer_scratch UPDATED_ONCE (current_layer_edge s net)
             (current_layer_coord s net) cnt)
          (clip_loc c pin_old_loc) (clip_loc c pin_new_loc)
          (current_layer_edge s net) (current_layer_coord s net)) = Some r ->
  update_layer_bb c s net pin_old_loc pin_new_loc is_output_pin
  = Some (store_layer_scratch s net r).
Proof.
  intros Hflag Hcnt Hr.
  assert (Hm : flag_marked r).
  { destruct (negb (tile_layer_num pin_old_loc =? tile_layer_num pin_new_loc));
      [eapply flag_marked_layer_changed|eapply flag_marked_same_layer];
      try exact Hr; discriminate. }
  unfold update_layer_bb.
  unfold current_sink_count, current_layer_edge, current_layer_coord in Hcnt, Hr.
  destruct (bb_updated_before s net) eqn:E; [| |contradiction].
  all: simpl bb_flag_eqb in *; cbv iota; unfold bind.
  all: simpl tile_layer_num in *.
  all: rewrite Hcnt, Hr.
  all: unfold flag_marked in Hm; destruct (ls_flag r) eqn:Er; [contradiction| |];
       reflexivity.
Qed.



End EngineProperties.

Section BoxesThroughSwap.

Import NetCost.
Local Open Scope Z_scope.

Variable c : vpr_ctx.
Hypothesis Hwidth : 3 <= grid_width c.
Hypothesis Hheight : 3 <= grid_height c.

Lemma fold_left_establish {A B : Type} (P : A -> Prop) (f : A -> B -> A) (x : B)
    (l : list B) :
  (forall a, P (f a x)) ->
  (forall a b, P a -> P (f a b)) ->
  forall a, In x l \/ P a -> P (fold_left f l a).
Proof.
  intros Hmake Hkeep. induction l as [|b l IH]; intros a H; simpl.
  - destruct H as [[]|H]. exact H.
  - apply IH. destruct H as [[->|Hin]|Ha].
    + right. apply Hmake.
    + left. exact Hin.
    + right. apply Hkeep. exact Ha.
Qed.

(** *** The first cost computation *)

Lemma comp_bb_cost_net_makes (method : e_cost_methods) (net : ClusterNetId)
    (acc : option (cost_state * Q)) :
  net_is_ignored c net = false ->
  match comp_bb_cost_net c method acc net with
  | Some a => bb_in_range c (bb_coords (fst a) net)
  | None => True
  end.
Proof.
  intros Hign. destruct acc as [[sa qa]|]; [|exact I].
  unfold comp_bb_cost_net, bind. simpl. rewrite Hign. simpl.
  destruct ((Z.of_nat (length (net_sinks c net)) >=? SMALL_NET c)
            && match method with NORMAL => true | CHECK => false end).
  - pose proof (get_bb_from_scratch_in_range c net (num_sink_pin_layer sa net)
                  Hwidth Hheight) as Hr.
    destruct (get_bb_from_scratch c net (num_sink_pin_layer sa net)) as [[co ed] cnt].
    simpl in *. rewrite upd_same.
    destruct (get_net_cost c net co); simpl; [|exact I].
    rewrite upd_same. exact Hr.
  - pose proof (get_non_updatable_bb_in_range c net (num_sink_pin_layer sa net)
                  Hwidth Hheight) as Hr.
    simpl. rewrite upd_same.
    destruct (get_net_cost c net _); simpl; [|exact I].
    rewrite upd_same. exact Hr.
Qed.

Lemma comp_bb_cost_net_keeps (method : e_cost_methods) (net b : ClusterNetId)
    (acc : option (cost_state * Q)) :
  b <> net ->
  match acc with
  | Some a => bb_in_range c (bb_coords (fst a) net)
  | None => True
  end ->
  match comp_bb_cost_net c method acc b with
  | Some a => bb_in_range c (bb_coords (fst a) net)
  | None => True
  end.
Proof.
  intros Hne Ha. destruct acc as [[sa qa]|]; [|exact I].
  unfold comp_bb_cost_net, bind. simpl in *.
  destruct (net_is_ignored c b); simpl; [exact Ha|].
  assert (Hkeep : forall v, upd (bb_coords sa) b v net = bb_coords sa net).
  { intros v. apply upd_other. congruence. }
  destruct ((Z.of_nat (length (net_sinks c b)) >=? SMALL_NET c)
            && match method with NORMAL => true | CHECK => false end).
  - destruct (get_bb_from_scratch c b (num_sink_pin_layer sa b)) as [[co ed] cnt].
    simpl. destruct (get_net_cost c b _); simpl; [|exact I].
    rewrite Hkeep. exact Ha.
  - simpl. destruct (get_net_cost c b _); simpl; [|exact I].
    rewrite Hkeep. exact Ha.
Qed.

Lemma comp_bb_cost_in_range (s s' : cost_state) (method : e_cost_methods) (cost : Q)
    (net : ClusterNetId) :
  comp_bb_cost c s method = Some (s', cost) ->
  In net (nets c) -> net_is_ignored c net = false ->
  bb_in_range c (bb_coords s' net).
Proof.
  intros H Hin Hign. unfold comp_bb_cost in H.
  pose (P := fun acc : option (cost_state * Q) =>
               match acc with
               | Some a => bb_in_range c (bb_coords (fst a) net)
               | None => True
               end).
  assert (HP : P (fold_left (comp_bb_cost_net c method) (nets c) (Some (s, 0%Q)))).
  { apply (fold_left_establish P (comp_bb_cost_net c method) net).
    - intros a. apply comp_bb_cost_net_makes. exact Hign.
    - intros a b Ha. destruct (Nat.eq_dec b net) as [->|Hne].
      + apply comp_bb_cost_net_makes. exact Hign.
      + apply comp_bb_cost_net_keeps; assumption.
    - left. exact Hin. }
  rewrite H in HP. exact HP.
Qed.

Lemma comp_layer_bb_cost_net_makes (method : e_cost_methods) (net : ClusterNetId)
    (acc : option (cost_state * Q)) :
  net_is_ignored c net = false ->
  match comp_layer_bb_cost_net c method acc net with
  | Some a => layers_in_range c (layer_bb_coords (fst a) net)
  | None => True
  end.
Proof.
  intros Hign. destruct acc as [[sa qa]|]; [|exact I].
  unfold comp_layer_bb_cost_net, bind. simpl. rewrite Hign. simpl.
  destruct ((Z.of_nat (length (net_sinks c net)) >=? SMALL_NET c)
            && match method with NORMAL => true | CHECK => false end).
  - destruct (get_layer_bb_from_scratch c net (layer_bb_num_on_edges sa net)
                (layer_bb_coords sa net) (num_sink_pin_layer sa net))
      as [[[ed co] cnt]|] eqn:E; [|exact I].
    pose proof (get_layer_bb_from_scratch_in_range c net _ _ _ ed co cnt
                  Hwidth Hheight E) as Hr.
    simpl. rewrite upd_same.
    destruct (get_net_layer_cost c co _); simpl; [|exact I].
    rewrite upd_same. exact Hr.
  - pose proof (get_non_updatable_layer_bb_in_range c net (layer_bb_coords sa net)
                  (num_sink_pin_layer sa net) Hwidth Hheight) as Hr.
    simpl. rewrite upd_same.
    destruct (get_net_layer_cost c _ _); simpl; [|exact I].
    rewrite upd_same. exact Hr.
Qed.

Lemma comp_layer_bb_cost_net_keeps (method : e_cost_methods) (net b : ClusterNetId)
    (acc : option (cost_state * Q)) :
  b <> net ->
  match acc with
  | Some a => layers_in_range c (layer_bb_coords (fst a) net)
  | None => True
  end ->
  match comp_layer_bb_cost_net c method acc b with
  | Some a => layers_in_range c (layer_bb_coords (fst a) net)
  | None => True
  end.
Proof.
  intros Hne Ha. destruct acc as [[sa qa]|]; [|exact I].
  unfold comp_layer_bb_cost_net, bind. simpl in *.
  destruct (net_is_ignored c b); simpl; [exact Ha|].
  assert (Hkeep : forall v, upd (layer_bb_coords sa) b v net = layer_bb_coords sa net).
  { intros v. apply upd_other. congruence. }
  destruct ((Z.of_nat (length (net_sinks c b)) >=? SMALL_NET c)
            && match method with NORMAL => true | CHECK => false end).
  - destruct (get_layer_bb_from_scratch c b _ _ _) as [[[ed co] cnt]|]; [|exact I].
    simpl. destruct (get_net_layer_cost c _ _); simpl; [|exact I].
    rewrite Hkeep. exact Ha.
  - simpl. destruct (get_net_layer_cost c _ _); simpl; [|exact I].
    rewrite Hkeep. exact Ha.
Qed.

Lemma comp_layer_bb_cost_in_range (s s' : cost_state) (method : e_cost_methods)
    (cost : Q) (net : ClusterNetId) :
  comp_layer_bb_cost c s method = Some (s', cost) ->
  In net (nets c) -> net_is_ignored c net = false ->
  layers_in_range c (layer_bb_coords s' net).
Proof.
  intros H Hin Hign. unfold comp_layer_bb_cost in H.
  pose (P := fun acc : option (cost_state * Q) =>
               match acc with
               | Some a => layers_in_range c (layer_bb_coords (fst a) net)
               | None => True
               end).
  assert (HP : P (fold_left (comp_layer_bb_cost_net c method) (nets c) (Some (s, 0%Q)))).
  { apply (fold_left_establish P (comp_layer_bb_cost_net c method) net).
    - intros a. apply comp_layer_bb_cost_net_makes. exact Hign.
    - intros a b Ha. destruct (Nat.eq_dec b net) as [->|Hne].
      + apply comp_layer_bb_cost_net_makes. exact Hign.
      + apply comp_layer_bb_cost_net_keeps; assumption.
    - left. exact Hin. }
  rewrite H in HP. exact HP.
Qed.

(** *** Through a swap *)

Lemma box_invariant_start (net : ClusterNetId) (s : cost_state) :
  between_swaps s -> committed_box_in_range c s net -> box_invariant c net s 0.
Proof.
  intros Hclean Hbox. split; [exact Hbox|]. split.
  - intros Hflag. destruct (Hclean net) as [Hf _]. contradiction.
  - intros [i [Hi _]]. lia.
Qed.

Lemma box_update_net_bb (s : cost_state) (net : ClusterNetId) (blk : ClusterBlockId)
    (blk_pin : ClusterPinId) (mv : t_pl_moved_block) :
  bb_in_range c (bb_coords s net) ->
  (bb_updated_before s net <> NOT_UPDATED_YET -> bb_in_range c (ts_bb_coord_new s net)) ->
  bb_in_range c (ts_bb_coord_new (update_net_bb c s net blk blk_pin mv) net).
Proof.
  intros Hcom Hscr. unfold update_net_bb.
  destruct (Z.of_nat (length (net_sinks c net)) <? SMALL_NET c).
  - destruct (bb_flag_eqb (bb_updated_before s net) NOT_UPDATED_YET) eqn:E.
    + simpl. rewrite upd_same. apply get_non_updatable_bb_in_range; assumption.
    + apply Hscr. intros Hf. rewrite Hf in E. discriminate E.
  - apply update_bb_in_range; try assumption.
    unfold current_coord.
    destruct (bb_flag_eqb (bb_updated_before s net) NOT_UPDATED_YET) eqn:E.
    + exact Hcom.
    + apply Hscr. intros Hf. rewrite Hf in E. discriminate E.
Qed.

Lemma box_update_net_layer_bb (s s' : cost_state) (net : ClusterNetId)
    (blk : ClusterBlockId) (blk_pin : ClusterPinId) (mv : t_pl_moved_block) :
  layers_in_range c (layer_bb_coords s net) ->
  (bb_updated_before s net <> NOT_UPDATED_YET ->
   layers_in_range c (layer_ts_bb_coord_new s net)) ->
  update_net_layer_bb c s net blk blk_pin mv = Some s' ->
  layers_in_range c (layer_ts_bb_coord_new s' net).
Proof.
  intros Hcom Hscr H. unfold update_net_layer_bb in H.
  destruct (Z.of_nat (length (net_sinks c net)) <? SMALL_NET c).
  - destruct (bb_flag_eqb (bb_updated_before s net) NOT_UPDATED_YET) eqn:E;
      injection H as <-.
    + simpl. rewrite upd_same. apply get_non_updatable_layer_bb_in_range; assumption.
    + apply Hscr. intros Hf. rewrite Hf in E. discriminate E.
  - eapply update_layer_bb_in_range; try eassumption.
    unfold current_layer_coord.
    destruct (bb_flag_eqb (bb_updated_before s net) NOT_UPDATED_YET) eqn:E.
    + exact Hcom.
    + apply Hscr. intros Hf. rewrite Hf in E. discriminate E.
Qed.

Lemma committed_box_ext (s s' : cost_state) (net : ClusterNetId) :
  bb_coords s' net = bb_coords s net ->
  layer_bb_coords s' net = layer_bb_coords s net ->
  committed_box_in_range c s net -> committed_box_in_range c s' net.
Proof.
  unfold committed_box_in_range. intros -> ->. exact (fun H => H).
Qed.

Lemma scratch_box_ext (s s' : cost_state) (net : ClusterNetId) :
  ts_bb_coord_new s' net = ts_bb_coord_new s net ->
  layer_ts_bb_coord_new s' net = layer_ts_bb_coord_new s net ->
  scratch_box_in_range c s net -> scratch_box_in_range c s' net.
Proof.
  unfold scratch_box_in_range. intros -> ->. exact (fun H => H).
Qed.

(** Listing a net as affected leaves boxes and flags alone and lists no
    other net. *)
Lemma record_affected_net_boxes (s : cost_state) (net1 : ClusterNetId) (n : Z) :
  committed_same s (fst (record_affected_net s net1 n))
  /\ bb_updated_before (fst (record_affected_net s net1 n)) = bb_updated_before s
  /\ ts_bb_coord_new (fst (record_affected_net s net1 n)) = ts_bb_coord_new s
  /\ layer_ts_bb_coord_new (fst (record_affected_net s net1 n)) = layer_ts_bb_coord_new s
  /\ forall net,
       recorded (fst (record_affected_net s net1 n)) (snd (record_affected_net s net1 n)) net ->
       recorded s n net \/ net = net1.
Proof.
  unfold record_affected_net.
  destruct (Qltb (proposed_net_cost s net1) 0); simpl.
  - split; [unfold committed_same; simpl; repeat split|].
    split; [reflexivity|]. split; [reflexivity|]. split; [reflexivity|].
    intros net [i [Hi Hrec]]. simpl in Hrec.
    destruct (Z.eq_dec i n) as [->|Hne].
    + right. rewrite updz_same in Hrec. congruence.
    + left. rewrite updz_other in Hrec by exact Hne. exists i. split; [lia|exact Hrec].
  - split; [apply committed_same_refl|].
    split; [reflexivity|]. split; [reflexivity|]. split; [reflexivity|].
    intros net H. left. exact H.
Qed.

Lemma box_update_net_info_on_pin_move (net : ClusterNetId) (s s' : cost_state)
    (blk : ClusterBlockId) (pin : ClusterPinId) (mv : t_pl_moved_block) (n n' : Z) :
  box_invariant c net s n ->
  update_net_info_on_pin_move c s blk pin mv n = Some (s', n') ->
  box_invariant c net s' n'.
Proof.
  intros (Hcom & Hflag & Hrec) H. unfold update_net_info_on_pin_move in H.
  destruct (net_is_ignored c (pin_net c pin)).
  { injection H as <- <-. split; [exact Hcom|]. split; assumption. }
  destruct (record_affected_net_boxes s (pin_net c pin) n)
    as (Rc & Rf & Rt & Rl & Rrec).
  destruct (record_affected_net s (pin_net c pin) n) as [sr nr]. simpl in *.
  destruct Rc as (Rc1 & _ & Rc3 & _).
  assert (Hframe : trial_frame (pin_net c pin) sr s'
                   /\ n' = nr
                   /\ (net = pin_net c pin -> scratch_box_in_range c s' net)).
  { unfold committed_box_in_range, scratch_box_in_range in *.
    destruct (cube_bb c).
    - injection H as <- <-. split; [apply frame_update_net_bb|]. split; [reflexivity|].
      intros ->. apply box_update_net_bb.
      + rewrite Rc1. exact Hcom.
      + rewrite Rf, Rt. exact Hflag.
    - unfold bind in H.
      destruct (update_net_layer_bb c sr (pin_net c pin) blk pin mv) as [s2|] eqn:E;
        [|discriminate].
      injection H as <- <-. split; [eapply frame_update_net_layer_bb; exact E|].
      split; [reflexivity|].
      intros ->. eapply box_update_net_layer_bb; [| |exact E].
      + rewrite Rc3. exact Hcom.
      + rewrite Rf, Rl. exact Hflag. }
  destruct Hframe as ((Fc & _ & Ft & Fo) & -> & Hmine).
  destruct Fc as (Fc1 & _ & Fc3 & _).
  split.
  { apply (committed_box_ext s); [rewrite Fc1, Rc1|rewrite Fc3, Rc3|]; trivial. }
  destruct (Nat.eq_dec net (pin_net c pin)) as [Heq|Hne].
  { split; intros _; apply Hmine; exact Heq. }
  destruct (Fo net Hne) as (Ff & Fts & _ & _ & Flts & _).
  assert (Hsame : scratch_box_in_range c s net -> scratch_box_in_range c s' net).
  { apply scratch_box_ext; [rewrite Fts, Rt|rewrite Flts, Rl]; reflexivity. }
  split.
  - intros Hf. apply Hsame. apply Hflag. rewrite <- Rf, <- Ff. exact Hf.
  - intros [i [Hi Hr]]. apply Hsame. apply Hrec.
    destruct (Rrec net) as [Hold|Heq]; [|exact Hold|contradiction].
    exists i. rewrite <- Ft. split; assumption.
Qed.

Lemma box_update_block_pins (net : ClusterNetId) (mv : t_pl_moved_block)
    (acc : option (cost_state * Z)) :
  match acc with Some a => box_invariant c net (fst a) (snd a) | None => True end ->
  match update_block_pins c mv acc with
  | Some a => box_invariant c net (fst a) (snd a)
  | None => True
  end.
Proof.
  unfold update_block_pins.
  apply (fold_left_invariant
           (fun acc => match acc with
                       | Some a => box_invariant c net (fst a) (snd a)
                       | None => True
                       end)).
  intros a pin _ Ha. unfold bind. destruct a as [[s n]|]; [|exact I]. simpl in *.
  destruct (update_net_info_on_pin_move c s (block_num mv) pin mv n) as [[s' n']|] eqn:E;
    [|exact I].
  simpl. eapply box_update_net_info_on_pin_move; eassumption.
Qed.

Lemma box_price_affected_net (net : ClusterNetId) (n : Z)
    (acc : option (cost_state * Q)) (i : Z) :
  match acc with Some a => box_invariant c net (fst a) n | None => True end ->
  match price_affected_net c acc i with
  | Some a => box_invariant c net (fst a) n
  | None => True
  end.
Proof.
  intros Hacc. unfold price_affected_net, bind.
  destruct acc as [[s d]|]; [|exact I]. simpl in *.
  match goal with
  | |- match (match ?u with _ => _ end) with _ => _ end =>
      destruct u as [cost|]; [|exact I]
  end.
  simpl. exact Hacc.
Qed.

(** The boxes of [net] after the nets are found, updated and priced. *)
Lemma box_find_affected_nets (net : ClusterNetId) (s s1 : cost_state)
    (moved : list t_pl_moved_block) (n : Z) (delta : Q) :
  between_swaps s -> committed_box_in_range c s net ->
  find_affected_nets_and_update_costs c s moved = Some (s1, n, delta) ->
  box_invariant c net s1 n.
Proof.
  intros Hclean Hbox H. unfold find_affected_nets_and_update_costs, bind in H.
  assert (Hloop :
    match fold_left (fun acc blk => update_block_pins c blk acc) moved (Some (s, 0)) with
    | Some a => box_invariant c net (fst a) (snd a)
    | None => True
    end).
  { apply (fold_left_invariant
             (fun acc => match acc with
                         | Some a => box_invariant c net (fst a) (snd a)
                         | None => True
                         end)).
    - intros a blk _ Ha. apply box_update_block_pins. exact Ha.
    - simpl. apply box_invariant_start; assumption. }
  destruct (fold_left (fun acc blk => update_block_pins c blk acc) moved (Some (s, 0)))
    as [[sa na]|]; [|discriminate].
  simpl in *.
  assert (Hprice :
    match fold_left (price_affected_net c) (zrange na) (Some (sa, 0%Q)) with
    | Some a => box_invariant c net (fst a) na
    | None => True
    end).
  { apply (fold_left_invariant
             (fun acc => match acc with
                         | Some a => box_invariant c net (fst a) na
                         | None => True
                         end)).
    - intros a i _ Ha. apply box_price_affected_net. exact Ha.
    - exact Hloop. }
  destruct (fold_left (price_affected_net c) (zrange na) (Some (sa, 0%Q))) as [[sb db]|];
    [|discriminate].
  injection H as <- <- <-. exact Hprice.
Qed.

(** Keeping the swap copies scratch boxes that lie inside the device. *)
Lemma box_update_move_nets (net : ClusterNetId) (s : cost_state) (n : Z) :
  box_invariant c net s n ->
  committed_box_in_range c (update_move_nets c s n (cube_bb c)) net.
Proof.
  intros (Hcom & _ & Hrec). unfold update_move_nets.
  assert (Hloop : forall l s',
            (forall i, In i l -> 0 <= i < n) ->
            scratch_same s s' -> committed_box_in_range c s' net ->
            committed_box_in_range c (fold_left (update_move_net c (cube_bb c)) l s') net).
  { induction l as [|i l IH]; intros s' Hl Hs Hc'; simpl; [exact Hc'|].
    destruct (update_move_net_fields c (cube_bb c) s' i) as (Hs1 & _ & _).
    apply IH.
    - intros j Hj. apply Hl. right. exact Hj.
    - eapply scratch_same_trans; eassumption.
    - destruct Hs as (Ts & _ & _ & Tl & _ & Tn).
      destruct (Nat.eq_dec (ts_nets_to_update s' i) net) as [Heq|Hne].
      + assert (Hscr : scratch_box_in_range c s net).
        { apply Hrec. exists i. split; [apply Hl; left; reflexivity|].
          rewrite <- Tn. exact Heq. }
        unfold committed_box_in_range, scratch_box_in_range, update_move_net in *.
        rewrite Heq.
        destruct (cube_bb c);
          destruct (Z.of_nat (length (net_sinks c net)) >=? SMALL_NET c); simpl;
          rewrite upd_same; first [rewrite Ts | rewrite Tl]; exact Hscr.
      + unfold committed_box_in_range, update_move_net in *.
        destruct (cube_bb c);
          destruct (Z.of_nat (length (net_sinks c _)) >=? SMALL_NET c); simpl;
          rewrite upd_other by congruence; exact Hc'. }
  apply Hloop.
  - intros i Hi. apply zrange_bounds. exact Hi.
  - apply scratch_same_refl.
  - exact Hcom.
Qed.

Lemma box_reset_move_nets (net : ClusterNetId) (s : cost_state) (n : Z) :
  committed_box_in_range c s net ->
  committed_box_in_range c (reset_move_nets s n) net.
Proof.
  intros H. destruct (reset_loop (zrange n) s) as ((C1 & _ & C3 & _) & _).
  fold (reset_move_nets s n) in C1, C3.
  apply (committed_box_ext s); [rewrite C1|rewrite C3|]; trivial.
Qed.

End BoxesThroughSwap.

Section SwapTheorems.

Import NetCost.
Local Open Scope Z_scope.

(** ** The committed tables during a swap *)

Lemma committed_record_affected_net (s : cost_state) (net : ClusterNetId) (n : Z) :
  committed_same s (fst (record_affected_net s net n)).
Proof.
  unfold record_affected_net. destruct (Qltb _ _); simpl.
  - unfold committed_same. simpl. repeat split.
  - apply committed_same_refl.
Qed.

Lemma committed_update_net_info_on_pin_move (c : vpr_ctx) (s s' : cost_state)
    (blk : ClusterBlockId) (pin : ClusterPinId) (mv : t_pl_moved_block) (n n' : Z) :
  update_net_info_on_pin_move c s blk pin mv n = Some (s', n') ->
  committed_same s s'.
Proof.
  intros H. unfold update_net_info_on_pin_move in H.
  destruct (net_is_ignored c (pin_net c pin)).
  - injection H as <- <-. apply committed_same_refl.
  - pose proof (committed_record_affected_net s (pin_net c pin) n) as Hrec.
    destruct (record_affected_net s (pin_net c pin) n) as [s1 n1]. simpl in Hrec.
    destruct (cube_bb c).
    + injection H as <- <-.
      eapply committed_same_trans; [exact Hrec|].
      apply (frame_update_net_bb c s1 (pin_net c pin) blk pin mv).
    + unfold bind in H.
      destruct (update_net_layer_bb c s1 (pin_net c pin) blk pin mv) as [s2|] eqn:E;
        [|discriminate].
      injection H as <- <-.
      eapply committed_same_trans; [exact Hrec|].
      apply (frame_update_net_layer_bb c s1 s2 (pin_net c pin) blk pin mv E).
Qed.

Lemma committed_find_affected_nets (c : vpr_ctx) (s s1 : cost_state)
    (moved : list t_pl_moved_block) (n : Z) (delta : Q) :
  find_affected_nets_and_update_costs c s moved = Some (s1, n, delta) ->
  committed_same s s1.
Proof.
  intros H. unfold find_affected_nets_and_update_costs, bind in H.
  set (P := fun acc : option (cost_state * Z) =>
              match acc with Some a => committed_same s (fst a) | None => True end).
  assert (Hloop : P (fold_left (fun acc blk => update_block_pins c blk acc) moved
                       (Some (s, 0)))).
  { apply fold_left_invariant; [|apply committed_same_refl].
    intros a blk _ Ha. unfold update_block_pins.
    apply fold_left_invariant; [|exact Ha].
    intros a' pin _ Ha'. unfold bind. destruct a' as [[sa na]|]; [|exact I].
    simpl in *.
    destruct (update_net_info_on_pin_move c sa (block_num blk) pin blk na)
      as [[sb nb]|] eqn:E; [|exact I].
    simpl. eapply committed_same_trans; [exact Ha'|].
    eapply committed_update_net_info_on_pin_move. exact E. }
  destruct (fold_left (fun acc blk => update_block_pins c blk acc) moved (Some (s, 0)))
    as [[sa na]|]; [|discriminate].
  simpl in *.
  set (Pq := fun acc : option (cost_state * Q) =>
              match acc with Some a => committed_same s (fst a) | None => True end).
  assert (Hprice : Pq (fold_left (price_affected_net c) (zrange na) (Some (sa, 0%Q)))).
  { apply fold_left_invariant; [|exact Hloop].
    intros a i _ Ha. unfold price_affected_net, bind.
    destruct a as [[sb db]|]; [|exact I]. simpl in *.
    match goal with
    | |- Pq (match ?u with _ => _ end) => destruct u as [cost|]; [|exact I]
    end.
    simpl. eapply committed_same_trans; [exact Ha|].
    unfold committed_same. simpl. repeat split. }
  destruct (fold_left (price_affected_net c) (zrange na) (Some (sa, 0%Q))) as [[sb db]|];
    [|discriminate].
  injection H as <- <- <-. exact Hprice.
Qed.

(** C4.  When a swap is dropped, [reset_move_nets] resets the proposed cost
    (to -1) and the flag (to NOT_UPDATED_YET) of each affected net and
    nothing else: the committed costs, boxes, edge counts and sink counts are
    those from before the swap, and the scratch tables stay as the swap left
    them. *)
Theorem rollback_leaves_committed_state (c : vpr_ctx) (s s1 : cost_state)
    (moved : list t_pl_moved_block) (n : Z) (delta : Q) :
  find_affected_nets_and_update_costs c s moved = Some (s1, n, delta) ->
  (net_cost (reset_move_nets s1 n) = net_cost s
   /\ bb_coords (reset_move_nets s1 n) = bb_coords s
   /\ bb_num_on_edges (reset_move_nets s1 n) = bb_num_on_edges s
   /\ layer_bb_coords (reset_move_nets s1 n) = layer_bb_coords s
   /\ layer_bb_num_on_edges (reset_move_nets s1 n) = layer_bb_num_on_edges s
   /\ num_sink_pin_layer (reset_move_nets s1 n) = num_sink_pin_layer s)
  /\ scratch_same s1 (reset_move_nets s1 n)
  /\ (forall i, 0 <= i < n ->
        proposed_net_cost (reset_move_nets s1 n) (ts_nets_to_update s1 i) = (-1)%Q
        /\ bb_updated_before (reset_move_nets s1 n) (ts_nets_to_update s1 i)
           = NOT_UPDATED_YET)
  /\ (forall net, (forall i, 0 <= i < n -> ts_nets_to_update s1 i <> net) ->
        proposed_net_cost (reset_move_nets s1 n) net = proposed_net_cost s1 net
        /\ bb_updated_before (reset_move_nets s1 n) net = bb_updated_before s1 net).
Proof.
  intros H.
  pose proof (committed_find_affected_nets c s s1 moved n delta H) as Hcom.
  destruct (reset_loop (zrange n) s1) as (Hc & Hs & Hnets).
  fold (reset_move_nets s1 n) in Hc, Hs, Hnets.
  split.
  { destruct (committed_same_trans _ _ _ Hcom Hc) as (A1 & A2 & A3 & A4 & A5 & A6).
    repeat split; assumption. }
  split; [exact Hs|]. split.
  - intros i Hi.
    destruct (Hnets (ts_nets_to_update s1 i)) as [(Hf & Hp & _)|(_ & _ & Hnone)].
    + split; assumption.
    + exfalso. apply (Hnone i); [apply zrange_bounds; exact Hi|reflexivity].
  - intros net Hnot.
    destruct (Hnets net) as [(_ & _ & i & Hi & Hrec)|(Hf & Hp & _)].
    + exfalso. apply (Hnot i); [apply zrange_bounds; exact Hi|exact Hrec].
    + split; assumption.
Qed.

Lemma rollback_leaves_committed_state_witness :
  exists s1 n delta,
    find_affected_nets_and_update_costs (demo_after 2 false)
      (demo_placed (demo_before 2 false)) [demo_move]
    = Some (s1, n, delta)
    /\ net_cost (reset_move_nets s1 n) = net_cost (demo_placed (demo_before 2 false))
    /\ layer_bb_coords (reset_move_nets s1 n)
       = layer_bb_coords (demo_placed (demo_before 2 false))
    /\ num_sink_pin_layer (reset_move_nets s1 n)
       = num_sink_pin_layer (demo_placed (demo_before 2 false)).
Proof.
  assert (Hruns : completes (find_affected_nets_and_update_costs (demo_after 2 false)
      (demo_placed (demo_before 2 false)) [demo_move]) = true) by (vm_compute; reflexivity).
  destruct (find_affected_nets_and_update_costs (demo_after 2 false)
      (demo_placed (demo_before 2 false)) [demo_move]) as [[[s1 n] delta]|] eqn:E; [|discriminate Hruns].
  exists s1, n, delta. split; [reflexivity|].
  destruct (rollback_leaves_committed_state (demo_after 2 false)
              (demo_placed (demo_before 2 false)) s1 [demo_move] n delta E)
    as ((Hcost & _ & _ & Hlayer & _ & Hsinks) & _).
  split; [exact Hcost|]. split; [exact Hlayer|exact Hsinks].
Defined.




(** C5.  On a device of at least three columns and three rows every box the
    engine computes lies in columns 1 .. width - 2 and rows 1 .. height - 2,
    wherever the pins are: the boxes of [get_non_updatable_bb] and
    [get_bb_from_scratch], their per-layer counterparts, and the boxes
    [update_bb] and [update_layer_bb] leave when the box they start from,
    itself computed by the engine, lies there.  So the committed box of a
    net lies there after the first cost computation, and stays there through
    every swap, kept or dropped. *)
Theorem bounding_boxes_inside_device (c : vpr_ctx) :
  3 <= grid_width c -> 3 <= grid_height c ->
  (forall net cnt, bb_in_range c (fst (get_non_updatable_bb c net cnt)))
  /\ (forall net cnt, bb_in_range c (fst (fst (get_bb_from_scratch c net cnt))))
  /\ (forall s net po pn src,
        bb_in_range c (current_coord s net) ->
        bb_in_range c (ts_bb_coord_new (update_bb c s net po pn src) net))
  /\ (forall net co cnt,
        layers_in_range c (fst (get_non_updatable_layer_bb c net co cnt)))
  /\ (forall net ed0 co0 cnt0 ed co cnt,
        get_layer_bb_from_scratch c net ed0 co0 cnt0 = Some (ed, co, cnt) ->
        layers_in_range c co)
  /\ (forall s s' net po pn out,
        layers_in_range c (current_layer_coord s net) ->
        update_layer_bb c s net po pn out = Some s' ->
        layers_in_range c (layer_ts_bb_coord_new s' net))
  /\ (forall s s' method cost net,
        In net (nets c) -> net_is_ignored c net = false ->
        (comp_bb_cost c s method = Some (s', cost) ->
         bb_in_range c (bb_coords s' net))
        /\ (comp_layer_bb_cost c s method = Some (s', cost) ->
            layers_in_range c (layer_bb_coords s' net)))
  /\ (forall s moved s1 n delta net,
        between_swaps s ->
        committed_box_in_range c s net ->
        find_affected_nets_and_update_costs c s moved = Some (s1, n, delta) ->
        committed_box_in_range c (update_move_nets c s1 n (cube_bb c)) net
        /\ committed_box_in_range c (reset_move_nets s1 n) net).
Proof.
  intros Hw Hh. split; [|split; [|split; [|split; [|split; [|split; [|split]]]]]].
  - intros. apply get_non_updatable_bb_in_range; assumption.
  - intros. apply get_bb_from_scratch_in_range; assumption.
  - intros. apply update_bb_in_range; assumption.
  - intros. apply get_non_updatable_layer_bb_in_range; assumption.
  - intros. eapply get_layer_bb_from_scratch_in_range; eassumption.
  - intros. eapply update_layer_bb_in_range; eassumption.
  - intros s s' method cost net Hin Hign. split; intros H.
    + eapply comp_bb_cost_in_range; eassumption.
    + eapply comp_layer_bb_cost_in_range; eassumption.
  - intros s moved s1 n delta net Hclean Hbox H.
    pose proof (box_find_affected_nets c Hw Hh net s s1 moved n delta Hclean Hbox H)
      as Hinv.
    split.
    + apply box_update_move_nets. exact Hinv.
    + apply box_reset_move_nets.
      destruct (committed_find_affected_nets c s s1 moved n delta H)
        as (C1 & _ & C3 & _).
      apply (committed_box_ext c s); [rewrite C1|rewrite C3|]; trivial.
Qed.

Lemma bounding_boxes_inside_device_witness :
  bb_in_range (demo_after 1 true)
    (fst (fst (get_bb_from_scratch (demo_after 1 true) 0%nat (fun _ => 0))))
  /\ bb_in_range (demo_after 1 true)
       (ts_bb_coord_new
          (update_bb (demo_after 1 true) (demo_placed (demo_before 1 true)) 0%nat
             (mk_tile_loc 1 1 0) (mk_tile_loc 9 (-3) 0) false) 0%nat)
  /\ exists s1 n delta,
       find_affected_nets_and_update_costs (demo_after 1 true)
         (demo_placed (demo_before 1 true)) [demo_move]
       = Some (s1, n, delta)
       /\ committed_box_in_range (demo_after 1 true)
            (update_move_nets (demo_after 1 true) s1 n true) 0%nat.
Proof.
  destruct (bounding_boxes_inside_device (demo_after 1 true))
    as (_ & Hscratch & Hupdate & _ & _ & _ & _ & Hswap).
  - vm_compute. discriminate.
  - vm_compute. discriminate.
  - split; [apply (Hscratch 0%nat (fun _ => 0))|].
    split.
    { apply (Hupdate (demo_placed (demo_before 1 true)) 0%nat
               (mk_tile_loc 1 1 0) (mk_tile_loc 9 (-3) 0) false).
      vm_compute. repeat split; discriminate. }
    assert (Hruns : completes (find_affected_nets_and_update_costs (demo_after 1 true)
                                 (demo_placed (demo_before 1 true)) [demo_move]) = true)
      by (vm_compute; reflexivity).
    destruct (find_affected_nets_and_update_costs (demo_after 1 true)
                (demo_placed (demo_before 1 true)) [demo_move])
      as [[[s1 n] delta]|] eqn:E; [|discriminate Hruns].
    exists s1, n, delta. split; [reflexivity|].
    apply (Hswap (demo_placed (demo_before 1 true)) [demo_move] s1 n delta 0%nat).
    + intros net. split; vm_compute; reflexivity.
    + vm_compute. repeat split; discriminate.
    + exact E.
Defined.

Lemma update_bb_counts (c : vpr_ctx) (s : cost_state) (net : ClusterNetId)
    (po pn : t_physical_tile_loc) (src : bool) :
  bb_updated_before s net <> GOT_FROM_SCRATCH ->
  (bb_updated_before (update_bb c s net po pn src) net = UPDATED_ONCE
   /\ ts_layer_sink_pin_count (update_bb c s net po pn src) net
      = update_bb_layer_counts c (current_sink_count s net)
          (ts_layer_sink_pin_count s net) (clip_loc c po) (clip_loc c pn) src)
  \/ (bb_updated_before (update_bb c s net po pn src) net = GOT_FROM_SCRATCH
      /\ ts_layer_sink_pin_count (update_bb c s net po pn src) net
         = snd (get_bb_from_scratch c net (ts_layer_sink_pin_count s net))).
Proof.
  intros Hflag. rewrite update_bb_unfold by exact Hflag.
  assert (Hscr :
    bb_updated_before (update_bb_from_scratch c (touch s net) net) net = GOT_FROM_SCRATCH
    /\ ts_layer_sink_pin_count (update_bb_from_scratch c (touch s net) net) net
       = snd (get_bb_from_scratch c net (ts_layer_sink_pin_count s net))).
  { split; [apply flag_update_bb_from_scratch|].
    destruct (update_bb_from_scratch_fields c (touch s net) net) as (_ & _ & ->).
    destruct (touch_fields s net) as (_ & _ & ->). reflexivity. }
  destruct (update_axis _ _ (xmin _) _ _ _) as [[[[a1 a2] a3] a4]|]; [|right; exact Hscr].
  destruct (update_axis _ _ (ymin _) _ _ _) as [[[[b1 b2] b3] b4]|]; [|right; exact Hscr].
  left. simpl. rewrite upd_same. split; [|reflexivity].
  apply touch_flag. exact Hflag.
Qed.

(** C10, as the claim has it, fails on a device of a single layer: [update_bb]
    completes the update of net 0 incrementally there without writing the
    scratch sink counts, which stay at [OPEN] while the net has five sinks,
    and the swap, once kept, makes that the committed count. *)
Lemma single_layer_update_skips_sink_counts :
  bb_updated_before
    (update_bb (demo_after 1 true) (demo_placed (demo_before 1 true)) 0%nat
       (mk_tile_loc 1 1 0) (mk_tile_loc 3 3 0) false) 0%nat = UPDATED_ONCE
  /\ Z.of_nat (length (net_sinks (demo_after 1 true) 0%nat)) = 5
  /\ current_sink_count (demo_placed (demo_before 1 true)) 0%nat 0 = 5
  /\ sum_layers 1
       (ts_layer_sink_pin_count
          (update_bb (demo_after 1 true) (demo_placed (demo_before 1 true)) 0%nat
             (mk_tile_loc 1 1 0) (mk_tile_loc 3 3 0) false) 0%nat) = -1
  /\ option_map
       (fun r => sum_layers 1
                   (num_sink_pin_layer
                      (update_move_nets (demo_after 1 true) (fst (fst r)) (snd (fst r)) true)
                      0%nat))
       (find_affected_nets_and_update_costs (demo_after 1 true)
          (demo_placed (demo_before 1 true)) [demo_move]) = Some (-1).
Proof. repeat split; vm_compute; reflexivity. Qed.

(** C10 as amended.  On a device of more than one layer, and for the
    per-layer kind of box on any device, an update that completes
    incrementally changes the sink counts of the net only when the moved pin
    is a sink that changes layer, by one less on the old layer and one more on
    the new one; the total over the layers stays what it was.  When the
    update falls back to recomputing the box, the counts are recounted and
    total the sinks of the net. *)
Theorem sink_counts_follow_moved_pin (c : vpr_ctx) :
  (forall po pn curr new0 is_output_pin v,
      0 <= tile_layer_num po < num_layers c ->
      0 <= tile_layer_num pn < num_layers c ->
      update_bb_pin_sink_count c po pn curr new0 is_output_pin = Some v ->
      (forall l, 0 <= l < num_layers c ->
         v l = moved_sink_count curr (tile_layer_num po) (tile_layer_num pn)
                 is_output_pin l)
      /\ sum_layers (num_layers c) v = sum_layers (num_layers c) curr)
  /\ (forall s net po pn src,
        1 < num_layers c ->
        0 <= tile_layer_num po < num_layers c ->
        0 <= tile_layer_num pn < num_layers c ->
        bb_updated_before s net <> GOT_FROM_SCRATCH ->
        (bb_updated_before (update_bb c s net po pn src) net = UPDATED_ONCE ->
         (forall l, 0 <= l < num_layers c ->
            ts_layer_sink_pin_count (update_bb c s net po pn src) net l
            = moved_sink_count (current_sink_count s net)
                (tile_layer_num po) (tile_layer_num pn) src l)
         /\ sum_layers (num_layers c)
              (ts_layer_sink_pin_count (update_bb c s net po pn src) net)
            = sum_layers (num_layers c) (current_sink_count s net))
        /\ (bb_updated_before (update_bb c s net po pn src) net = GOT_FROM_SCRATCH ->
            (forall pin, In pin (net_sinks c net) ->
               0 <= pl_layer (block_locs c (pin_block c pin)) < num_layers c) ->
            sum_layers (num_layers c)
              (ts_layer_sink_pin_count (update_bb c s net po pn src) net)
            = Z.of_nat (length (net_sinks c net))))
  /\ (forall s s' net po pn is_output_pin,
        0 <= tile_layer_num po < num_layers c ->
        0 <= tile_layer_num pn < num_layers c ->
        bb_updated_before s net <> GOT_FROM_SCRATCH ->
        update_layer_bb c s net po pn is_output_pin = Some s' ->
        (bb_updated_before s' net = UPDATED_ONCE ->
         (forall l, 0 <= l < num_layers c ->
            ts_layer_sink_pin_count s' net l
            = moved_sink_count (current_sink_count s net)
                (tile_layer_num po) (tile_layer_num pn) is_output_pin l)
         /\ sum_layers (num_layers c) (ts_layer_sink_pin_count s' net)
            = sum_layers (num_layers c) (current_sink_count s net))
        /\ (bb_updated_before s' net = GOT_FROM_SCRATCH ->
            sum_layers (num_layers c) (ts_layer_sink_pin_count s' net)
            = Z.of_nat (length (net_sinks c net)))).
Proof.
  split; [|split].
  - intros po pn curr new0 out v Ho Hn H.
    assert (Hpt : forall l, 0 <= l < num_layers c ->
              v l = moved_sink_count curr (tile_layer_num po) (tile_layer_num pn) out l).
    { intros l Hl. eapply update_bb_pin_sink_count_moved; eassumption. }
    split; [exact Hpt|].
    rewrite (sum_layers_ext _ v _ Hpt). apply sum_layers_moved; assumption.
  - intros s net po pn src Hlayers Ho Hn Hflag.
    destruct (update_bb_counts c s net po pn src Hflag) as [[Hf Hc]|[Hf Hc]].
    + split; [|intros Hs; congruence].
      intros _.
      assert (Hpt : forall l, 0 <= l < num_layers c ->
                ts_layer_sink_pin_count (update_bb c s net po pn src) net l
                = moved_sink_count (current_sink_count s net)
                    (tile_layer_num po) (tile_layer_num pn) src l).
      { intros l Hl. rewrite Hc.
        rewrite update_bb_layer_counts_moved by assumption. reflexivity. }
      split; [exact Hpt|].
      rewrite (sum_layers_ext _ _ _ Hpt). apply sum_layers_moved; assumption.
    + split; [intros Hu; congruence|].
      intros _ Hsinks. rewrite Hc. apply get_bb_from_scratch_total. exact Hsinks.
  - intros s s' net po pn out Ho Hn Hflag H.
    destruct (update_layer_bb_inv c s s' net po pn out Hflag H)
      as (cnt & r & Hcnt & Hr & _ & ->).
    destruct (store_layer_scratch_fields net s r) as (-> & _ & _ & ->).
    assert (Hkept : counts_kept c net cnt r).
    { eapply counts_kept_update; [|exact Hr].
      split; [discriminate|reflexivity]. }
    destruct Hkept as [Hscr Hinc].
    split; [|exact Hscr].
    intros Hu. rewrite Hinc by congruence.
    assert (Hpt : forall l, 0 <= l < num_layers c ->
              cnt l = moved_sink_count (current_sink_count s net)
                        (tile_layer_num po) (tile_layer_num pn) out l).
    { intros l Hl.
      apply (update_bb_pin_sink_count_moved c (clip_loc c po) (clip_loc c pn)
               (current_sink_count s net) (ts_layer_sink_pin_count s net) cnt out l);
        assumption. }
    split; [exact Hpt|].
    rewrite (sum_layers_ext _ cnt _ Hpt). apply sum_layers_moved; assumption.
Qed.

Lemma sink_counts_follow_moved_pin_witness :
  (forall l, 0 <= l < 2 ->
     ts_layer_sink_pin_count
       (update_bb (demo_after 2 true) (demo_placed (demo_before 2 true)) 0%nat
          (mk_tile_loc 1 1 0) (mk_tile_loc 3 3 1) false) 0%nat l
     = moved_sink_count (current_sink_count (demo_placed (demo_before 2 true)) 0%nat)
         0 1 false l)
  /\ sum_layers 2
       (ts_layer_sink_pin_count
          (update_bb (demo_after 2 true) (demo_placed (demo_before 2 true)) 0%nat
             (mk_tile_loc 1 1 0) (mk_tile_loc 3 3 1) false) 0%nat)
     = sum_layers 2 (current_sink_count (demo_placed (demo_before 2 true)) 0%nat).
Proof.
  destruct (proj1 (proj2 (sink_counts_follow_moved_pin (demo_after 2 true)))
              (demo_placed (demo_before 2 true)) 0%nat
              (mk_tile_loc 1 1 0) (mk_tile_loc 3 3 1) false) as [Hinc _].
  - reflexivity.
  - vm_compute. split; [discriminate|reflexivity].
  - vm_compute. split; [discriminate|reflexivity].
  - vm_compute. discriminate.
  - apply Hinc. vm_compute. reflexivity.
Defined.

End SwapTheorems.

Section ConsistencyCheck.

Import NetCost.
Local Open Scope Q_scope.

Lemma out_of_tolerance_true (new_v old_v : Q) :
  out_of_tolerance new_v old_v = true <-> differs_beyond_tolerance new_v old_v.
Proof. unfold out_of_tolerance, differs_beyond_tolerance. apply Qltb_true. Qed.

Lemma out_of_tolerance_false (new_v old_v : Q) :
  out_of_tolerance new_v old_v = false <-> ~ differs_beyond_tolerance new_v old_v.
Proof. unfold out_of_tolerance, differs_beyond_tolerance. apply Qltb_false. Qed.

(** C6.  With a placement algorithm that is timing driven or bounding-box
    driven, [recompute_costs_from_scratch] ends in the fatal placement error
    exactly when a recomputed cost is further from the tracked one than
    [ERROR_TOL] times the tracked one: the bounding-box cost; when timing
    driven, the timing cost; when the NoC is on, the aggregate bandwidth cost
    and, only if the recomputed latency cost is above the minimum expected
    one, the latency cost.  When it returns, every cost it compared is within
    the tolerance and has been replaced by the recomputed one. *)
Theorem consistency_check_fatal_iff (c : vpr_ctx) (s : cost_state)
    (inp : recompute_inputs) (costs : t_placer_costs) :
  is_timing_driven inp = true \/ is_bounding_box_place inp = true ->
  ((exists e, recompute_costs_from_scratch c s inp costs = Fatal e)
   <-> (differs_beyond_tolerance (recompute_bb_cost c s) (bb_cost costs)
        \/ (is_timing_driven inp = true
            /\ differs_beyond_tolerance (new_timing_cost inp) (timing_cost costs))
        \/ (noc inp = true
            /\ differs_beyond_tolerance (new_noc_aggregate_bandwidth_cost inp)
                 (noc_aggregate_bandwidth_cost costs))
        \/ (noc inp = true
            /\ MIN_EXPECTED_NOC_LATENCY_COST inp < new_noc_latency_cost inp
            /\ differs_beyond_tolerance (new_noc_latency_cost inp)
                 (noc_latency_cost costs))))
  /\ (forall costs',
        recompute_costs_from_scratch c s inp costs = Returned costs' ->
        (bb_cost costs' = recompute_bb_cost c s
         /\ ~ differs_beyond_tolerance (recompute_bb_cost c s) (bb_cost costs))
        /\ (is_timing_driven inp = true ->
            timing_cost costs' = new_timing_cost inp
            /\ ~ differs_beyond_tolerance (new_timing_cost inp) (timing_cost costs))
        /\ (noc inp = true ->
            noc_aggregate_bandwidth_cost costs' = new_noc_aggregate_bandwidth_cost inp
            /\ noc_latency_cost costs' = new_noc_latency_cost inp
            /\ ~ differs_beyond_tolerance (new_noc_aggregate_bandwidth_cost inp)
                   (noc_aggregate_bandwidth_cost costs)
            /\ (MIN_EXPECTED_NOC_LATENCY_COST inp < new_noc_latency_cost inp ->
                ~ differs_beyond_tolerance (new_noc_latency_cost inp)
                    (noc_latency_cost costs)))).
Proof.
  intros Halgo. unfold recompute_costs_from_scratch.
  destruct (out_of_tolerance (recompute_bb_cost c s) (bb_cost costs)) eqn:Ebb.
  { apply out_of_tolerance_true in Ebb. split.
    - split; [intros _; left; exact Ebb|intros _; eauto].
    - intros costs' H. discriminate. }
  apply out_of_tolerance_false in Ebb.
  destruct (is_timing_driven inp) eqn:Etd; simpl.
  - destruct (out_of_tolerance (new_timing_cost inp) (timing_cost costs)) eqn:Et.
    { apply out_of_tolerance_true in Et. split.
      - split; [intros _; right; left; split; [reflexivity|exact Et]|intros _; eauto].
      - intros costs' H. discriminate. }
    apply out_of_tolerance_false in Et.
    destruct (noc inp) eqn:Enoc; simpl.
    + destruct (out_of_tolerance (new_noc_aggregate_bandwidth_cost inp)
                  (noc_aggregate_bandwidth_cost costs)) eqn:Ebw.
      { apply out_of_tolerance_true in Ebw. split.
        - split; [intros _; right; right; left; split; [reflexivity|exact Ebw]
                 |intros _; eauto].
        - intros costs' H. discriminate. }
      apply out_of_tolerance_false in Ebw.
      destruct (Qltb (MIN_EXPECTED_NOC_LATENCY_COST inp) (new_noc_latency_cost inp))
        eqn:Emin; simpl.
      * apply Qltb_true in Emin.
        destruct (out_of_tolerance (new_noc_latency_cost inp) (noc_latency_cost costs))
          eqn:El.
        { apply out_of_tolerance_true in El. split.
          - split; [intros _; right; right; right; repeat split; assumption
                   |intros _; eauto].
          - intros costs' H. discriminate. }
        apply out_of_tolerance_false in El. split.
        -- split; [intros [e He]; discriminate|].
           intros [H|[[_ H]|[[_ H]|(_ & _ & H)]]]; contradiction.
        -- intros costs' H. injection H as <-. simpl.
           repeat split; try assumption; try reflexivity; intros; assumption.
      * apply Qltb_false in Emin. split.
        -- split; [intros [e He]; discriminate|].
           intros [H|[[_ H]|[[_ H]|(_ & H & _)]]]; contradiction.
        -- intros costs' H. injection H as <-. simpl.
           repeat split; try assumption; try reflexivity; intros; contradiction.
    + split.
      * split; [intros [e He]; discriminate|].
        intros [H|[[_ H]|[[H _]|(H & _)]]]; try contradiction; discriminate.
      * intros costs' H. injection H as <-. simpl.
        repeat split; try assumption; try reflexivity; intros; discriminate.
  - destruct Halgo as [Halgo|Halgo]; [discriminate|]. rewrite Halgo.
    destruct (noc inp) eqn:Enoc; simpl.
    + destruct (out_of_tolerance (new_noc_aggregate_bandwidth_cost inp)
                  (noc_aggregate_bandwidth_cost costs)) eqn:Ebw.
      { apply out_of_tolerance_true in Ebw. split.
        - split; [intros _; right; right; left; split; [reflexivity|exact Ebw]
                 |intros _; eauto].
        - intros costs' H. discriminate. }
      apply out_of_tolerance_false in Ebw.
      destruct (Qltb (MIN_EXPECTED_NOC_LATENCY_COST inp) (new_noc_latency_cost inp))
        eqn:Emin; simpl.
      * apply Qltb_true in Emin.
        destruct (out_of_tolerance (new_noc_latency_cost inp) (noc_latency_cost costs))
          eqn:El.
        { apply out_of_tolerance_true in El. split.
          - split; [intros _; right; right; right; repeat split; assumption
                   |intros _; eauto].
          - intros costs' H. discriminate. }
        apply out_of_tolerance_false in El. split.
        -- split; [intros [e He]; discriminate|].
           intros [H|[[H _]|[[_ H]|(_ & _ & H)]]]; try contradiction; discriminate.
        -- intros costs' H. injection H as <-. simpl.
           repeat split; try assumption; try reflexivity; intros;
             try assumption; discriminate.
      * apply Qltb_false in Emin. split.
        -- split; [intros [e He]; discriminate|].
           intros [H|[[H _]|[[_ H]|(_ & H & _)]]]; try contradiction; discriminate.
        -- intros costs' H. injection H as <-. simpl.
           repeat split; try assumption; try reflexivity; intros;
             try contradiction; discriminate.
    + split.
      * split; [intros [e He]; discriminate|].
        intros [H|[[H _]|[[H _]|(H & _)]]]; try contradiction; discriminate.
      * intros costs' H. injection H as <-. simpl.
        repeat split; try assumption; try reflexivity; intros; discriminate.
Qed.

Lemma consistency_check_fatal_iff_witness :
  exists e,
    recompute_costs_from_scratch (demo_before 1 true) (demo_placed (demo_before 1 true))
      demo_inputs (demo_costs 1%Q) = Fatal e.
Proof.
  apply (proj1 (consistency_check_fatal_iff (demo_before 1 true)
                  (demo_placed (demo_before 1 true)) demo_inputs (demo_costs 1%Q)
                  (or_intror eq_refl))).
  left. vm_compute. reflexivity.
Defined.

End ConsistencyCheck.

Section PanelProperties.

Import String Ascii.
Import ManualMoves.
Local Open Scope Z_scope.

Lemma same_location_test (x y st : Z) (loc : t_pl_loc) :
  ((x =? pl_x loc) && (y =? pl_y loc) && (st =? pl_sub_tile loc))%bool = true
  <-> mk_pl_loc x y st = loc.
Proof.
  destruct loc as [lx ly ls]. simpl.
  rewrite !andb_true_iff, !Z.eqb_eq. split.
  - intros [[-> ->] ->]. reflexivity.
  - intros H. injection H as -> -> ->. auto.
Qed.

Lemma empty_fields_test (b x y st : string) :
  (empty b || empty x || empty y || empty st)%bool = true <-> some_field_empty b x y st.
Proof.
  unfold some_field_empty. rewrite !orb_true_iff. tauto.
Qed.

(** The handler, by the outcome of its four tests. *)
Lemma calculate_cost_callback_cases (e : panel_ctx) (g : ManualMovesGlobals)
    (b x y st : string) :
  let id := entered_block e b in
  let to := entered_location x y st in
  let rejected :=
    mk_globals
      (mk_info (blockID (manual_move_info g)) (x_pos (manual_move_info g))
         (y_pos (manual_move_info g)) (subtile (manual_move_info g))
         (to_location (manual_move_info g)) false
         (delta_cost (manual_move_info g)) (delta_timing (manual_move_info g))
         (delta_bounding_box (manual_move_info g))
         (placer_move_outcome (manual_move_info g))
         (user_move_outcome (manual_move_info g)))
      (mm_window_is_open g) (user_highlighted_block g) (manual_move_flag g) in
  let accepted :=
    mk_globals
      (mk_info id (pl_x to) (pl_y to) (pl_sub_tile to) to true
         (delta_cost (manual_move_info g)) (delta_timing (manual_move_info g))
         (delta_bounding_box (manual_move_info g))
         (placer_move_outcome (manual_move_info g))
         (user_move_outcome (manual_move_info g)))
      (mm_window_is_open g) (user_highlighted_block g) (manual_move_flag g) in
  let messages :=
    (if valid_block_id e id then []
     else [invalid_breakpoint_entry_window "Invalid block ID/Name"%string])
    ++ (if (pl_x to =? pl_x (block_locs e id)) && (pl_y to =? pl_y (block_locs e id))
           && (pl_sub_tile to =? pl_sub_tile (block_locs e id))
        then [invalid_breakpoint_entry_window "The block is currently in this location"%string]
        else [])
    ++ (if empty b || empty x || empty y || empty st
        then [invalid_breakpoint_entry_window "Not all fields are complete"%string]
        else []) in
  calculate_cost_callback e g b x y st
  = if valid_block_id e id && is_legal_swap_to_location e id to
       && negb ((pl_x to =? pl_x (block_locs e id)) && (pl_y to =? pl_y (block_locs e id))
                && (pl_sub_tile to =? pl_sub_tile (block_locs e id)))
       && negb (empty b || empty x || empty y || empty st)
    then (accepted, [deselect_all; draw_highlight_blocks_color id; refresh_drawing;
                     press_proceed])
    else (rejected, messages).
Proof.
  intros id to rejected accepted messages.
  unfold calculate_cost_callback.
  fold (entered_block e b). fold id.
  change (mk_pl_loc (atoi x) (atoi y) (atoi st)) with to.
  change (atoi x) with (pl_x to). change (atoi y) with (pl_y to).
  change (atoi st) with (pl_sub_tile to).
  subst messages.
  destruct (valid_block_id e id); destruct (is_legal_swap_to_location e id to);
    destruct ((pl_x to =? pl_x (block_locs e id)) && (pl_y to =? pl_y (block_locs e id))
              && (pl_sub_tile to =? pl_sub_tile (block_locs e id)))%bool;
    destruct (empty b || empty x || empty y || empty st)%bool; reflexivity.
Qed.

Lemma all_checks_pass_test (e : panel_ctx) (b x y st : string) :
  let id := entered_block e b in
  let to := entered_location x y st in
  (valid_block_id e id && is_legal_swap_to_location e id to
   && negb ((pl_x to =? pl_x (block_locs e id)) && (pl_y to =? pl_y (block_locs e id))
            && (pl_sub_tile to =? pl_sub_tile (block_locs e id)))
   && negb (empty b || empty x || empty y || empty st))%bool = true
  <-> all_checks_pass e b x y st.
Proof.
  intros id to. unfold all_checks_pass. fold id. fold to.
  rewrite !andb_true_iff, !negb_true_iff, <- !not_true_iff_false.
  rewrite (same_location_test (pl_x to) (pl_y to) (pl_sub_tile to)).
  rewrite empty_fields_test.
  change (mk_pl_loc (pl_x to) (pl_y to) (pl_sub_tile to)) with to. tauto.
Qed.

(** C9.  On submitting the form, the handler shows [Invalid block ID/Name]
    exactly when the entered identifier is not a valid block, [The block is
    currently in this location] exactly when the destination is where the
    block is, and [Not all fields are complete] exactly when a field is
    empty.  Unless every check passes (these three and the legality of the
    destination), the window stays as it was, the recorded request (block id
    and destination) is kept, the input is marked invalid, and nothing is
    highlighted or sent on to the cost step.  When every check passes the
    request is recorded, the block is highlighted and the cost step is
    triggered, with no message. *)
Theorem manual_move_form_validation (e : panel_ctx) (g : ManualMovesGlobals)
    (b x y st : string) :
  let id := entered_block e b in
  let to := entered_location x y st in
  let after := fst (calculate_cost_callback e g b x y st) in
  let events := snd (calculate_cost_callback e g b x y st) in
  (shows events "Invalid block ID/Name" <-> valid_block_id e id = false)
  /\ (shows events "The block is currently in this location" <-> to = block_locs e id)
  /\ (shows events "Not all fields are complete" <-> some_field_empty b x y st)
  /\ (~ all_checks_pass e b x y st ->
      mm_window_is_open after = mm_window_is_open g
      /\ request after = request g
      /\ valid_input (manual_move_info after) = false
      /\ (forall clb, ~ In (draw_highlight_blocks_color clb) events)
      /\ ~ In press_proceed events)
  /\ (all_checks_pass e b x y st ->
      mm_window_is_open after = mm_window_is_open g
      /\ request after = (id, pl_x to, pl_y to, pl_sub_tile to, to)
      /\ valid_input (manual_move_info after) = true
      /\ events = [deselect_all; draw_highlight_blocks_color id; refresh_drawing;
                   press_proceed]).
Proof.
  intros id to after events. subst after events.
  rewrite calculate_cost_callback_cases. fold id. fold to.
  pose proof (all_checks_pass_test e b x y st) as Hall. cbv zeta in Hall.
  fold id in Hall. fold to in Hall.
  pose proof (same_location_test (pl_x to) (pl_y to) (pl_sub_tile to) (block_locs e id))
    as Hsame.
  change (mk_pl_loc (pl_x to) (pl_y to) (pl_sub_tile to)) with to in Hsame.
  pose proof (empty_fields_test b x y st) as Hempty.
  destruct (valid_block_id e id) eqn:Hvalid;
    destruct (is_legal_swap_to_location e id to) eqn:Hlegal;
    destruct ((pl_x to =? pl_x (block_locs e id)) && (pl_y to =? pl_y (block_locs e id))
              && (pl_sub_tile to =? pl_sub_tile (block_locs e id)))%bool eqn:Hloc;
    destruct (empty b || empty x || empty y || empty st)%bool eqn:Hfields;
    cbn [andb negb fst snd app] in *; unfold shows; cbn [In];
    (split; [|split; [|split; [|split]]]);
    try (intros Hpass; apply Hall in Hpass; discriminate Hpass);
    try (intros Hfail; exfalso; apply Hfail; apply Hall; reflexivity);
    try (intros _; repeat split; try reflexivity;
         [intros clb|]; intros Hin; cbn [In] in Hin;
         repeat (destruct Hin as [Hin|Hin]; [discriminate Hin|]); exact Hin);
    try (intros _; repeat split; reflexivity);
    try (split; [intros Hin;
                 repeat (destruct Hin as [Hin|Hin];
                         [first [discriminate Hin | tauto
                                | injection Hin; intros; discriminate]|]);
                 first [contradiction | tauto]
                | intros Hyes; first [tauto | discriminate Hyes
                                      | apply Hsame in Hyes; discriminate Hyes
                                      | apply Hempty in Hyes; discriminate Hyes]]).
Qed.

Lemma manual_move_form_validation_witness :
  shows (snd (calculate_cost_callback demo_panel demo_globals "alu" "2" "3" "0"))
    "The block is currently in this location"
  /\ shows (snd (calculate_cost_callback demo_panel demo_globals "nope" "4" "4" "0"))
       "Invalid block ID/Name"
  /\ shows (snd (calculate_cost_callback demo_panel demo_globals "1" "4" "" "0"))
       "Not all fields are complete"
  /\ request (fst (calculate_cost_callback demo_panel demo_globals "1" "4" "" "0"))
     = request demo_globals
  /\ snd (calculate_cost_callback demo_panel demo_globals "1" "4" "4" "0")
     = [deselect_all; draw_highlight_blocks_color 1; refresh_drawing; press_proceed].
Proof.
  split; [|split; [|split; [|split]]].
  - apply (proj1 (proj2 (manual_move_form_validation demo_panel demo_globals
                           "alu" "2" "3" "0"))).
    reflexivity.
  - apply (proj1 (manual_move_form_validation demo_panel demo_globals
                    "nope" "4" "4" "0")).
    reflexivity.
  - apply (proj1 (proj2 (proj2 (manual_move_form_validation demo_panel demo_globals
                                  "1" "4" "" "0")))).
    right. right. left. reflexivity.
  - apply (proj1 (proj2 (proj2 (proj2 (manual_move_form_validation demo_panel demo_globals
                                         "1" "4" "" "0"))))).
    intros (_ & _ & _ & Hfields). apply Hfields. right. right. left. reflexivity.
  - apply (proj2 (proj2 (proj2 (proj2 (manual_move_form_validation demo_panel demo_globals
                                         "1" "4" "4" "0"))))).
    split; [reflexivity|]. split; [reflexivity|]. split.
    + intros H. discriminate H.
    + intros [H|[H|[H|H]]]; discriminate H.
Defined.

End PanelProperties.

Section MemoryProperties.

Import BlockMemories.
Local Open Scope Z_scope.

(** ** The needed address width *)

Lemma shift_left_is_power (n : Z) : shift_left_value_with_overflow_check 1 n = 2 ^ n.
Proof. unfold shift_left_value_with_overflow_check. apply Z.shiftl_1_l. Qed.

Lemma needed_addr_width_loop_from (depth : Z) (fuel : nat) :
  forall w,
    1 <= w -> depth <= 2 ^ (w + Z.of_nat fuel) ->
    (w = 1 \/ 2 ^ (w - 1) < depth) ->
    exists w',
      needed_addr_width_loop fuel depth w (2 ^ w) = Some w'
      /\ w <= w' /\ depth <= 2 ^ w' /\ (w' = 1 \/ 2 ^ (w' - 1) < depth).
Proof.
  induction fuel as [|fuel IH]; intros w Hw Hbound Hprev; cbn [needed_addr_width_loop].
  - rewrite Z.add_0_r in Hbound.
    destruct (2 ^ w <? depth) eqn:E; [lia|].
    exists w. repeat split; try lia; exact Hprev.
  - destruct (2 ^ w <? depth) eqn:E.
    + rewrite shift_left_is_power.
      destruct (IH (w + 1)) as [w' (Hw' & Hle & Hd & Hp)].
      * lia.
      * replace (w + 1 + Z.of_nat fuel) with (w + Z.of_nat (S fuel)) by lia. exact Hbound.
      * right. replace (w + 1 - 1) with w by lia. lia.
      * exists w'. repeat split; try assumption. lia.
    + exists w. repeat split; try lia; exact Hprev.
Qed.

Lemma needed_addr_width_result (depth : Z) :
  1 <= depth < 2 ^ 31 ->
  exists w,
    needed_addr_width_loop 64 depth 0 0 = Some w
    /\ 1 <= w /\ depth <= 2 ^ w /\ (w = 1 \/ 2 ^ (w - 1) < depth).
Proof.
  intros Hd. change 64%nat with (S 63). cbn [needed_addr_width_loop].
  destruct (0 <? depth) eqn:E; [|lia].
  rewrite shift_left_is_power. change (0 + 1) with 1.
  destruct (needed_addr_width_loop_from depth 63 1) as [w (Hw & Hle & Hdw & Hp)].
  - lia.
  - apply Z.le_trans with (2 ^ 31); [lia|].
    apply Z.pow_le_mono_r; lia.
  - left. reflexivity.
  - exists w. repeat split; assumption.
Qed.

Lemma pow2_lt_mono (a b : Z) : 0 <= a -> a < b -> 2 ^ a < 2 ^ b.
Proof. intros Ha Hab. apply Z.pow_lt_mono_r; lia. Qed.

Lemma width_is_minimal (depth w : Z) :
  1 <= w -> depth <= 2 ^ w -> (w = 1 \/ 2 ^ (w - 1) < depth) ->
  minimal_width 1 depth w /\ (2 <= depth -> minimal_width 0 depth w).
Proof.
  intros Hw Hd Hp. split.
  - split; [exact Hw|]. split; [exact Hd|].
    intros w' Hw' Hd'. destruct Hp as [->|Hp]; [lia|].
    destruct (Z_lt_le_dec w' w) as [Hlt|Hge]; [|exact Hge].
    exfalso.
    assert (2 ^ w' <= 2 ^ (w - 1)) by (apply Z.pow_le_mono_r; lia). lia.
  - intros H2. split; [lia|]. split; [exact Hd|].
    intros w' Hw' Hd'.
    destruct (Z_lt_le_dec w' w) as [Hlt|Hge]; [|exact Hge].
    exfalso. destruct Hp as [->|Hp].
    + assert (w' = 0) by lia. subst w'. simpl in Hd'. lia.
    + assert (2 ^ w' <= 2 ^ (w - 1)) by (apply Z.pow_le_mono_r; lia). lia.
Qed.

(** ** Pruning a signal list *)

Lemma split_signal_list_pruned (ports width keep : nat) :
  (keep <= width)%nat ->
  forall sig : signal_list_t,
    length sig = (ports * width)%nat ->
    length (concat (map (firstn keep) (split_signal_list ports width sig)))
    = (ports * keep)%nat.
Proof.
  intros Hk. induction ports as [|ports IH]; intros sig Hlen; simpl; [reflexivity|].
  rewrite length_app, length_firstn, length_firstn.
  rewrite IH.
  - simpl in Hlen. lia.
  - rewrite length_skipn. simpl in Hlen. lia.
Qed.

Lemma prune_signal_count (sig : signal_list_t) (signal_width prune_size ports : Z) :
  0 <= prune_size -> 0 <= ports -> 0 <= signal_width ->
  count sig = ports * signal_width ->
  (signal_width <= prune_size -> prune_signal sig signal_width prune_size ports = sig)
  /\ (prune_size < signal_width ->
      count (prune_signal sig signal_width prune_size ports) = ports * prune_size).
Proof.
  intros Hp Hports Hw Hcnt. unfold prune_signal. split; intros H.
  - destruct (prune_size >=? signal_width) eqn:E; [reflexivity|lia].
  - destruct (prune_size >=? signal_width) eqn:E; [lia|].
    unfold count in *.
    rewrite (split_signal_list_pruned (Z.to_nat ports) (Z.to_nat signal_width)
               (Z.to_nat prune_size)).
    + nia.
    + lia.
    + nia.
Qed.

Lemma needed_addr_width_of_depth (depth : Z) :
  depth < 2 ^ 31 ->
  exists w,
    needed_addr_width_loop 64 depth 0 0 = Some w
    /\ 0 <= w
    /\ (depth <> 1 -> minimal_width 0 depth w)
    /\ (depth = 1 -> w = 1).
Proof.
  intros Hd. destruct (Z_lt_le_dec depth 1) as [Hlow|Hpos].
  - exists 0. change 64%nat with (S 63). cbn [needed_addr_width_loop].
    destruct (0 <? depth) eqn:E; [lia|].
    split; [reflexivity|]. split; [lia|]. split; [|lia].
    intros _. split; [lia|]. split; [simpl; lia|]. intros; lia.
  - destruct (needed_addr_width_result depth) as [w (Hw & H1 & Hdw & Hp)]; [lia|].
    exists w. split; [exact Hw|]. split; [lia|].
    destruct (width_is_minimal depth w H1 Hdw Hp) as [_ Hmin].
    split.
    + intros Hne. apply Hmin. lia.
    + intros ->. destruct Hp as [->|Hp]; [reflexivity|].
      assert (0 < 2 ^ (w - 1)) by (apply Z.pow_pos_nonneg; lia). lia.
Qed.

Lemma prune_signal_pruned_to (ports old_width w : Z) (addr : option signal_list_t) :
  0 <= w -> 0 <= ports -> 0 <= old_width ->
  well_formed_addr ports old_width addr ->
  pruned_to ports old_width w addr
    match addr with
    | Some sig => Some (prune_signal sig old_width w ports)
    | None => None
    end.
Proof.
  intros Hw Hp Ho Hwf. destruct addr as [sig|]; simpl; [|exact I].
  apply prune_signal_count; assumption.
Qed.

(** ** Equal address nets *)

Lemma nnet_eqb_eq (a b : nnet_t) : nnet_eqb a b = true <-> a = b.
Proof.
  destruct a, b; simpl; split; intros H;
    try discriminate; try reflexivity;
    try (apply Z.eqb_eq in H; congruence);
    try (injection H as ->; apply Z.eqb_refl).
Qed.

Lemma same_nets_driven_alike (ra wa : signal_list_t) :
  length ra = length wa ->
  (same_nets ra wa = true <-> driven_alike ra wa).
Proof.
  revert wa. induction ra as [|r ra IH]; intros [|w wa] Hlen; simpl in *; try discriminate.
  - split; intros _; [constructor|reflexivity].
  - injection Hlen as Hlen. specialize (IH wa Hlen).
    destruct (nnet_eqb (net r) (net w)) eqn:E; simpl.
    + apply nnet_eqb_eq in E. split; intros H.
      * constructor; [exact E|]. apply IH. exact H.
      * inversion H; subst. apply IH. assumption.
    + split; intros H; [discriminate|].
      inversion H; subst.
      assert (nnet_eqb (net r) (net w) = true) by (apply nnet_eqb_eq; assumption).
      congruence.
Qed.

Lemma check_same_addrs_driven_alike (ra wa : signal_list_t) :
  check_same_addrs ra wa = true <-> driven_alike ra wa.
Proof.
  unfold check_same_addrs, count.
  destruct (Z.of_nat (length ra) =? Z.of_nat (length wa)) eqn:E; simpl.
  - apply Z.eqb_eq in E. apply same_nets_driven_alike. lia.
  - apply Z.eqb_neq in E. split; intros H; [discriminate|].
    exfalso. apply E. f_equal. eapply Forall2_length. exact H.
Qed.

Lemma lutram_gate (o : odin_ctx) (bram : block_memory) :
  (lutram_model o
   && (LUTRAM_MIN_THRESHOLD_AREA o
       <=? to_int (shift_left_value_with_overflow_check 1 (ABITS (attributes bram)))
           * DBITS (attributes bram))
   && (to_int (shift_left_value_with_overflow_check 1 (ABITS (attributes bram)))
       * DBITS (attributes bram) <=? LUTRAM_MAX_THRESHOLD_AREA o))%bool = true
  <-> lutram_taken o bram.
Proof.
  unfold lutram_taken.
  rewrite !andb_true_iff, !Z.leb_le. tauto.
Qed.

(** C7, as the claim has it, fails on a memory of one word: the loop starts
    from a shifted value of 0, so it makes one round and the width is 1,
    while 2^0 already covers the depth. *)
Lemma one_word_memory_gets_width_one :
  option_map (fun memory' => ABITS (attributes memory'))
    (perform_optimization one_word_memory) = Some 1
  /\ ~ minimal_width 0 (size (attributes one_word_memory)) 1.
Proof.
  split; [reflexivity|].
  intros (_ & _ & Hmin). specialize (Hmin 0). simpl in Hmin. lia.
Qed.

(** C7 as amended.  For a memory whose depth is an [int] and whose address
    lists hold [ABITS] pins per port, [perform_optimization] sets [ABITS] to
    the needed address width: the least [w >= 0] with [2^w >= depth] for
    every depth but 1, and 1 for depth 1 (so 7 for depth 100 and 6 for depth
    64).  An address list that is present is left as it is when it is not
    wider than that, and pruned to that many pins per port when it is. *)
Theorem needed_width_and_pruning (memory : block_memory) :
  size (attributes memory) < 2 ^ 31 ->
  0 <= ABITS (attributes memory) ->
  0 <= RD_PORTS (attributes memory) ->
  0 <= WR_PORTS (attributes memory) ->
  well_formed_addr (RD_PORTS (attributes memory)) (ABITS (attributes memory))
    (read_addr memory) ->
  well_formed_addr (WR_PORTS (attributes memory)) (ABITS (attributes memory))
    (write_addr memory) ->
  exists memory',
    perform_optimization memory = Some memory'
    /\ (size (attributes memory) <> 1 ->
        minimal_width 0 (size (attributes memory)) (ABITS (attributes memory')))
    /\ (size (attributes memory) = 1 -> ABITS (attributes memory') = 1)
    /\ (size (attributes memory) = 100 -> ABITS (attributes memory') = 7)
    /\ (size (attributes memory) = 64 -> ABITS (attributes memory') = 6)
    /\ pruned_to (RD_PORTS (attributes memory)) (ABITS (attributes memory))
         (ABITS (attributes memory')) (read_addr memory) (read_addr memory')
    /\ pruned_to (WR_PORTS (attributes memory)) (ABITS (attributes memory))
         (ABITS (attributes memory')) (write_addr memory) (write_addr memory').
Proof.
  intros Hsize Habits Hrd Hwr Hra Hwa.
  destruct (needed_addr_width_of_depth _ Hsize) as [w (Hw & Hw0 & Hmin & Hone)].
  unfold perform_optimization. rewrite Hw.
  eexists. split; [reflexivity|]. cbn [attributes ABITS read_addr write_addr].
  split; [exact Hmin|]. split; [exact Hone|].
  split; [|split; [|split]].
  - intros E. rewrite E in Hw. vm_compute in Hw. congruence.
  - intros E. rewrite E in Hw. vm_compute in Hw. congruence.
  - apply prune_signal_pruned_to; assumption.
  - apply prune_signal_pruned_to; assumption.
Qed.

Lemma needed_width_and_pruning_witness :
  exists memory',
    perform_optimization hundred_word_memory = Some memory'
    /\ ABITS (attributes memory') = 7
    /\ pruned_to 1 32 7 (read_addr hundred_word_memory) (read_addr memory').
Proof.
  destruct (needed_width_and_pruning hundred_word_memory)
    as [memory' (Hrun & _ & _ & H100 & _ & Hread & _)].
  - vm_compute. reflexivity.
  - vm_compute. discriminate.
  - vm_compute. discriminate.
  - vm_compute. discriminate.
  - vm_compute. reflexivity.
  - vm_compute. reflexivity.
  - exists memory'. specialize (H100 eq_refl). rewrite H100 in Hread.
    split; [exact Hrun|]. split; [exact H100|]. exact Hread.
Defined.

(** C8, as the claim has it, fails where the architecture has a LUTRAM model
    and the relative area of the memory is between the two thresholds: a
    memory of one read and one write port with the same address nets is then
    given neither shape. *)
Lemma lutram_window_gives_no_ram :
  RD_PORTS (attributes shared_addr_memory) = 1
  /\ WR_PORTS (attributes shared_addr_memory) = 1
  /\ read_addr shared_addr_memory = Some (demo_pins [1; 2; 3; 4])
  /\ write_addr shared_addr_memory = Some (demo_pins [1; 2; 3; 4])
  /\ driven_alike (demo_pins [1; 2; 3; 4]) (demo_pins [1; 2; 3; 4])
  /\ map_bram_to_mem_hardblocks lutram_ctx shared_addr_memory = Some lutram_branch.
Proof.
  split; [reflexivity|]. split; [reflexivity|]. split; [reflexivity|].
  split; [reflexivity|]. split; [|reflexivity].
  apply check_same_addrs_driven_alike. reflexivity.
Qed.

(** C8 as amended.  A block memory of one read and one write port that is not
    taken by the LUTRAM branch is lowered to a single-port RAM whose address
    is the read address when the two address lists have equal width and pin
    by pin the same net, and otherwise to a dual-port RAM with the read
    address as [addr1] and the write address as [addr2], each padded to the
    wider of the two. *)
Theorem one_read_one_write_shape (o : odin_ctx) (bram : block_memory)
    (ra wa : signal_list_t) :
  RD_PORTS (attributes bram) = 1 ->
  WR_PORTS (attributes bram) = 1 ->
  read_addr bram = Some ra ->
  write_addr bram = Some wa ->
  ~ lutram_taken o bram ->
  (driven_alike ra wa ->
   exists sig,
     map_bram_to_mem_hardblocks o bram = Some (rw_single_port_ram sig)
     /\ sp_addr sig = ra)
  /\ (~ driven_alike ra wa ->
      exists sig,
        map_bram_to_mem_hardblocks o bram = Some (rw_dual_port_ram sig)
        /\ dp_addr1 sig = pad_to (Z.max (count ra) (count wa)) ra
        /\ dp_addr2 sig = pad_to (Z.max (count ra) (count wa)) wa).
Proof.
  intros Hrd Hwr Hra Hwa Hgate.
  assert (Hbranch :
            map_bram_to_mem_hardblocks o bram
            = Some (if check_same_addrs ra wa
                    then rw_single_port_ram (create_rw_single_port_ram ra bram)
                    else rw_dual_port_ram (create_rw_dual_port_ram ra wa bram))).
  { unfold map_bram_to_mem_hardblocks.
    destruct (_ && _ && _)%bool eqn:G.
    - exfalso. apply Hgate. apply lutram_gate. exact G.
    - rewrite Hrd, Hwr, Hra, Hwa. simpl.
      destruct (check_same_addrs ra wa); reflexivity. }
  split; intros H.
  - apply check_same_addrs_driven_alike in H. rewrite H in Hbranch.
    eexists. split; [exact Hbranch|reflexivity].
  - destruct (check_same_addrs ra wa) eqn:E.
    + exfalso. apply H. apply check_same_addrs_driven_alike. exact E.
    + eexists. split; [exact Hbranch|]. split; reflexivity.
Qed.

Lemma one_read_one_write_shape_witness :
  (exists sig,
     map_bram_to_mem_hardblocks plain_ctx shared_addr_memory = Some (rw_single_port_ram sig)
     /\ sp_addr sig = demo_pins [1; 2; 3; 4])
  /\ (exists sig,
        map_bram_to_mem_hardblocks plain_ctx split_addr_memory = Some (rw_dual_port_ram sig)
        /\ dp_addr1 sig = demo_pins [1; 2; 3; 4]
        /\ dp_addr2 sig = demo_pins [5; 6; 7] ++ [get_pad_pin]).
Proof.
  split.
  - apply (one_read_one_write_shape plain_ctx shared_addr_memory
             (demo_pins [1; 2; 3; 4]) (demo_pins [1; 2; 3; 4])).
    + reflexivity.
    + reflexivity.
    + reflexivity.
    + reflexivity.
    + intros [H _]. vm_compute in H. discriminate H.
    + apply check_same_addrs_driven_alike. reflexivity.
  - apply (one_read_one_write_shape plain_ctx split_addr_memory
             (demo_pins [1; 2; 3; 4]) (demo_pins [5; 6; 7])).
    + reflexivity.
    + reflexivity.
    + reflexivity.
    + reflexivity.
    + intros [H _]. vm_compute in H. discriminate H.
    + intros H. apply check_same_addrs_driven_alike in H. vm_compute in H. discriminate H.
Defined.

End MemoryProperties.

(** ** The boxes are exact *)

Section BoxExactness.
Import NetCost.
Local Open Scope Z_scope.

Lemma count_at_app (v : Z) (l1 l2 : list Z) :
  count_at v (l1 ++ l2) = count_at v l1 + count_at v l2.
Proof. unfold count_at. rewrite count_occ_app. lia. Qed.

Lemma count_at_one (v w : Z) : count_at v [w] = if w =? v then 1 else 0.
Proof.
  unfold count_at. simpl. destruct (Z.eq_dec w v) as [->|Hne].
  - rewrite Z.eqb_refl. reflexivity.
  - apply Z.eqb_neq in Hne. rewrite Hne. reflexivity.
Qed.

Lemma count_at_absent (v : Z) (l : list Z) : ~ In v l -> count_at v l = 0.
Proof.
  intros H. unfold count_at.
  apply (count_occ_not_In Z.eq_dec) in H. rewrite H. reflexivity.
Qed.

Lemma count_at_snoc (x v : Z) (l : list Z) :
  count_at x (l ++ [v]) = count_at x l + (if v =? x then 1 else 0).
Proof. rewrite count_at_app, count_at_one. reflexivity. Qed.

Lemma tight_snoc (l : list Z) (v lo hi lo' hi' : Z) :
  (forall w, In w l -> lo <= w <= hi) ->
  (lo' = v \/ (lo' = lo /\ In lo l)) ->
  (hi' = v \/ (hi' = hi /\ In hi l)) ->
  lo' <= v <= hi' -> lo' <= lo -> hi <= hi' ->
  In lo' (l ++ [v]) /\ In hi' (l ++ [v])
  /\ forall w, In w (l ++ [v]) -> lo' <= w <= hi'.
Proof.
  intros Hall Hlo Hhi Hv Hl Hh. split; [|split].
  - apply in_app_iff. destruct Hlo as [->|[-> Hin]]; [right; left; reflexivity|left; exact Hin].
  - apply in_app_iff. destruct Hhi as [->|[-> Hin]]; [right; left; reflexivity|left; exact Hin].
  - intros w Hw. apply in_app_iff in Hw. destruct Hw as [Hw|[<-|[]]]; [|lia].
    pose proof (Hall w Hw). lia.
Qed.

(** One round of the sink loop keeps the interval tight. *)
Lemma scratch_axis_tight (l : list Z) (v lo hi lo_edge hi_edge : Z) :
  tight l lo hi lo_edge hi_edge ->
  tight (l ++ [v])
    (fst (fst (fst (scratch_axis v lo hi lo_edge hi_edge))))
    (snd (fst (fst (scratch_axis v lo hi lo_edge hi_edge))))
    (snd (fst (scratch_axis v lo hi lo_edge hi_edge)))
    (snd (scratch_axis v lo hi lo_edge hi_edge)).
Proof.
  intros (Hlo & Hhi & Hall & -> & ->).
  pose proof (Hall lo Hlo) as Hlohi.
  assert (Hbelow : forall x, x < lo -> count_at x l = 0).
  { intros x Hx. apply count_at_absent. intros Hin. pose proof (Hall x Hin). lia. }
  assert (Habove : forall x, hi < x -> count_at x l = 0).
  { intros x Hx. apply count_at_absent. intros Hin. pose proof (Hall x Hin). lia. }
  unfold scratch_axis, tight.
  destruct (Z.eqb_spec v lo) as [E1|E1]; destruct (Z.eqb_spec v hi) as [E2|E2];
    cbn [fst snd].
  - rewrite !count_at_snoc.
    destruct (tight_snoc l v lo hi lo hi) as (A & B & C); auto; try lia.
    repeat split; auto; try apply C; auto.
    + rewrite <- E1, Z.eqb_refl. reflexivity.
    + rewrite <- E2, Z.eqb_refl. reflexivity.
  - destruct (Z.ltb_spec v lo) as [E3|E3]; [lia|].
    destruct (v >? hi) eqn:E4; [apply Z.gtb_lt in E4; lia|]. cbn [fst snd].
    rewrite !count_at_snoc.
    destruct (tight_snoc l v lo hi lo hi) as (A & B & C); auto; try lia.
    repeat split; auto; try apply C; auto.
    + rewrite <- E1, Z.eqb_refl. reflexivity.
    + destruct (Z.eqb_spec v hi); [contradiction|lia].
  - rewrite !count_at_snoc.
    destruct (tight_snoc l v lo hi lo hi) as (A & B & C); auto; try lia.
    repeat split; auto; try apply C; auto.
    + destruct (Z.eqb_spec v lo); [contradiction|lia].
    + rewrite <- E2, Z.eqb_refl. reflexivity.
  - destruct (Z.ltb_spec v lo) as [E3|E3]; cbn [fst snd].
    + rewrite !count_at_snoc.
      destruct (tight_snoc l v lo hi v hi) as (A & B & C); auto; try lia.
      repeat split; auto; try apply C; auto.
      * rewrite Z.eqb_refl, Hbelow by exact E3. reflexivity.
      * destruct (Z.eqb_spec v hi); [contradiction|lia].
    + destruct (v >? hi) eqn:E4; cbn [fst snd].
      * apply Z.gtb_lt in E4. rewrite !count_at_snoc.
        destruct (tight_snoc l v lo hi lo v) as (A & B & C); auto; try lia.
        repeat split; auto; try apply C; auto.
        -- destruct (Z.eqb_spec v lo); [contradiction|lia].
        -- rewrite Z.eqb_refl, Habove by exact E4. reflexivity.
      * assert (v <= hi) by (rewrite Z.gtb_ltb in E4; apply Z.ltb_ge in E4; exact E4).
        rewrite !count_at_snoc.
        destruct (tight_snoc l v lo hi lo hi) as (A & B & C); auto; try lia.
        repeat split; auto; try apply C; auto.
        -- destruct (Z.eqb_spec v lo); [contradiction|lia].
        -- destruct (Z.eqb_spec v hi); [contradiction|lia].
Qed.

Lemma tight_single (v : Z) : tight [v] v v 1 1.
Proof.
  unfold tight. rewrite count_at_one, Z.eqb_refl. simpl.
  repeat split; auto; destruct H as [<-|[]]; lia.
Qed.

Lemma from_scratch_sink_exact (c : vpr_ctx) (xs ys : list Z) (acc : scratch_acc)
    (pin : ClusterPinId) :
  exact_box xs ys (fst (fst acc)) (snd (fst acc)) ->
  exact_box
    (xs ++ [clip (pin_x c (pin_block c pin) (tile_pin_index c pin)) (grid_width c)])
    (ys ++ [clip (pin_y c (pin_block c pin) (tile_pin_index c pin)) (grid_height c)])
    (fst (fst (from_scratch_sink c acc pin))) (snd (fst (from_scratch_sink c acc pin))).
Proof.
  destruct acc as [[co ed] cnt]. cbn [fst snd]. intros [Hx Hy].
  unfold from_scratch_sink.
  pose proof (scratch_axis_tight xs
                (clip (pin_x c (pin_block c pin) (tile_pin_index c pin)) (grid_width c))
                _ _ _ _ Hx) as Hx'.
  pose proof (scratch_axis_tight ys
                (clip (pin_y c (pin_block c pin) (tile_pin_index c pin)) (grid_height c))
                _ _ _ _ Hy) as Hy'.
  destruct (scratch_axis _ (xmin co) _ _ _) as [[[a1 a2] a3] a4].
  destruct (scratch_axis _ (ymin co) _ _ _) as [[[b1 b2] b3] b4].
  cbn [fst snd] in *. split; assumption.
Qed.

Lemma from_scratch_loop_exact (c : vpr_ctx) (sinks : list ClusterPinId) :
  forall (xs ys : list Z) (acc : scratch_acc),
    exact_box xs ys (fst (fst acc)) (snd (fst acc)) ->
    exact_box
      (xs ++ map (fun pin => clip (pin_x c (pin_block c pin) (tile_pin_index c pin))
                               (grid_width c)) sinks)
      (ys ++ map (fun pin => clip (pin_y c (pin_block c pin) (tile_pin_index c pin))
                               (grid_height c)) sinks)
      (fst (fst (fold_left (from_scratch_sink c) sinks acc)))
      (snd (fst (fold_left (from_scratch_sink c) sinks acc))).
Proof.
  induction sinks as [|pin sinks IH]; intros xs ys acc H; simpl.
  - rewrite !app_nil_r. exact H.
  - specialize (IH _ _ _ (from_scratch_sink_exact c xs ys acc pin H)).
    rewrite <- !app_assoc in IH. exact IH.
Qed.

(** The box [get_bb_from_scratch] computes is the tight box around the
    clipped pins of the net, and its edge counts count the pins on the
    edges. *)
Lemma get_bb_from_scratch_exact (c : vpr_ctx) (net : ClusterNetId) (cnt : Z -> Z) :
  exact_box (net_pin_xs c net) (net_pin_ys c net)
    (fst (fst (get_bb_from_scratch c net cnt)))
    (snd (fst (get_bb_from_scratch c net cnt))).
Proof.
  unfold get_bb_from_scratch, net_pin_xs, net_pin_ys.
  apply (from_scratch_loop_exact c (net_sinks c net) [_] [_]).
  cbn [fst snd xmin xmax ymin ymax]. split; apply tight_single.
Qed.

(** A tight interval is determined by the coordinates, whatever their
    order. *)
Lemma tight_unique (l l' : list Z) (lo hi le he lo' hi' le' he' : Z) :
  Permutation l l' ->
  tight l lo hi le he -> tight l' lo' hi' le' he' ->
  lo' = lo /\ hi' = hi /\ le' = le /\ he' = he.
Proof.
  intros Hp (A1 & A2 & A3 & -> & ->) (B1 & B2 & B3 & -> & ->).
  assert (Hlo : lo' = lo).
  { pose proof (A3 lo' (Permutation_in _ (Permutation_sym Hp) B1)).
    pose proof (B3 lo (Permutation_in _ Hp A1)). lia. }
  assert (Hhi : hi' = hi).
  { pose proof (A3 hi' (Permutation_in _ (Permutation_sym Hp) B2)).
    pose proof (B3 hi (Permutation_in _ Hp A2)). lia. }
  subst. unfold count_at.
  pose proof (proj1 (Permutation_count_occ Z.eq_dec l l') Hp) as Hc.
  rewrite !Hc. repeat split.
Qed.

Lemma tight_perm (l l' : list Z) (lo hi le he : Z) :
  Permutation l l' -> tight l lo hi le he -> tight l' lo hi le he.
Proof.
  intros Hp (A1 & A2 & A3 & -> & ->). unfold tight, count_at.
  pose proof (proj1 (Permutation_count_occ Z.eq_dec l l') Hp) as Hc.
  rewrite !Hc. repeat split.
  - eapply Permutation_in; eassumption.
  - eapply Permutation_in; eassumption.
  - apply A3. eapply Permutation_in; [apply Permutation_sym|]; eassumption.
  - apply A3. eapply Permutation_in; [apply Permutation_sym|]; eassumption.
Qed.

Lemma count_at_cons (x v : Z) (l : list Z) :
  count_at x (v :: l) = (if v =? x then 1 else 0) + count_at x l.
Proof.
  change (v :: l) with ([v] ++ l). rewrite count_at_app, count_at_one. reflexivity.
Qed.

Lemma count_at_pos (x : Z) (l : list Z) : In x l <-> 0 < count_at x l.
Proof.
  unfold count_at. rewrite (count_occ_In Z.eq_dec). lia.
Qed.

(** What a tight interval around [old :: rest] says of [rest]. *)
Lemma tight_cons_elim (old : Z) (rest : list Z) (lo hi le he : Z) :
  tight (old :: rest) lo hi le he ->
  (forall w, In w rest -> lo <= w <= hi)
  /\ lo <= old <= hi
  /\ le = (if old =? lo then 1 else 0) + count_at lo rest
  /\ he = (if old =? hi then 1 else 0) + count_at hi rest
  /\ (lo = old \/ 0 < count_at lo rest)
  /\ (hi = old \/ 0 < count_at hi rest).
Proof.
  intros (A1 & A2 & A3 & -> & ->). rewrite !count_at_cons.
  split; [intros w Hw; apply A3; right; exact Hw|].
  split; [apply A3; left; reflexivity|].
  split; [reflexivity|]. split; [reflexivity|].
  split.
  - destruct A1 as [->|A1]; [left; reflexivity|right; apply count_at_pos; exact A1].
  - destruct A2 as [->|A2]; [left; reflexivity|right; apply count_at_pos; exact A2].
Qed.

Lemma tight_cons_intro (new : Z) (rest : list Z) (lo hi le he : Z) :
  (forall w, In w rest -> lo <= w <= hi) ->
  lo <= new <= hi ->
  le = (if new =? lo then 1 else 0) + count_at lo rest ->
  he = (if new =? hi then 1 else 0) + count_at hi rest ->
  (lo = new \/ 0 < count_at lo rest) ->
  (hi = new \/ 0 < count_at hi rest) ->
  tight (new :: rest) lo hi le he.
Proof.
  intros Hall Hnew -> -> Hlo Hhi. unfold tight. rewrite !count_at_cons.
  split; [|split; [|split; [|split; reflexivity]]].
  - destruct Hlo as [->|Hlo]; [left; reflexivity|right; apply count_at_pos; exact Hlo].
  - destruct Hhi as [->|Hhi]; [left; reflexivity|right; apply count_at_pos; exact Hhi].
  - intros w [<-|Hw]; [exact Hnew|apply Hall; exact Hw].
Qed.

Lemma count_at_outside (rest : list Z) (lo hi x : Z) :
  (forall w, In w rest -> lo <= w <= hi) -> x < lo \/ hi < x -> count_at x rest = 0.
Proof.
  intros Hall Hx. apply count_at_absent. intros Hin. pose proof (Hall x Hin). lia.
Qed.

(** One axis of the incremental update: when the pin at [old] moves to
    [new] and the update does not ask for a recomputation, the interval it
    leaves is the tight one around the new coordinates. *)
Lemma update_axis_tight (old new : Z) (rest : list Z) (lo hi le he lo' hi' le' he' : Z) :
  tight (old :: rest) lo hi le he ->
  update_axis old new lo hi le he = Some (lo', hi', le', he') ->
  tight (new :: rest) lo' hi' le' he'.
Proof.
  intros Ht H.
  destruct (tight_cons_elim old rest lo hi le he Ht) as (Hall & Hold & Hle & Hhe & Hlo & Hhi).
  pose proof (count_at_outside rest lo hi new Hall) as Hout.
  assert (Hnn : 0 <= count_at lo rest /\ 0 <= count_at hi rest).
  { unfold count_at. lia. }
  assert (Hwiden : forall a b, a <= lo -> hi <= b -> forall w, In w rest -> a <= w <= b).
  { intros a b Ha Hb w Hw. pose proof (Hall w Hw). lia. }
  unfold update_axis in H.
  destruct (Z.ltb_spec new old) as [C1|C1].
  - destruct (Z.eqb_spec old hi) as [E1|E1]; destruct (Z.eqb_spec he 1) as [E2|E2];
      cbn [andb] in H; try discriminate H.
    all: destruct (Z.ltb_spec new lo) as [C2|C2];
      [|destruct (Z.eqb_spec new lo) as [C3|C3]];
      injection H as <- <- <- <-;
      apply tight_cons_intro; try (apply Hwiden; lia); try lia;
      repeat match goal with
             | |- context [?a =? ?b] => destruct (Z.eqb_spec a b)
             | H : context [?a =? ?b] |- _ => destruct (Z.eqb_spec a b)
             end;
      try lia; try (rewrite Hout by lia; lia); try (subst new; lia).
  - destruct (new >? old) eqn:C0.
    + apply Z.gtb_lt in C0.
      destruct (Z.eqb_spec old lo) as [E1|E1]; destruct (Z.eqb_spec le 1) as [E2|E2];
        cbn [andb] in H; try discriminate H.
      all: destruct (new >? hi) eqn:C2;
        [apply Z.gtb_lt in C2
        |assert (new <= hi) by (rewrite Z.gtb_ltb in C2; apply Z.ltb_ge in C2; exact C2);
         destruct (Z.eqb_spec new hi) as [C3|C3]];
        injection H as <- <- <- <-;
        apply tight_cons_intro; try (apply Hwiden; lia); try lia;
        repeat match goal with
               | |- context [?a =? ?b] => destruct (Z.eqb_spec a b)
               | H : context [?a =? ?b] |- _ => destruct (Z.eqb_spec a b)
               end;
        try lia; try (rewrite Hout by lia; lia); try (subst new; lia).
    + assert (new = old).
      { rewrite Z.gtb_ltb in C0. apply Z.ltb_ge in C0. lia. }
      subst new. injection H as <- <- <- <-. exact Ht.
Qed.

Lemma exact_box_unique (xs ys xs' ys' : list Z) (co ed co' ed' : t_bb) :
  Permutation xs xs' -> Permutation ys ys' ->
  exact_box xs ys co ed -> exact_box xs' ys' co' ed' ->
  co' = co /\ ed' = ed.
Proof.
  intros Px Py [Hx Hy] [Hx' Hy'].
  destruct (tight_unique _ _ _ _ _ _ _ _ _ _ Px Hx Hx') as (A1 & A2 & A3 & A4).
  destruct (tight_unique _ _ _ _ _ _ _ _ _ _ Py Hy Hy') as (B1 & B2 & B3 & B4).
  destruct co, ed, co', ed'. simpl in *. subst. split; reflexivity.
Qed.

(** The increment finds what the recomputation finds.  The current box of
    the net is exact for its pins with the moved pin still at [pin_old_loc];
    in the placement of [c] the pin is at [pin_new_loc].  Then [update_bb]
    leaves in the scratch entry the box and the edge counts that
    [get_bb_from_scratch] computes. *)
Lemma update_bb_exact (c : vpr_ctx) (s : cost_state) (net : ClusterNetId)
    (pin_old_loc pin_new_loc : t_physical_tile_loc) (src_pin : bool)
    (xs ys : list Z) (cnt : Z -> Z) :
  bb_updated_before s net <> GOT_FROM_SCRATCH ->
  exact_box (tile_x (clip_loc c pin_old_loc) :: xs) (tile_y (clip_loc c pin_old_loc) :: ys)
    (current_coord s net) (current_edge s net) ->
  Permutation (tile_x (clip_loc c pin_new_loc) :: xs) (net_pin_xs c net) ->
  Permutation (tile_y (clip_loc c pin_new_loc) :: ys) (net_pin_ys c net) ->
  ts_bb_coord_new (update_bb c s net pin_old_loc pin_new_loc src_pin) net
  = fst (fst (get_bb_from_scratch c net cnt))
  /\ ts_bb_edge_new (update_bb c s net pin_old_loc pin_new_loc src_pin) net
     = snd (fst (get_bb_from_scratch c net cnt)).
Proof.
  intros Hflag [Hx Hy] Px Py.
  pose proof (get_bb_from_scratch_exact c net cnt) as Hexact.
  assert (Hscr :
    ts_bb_coord_new (update_bb_from_scratch c (touch s net) net) net
    = fst (fst (get_bb_from_scratch c net cnt))
    /\ ts_bb_edge_new (update_bb_from_scratch c (touch s net) net) net
       = snd (fst (get_bb_from_scratch c net cnt))).
  { destruct (update_bb_from_scratch_fields c (touch s net) net) as (-> & -> & _).
    apply (exact_box_unique (net_pin_xs c net) (net_pin_ys c net)
             (net_pin_xs c net) (net_pin_ys c net));
      try apply Permutation_refl; [exact Hexact|apply get_bb_from_scratch_exact]. }
  rewrite update_bb_unfold by exact Hflag.
  destruct (update_axis _ _ (xmin _) _ _ _) as [[[[a1 a2] a3] a4]|] eqn:Ex; [|exact Hscr].
  destruct (update_axis _ _ (ymin _) _ _ _) as [[[[b1 b2] b3] b4]|] eqn:Ey; [|exact Hscr].
  pose proof (update_axis_tight _ _ _ _ _ _ _ _ _ _ _ Hx Ex) as Hx'.
  pose proof (update_axis_tight _ _ _ _ _ _ _ _ _ _ _ Hy Ey) as Hy'.
  simpl. rewrite !upd_same.
  apply (exact_box_unique (net_pin_xs c net) (net_pin_ys c net)
           (tile_x (clip_loc c pin_new_loc) :: xs) (tile_y (clip_loc c pin_new_loc) :: ys)).
  - apply Permutation_sym. exact Px.
  - apply Permutation_sym. exact Py.
  - exact Hexact.
  - split; simpl; assumption.
Qed.

(** *** The brute-force box *)

Lemma clip_monotone (a b dim : Z) : a <= b -> clip a dim <= clip b dim.
Proof. unfold clip. lia. Qed.

Lemma spans_unique (l : list Z) (lo hi lo' hi' : Z) :
  spans l lo hi -> spans l lo' hi' -> lo' = lo /\ hi' = hi.
Proof.
  intros (A1 & A2 & A3) (B1 & B2 & B3).
  pose proof (A3 _ B1). pose proof (A3 _ B2). pose proof (B3 _ A1). pose proof (B3 _ A2).
  lia.
Qed.

Lemma spans_clip (l : list Z) (lo hi dim : Z) :
  spans l lo hi -> spans (map (fun v => clip v dim) l) (clip lo dim) (clip hi dim).
Proof.
  intros (A1 & A2 & A3). split; [|split].
  - apply in_map_iff. exists lo. split; [reflexivity|exact A1].
  - apply in_map_iff. exists hi. split; [reflexivity|exact A2].
  - intros v Hv. apply in_map_iff in Hv. destruct Hv as [w [<- Hw]].
    pose proof (A3 w Hw). split; apply clip_monotone; lia.
Qed.

(** One coordinate of the sink loop of [get_non_updatable_bb]. *)
Lemma non_updatable_step_spans (l : list Z) (v lo hi : Z) :
  spans l lo hi ->
  spans (l ++ [v])
    (if v <? lo then v else lo)
    (if v <? lo then hi else if v >? hi then v else hi).
Proof.
  intros (A1 & A2 & A3). pose proof (A3 _ A1) as Hlohi.
  assert (Hin : forall w, In w (l ++ [v]) <-> In w l \/ w = v).
  { intros w. rewrite in_app_iff. simpl. intuition. }
  destruct (Z.ltb_spec v lo) as [C1|C1].
  - split; [apply Hin; right; reflexivity|]. split; [apply Hin; left; exact A2|].
    intros w Hw. apply Hin in Hw. destruct Hw as [Hw| ->]; [pose proof (A3 w Hw)|]; lia.
  - destruct (v >? hi) eqn:C2.
    + apply Z.gtb_lt in C2.
      split; [apply Hin; left; exact A1|]. split; [apply Hin; right; reflexivity|].
      intros w Hw. apply Hin in Hw. destruct Hw as [Hw| ->]; [pose proof (A3 w Hw)|]; lia.
    + rewrite Z.gtb_ltb in C2. apply Z.ltb_ge in C2.
      split; [apply Hin; left; exact A1|]. split; [apply Hin; left; exact A2|].
      intros w Hw. apply Hin in Hw. destruct Hw as [Hw| ->]; [pose proof (A3 w Hw)|]; lia.
Qed.

Lemma non_updatable_loop (c : vpr_ctx) (sinks : list ClusterPinId) :
  forall (xs ys : list Z) (acc : t_bb * (Z -> Z)),
    spans xs (xmin (fst acc)) (xmax (fst acc)) ->
    spans ys (ymin (fst acc)) (ymax (fst acc)) ->
    spans (xs ++ map (fun pin => pin_x c (pin_block c pin) (tile_pin_index c pin)) sinks)
      (xmin (fst (fold_left (non_updatable_sink c) sinks acc)))
      (xmax (fst (fold_left (non_updatable_sink c) sinks acc)))
    /\ spans (ys ++ map (fun pin => pin_y c (pin_block c pin) (tile_pin_index c pin)) sinks)
         (ymin (fst (fold_left (non_updatable_sink c) sinks acc)))
         (ymax (fst (fold_left (non_updatable_sink c) sinks acc))).
Proof.
  induction sinks as [|pin sinks IH]; intros xs ys acc Hx Hy; simpl.
  - rewrite !app_nil_r. split; assumption.
  - pose proof (non_updatable_step_spans xs
                  (pin_x c (pin_block c pin) (tile_pin_index c pin)) _ _ Hx) as Hx'.
    pose proof (non_updatable_step_spans ys
                  (pin_y c (pin_block c pin) (tile_pin_index c pin)) _ _ Hy) as Hy'.
    destruct (IH (xs ++ [pin_x c (pin_block c pin) (tile_pin_index c pin)])
                 (ys ++ [pin_y c (pin_block c pin) (tile_pin_index c pin)])
                 (non_updatable_sink c acc pin)) as [Ix Iy].
    + unfold non_updatable_sink. cbn [fst snd].
      destruct (pin_x c _ _ <? xmin (fst acc)); [|destruct (pin_x c _ _ >? xmax (fst acc))];
        destruct (pin_y c _ _ <? _); try destruct (pin_y c _ _ >? _); exact Hx'.
    + unfold non_updatable_sink. cbn [fst snd].
      destruct (pin_x c _ _ <? xmin (fst acc)); [|destruct (pin_x c _ _ >? xmax (fst acc))];
        destruct (pin_y c _ _ <? _); try destruct (pin_y c _ _ >? _); exact Hy'.
    + rewrite <- !app_assoc in Ix, Iy. split; assumption.
Qed.

Lemma scratch_counts_loop (c : vpr_ctx) (sinks : list ClusterPinId) :
  forall (a : t_bb * (Z -> Z)) (b : scratch_acc),
    snd a = snd b ->
    snd (fold_left (non_updatable_sink c) sinks a)
    = snd (fold_left (from_scratch_sink c) sinks b).
Proof.
  induction sinks as [|pin sinks IH]; intros a b H; simpl; [exact H|].
  apply IH. destruct a as [bb cnt]. destruct b as [[co ed] cnt']. simpl in H. subst cnt'.
  unfold non_updatable_sink, from_scratch_sink. cbn [fst snd].
  destruct (scratch_axis _ (xmin co) _ _ _) as [[[a1 a2] a3] a4].
  destruct (scratch_axis _ (ymin co) _ _ _) as [[[b1 b2] b3] b4].
  reflexivity.
Qed.

(** [get_non_updatable_bb] and [get_bb_from_scratch] find the same box and
    the same sink counts: clipping the extreme pins gives the extremes of
    the clipped pins. *)
Lemma non_updatable_is_from_scratch (c : vpr_ctx) (net : ClusterNetId) (cnt : Z -> Z) :
  fst (get_non_updatable_bb c net cnt) = fst (fst (get_bb_from_scratch c net cnt))
  /\ snd (get_non_updatable_bb c net cnt) = snd (get_bb_from_scratch c net cnt).
Proof.
  split.
  - destruct (get_bb_from_scratch_exact c net cnt) as [(X1 & X2 & X3 & _) (Y1 & Y2 & Y3 & _)].
    unfold get_non_updatable_bb. cbn [fst].
    destruct (non_updatable_loop c (net_sinks c net)
                [pin_x c (net_driver_block c net) (net_driver_tile_pin_index c net)]
                [pin_y c (net_driver_block c net) (net_driver_tile_pin_index c net)]
                (mk_bb (pin_x c (net_driver_block c net) (net_driver_tile_pin_index c net))
                       (pin_x c (net_driver_block c net) (net_driver_tile_pin_index c net))
                       (pin_y c (net_driver_block c net) (net_driver_tile_pin_index c net))
                       (pin_y c (net_driver_block c net) (net_driver_tile_pin_index c net)),
                 zero_layers (num_layers c) cnt)) as [Hx Hy].
    + cbn [fst xmin xmax]. repeat split; simpl; auto; destruct H as [<-|[]]; lia.
    + cbn [fst ymin ymax]. repeat split; simpl; auto; destruct H as [<-|[]]; lia.
    + apply (spans_clip _ _ _ (grid_width c)) in Hx.
      apply (spans_clip _ _ _ (grid_height c)) in Hy.
      simpl app in Hx, Hy. simpl map in Hx, Hy. rewrite map_map in Hx, Hy.
      destruct (spans_unique _ _ _ _ _ Hx (conj X1 (conj X2 X3))) as [E1 E2].
      destruct (spans_unique _ _ _ _ _ Hy (conj Y1 (conj Y2 Y3))) as [E3 E4].
      destruct (fst (fst (get_bb_from_scratch c net cnt))) as [q1 q2 q3 q4].
      simpl in E1, E2, E3, E4. subst. reflexivity.
  - unfold get_non_updatable_bb, get_bb_from_scratch. cbn [snd].
    apply scratch_counts_loop. reflexivity.
Qed.

Lemma tightb_sound (l : list Z) (lo hi lo_edge hi_edge : Z) :
  tightb l lo hi lo_edge hi_edge = true -> tight l lo hi lo_edge hi_edge.
Proof.
  unfold tightb, tight. rewrite !andb_true_iff, !existsb_exists, forallb_forall, !Z.eqb_eq.
  intros [[[[[a [Ha Ea]] [b [Hb Eb]]] Hall] Hlo] Hhi].
  apply Z.eqb_eq in Ea, Eb. subst a b.
  split; [exact Ha|]. split; [exact Hb|]. split; [|split; assumption].
  intros v Hv. apply Hall in Hv. lia.
Qed.

Lemma exact_boxb_sound (xs ys : list Z) (co ed : t_bb) :
  exact_boxb xs ys co ed = true -> exact_box xs ys co ed.
Proof.
  unfold exact_boxb, exact_box. rewrite andb_true_iff.
  intros [Hx Hy]. split; apply tightb_sound; assumption.
Qed.

(** X2.  [get_non_updatable_bb], the routine used for small nets and by
    [comp_bb_cost(CHECK)], clips the box once at the end where
    [get_bb_from_scratch] clips every pin; whenever the latter passes its
    assertion the two return the same box and the same sink counts. *)
Theorem brute_force_box_agrees (c : vpr_ctx) (net : ClusterNetId) (cnt : Z -> Z) :
  driver_pin_known c net ->
  fst (get_non_updatable_bb c net cnt) = fst (fst (get_bb_from_scratch c net cnt))
  /\ snd (get_non_updatable_bb c net cnt) = snd (get_bb_from_scratch c net cnt).
Proof. intros _. apply non_updatable_is_from_scratch. Qed.

Lemma brute_force_box_agrees_witness :
  fst (get_non_updatable_bb (demo_after 1 true) 0%nat (fun _ => 7))
  = fst (fst (get_bb_from_scratch (demo_after 1 true) 0%nat (fun _ => 7)))
  /\ snd (get_non_updatable_bb (demo_after 1 true) 0%nat (fun _ => 7))
     = snd (get_bb_from_scratch (demo_after 1 true) 0%nat (fun _ => 7)).
Proof.
  apply (brute_force_box_agrees (demo_after 1 true) 0%nat (fun _ => 7)).
  vm_compute. discriminate.
Defined.

(** X3.  One pin of a net moves.  If the boxes that [update_bb] starts from
    (the committed ones on the first touch of the swap, the scratch ones
    after) are exact for the pins before the move, then the scratch box and
    edge counts it leaves are those that [get_bb_from_scratch] computes for
    the pins after the move, whichever branch the update takes. *)
Theorem incremental_update_is_exact (c : vpr_ctx) (s : cost_state) (net : ClusterNetId)
    (pin_old_loc pin_new_loc : t_physical_tile_loc) (src_pin : bool)
    (xs ys : list Z) (cnt : Z -> Z) :
  driver_pin_known c net ->
  bb_updated_before s net <> GOT_FROM_SCRATCH ->
  exact_box (tile_x (clip_loc c pin_old_loc) :: xs) (tile_y (clip_loc c pin_old_loc) :: ys)
    (current_coord s net) (current_edge s net) ->
  Permutation (tile_x (clip_loc c pin_new_loc) :: xs) (net_pin_xs c net) ->
  Permutation (tile_y (clip_loc c pin_new_loc) :: ys) (net_pin_ys c net) ->
  ts_bb_coord_new (update_bb c s net pin_old_loc pin_new_loc src_pin) net
  = fst (fst (get_bb_from_scratch c net cnt))
  /\ ts_bb_edge_new (update_bb c s net pin_old_loc pin_new_loc src_pin) net
     = snd (fst (get_bb_from_scratch c net cnt)).
Proof. intros _. apply update_bb_exact. Qed.

Lemma incremental_update_is_exact_witness :
  ts_bb_coord_new
    (update_bb (demo_after 1 true) (demo_placed (demo_before 1 true)) 0%nat
       (mk_tile_loc 1 1 0) (mk_tile_loc 3 3 0) false) 0%nat
  = fst (fst (get_bb_from_scratch (demo_after 1 true) 0%nat (fun _ => 0)))
  /\ ts_bb_edge_new
       (update_bb (demo_after 1 true) (demo_placed (demo_before 1 true)) 0%nat
          (mk_tile_loc 1 1 0) (mk_tile_loc 3 3 0) false) 0%nat
     = snd (fst (get_bb_from_scratch (demo_after 1 true) 0%nat (fun _ => 0))).
Proof.
  apply (incremental_update_is_exact (demo_after 1 true) (demo_placed (demo_before 1 true))
           0%nat (mk_tile_loc 1 1 0) (mk_tile_loc 3 3 0) false
           [2; 1; 1; 4; 4] [2; 1; 4; 1; 4] (fun _ => 0)).
  - vm_compute. discriminate.
  - vm_compute. discriminate.
  - apply exact_boxb_sound. vm_compute. reflexivity.
  - vm_compute. exact (Permutation_cons_append [2; 1; 1; 4; 4] 3).
  - vm_compute. exact (Permutation_cons_append [2; 1; 4; 1; 4] 3).
Defined.

End BoxExactness.

(** ** Sink counts and the boxes of each layer *)

Section SinkCounts.
Import NetCost.
Local Open Scope Z_scope.

Lemma from_scratch_counts_loop (c : vpr_ctx) (l : Z) (sinks : list ClusterPinId) :
  forall acc : scratch_acc,
    snd (fold_left (from_scratch_sink c) sinks acc) l
    = snd acc l
      + Z.of_nat (length (filter (fun pin => pl_layer (block_locs c (pin_block c pin)) =? l)
                            sinks)).
Proof.
  induction sinks as [|pin sinks IH]; intros acc; simpl fold_left.
  - simpl. lia.
  - rewrite IH. destruct acc as [[co ed] cnt]. unfold from_scratch_sink.
    destruct (scratch_axis _ (xmin co) _ _ _) as [[[a1 a2] a3] a4].
    destruct (scratch_axis _ (ymin co) _ _ _) as [[[b1 b2] b3] b4].
    cbn [snd filter]. unfold updz.
    destruct (Z.eqb_spec l (pl_layer (block_locs c (pin_block c pin)))) as [E|E].
    + rewrite <- E, Z.eqb_refl. simpl length. lia.
    + destruct (Z.eqb_spec (pl_layer (block_locs c (pin_block c pin))) l); [congruence|].
      lia.
Qed.

(** The sink counts [get_bb_from_scratch] and [get_non_updatable_bb] leave
    are, layer by layer, the number of sinks of the net on the layer. *)
Lemma from_scratch_counts (c : vpr_ctx) (net : ClusterNetId) (cnt : Z -> Z) (l : Z) :
  0 <= l < num_layers c ->
  snd (get_bb_from_scratch c net cnt) l = Z.of_nat (length (layer_sinks c net l))
  /\ snd (get_non_updatable_bb c net cnt) l = Z.of_nat (length (layer_sinks c net l)).
Proof.
  intros Hl.
  assert (H : snd (get_bb_from_scratch c net cnt) l = Z.of_nat (length (layer_sinks c net l))).
  { unfold get_bb_from_scratch. rewrite from_scratch_counts_loop. cbn [snd].
    unfold zero_layers. destruct ((0 <=? l) && (l <? num_layers c)) eqn:E; [reflexivity|lia]. }
  split; [exact H|].
  destruct (non_updatable_is_from_scratch c net cnt) as [_ ->]. exact H.
Qed.

(** *** The per-layer recomputation *)

Lemma layer_from_scratch_step_some (c : vpr_ctx) (acc : layer_scratch_acc)
    (pin : ClusterPinId) :
  (exists acc', layer_from_scratch_sink c (Some acc) pin = Some acc')
  <-> 0 <= pl_layer (block_locs c (pin_block c pin)) < num_layers c.
Proof.
  destruct acc as [[co ed] cnt]. unfold layer_from_scratch_sink, bind, vtr_assert.
  set (layer := pl_layer (block_locs c (pin_block c pin))).
  destruct ((layer >=? 0) && (layer <? num_layers c)) eqn:E.
  - destruct (scratch_axis _ (xmin (co layer)) _ _ _) as [[[a1 a2] a3] a4].
    destruct (scratch_axis _ (ymin (co layer)) _ _ _) as [[[b1 b2] b3] b4].
    split; [intros _; lia|intros _; eexists; reflexivity].
  - split; [intros [acc' H]; discriminate H|intros H; lia].
Qed.

(** The loop of [get_layer_bb_from_scratch] runs through exactly when every
    sink is on a layer of the device. *)
Lemma layer_from_scratch_loop_some (c : vpr_ctx) (sinks : list ClusterPinId) :
  forall acc : layer_scratch_acc,
    (exists acc', fold_left (layer_from_scratch_sink c) sinks (Some acc) = Some acc')
    <-> forall pin, In pin sinks ->
          0 <= pl_layer (block_locs c (pin_block c pin)) < num_layers c.
Proof.
  induction sinks as [|pin sinks IH]; intros acc; cbn [fold_left].
  - split; [intros _ pin []|intros _; eexists; reflexivity].
  - destruct (layer_from_scratch_sink c (Some acc) pin) as [acc1|] eqn:E.
    + split.
      * intros H p [<-|Hp]; [|apply (proj1 (IH acc1) H); exact Hp].
        apply (layer_from_scratch_step_some c acc pin). eexists. exact E.
      * intros H. apply (IH acc1). intros p Hp. apply H. right. exact Hp.
    + rewrite layer_from_scratch_fold_none. split.
      * intros [acc' H]. discriminate H.
      * intros H. exfalso.
        destruct (proj2 (layer_from_scratch_step_some c acc pin)) as [acc' H'].
        -- apply H. left. reflexivity.
        -- congruence.
Qed.

Lemma layer_from_scratch_loop_exact (c : vpr_ctx) (sinks : list ClusterPinId) :
  forall (xs ys : Z -> list Z) (acc acc' : layer_scratch_acc),
    (forall l, exact_box (xs l) (ys l) (fst (fst acc) l) (snd (fst acc) l)) ->
    fold_left (layer_from_scratch_sink c) sinks (Some acc) = Some acc' ->
    forall l,
      exact_box
        (xs l ++ map (fun pin => clip (pin_x c (pin_block c pin) (tile_pin_index c pin))
                                   (grid_width c))
                   (filter (fun pin => pl_layer (block_locs c (pin_block c pin)) =? l) sinks))
        (ys l ++ map (fun pin => clip (pin_y c (pin_block c pin) (tile_pin_index c pin))
                                   (grid_height c))
                   (filter (fun pin => pl_layer (block_locs c (pin_block c pin)) =? l) sinks))
        (fst (fst acc') l) (snd (fst acc') l)
      /\ snd acc' l
         = snd acc l
           + Z.of_nat (length (filter (fun pin => pl_layer (block_locs c (pin_block c pin)) =? l)
                                 sinks)).
Proof.
  induction sinks as [|pin sinks IH]; intros xs ys acc acc' Hacc H l; simpl in H.
  - injection H as <-. simpl. rewrite !app_nil_r. split; [apply Hacc|lia].
  - destruct acc as [[co ed] cnt]. unfold bind in H.
    set (layer := pl_layer (block_locs c (pin_block c pin))) in *.
    destruct (vtr_assert ((layer >=? 0) && (layer <? num_layers c))).
    2: { rewrite layer_from_scratch_fold_none in H. discriminate. }
    cbn [fst snd] in Hacc.
    pose proof (scratch_axis_tight (xs layer)
                  (clip (pin_x c (pin_block c pin) (tile_pin_index c pin)) (grid_width c))
                  _ _ _ _ (proj1 (Hacc layer))) as Hx'.
    pose proof (scratch_axis_tight (ys layer)
                  (clip (pin_y c (pin_block c pin) (tile_pin_index c pin)) (grid_height c))
                  _ _ _ _ (proj2 (Hacc layer))) as Hy'.
    destruct (scratch_axis _ (xmin (co layer)) _ _ _) as [[[a1 a2] a3] a4].
    destruct (scratch_axis _ (ymin (co layer)) _ _ _) as [[[b1 b2] b3] b4].
    cbn [fst snd] in Hx', Hy'.
    set (xs' := updz xs layer (xs layer ++ [clip (pin_x c (pin_block c pin)
                                                   (tile_pin_index c pin)) (grid_width c)])).
    set (ys' := updz ys layer (ys layer ++ [clip (pin_y c (pin_block c pin)
                                                   (tile_pin_index c pin)) (grid_height c)])).
    assert (Hinv : forall l', exact_box (xs' l') (ys' l')
                                (updz co layer (mk_bb a1 a2 b1 b2) l')
                                (updz ed layer (mk_bb a3 a4 b3 b4) l')).
    { intros l'. unfold xs', ys', updz.
      destruct (l' =? layer) eqn:El; [split; assumption|apply Hacc]. }
    destruct (IH xs' ys'
                (updz co layer (mk_bb a1 a2 b1 b2), updz ed layer (mk_bb a3 a4 b3 b4),
                 updz cnt layer (cnt layer + 1))
                acc' Hinv H l) as [Hbox Hcnt].
    cbn [fst snd] in Hbox, Hcnt. cbn [filter]. fold layer.
    unfold xs', ys', updz in Hbox, Hcnt. revert Hbox Hcnt.
    destruct (Z.eqb_spec l layer) as [E|E]; intros Hbox Hcnt.
    + subst l. rewrite Z.eqb_refl. cbn [map length].
      rewrite <- !app_assoc in Hbox. split; [exact Hbox|]. rewrite Hcnt. cbn [snd]. lia.
    + destruct (Z.eqb_spec layer l); [congruence|]. split; [exact Hbox|].
      rewrite Hcnt. cbn [snd]. lia.
Qed.

(** [get_layer_bb_from_scratch] returns exactly when every sink of the net
    is on a layer of the device; the box it then leaves for a layer is the
    tight box around the driver and the sinks on that layer, with the count
    of those sinks. *)
Lemma get_layer_bb_from_scratch_exact (c : vpr_ctx) (net : ClusterNetId)
    (ed0 co0 : Z -> t_2D_bb) (cnt0 : Z -> Z) :
  ((exists r, get_layer_bb_from_scratch c net ed0 co0 cnt0 = Some r)
   <-> sinks_on_device c net)
  /\ forall ed co cnt,
       get_layer_bb_from_scratch c net ed0 co0 cnt0 = Some (ed, co, cnt) ->
       forall l, 0 <= l < num_layers c ->
         exact_box (layer_pin_xs c net l) (layer_pin_ys c net l) (flat (co l)) (flat (ed l))
         /\ cnt l = Z.of_nat (length (layer_sinks c net l))
         /\ layer_num (co l) = l /\ layer_num (ed l) = l.
Proof.
  unfold get_layer_bb_from_scratch, bind. split.
  - match goal with
    | |- (exists r, match ?u with _ => _ end = _) <-> _ =>
        pose proof (layer_from_scratch_loop_some c (net_sinks c net)
                      (fun _ => mk_bb
                         (clip (pin_x c (net_driver_block c net)
                                  (net_driver_tile_pin_index c net)) (grid_width c))
                         (clip (pin_x c (net_driver_block c net)
                                  (net_driver_tile_pin_index c net)) (grid_width c))
                         (clip (pin_y c (net_driver_block c net)
                                  (net_driver_tile_pin_index c net)) (grid_height c))
                         (clip (pin_y c (net_driver_block c net)
                                  (net_driver_tile_pin_index c net)) (grid_height c)),
                       fun _ => mk_bb 1 1 1 1, fun _ => 0)) as Hsome;
        destruct u as [[[co1 ed1] cnt1]|] eqn:E
    end; unfold sinks_on_device.
    + split; [intros _; apply Hsome; eexists; exact E|intros _; eexists; reflexivity].
    + split; [intros [r H]; discriminate H|].
      intros H. apply Hsome in H. destruct H as [acc' H].
      assert (X : Some acc' = @None layer_scratch_acc) by (rewrite <- H; exact E).
      discriminate X.
  - intros ed co cnt H l Hl.
    match type of H with
    | match ?u with _ => _ end = _ => destruct u as [[[co1 ed1] cnt1]|] eqn:E; [|discriminate]
    end.
    injection H as <- <- <-.
    set (x0 := clip (pin_x c (net_driver_block c net) (net_driver_tile_pin_index c net))
                 (grid_width c)) in *.
    set (y0 := clip (pin_y c (net_driver_block c net) (net_driver_tile_pin_index c net))
                 (grid_height c)) in *.
    assert (Hinit : forall l' : Z, exact_box [x0] [y0] (mk_bb x0 x0 y0 y0) (mk_bb 1 1 1 1)).
    { intros _. split; apply tight_single. }
    destruct (layer_from_scratch_loop_exact c (net_sinks c net)
                (fun _ => [x0]) (fun _ => [y0])
                (fun _ => mk_bb x0 x0 y0 y0, fun _ => mk_bb 1 1 1 1, fun _ => 0)
                (co1, ed1, cnt1) Hinit E l) as [Hbox Hcnt].
    cbn [fst snd] in Hbox, Hcnt.
    unfold copy_layers. destruct ((0 <=? l) && (l <? num_layers c)) eqn:El; [|lia].
    cbn [layer_num flat l_xmin l_xmax l_ymin l_ymax].
    split; [|split; [|split; reflexivity]].
    + destruct Hbox as [Hx Hy]. split; [exact Hx|exact Hy].
    + rewrite Hcnt. reflexivity.
Qed.

(** X1.  When the driver of the net has a tile pin index, which the routine
    asserts, [get_bb_from_scratch] returns the tight box of the clipped pin
    positions of the net: each side of the box lies on a pin, every pin lies
    inside, and each edge count is the number of pins on that side.  The
    sink count it returns for a layer of the device is the number of sinks
    placed on that layer; what the vector held before does not matter. *)
Theorem from_scratch_box_is_exact (c : vpr_ctx) (net : ClusterNetId) (cnt : Z -> Z) :
  driver_pin_known c net ->
  exact_box (net_pin_xs c net) (net_pin_ys c net)
    (fst (fst (get_bb_from_scratch c net cnt))) (snd (fst (get_bb_from_scratch c net cnt)))
  /\ forall l, 0 <= l < num_layers c ->
       snd (get_bb_from_scratch c net cnt) l = Z.of_nat (length (layer_sinks c net l)).
Proof.
  intros _. split; [apply get_bb_from_scratch_exact|].
  intros l Hl. apply from_scratch_counts. exact Hl.
Qed.

Lemma from_scratch_box_is_exact_witness :
  exact_box (net_pin_xs (demo_after 1 true) 0%nat) (net_pin_ys (demo_after 1 true) 0%nat)
    (fst (fst (get_bb_from_scratch (demo_after 1 true) 0%nat (fun _ => 7))))
    (snd (fst (get_bb_from_scratch (demo_after 1 true) 0%nat (fun _ => 7))))
  /\ snd (get_bb_from_scratch (demo_after 1 true) 0%nat (fun _ => 7)) 0 = 5.
Proof.
  destruct (from_scratch_box_is_exact (demo_after 1 true) 0%nat (fun _ => 7)) as [Hbox Hcnt].
  - vm_compute. discriminate.
  - split; [exact Hbox|]. apply (Hcnt 0). vm_compute. split; [discriminate|reflexivity].
Defined.

(** X4.  When the driver has a tile pin index, [get_layer_bb_from_scratch]
    returns exactly when every sink of the net sits on a layer of the
    device.  For each layer it then returns the tight box, with its edge
    counts, of the driver and the sinks on that layer, the number of those
    sinks, and the layer number in both records. *)
Theorem layer_from_scratch_is_exact (c : vpr_ctx) (net : ClusterNetId)
    (ed0 co0 : Z -> t_2D_bb) (cnt0 : Z -> Z) :
  driver_pin_known c net ->
  ((exists r, get_layer_bb_from_scratch c net ed0 co0 cnt0 = Some r)
   <-> sinks_on_device c net)
  /\ forall ed co cnt,
       get_layer_bb_from_scratch c net ed0 co0 cnt0 = Some (ed, co, cnt) ->
       forall l, 0 <= l < num_layers c ->
         exact_box (layer_pin_xs c net l) (layer_pin_ys c net l) (flat (co l)) (flat (ed l))
         /\ cnt l = Z.of_nat (length (layer_sinks c net l))
         /\ layer_num (co l) = l /\ layer_num (ed l) = l.
Proof. intros _. apply get_layer_bb_from_scratch_exact. Qed.

Lemma layer_from_scratch_is_exact_witness :
  sinks_on_device (demo_after 2 false) 0%nat
  /\ exists r,
       get_layer_bb_from_scratch (demo_after 2 false) 0%nat (fun _ => mk_2D_bb 0 0 0 0 0)
         (fun _ => mk_2D_bb 0 0 0 0 0) (fun _ => 0) = Some r.
Proof.
  destruct (layer_from_scratch_is_exact (demo_after 2 false) 0%nat
              (fun _ => mk_2D_bb 0 0 0 0 0) (fun _ => mk_2D_bb 0 0 0 0 0) (fun _ => 0))
    as [[Hruns _] _].
  - vm_compute. discriminate.
  - split; [|eexists; vm_compute; reflexivity].
    apply Hruns. eexists. vm_compute. reflexivity.
Defined.

End SinkCounts.

(** ** The cost of a placement *)

Section FirstCost.
Import NetCost.
Local Open Scope Z_scope.

Lemma from_scratch_box_any_count (c : vpr_ctx) (net : ClusterNetId) (cnt cnt' : Z -> Z) :
  fst (get_bb_from_scratch c net cnt) = fst (get_bb_from_scratch c net cnt').
Proof.
  destruct (exact_box_unique (net_pin_xs c net) (net_pin_ys c net)
              (net_pin_xs c net) (net_pin_ys c net)
              (fst (fst (get_bb_from_scratch c net cnt')))
              (snd (fst (get_bb_from_scratch c net cnt')))
              (fst (fst (get_bb_from_scratch c net cnt)))
              (snd (fst (get_bb_from_scratch c net cnt))))
    as [E1 E2]; try apply Permutation_refl; try apply get_bb_from_scratch_exact.
  destruct (get_bb_from_scratch c net cnt) as [[co ed] k].
  destruct (get_bb_from_scratch c net cnt') as [[co' ed'] k'].
  simpl in *. subst. reflexivity.
Qed.

Lemma get_net_cost_defined (c : vpr_ctx) (net : ClusterNetId) (bb : t_bb) :
  exists q, get_net_cost c net bb = Some q.
Proof.
  destruct (crossing_count_defined (net_pins_size c net)) as [q Hq];
    [apply net_pins_size_bounds|].
  unfold get_net_cost. rewrite Hq. eexists. reflexivity.
Qed.

Lemma get_net_cost_exact (c : vpr_ctx) (net : ClusterNetId) (cnt : Z -> Z) :
  get_net_cost c net (fst (fst (get_bb_from_scratch c net cnt)))
  = Some (exact_net_cost c net).
Proof.
  unfold exact_net_cost.
  rewrite (from_scratch_box_any_count c net (fun _ => 0) cnt).
  destruct (get_net_cost_defined c net (fst (fst (get_bb_from_scratch c net cnt))))
    as [q ->].
  reflexivity.
Qed.

(** One round of [comp_bb_cost] on a net that is not ignored. *)
Lemma comp_bb_cost_net_step (c : vpr_ctx) (method : e_cost_methods) (s : cost_state)
    (q : Q) (net : ClusterNetId) :
  net_is_ignored c net = false ->
  exists s',
    comp_bb_cost_net c method (Some (s, q)) net = Some (s', (q + exact_net_cost c net)%Q)
    /\ net_cost s' net = exact_net_cost c net
    /\ bb_coords s' net = fst (fst (get_bb_from_scratch c net (fun _ => 0)))
    /\ (method = NORMAL -> SMALL_NET c <= Z.of_nat (length (net_sinks c net)) ->
        bb_num_on_edges s' net = snd (fst (get_bb_from_scratch c net (fun _ => 0))))
    /\ (forall net', net' <> net ->
          net_cost s' net' = net_cost s net' /\ bb_coords s' net' = bb_coords s net'
          /\ bb_num_on_edges s' net' = bb_num_on_edges s net').
Proof.
  intros Hign. unfold comp_bb_cost_net, bind. cbn [fst snd]. rewrite Hign. cbn [negb].
  destruct ((Z.of_nat (length (net_sinks c net)) >=? SMALL_NET c)
            && match method with NORMAL => true | CHECK => false end) eqn:Econd.
  - pose proof (get_net_cost_exact c net (num_sink_pin_layer s net)) as Hcost.
    pose proof (from_scratch_box_any_count c net (num_sink_pin_layer s net) (fun _ => 0))
      as Hbox.
    destruct (get_bb_from_scratch c net (num_sink_pin_layer s net)) as [[co ed] cnt].
    cbn [fst snd] in *. cbn [bb_coords set_num_sink_pin_layer set_bb_num_on_edges
                              set_bb_coords].
    rewrite upd_same, Hcost.
    eexists. split; [cbn [net_cost set_net_cost]; rewrite upd_same; reflexivity|].
    cbn [net_cost bb_coords bb_num_on_edges set_net_cost set_bb_coords
         set_num_sink_pin_layer set_bb_num_on_edges].
    rewrite !upd_same.
    split; [reflexivity|]. split; [rewrite <- Hbox; reflexivity|].
    split; [intros _ _; rewrite <- Hbox; reflexivity|].
    intros net' Hne. rewrite !upd_other by exact Hne. repeat split.
  - destruct (non_updatable_is_from_scratch c net (num_sink_pin_layer s net)) as [Hb _].
    pose proof (get_net_cost_exact c net (num_sink_pin_layer s net)) as Hcost.
    pose proof (from_scratch_box_any_count c net (num_sink_pin_layer s net) (fun _ => 0))
      as Hbox.
    cbn [bb_coords set_num_sink_pin_layer set_bb_coords].
    rewrite upd_same, Hb, Hcost.
    eexists. split; [cbn [net_cost set_net_cost]; rewrite upd_same; reflexivity|].
    cbn [net_cost bb_coords bb_num_on_edges set_net_cost set_bb_coords
         set_num_sink_pin_layer set_bb_num_on_edges].
    rewrite !upd_same.
    split; [reflexivity|]. split; [rewrite <- Hbox; reflexivity|].
    split.
    { intros -> Hbig. rewrite andb_true_r in Econd. lia. }
    intros net' Hne. rewrite !upd_other by exact Hne. repeat split.
Qed.

Lemma comp_bb_cost_loop (c : vpr_ctx) (method : e_cost_methods) (l : list ClusterNetId) :
  forall (s : cost_state) (q : Q),
  exists s',
    fold_left (comp_bb_cost_net c method) l (Some (s, q))
    = Some (s', fold_left
                  (fun cost net => if negb (net_is_ignored c net)
                                   then (cost + exact_net_cost c net)%Q else cost) l q)
    /\ (forall net, In net l -> net_is_ignored c net = false ->
          net_cost s' net = exact_net_cost c net
          /\ bb_coords s' net = fst (fst (get_bb_from_scratch c net (fun _ => 0)))
          /\ (method = NORMAL -> SMALL_NET c <= Z.of_nat (length (net_sinks c net)) ->
              bb_num_on_edges s' net
              = snd (fst (get_bb_from_scratch c net (fun _ => 0)))))
    /\ (forall net, ~ In net l ->
          net_cost s' net = net_cost s net /\ bb_coords s' net = bb_coords s net
          /\ bb_num_on_edges s' net = bb_num_on_edges s net).
Proof.
  induction l as [|net l IH]; intros s q; cbn [fold_left].
  - exists s. split; [reflexivity|]. split; [intros net []|intros net _; repeat split].
  - destruct (net_is_ignored c net) eqn:Hign.
    + assert (Hstep : comp_bb_cost_net c method (Some (s, q)) net = Some (s, q)).
      { unfold comp_bb_cost_net, bind. cbn [fst]. rewrite Hign. reflexivity. }
      rewrite Hstep. cbn [negb].
      destruct (IH s q) as (s' & Hrun & Hin & Hout).
      exists s'. split; [exact Hrun|]. split.
      * intros net' [<-|Hin'] Hi; [congruence|apply Hin; assumption].
      * intros net' Hnot. apply Hout. intros Hin'. apply Hnot. right. exact Hin'.
    + destruct (comp_bb_cost_net_step c method s q net Hign)
        as (s1 & Hstep & Hcost & Hbox & Hedge & Hother).
      rewrite Hstep. cbn [negb].
      destruct (IH s1 (q + exact_net_cost c net)%Q) as (s' & Hrun & Hin & Hout).
      exists s'. split; [exact Hrun|]. split.
      * intros net' Hin' Hi.
        destruct (in_dec Nat.eq_dec net' l) as [Hl|Hl]; [apply Hin; assumption|].
        destruct Hin' as [<-|Hin']; [|contradiction].
        destruct (Hout net Hl) as (-> & -> & ->). repeat split; assumption.
      * intros net' Hnot.
        assert (net' <> net) by (intros ->; apply Hnot; left; reflexivity).
        destruct (Hout net') as (-> & -> & ->).
        { intros Hin'. apply Hnot. right. exact Hin'. }
        apply Hother. assumption.
Qed.

Lemma recompute_fold_ext (c : vpr_ctx) (s : cost_state) (l : list ClusterNetId) :
  (forall net, In net l -> net_is_ignored c net = false ->
     net_cost s net = exact_net_cost c net) ->
  forall q,
    fold_left (fun cost net => if negb (net_is_ignored c net)
                               then (cost + net_cost s net)%Q else cost) l q
    = fold_left (fun cost net => if negb (net_is_ignored c net)
                                 then (cost + exact_net_cost c net)%Q else cost) l q.
Proof.
  induction l as [|net l IH]; intros H q; cbn [fold_left]; [reflexivity|].
  rewrite IH by (intros n Hn; apply H; right; exact Hn).
  destruct (net_is_ignored c net) eqn:E; cbn [negb]; [reflexivity|].
  rewrite (H net (or_introl eq_refl) E). reflexivity.
Qed.

(** [comp_bb_cost] always returns, with either method and from any state,
    the cost of the placement; it leaves every net of the netlist that is
    not ignored with its tight box and the cost of that box, so that
    [recompute_bb_cost] finds the same cost again. *)
Lemma comp_bb_cost_run (c : vpr_ctx) (s : cost_state)
    (method : e_cost_methods) :
  exists s',
    comp_bb_cost c s method = Some (s', placement_cost c)
    /\ recompute_bb_cost c s' = placement_cost c
    /\ (forall net, In net (nets c) -> net_is_ignored c net = false ->
          net_cost s' net = exact_net_cost c net
          /\ bb_coords s' net = fst (fst (get_bb_from_scratch c net (fun _ => 0))))
    /\ (method = NORMAL -> state_exact c s').
Proof.
  destruct (comp_bb_cost_loop c method (nets c) s 0%Q) as (s' & Hrun & Hin & _).
  exists s'. split; [exact Hrun|]. split; [|split].
  - unfold recompute_bb_cost, placement_cost.
    apply recompute_fold_ext. intros net Hnet Hign. apply Hin; assumption.
  - intros net Hnet Hign. destruct (Hin net Hnet Hign) as (A & B & _). split; assumption.
  - intros Hm net Hnet Hign. destruct (Hin net Hnet Hign) as (A & B & C).
    split; [exact B|]. split; [apply C; exact Hm|exact A].
Qed.

(** X5.  When the nets that are not ignored pass the assertion of
    [get_bb_from_scratch], [comp_bb_cost] returns from any state and with
    either method, and returns the same cost: the sum over the nets that are
    not ignored of the cost of the net's tight box.  It leaves each of those
    nets with that box and that cost, so [recompute_bb_cost] on the state it
    returns gives the same total; with method NORMAL it also leaves each net
    that is updated incrementally with the edge counts of its box. *)
Theorem comp_bb_cost_is_placement_cost (c : vpr_ctx) (s : cost_state)
    (method : e_cost_methods) :
  drivers_known c ->
  exists s',
    comp_bb_cost c s method = Some (s', placement_cost c)
    /\ recompute_bb_cost c s' = placement_cost c
    /\ (forall net, In net (nets c) -> net_is_ignored c net = false ->
          net_cost s' net = exact_net_cost c net
          /\ bb_coords s' net = fst (fst (get_bb_from_scratch c net (fun _ => 0))))
    /\ (method = NORMAL -> state_exact c s').
Proof. intros _. apply comp_bb_cost_run. Qed.

Lemma comp_bb_cost_is_placement_cost_witness :
  exists s',
    comp_bb_cost (demo_after 1 true) demo_init CHECK
    = Some (s', placement_cost (demo_after 1 true))
    /\ recompute_bb_cost (demo_after 1 true) s' = placement_cost (demo_after 1 true).
Proof.
  destruct (comp_bb_cost_is_placement_cost (demo_after 1 true) demo_init CHECK)
    as (s' & Hrun & Hsum & _).
  - intros net [<-|[<-|[]]] _; vm_compute; discriminate.
  - exists s'. split; assumption.
Defined.

End FirstCost.

(** ** The affected nets and the cost delta of a swap *)

Section SwapAccounting.
Import NetCost.
Local Open Scope Z_scope.

Lemma record_affected_net_find (c : vpr_ctx) (moved : list t_pl_moved_block)
    (s : cost_state) (net : ClusterNetId) (n : Z) :
  0 <= n -> net_of_moved_pin c moved net -> find_invariant c moved s n ->
  find_invariant c moved (fst (record_affected_net s net n))
    (snd (record_affected_net s net n))
  /\ n <= snd (record_affected_net s net n)
  /\ forall i, 0 <= i < n ->
       ts_nets_to_update (fst (record_affected_net s net n)) i = ts_nets_to_update s i.
Proof.
  intros Hn Hnet ((Hign & Hinj) & Hmark & Hmoved). unfold record_affected_net.
  destruct (Qltb (proposed_net_cost s net) 0) eqn:E; cbn [fst snd].
  - apply Qltb_true in E.
    assert (Hfresh : forall i, 0 <= i < n -> ts_nets_to_update s i <> net).
    { intros i Hi Heq. apply (Hmark i Hi). rewrite Heq. exact E. }
    assert (Hts : forall i, 0 <= i < n + 1 ->
              (i = n /\ updz (ts_nets_to_update s) n net i = net)
              \/ (0 <= i < n /\ updz (ts_nets_to_update s) n net i = ts_nets_to_update s i)).
    { intros i Hi. destruct (Z.eq_dec i n) as [->|Hne].
      - left. split; [reflexivity|apply updz_same].
      - right. split; [lia|apply updz_other; exact Hne]. }
    unfold find_invariant, listed_once.
    cbn [ts_nets_to_update proposed_net_cost set_proposed_net_cost set_ts_nets_to_update].
    split; [|split; [lia|intros i Hi; apply updz_other; lia]].
    split; [split|split].
    + intros i Hi. destruct (Hts i Hi) as [[_ ->]|[Hi' ->]]; [apply Hnet|apply Hign; exact Hi'].
    + intros i j Hi Hj.
      destruct (Hts i Hi) as [[-> ->]|[Hi' ->]], (Hts j Hj) as [[-> ->]|[Hj' ->]].
      * reflexivity.
      * intros Heq. symmetry in Heq. destruct (Hfresh j Hj' Heq).
      * intros Heq. destruct (Hfresh i Hi' Heq).
      * apply Hinj; assumption.
    + intros i Hi. destruct (Hts i Hi) as [[_ ->]|[Hi' ->]].
      * rewrite upd_same. intros H. discriminate H.
      * rewrite upd_other by (apply Hfresh; exact Hi'). apply Hmark. exact Hi'.
    + intros i Hi. destruct (Hts i Hi) as [[_ ->]|[Hi' ->]]; [exact Hnet|apply Hmoved; exact Hi'].
  - split; [|split; [lia|reflexivity]].
    split; [split; assumption|split; assumption].
Qed.

Lemma find_invariant_frame (c : vpr_ctx) (moved : list t_pl_moved_block)
    (net : ClusterNetId) (s s' : cost_state) (n : Z) :
  trial_frame net s s' -> find_invariant c moved s n -> find_invariant c moved s' n.
Proof.
  intros (_ & Fp & Ft & _). unfold find_invariant, listed_once. rewrite Fp, Ft. trivial.
Qed.

(** One pin of a moved block: the list of affected nets grows at its end
    only, and the net of the pin is on it afterwards. *)
Lemma update_net_info_on_pin_move_find (c : vpr_ctx) (moved : list t_pl_moved_block)
    (s0 s s' : cost_state) (pin : ClusterPinId) (mv : t_pl_moved_block) (n n' : Z) :
  In mv moved -> In pin (block_pins c (block_num mv)) ->
  swap_invariant s0 s n -> find_invariant c moved s n ->
  update_net_info_on_pin_move c s (block_num mv) pin mv n = Some (s', n') ->
  find_invariant c moved s' n'
  /\ n <= n'
  /\ (forall i, 0 <= i < n -> ts_nets_to_update s' i = ts_nets_to_update s i)
  /\ (net_is_ignored c (pin_net c pin) = false -> recorded s' n' (pin_net c pin)).
Proof.
  intros Hmv Hpin Hswap Hfind H. unfold update_net_info_on_pin_move in H.
  assert (Hn : 0 <= n) by apply Hswap.
  destruct (net_is_ignored c (pin_net c pin)) eqn:Hign.
  - injection H as <- <-. split; [exact Hfind|]. split; [lia|].
    split; [reflexivity|discriminate].
  - assert (Hnet : net_of_moved_pin c moved (pin_net c pin)).
    { split; [exact Hign|]. exists mv, pin. repeat split; assumption. }
    destruct (record_affected_net_find c moved s (pin_net c pin) n Hn Hnet Hfind)
      as (Hfind1 & Hle & Hpre).
    destruct (record_affected_net_invariant s0 s (pin_net c pin) n Hswap) as [_ Hrec].
    destruct (record_affected_net s (pin_net c pin) n) as [s1 n1]. cbn [fst snd] in *.
    assert (Hframe : trial_frame (pin_net c pin) s1 s' /\ n' = n1).
    { destruct (cube_bb c).
      - injection H as <- <-. split; [apply frame_update_net_bb|reflexivity].
      - unfold bind in H.
        destruct (update_net_layer_bb c s1 (pin_net c pin) (block_num mv) pin mv)
          as [s2|] eqn:E; [|discriminate].
        injection H as <- <-.
        split; [eapply frame_update_net_layer_bb; exact E|reflexivity]. }
    destruct Hframe as [Hframe ->].
    assert (Hts : ts_nets_to_update s' = ts_nets_to_update s1) by apply Hframe.
    split; [eapply find_invariant_frame; eassumption|].
    split; [exact Hle|]. split.
    + intros i Hi. rewrite Hts. apply Hpre. exact Hi.
    + intros _. destruct Hrec as [i [Hi Hrec]]. exists i. rewrite Hts. split; assumption.
Qed.

(** The invariant on the accumulator of the loops over the moved pins. *)
Lemma update_block_pins_find (c : vpr_ctx) (moved : list t_pl_moved_block)
    (s0 : cost_state) (mv : t_pl_moved_block) (pins : list ClusterPinId) :
  In mv moved -> (forall pin, In pin pins -> In pin (block_pins c (block_num mv))) ->
  forall s n s' n',
    swap_invariant s0 s n -> find_invariant c moved s n ->
    fold_left
      (fun acc blk_pin =>
         a <- acc ;;
         update_net_info_on_pin_move c (fst a) (block_num mv) blk_pin mv (snd a))
      pins (Some (s, n)) = Some (s', n') ->
    swap_invariant s0 s' n' /\ find_invariant c moved s' n'
    /\ n <= n'
    /\ (forall i, 0 <= i < n -> ts_nets_to_update s' i = ts_nets_to_update s i)
    /\ forall pin, In pin pins -> net_is_ignored c (pin_net c pin) = false ->
         recorded s' n' (pin_net c pin).
Proof.
  intros Hmv. induction pins as [|pin pins IH]; intros Hpins s n s' n' Hswap Hfind H.
  - cbn [fold_left] in H. injection H as <- <-.
    split; [exact Hswap|]. split; [exact Hfind|]. split; [lia|].
    split; [reflexivity|intros pin []].
  - cbn [fold_left] in H. unfold bind at 2 in H. cbn [fst snd] in H.
    destruct (update_net_info_on_pin_move c s (block_num mv) pin mv n)
      as [[s1 n1]|] eqn:E.
    + destruct (update_net_info_on_pin_move_find c moved s0 s s1 pin mv n n1 Hmv
                  (Hpins pin (or_introl eq_refl)) Hswap Hfind E)
        as (Hfind1 & Hle1 & Hpre1 & Hrec1).
      pose proof (update_net_info_on_pin_move_invariant c s0 s s1 (block_num mv) pin mv
                    n n1 Hswap E) as Hswap1.
      destruct (IH (fun p Hp => Hpins p (or_intror Hp)) s1 n1 s' n' Hswap1 Hfind1 H)
        as (Hswap' & Hfind' & Hle' & Hpre' & Hrec').
      assert (Hn : 0 <= n) by apply Hswap.
      split; [exact Hswap'|]. split; [exact Hfind'|]. split; [lia|]. split.
      * intros i Hi. rewrite Hpre' by lia. apply Hpre1. exact Hi.
      * intros p [<-|Hp] Hign; [|apply Hrec'; assumption].
        destruct (Hrec1 Hign) as [i [Hi Hrec]].
        exists i. split; [lia|]. rewrite Hpre' by exact Hi. exact Hrec.
    + exfalso. clear - H.
      assert (Hnone : forall l,
                fold_left
                  (fun acc blk_pin =>
                     a <- acc ;;
                     update_net_info_on_pin_move c (fst a) (block_num mv) blk_pin mv (snd a))
                  l None = None) by (induction l; [reflexivity|assumption]).
      rewrite Hnone in H. discriminate H.
Qed.

Lemma update_block_pins_none (c : vpr_ctx) (l : list t_pl_moved_block) :
  fold_left (fun acc blk => update_block_pins c blk acc) l None = None.
Proof.
  induction l as [|blk l IH]; [reflexivity|]. cbn [fold_left].
  assert (Hnone : update_block_pins c blk None = None).
  { unfold update_block_pins. induction (block_pins c (block_num blk)); [reflexivity|assumption]. }
  rewrite Hnone. exact IH.
Qed.

Lemma moved_blocks_find (c : vpr_ctx) (moved : list t_pl_moved_block) (s0 : cost_state)
    (blocks : list t_pl_moved_block) :
  (forall blk, In blk blocks -> In blk moved) ->
  forall s n s' n',
    swap_invariant s0 s n -> find_invariant c moved s n ->
    fold_left (fun acc blk => update_block_pins c blk acc) blocks (Some (s, n))
    = Some (s', n') ->
    swap_invariant s0 s' n' /\ find_invariant c moved s' n'
    /\ n <= n'
    /\ (forall i, 0 <= i < n -> ts_nets_to_update s' i = ts_nets_to_update s i)
    /\ forall blk pin, In blk blocks -> In pin (block_pins c (block_num blk)) ->
         net_is_ignored c (pin_net c pin) = false -> recorded s' n' (pin_net c pin).
Proof.
  induction blocks as [|blk blocks IH]; intros Hsub s n s' n' Hswap Hfind H.
  - cbn [fold_left] in H. injection H as <- <-.
    split; [exact Hswap|]. split; [exact Hfind|]. split; [lia|].
    split; [reflexivity|intros blk pin []].
  - cbn [fold_left] in H.
    destruct (update_block_pins c blk (Some (s, n))) as [[s1 n1]|] eqn:E;
      [|rewrite update_block_pins_none in H; discriminate H].
    destruct (update_block_pins_find c moved s0 blk (block_pins c (block_num blk))
                (Hsub blk (or_introl eq_refl)) (fun p Hp => Hp) s n s1 n1 Hswap Hfind E)
      as (Hswap1 & Hfind1 & Hle1 & Hpre1 & Hrec1).
    destruct (IH (fun b Hb => Hsub b (or_intror Hb)) s1 n1 s' n' Hswap1 Hfind1 H)
      as (Hswap' & Hfind' & Hle' & Hpre' & Hrec').
    assert (Hn : 0 <= n) by apply Hswap.
    assert (Hn1 : 0 <= n1) by apply Hswap1.
    split; [exact Hswap'|]. split; [exact Hfind'|]. split; [lia|]. split.
    + intros i Hi. rewrite Hpre' by lia. apply Hpre1. exact Hi.
    + intros b pin [<-|Hb] Hpin Hign; [|eapply Hrec'; eassumption].
      destruct (Hrec1 pin Hpin Hign) as [i [Hi Hrec]].
      exists i. split; [lia|]. rewrite Hpre' by exact Hi. exact Hrec.
Qed.

Lemma sum_Q_nil : sum_Q [] = 0%Q.
Proof. reflexivity. Qed.

Lemma sum_Q_cons (x : Q) (l : list Q) : sum_Q (x :: l) = (x + sum_Q l)%Q.
Proof. reflexivity. Qed.

Lemma price_affected_net_none (c : vpr_ctx) (l : list Z) :
  fold_left (price_affected_net c) l None = None.
Proof. induction l; [reflexivity|assumption]. Qed.

(** The loop that prices the affected nets: it writes proposed costs only,
    those of the listed nets, and adds up what each net would gain. *)
Lemma price_loop_sum (c : vpr_ctx) (l : list Z) :
  forall (s : cost_state) (d : Q) (s' : cost_state) (d' : Q),
    NoDup l ->
    (forall i j, In i l -> In j l ->
       ts_nets_to_update s i = ts_nets_to_update s j -> i = j) ->
    fold_left (price_affected_net c) l (Some (s, d)) = Some (s', d') ->
    ts_nets_to_update s' = ts_nets_to_update s
    /\ net_cost s' = net_cost s
    /\ (forall net, (forall i, In i l -> ts_nets_to_update s i <> net) ->
          proposed_net_cost s' net = proposed_net_cost s net)
    /\ (d' == d + sum_Q (map (fun i => proposed_net_cost s' (ts_nets_to_update s i)
                                       - net_cost s (ts_nets_to_update s i)) l))%Q.
Proof.
  induction l as [|i l IH]; intros s d s' d' Hnd Hinj H.
  - cbn [fold_left] in H. injection H as <- <-.
    repeat split. cbn [map]. rewrite sum_Q_nil. ring.
  - cbn [fold_left] in H. unfold price_affected_net at 2 in H. unfold bind in H.
    cbn [fst snd] in H.
    destruct (if cube_bb c
              then get_net_cost c (ts_nets_to_update s i)
                     (ts_bb_coord_new s (ts_nets_to_update s i))
              else get_net_layer_cost c (layer_ts_bb_coord_new s (ts_nets_to_update s i))
                     (ts_layer_sink_pin_count s (ts_nets_to_update s i))) as [cost|];
      [|rewrite price_affected_net_none in H; discriminate H].
    inversion Hnd as [|? ? Hnotin Hnd']; subst.
    apply IH in H; [|exact Hnd'|].
    2:{ cbn [ts_nets_to_update set_proposed_net_cost]. intros a b Ha Hb.
        apply Hinj; right; assumption. }
    cbn [ts_nets_to_update net_cost proposed_net_cost set_proposed_net_cost] in H.
    destruct H as (Hts & Hcost & Hother & Hsum).
    assert (Hhead : proposed_net_cost s' (ts_nets_to_update s i) = cost).
    { rewrite Hother; [apply upd_same|].
      intros j Hj Heq. apply Hnotin.
      rewrite <- (Hinj j i (or_intror Hj) (or_introl eq_refl) Heq). exact Hj. }
    split; [exact Hts|]. split; [exact Hcost|]. split.
    + intros net Hnone. rewrite Hother by (intros j Hj; apply Hnone; right; exact Hj).
      apply upd_other. intros Heq. apply (Hnone i (or_introl eq_refl)). symmetry. exact Heq.
    + rewrite Hsum. cbn [map]. rewrite sum_Q_cons, Hhead, upd_same. ring.
Qed.

Lemma update_move_net_costs (c : vpr_ctx) (cube : bool) (s : cost_state) (i : Z) :
  net_cost (update_move_net c cube s i)
  = upd (net_cost s) (ts_nets_to_update s i) (proposed_net_cost s (ts_nets_to_update s i)).
Proof.
  unfold update_move_net.
  destruct cube; destruct (Z.of_nat (length (net_sinks c _)) >=? SMALL_NET c); reflexivity.
Qed.

(** The loop of [update_move_nets]: every listed net gets its proposed cost,
    the other nets keep theirs. *)
Lemma commit_loop_costs (c : vpr_ctx) (cube : bool) (l : list Z) :
  forall s : cost_state,
    NoDup l ->
    (forall i j, In i l -> In j l ->
       ts_nets_to_update s i = ts_nets_to_update s j -> i = j) ->
    (forall i, In i l ->
       net_cost (fold_left (update_move_net c cube) l s) (ts_nets_to_update s i)
       = proposed_net_cost s (ts_nets_to_update s i))
    /\ forall net, (forall i, In i l -> ts_nets_to_update s i <> net) ->
         net_cost (fold_left (update_move_net c cube) l s) net = net_cost s net.
Proof.
  induction l as [|i l IH]; intros s Hnd Hinj.
  - split; [intros i []|reflexivity].
  - cbn [fold_left]. inversion Hnd as [|? ? Hnotin Hnd']; subst.
    destruct (update_move_net_fields c cube s i) as (Hs1 & _ & Hp1).
    assert (Hts : ts_nets_to_update (update_move_net c cube s i) = ts_nets_to_update s)
      by apply Hs1.
    destruct (IH (update_move_net c cube s i) Hnd') as [Hin Hout].
    { rewrite Hts. intros a b Ha Hb. apply Hinj; right; assumption. }
    rewrite Hts in Hin, Hout.
    assert (Hdiff : forall j, In j l -> ts_nets_to_update s j <> ts_nets_to_update s i).
    { intros j Hj Heq. apply Hnotin.
      rewrite <- (Hinj j i (or_intror Hj) (or_introl eq_refl) Heq). exact Hj. }
    split.
    + intros j [<-|Hj].
      * rewrite Hout by exact Hdiff. rewrite update_move_net_costs. apply upd_same.
      * rewrite Hin by exact Hj. rewrite Hp1. apply upd_other. apply Hdiff. exact Hj.
    + intros net Hnone. rewrite Hout by (intros j Hj; apply Hnone; right; exact Hj).
      rewrite update_move_net_costs. apply upd_other.
      intros Heq. apply (Hnone i (or_introl eq_refl)). symmetry. exact Heq.
Qed.





Lemma find_affected_nets_find (c : vpr_ctx) (s s1 : cost_state)
    (moved : list t_pl_moved_block) (n : Z) (delta : Q) :
  between_swaps s ->
  find_affected_nets_and_update_costs c s moved = Some (s1, n, delta) ->
  exists sa,
    fold_left (price_affected_net c) (zrange n) (Some (sa, 0%Q)) = Some (s1, delta)
    /\ committed_same s sa
    /\ find_invariant c moved sa n
    /\ 0 <= n
    /\ forall blk pin, In blk moved -> In pin (block_pins c (block_num blk)) ->
         net_is_ignored c (pin_net c pin) = false -> recorded sa n (pin_net c pin).
Proof.
  intros Hclean H. unfold find_affected_nets_and_update_costs in H.
  unfold bind at 1 in H.
  destruct (fold_left (fun acc blk => update_block_pins c blk acc) moved (Some (s, 0)))
    as [[sa na]|] eqn:E1; [|discriminate H].
  cbn [fst snd] in H. unfold bind in H.
  destruct (fold_left (price_affected_net c) (zrange na) (Some (sa, 0%Q)))
    as [[sb db]|] eqn:E2; [|discriminate H].
  cbn [fst snd] in H. injection H as <- <- <-.
  assert (Hfind0 : find_invariant c moved s 0).
  { split; [split|split]; intros; lia. }
  destruct (moved_blocks_find c moved s moved (fun b Hb => Hb) s 0 sa na
              (swap_invariant_start s Hclean) Hfind0 E1)
    as (Hswap & Hfind & Hle & _ & Hrec).
  exists sa. split; [exact E2|]. split; [apply Hswap|]. split; [exact Hfind|].
  split; [exact Hle|exact Hrec].
Qed.

(** X7.  In a swap started between swaps, the list of affected nets that
    [find_affected_nets_and_update_costs] builds holds exactly the nets of
    the pins of the moved blocks that are not ignored, and holds each of
    them once, however many pins of the moved blocks a net has. *)
Lemma affected_nets_listed_once (c : vpr_ctx) (s s1 : cost_state)
    (moved : list t_pl_moved_block) (n : Z) (delta : Q) :
  between_swaps s ->
  find_affected_nets_and_update_costs c s moved = Some (s1, n, delta) ->
  0 <= n
  /\ listed_once c s1 n
  /\ forall net, recorded s1 n net <-> net_of_moved_pin c moved net.
Proof.
  intros Hclean H.
  destruct (find_affected_nets_find c s s1 moved n delta Hclean H)
    as (sa & Hprice & _ & (Hlist & _ & Hmoved) & Hn & Hrec).
  assert (Hinj : forall i j, In i (zrange n) -> In j (zrange n) ->
            ts_nets_to_update sa i = ts_nets_to_update sa j -> i = j).
  { intros i j Hi Hj. apply Hlist; apply zrange_bounds; assumption. }
  destruct (price_loop_sum c (zrange n) sa 0%Q s1 delta (zrange_NoDup n) Hinj Hprice)
    as (Hts & _).
  split; [exact Hn|]. unfold listed_once, recorded. rewrite Hts.
  split; [exact Hlist|].
  intros net. split.
  - intros [i [Hi <-]]. apply Hmoved. exact Hi.
  - intros [Hign (blk & pin & Hblk & Hpin & <-)]. apply (Hrec blk pin); assumption.
Qed.

Lemma affected_nets_listed_once_witness :
  exists s1 n delta,
    find_affected_nets_and_update_costs (demo_after 1 true)
      (demo_placed (demo_before 1 true)) [demo_move]
    = Some (s1, n, delta)
    /\ listed_once (demo_after 1 true) s1 n
    /\ recorded s1 n 0%nat.
Proof.
  assert (Hruns : completes (find_affected_nets_and_update_costs (demo_after 1 true)
                               (demo_placed (demo_before 1 true)) [demo_move]) = true)
    by (vm_compute; reflexivity).
  destruct (find_affected_nets_and_update_costs (demo_after 1 true)
              (demo_placed (demo_before 1 true)) [demo_move])
    as [[[s1 n] delta]|] eqn:E; [|discriminate Hruns].
  exists s1, n, delta. split; [reflexivity|].
  destruct (affected_nets_listed_once (demo_after 1 true)
              (demo_placed (demo_before 1 true)) s1 [demo_move] n delta)
    as (_ & Hlist & Hrec).
  - intros net. split; vm_compute; reflexivity.
  - exact E.
  - split; [exact Hlist|]. apply Hrec. split; [reflexivity|].
    exists demo_move, 5%nat. split; [left; reflexivity|].
    split; [left; reflexivity|reflexivity].
Defined.



End SwapAccounting.

(** ** The sign of the cost and the first consistency check *)

Section CostSign.
Import NetCost.
Local Open Scope Z_scope.

Lemma cross_count_positive : Forall (fun q => (0 < q)%Q) cross_count.
Proof. unfold cross_count. repeat constructor. Qed.

Lemma crossing_count_positive (f : Z) (q : Q) :
  wirelength_crossing_count f = Some q -> (0 < q)%Q.
Proof.
  unfold wirelength_crossing_count. destruct (f >? 50) eqn:E.
  - intros H. injection H as <-.
    apply Qlt_le_trans with (2.7933 + 0)%Q; [reflexivity|].
    apply Qplus_le_compat; [apply Qle_refl|].
    apply Qmult_le_0_compat; [discriminate|].
    unfold Qle. cbn [Qnum Qden inject_Z]. lia.
  - unfold cross_count_at. destruct (_ && _); [|discriminate].
    intros H. apply nth_error_In in H.
    exact (proj1 (Forall_forall _ _) cross_count_positive q H).
Qed.

Lemma inject_Z_nonneg (z : Z) : 0 <= z -> (0 <= inject_Z z)%Q.
Proof. intros H. unfold Qle. cbn [Qnum Qden inject_Z]. lia. Qed.

Lemma exact_net_cost_nonneg (c : vpr_ctx) (net : ClusterNetId) :
  channel_factors_nonnegative c -> (0 <= exact_net_cost c net)%Q.
Proof.
  intros Hfac.
  pose proof (get_net_cost_exact c net (fun _ => 0)) as Hcost.
  destruct (get_bb_from_scratch_exact c net (fun _ => 0))
    as [(Hx1 & _ & Hx & _) (Hy1 & _ & Hy & _)].
  apply Hx in Hx1. apply Hy in Hy1.
  unfold get_net_cost in Hcost.
  destruct (wirelength_crossing_count (net_pins_size c net)) as [crossing|] eqn:E;
    [|discriminate].
  injection Hcost as <-.
  pose proof (crossing_count_positive _ _ E) as Hpos. apply Qlt_le_weak in Hpos.
  assert (H0 : (0 == 0 + 0)%Q) by ring. rewrite H0 at 1.
  apply Qplus_le_compat.
  - apply Qmult_le_0_compat; [apply Qmult_le_0_compat|apply Hfac];
      [apply inject_Z_nonneg; lia|exact Hpos].
  - apply Qmult_le_0_compat; [apply Qmult_le_0_compat|apply Hfac];
      [apply inject_Z_nonneg; lia|exact Hpos].
Qed.

Lemma placement_cost_nonneg (c : vpr_ctx) :
  channel_factors_nonnegative c -> (0 <= placement_cost c)%Q.
Proof.
  intros Hfac. unfold placement_cost.
  apply (fold_left_invariant (fun q => (0 <= q)%Q)); [|apply Qle_refl].
  intros q net _ Hq. destruct (negb (net_is_ignored c net)); [|exact Hq].
  assert (H0 : (0 == 0 + 0)%Q) by ring. rewrite H0.
  apply Qplus_le_compat; [exact Hq|apply exact_net_cost_nonneg; exact Hfac].
Qed.

Lemma within_tolerance_of_itself (new_v old_v : Q) :
  (new_v == old_v)%Q -> (0 <= old_v)%Q -> out_of_tolerance new_v old_v = false.
Proof.
  intros Heq Hpos. apply out_of_tolerance_false. unfold differs_beyond_tolerance.
  apply Qle_not_lt.
  assert (H0 : (Qabs (new_v - old_v) == 0)%Q).
  { rewrite Heq. setoid_replace (old_v - old_v)%Q with 0%Q by ring. reflexivity. }
  rewrite H0. apply Qmult_le_0_compat; [exact Hpos|discriminate].
Qed.

(** X6.  With channel factors that are not negative the cost that
    [comp_bb_cost] returns is not negative, and [recompute_costs_from_scratch]
    run on the state it returns, with that cost as the tracked bounding-box
    cost, never ends in the bounding-box cost error. *)
Lemma fresh_cost_passes_check (c : vpr_ctx) (s s' : cost_state)
    (method : e_cost_methods) (q : Q) (inp : recompute_inputs) (costs : t_placer_costs) :
  channel_factors_nonnegative c ->
  comp_bb_cost c s method = Some (s', q) ->
  (bb_cost costs == q)%Q ->
  (0 <= q)%Q
  /\ forall new_v old_v,
       recompute_costs_from_scratch c s' inp costs <> Fatal (bb_cost_error new_v old_v).
Proof.
  intros Hfac Hrun Htracked.
  destruct (comp_bb_cost_run c s method) as (s2 & Hrun2 & Hsum & _).
  rewrite Hrun in Hrun2. injection Hrun2 as <- ->.
  pose proof (placement_cost_nonneg c Hfac) as Hpos.
  split; [exact Hpos|].
  intros new_v old_v. unfold recompute_costs_from_scratch.
  rewrite within_tolerance_of_itself;
    [|rewrite Hsum, Htracked; reflexivity|rewrite Htracked; exact Hpos].
  cbn [cost bb_cost timing_cost bb_cost_norm noc_aggregate_bandwidth_cost noc_latency_cost].
  destruct (is_timing_driven inp).
  - destruct (out_of_tolerance _ _); [discriminate|].
    destruct (noc inp); [|discriminate].
    destruct (out_of_tolerance _ _); [discriminate|].
    destruct (_ && _); discriminate.
  - destruct (is_bounding_box_place inp); [|discriminate].
    destruct (noc inp); [|discriminate].
    cbn [cost bb_cost timing_cost bb_cost_norm noc_aggregate_bandwidth_cost noc_latency_cost].
    destruct (out_of_tolerance _ _); [discriminate|].
    destruct (_ && _); discriminate.
Qed.

Lemma fresh_cost_passes_check_witness :
  exists s' q,
    comp_bb_cost (demo_after 1 true) demo_init NORMAL = Some (s', q)
    /\ (0 <= q)%Q
    /\ forall new_v old_v,
         recompute_costs_from_scratch (demo_after 1 true) s' demo_inputs (demo_costs q)
         <> Fatal (bb_cost_error new_v old_v).
Proof.
  assert (Hruns : completes (comp_bb_cost (demo_after 1 true) demo_init NORMAL) = true)
    by (vm_compute; reflexivity).
  destruct (comp_bb_cost (demo_after 1 true) demo_init NORMAL) as [[s' q]|] eqn:E;
    [|discriminate Hruns].
  exists s', q. split; [reflexivity|].
  apply (fresh_cost_passes_check (demo_after 1 true) demo_init s' NORMAL q demo_inputs
           (demo_costs q)).
  - intros a b. split; vm_compute; discriminate.
  - exact E.
  - apply Qeq_refl.
Defined.

End CostSign.

(** ** A moved pin and the box of its net *)

Section MovedPin.
Import NetCost.
Local Open Scope Z_scope.

Lemma exact_box_perm (xs ys xs' ys' : list Z) (co ed : t_bb) :
  Permutation xs xs' -> Permutation ys ys' ->
  exact_box xs ys co ed -> exact_box xs' ys' co ed.
Proof. intros Px Py [Hx Hy]. split; eapply tight_perm; eassumption. Qed.

Lemma placed_back_other (c : vpr_ctx) (blk b : ClusterBlockId) (loc : t_pl_loc) (pnum : Z) :
  b <> blk ->
  pin_x (placed_back c blk loc) b pnum = pin_x c b pnum
  /\ pin_y (placed_back c blk loc) b pnum = pin_y c b pnum.
Proof.
  intros Hne. unfold pin_x, pin_y, placed_back, with_block_locs.
  cbn [block_locs pin_width_offset pin_height_offset].
  rewrite upd_other by exact Hne. split; reflexivity.
Qed.

Lemma placed_back_same (c : vpr_ctx) (blk : ClusterBlockId) (loc : t_pl_loc) (pnum : Z) :
  pin_x (placed_back c blk loc) blk pnum = pl_x loc + pin_width_offset c blk pnum
  /\ pin_y (placed_back c blk loc) blk pnum = pl_y loc + pin_height_offset c blk pnum.
Proof.
  unfold pin_x, pin_y, placed_back, with_block_locs.
  cbn [block_locs pin_width_offset pin_height_offset].
  rewrite upd_same. split; reflexivity.
Qed.

Lemma pin_at_loc (c : vpr_ctx) (blk : ClusterBlockId) (loc : t_pl_loc) (pnum : Z) :
  block_locs c blk = loc ->
  pin_x c blk pnum = pl_x loc + pin_width_offset c blk pnum
  /\ pin_y c blk pnum = pl_y loc + pin_height_offset c blk pnum.
Proof. intros <-. split; reflexivity. Qed.

Lemma placed_back_sinks (c : vpr_ctx) (blk : ClusterBlockId) (loc : t_pl_loc)
    (l : list ClusterPinId) :
  (forall p, In p l -> pin_block c p <> blk) ->
  map (fun pin => clip (pin_x (placed_back c blk loc) (pin_block (placed_back c blk loc) pin)
                          (tile_pin_index (placed_back c blk loc) pin))
                    (grid_width (placed_back c blk loc))) l
  = map (fun pin => clip (pin_x c (pin_block c pin) (tile_pin_index c pin)) (grid_width c)) l
  /\ map (fun pin => clip (pin_y (placed_back c blk loc) (pin_block (placed_back c blk loc) pin)
                             (tile_pin_index (placed_back c blk loc) pin))
                       (grid_height (placed_back c blk loc))) l
     = map (fun pin => clip (pin_y c (pin_block c pin) (tile_pin_index c pin))
                         (grid_height c)) l.
Proof.
  intros H. split; apply map_ext_in; intros p Hp;
    change (pin_block (placed_back c blk loc) p) with (pin_block c p);
    change (tile_pin_index (placed_back c blk loc) p) with (tile_pin_index c p).
  - change (grid_width (placed_back c blk loc)) with (grid_width c).
    rewrite (proj1 (placed_back_other c blk (pin_block c p) loc _ (H p Hp))). reflexivity.
  - change (grid_height (placed_back c blk loc)) with (grid_height c).
    rewrite (proj2 (placed_back_other c blk (pin_block c p) loc _ (H p Hp))). reflexivity.
Qed.

(** The pins of the net before and after the move: the moved pin apart they
    are the same. *)
Lemma moved_pin_lists (c : vpr_ctx) (net : ClusterNetId) (pin : ClusterPinId)
    (mv : t_pl_moved_block) :
  block_locs c (block_num mv) = new_loc mv ->
  sole_pin_on_block c net (block_num mv) pin ->
  exists xs ys,
    Permutation (net_pin_xs (placed_back c (block_num mv) (old_loc mv)) net)
      (clip (pl_x (old_loc mv)
             + pin_width_offset c (block_num mv) (tile_pin_index c pin)) (grid_width c) :: xs)
    /\ Permutation (net_pin_ys (placed_back c (block_num mv) (old_loc mv)) net)
         (clip (pl_y (old_loc mv)
                + pin_height_offset c (block_num mv) (tile_pin_index c pin)) (grid_height c)
          :: ys)
    /\ Permutation
         (clip (pl_x (new_loc mv)
                + pin_width_offset c (block_num mv) (tile_pin_index c pin)) (grid_width c) :: xs)
         (net_pin_xs c net)
    /\ Permutation
         (clip (pl_y (new_loc mv)
                + pin_height_offset c (block_num mv) (tile_pin_index c pin)) (grid_height c)
          :: ys)
         (net_pin_ys c net).
Proof.
  intros Hnew [(Hdrv & Hblk & Hidx & Hsinks)|(Hdrv & Hblk & Hdblk & l1 & l2 & Hl & Hothers)].
  - exists (map (fun p => clip (pin_x c (pin_block c p) (tile_pin_index c p)) (grid_width c))
              (net_sinks c net)),
           (map (fun p => clip (pin_y c (pin_block c p) (tile_pin_index c p)) (grid_height c))
              (net_sinks c net)).
    destruct (placed_back_sinks c (block_num mv) (old_loc mv) (net_sinks c net) Hsinks)
      as [Ex Ey].
    unfold net_pin_xs, net_pin_ys.
    change (net_sinks (placed_back c (block_num mv) (old_loc mv)) net) with (net_sinks c net).
    rewrite Ex, Ey.
    change (net_driver_block (placed_back c (block_num mv) (old_loc mv)) net)
      with (net_driver_block c net).
    change (net_driver_tile_pin_index (placed_back c (block_num mv) (old_loc mv)) net)
      with (net_driver_tile_pin_index c net).
    change (grid_width (placed_back c (block_num mv) (old_loc mv))) with (grid_width c).
    change (grid_height (placed_back c (block_num mv) (old_loc mv))) with (grid_height c).
    rewrite Hblk, Hidx.
    destruct (placed_back_same c (block_num mv) (old_loc mv) (tile_pin_index c pin))
      as [-> ->].
    destruct (pin_at_loc c (block_num mv) (new_loc mv) (tile_pin_index c pin) Hnew)
      as [-> ->].
    repeat split; apply Permutation_refl.
  - exists (clip (pin_x c (net_driver_block c net) (net_driver_tile_pin_index c net))
              (grid_width c)
            :: map (fun p => clip (pin_x c (pin_block c p) (tile_pin_index c p)) (grid_width c))
                 (l1 ++ l2)),
           (clip (pin_y c (net_driver_block c net) (net_driver_tile_pin_index c net))
              (grid_height c)
            :: map (fun p => clip (pin_y c (pin_block c p) (tile_pin_index c p)) (grid_height c))
                 (l1 ++ l2)).
    assert (H1 : forall p, In p l1 -> pin_block c p <> block_num mv)
      by (intros p Hp; apply Hothers; apply in_or_app; left; exact Hp).
    assert (H2 : forall p, In p l2 -> pin_block c p <> block_num mv)
      by (intros p Hp; apply Hothers; apply in_or_app; right; exact Hp).
    destruct (placed_back_sinks c (block_num mv) (old_loc mv) l1 H1) as [Ex1 Ey1].
    destruct (placed_back_sinks c (block_num mv) (old_loc mv) l2 H2) as [Ex2 Ey2].
    destruct (placed_back_other c (block_num mv) (net_driver_block c net) (old_loc mv)
                (net_driver_tile_pin_index c net) Hdblk) as [Dx Dy].
    unfold net_pin_xs, net_pin_ys.
    change (net_sinks (placed_back c (block_num mv) (old_loc mv)) net) with (net_sinks c net).
    rewrite Hl, !map_app. cbn [map]. rewrite Ex1, Ey1, Ex2, Ey2.
    change (net_driver_block (placed_back c (block_num mv) (old_loc mv)) net)
      with (net_driver_block c net).
    change (net_driver_tile_pin_index (placed_back c (block_num mv) (old_loc mv)) net)
      with (net_driver_tile_pin_index c net).
    change (pin_block (placed_back c (block_num mv) (old_loc mv)) pin) with (pin_block c pin).
    change (tile_pin_index (placed_back c (block_num mv) (old_loc mv)) pin)
      with (tile_pin_index c pin).
    change (grid_width (placed_back c (block_num mv) (old_loc mv))) with (grid_width c).
    change (grid_height (placed_back c (block_num mv) (old_loc mv))) with (grid_height c).
    rewrite Dx, Dy, Hblk.
    destruct (placed_back_same c (block_num mv) (old_loc mv) (tile_pin_index c pin))
      as [-> ->].
    destruct (pin_at_loc c (block_num mv) (new_loc mv) (tile_pin_index c pin) Hnew)
      as [-> ->].
    split; [|split; [|split]].
    + apply Permutation_sym. apply (Permutation_middle (_ :: _)).
    + apply Permutation_sym. apply (Permutation_middle (_ :: _)).
    + apply (Permutation_middle (_ :: _)).
    + apply (Permutation_middle (_ :: _)).
Qed.

(** The first touch of a net by a swap that moves one of its pins: the
    scratch box is the box of the net in the new placement. *)
Lemma update_net_bb_exact (c : vpr_ctx) (s : cost_state) (net : ClusterNetId)
    (pin : ClusterPinId) (mv : t_pl_moved_block) (cnt : Z -> Z) :
  block_locs c (block_num mv) = new_loc mv ->
  sole_pin_on_block c net (block_num mv) pin ->
  bb_updated_before s net = NOT_UPDATED_YET ->
  (SMALL_NET c <= Z.of_nat (length (net_sinks c net)) ->
   exact_box (net_pin_xs (placed_back c (block_num mv) (old_loc mv)) net)
     (net_pin_ys (placed_back c (block_num mv) (old_loc mv)) net)
     (bb_coords s net) (bb_num_on_edges s net)) ->
  ts_bb_coord_new (update_net_bb c s net (block_num mv) pin mv) net
  = fst (fst (get_bb_from_scratch c net cnt))
  /\ (SMALL_NET c <= Z.of_nat (length (net_sinks c net)) ->
      ts_bb_edge_new (update_net_bb c s net (block_num mv) pin mv) net
      = snd (fst (get_bb_from_scratch c net cnt))).
Proof.
  intros Hnew Hsole Hflag Hexact. unfold update_net_bb.
  destruct (Z.of_nat (length (net_sinks c net)) <? SMALL_NET c) eqn:Hsmall.
  - rewrite Hflag. cbn [bb_flag_eqb ts_bb_coord_new set_ts_layer_sink_pin_count
                        set_ts_bb_coord_new].
    rewrite upd_same.
    destruct (non_updatable_is_from_scratch c net (ts_layer_sink_pin_count s net)) as [-> _].
    rewrite (from_scratch_box_any_count c net _ cnt).
    split; [reflexivity|lia].
  - destruct (moved_pin_lists c net pin mv Hnew Hsole) as (xs & ys & Px0 & Py0 & Px & Py).
    assert (H : ts_bb_coord_new
                  (update_bb c s net
                     (mk_tile_loc
                        (pl_x (old_loc mv)
                         + pin_width_offset c (block_num mv) (tile_pin_index c pin))
                        (pl_y (old_loc mv)
                         + pin_height_offset c (block_num mv) (tile_pin_index c pin))
                        (pl_layer (old_loc mv)))
                     (mk_tile_loc
                        (pl_x (new_loc mv)
                         + pin_width_offset c (block_num mv) (tile_pin_index c pin))
                        (pl_y (new_loc mv)
                         + pin_height_offset c (block_num mv) (tile_pin_index c pin))
                        (pl_layer (new_loc mv)))
                     (pin_is_driver c pin)) net
                = fst (fst (get_bb_from_scratch c net cnt))
                /\ ts_bb_edge_new
                     (update_bb c s net
                        (mk_tile_loc
                           (pl_x (old_loc mv)
                            + pin_width_offset c (block_num mv) (tile_pin_index c pin))
                           (pl_y (old_loc mv)
                            + pin_height_offset c (block_num mv) (tile_pin_index c pin))
                           (pl_layer (old_loc mv)))
                        (mk_tile_loc
                           (pl_x (new_loc mv)
                            + pin_width_offset c (block_num mv) (tile_pin_index c pin))
                           (pl_y (new_loc mv)
                            + pin_height_offset c (block_num mv) (tile_pin_index c pin))
                           (pl_layer (new_loc mv)))
                        (pin_is_driver c pin)) net
                   = snd (fst (get_bb_from_scratch c net cnt))).
    { apply (update_bb_exact c s net _ _ _ xs ys cnt).
      - rewrite Hflag. discriminate.
      - unfold current_coord, current_edge. rewrite Hflag.
        cbn [bb_flag_eqb clip_loc tile_x tile_y].
        apply (exact_box_perm _ _ _ _ _ _ Px0 Py0). apply Hexact. lia.
      - exact Px.
      - exact Py. }
    destruct H as [Hco Hed]. split; [exact Hco|intros _; exact Hed].
Qed.

End MovedPin.

(** ** A swap keeps the committed tables exact *)

Section SwapExactness.
Import NetCost.
Local Open Scope Z_scope.

Lemma record_affected_net_boxes_kept (s : cost_state) (net : ClusterNetId) (n : Z) :
  bb_updated_before (fst (record_affected_net s net n)) = bb_updated_before s
  /\ ts_bb_coord_new (fst (record_affected_net s net n)) = ts_bb_coord_new s
  /\ ts_bb_edge_new (fst (record_affected_net s net n)) = ts_bb_edge_new s.
Proof.
  unfold record_affected_net. destruct (Qltb _ _); cbn; repeat split.
Qed.

(** One pin in a cube run: the run does not abort, and the state is what
    [update_net_bb] makes of the state with the net recorded. *)
Lemma update_net_info_on_pin_move_cube (c : vpr_ctx) (s : cost_state)
    (blk : ClusterBlockId) (pin : ClusterPinId) (mv : t_pl_moved_block) (n : Z) :
  cube_bb c = true ->
  update_net_info_on_pin_move c s blk pin mv n
  = if net_is_ignored c (pin_net c pin) then Some (s, n)
    else Some (update_net_bb c (fst (record_affected_net s (pin_net c pin) n))
                 (pin_net c pin) blk pin mv,
               snd (record_affected_net s (pin_net c pin) n)).
Proof.
  intros Hcube. unfold update_net_info_on_pin_move. rewrite Hcube.
  destruct (net_is_ignored c (pin_net c pin)); [reflexivity|].
  destruct (record_affected_net s (pin_net c pin) n). reflexivity.
Qed.

Lemma state_exact_box (c : vpr_ctx) (s0 s : cost_state) (net : ClusterNetId) :
  state_exact c s0 -> committed_same s0 s ->
  In net (nets c) -> net_is_ignored c net = false ->
  SMALL_NET c <= Z.of_nat (length (net_sinks c net)) ->
  exact_box (net_pin_xs c net) (net_pin_ys c net) (bb_coords s net) (bb_num_on_edges s net).
Proof.
  intros Hex (C1 & C2 & _) Hin Hign Hbig.
  destruct (Hex net Hin Hign) as (Hco & Hed & _).
  rewrite C1, C2, Hco, (Hed Hbig). apply get_bb_from_scratch_exact.
Qed.

(** The loop over the pins of the moved block, in a cube run: each pin that
    counts leaves its net with the scratch box of the new placement; the
    scratch boxes and flags of the other nets stay. *)
Lemma pins_loop_exact (c : vpr_ctx) (mv : t_pl_moved_block) (s0 : cost_state) :
  cube_bb c = true ->
  block_locs c (block_num mv) = new_loc mv ->
  state_exact (placed_back c (block_num mv) (old_loc mv)) s0 ->
  forall (pins : list ClusterPinId) (s : cost_state) (n : Z),
    (forall p, In p pins -> net_is_ignored c (pin_net c p) = false ->
       In (pin_net c p) (nets c) /\ sole_pin_on_block c (pin_net c p) (block_num mv) p) ->
    NoDup (map (pin_net c)
             (filter (fun pin => negb (net_is_ignored c (pin_net c pin))) pins)) ->
    committed_same s0 s ->
    (forall p, In p pins -> net_is_ignored c (pin_net c p) = false ->
       bb_updated_before s (pin_net c p) = NOT_UPDATED_YET) ->
    exists s' n',
      fold_left
        (fun acc blk_pin =>
           a <- acc ;;
           update_net_info_on_pin_move c (fst a) (block_num mv) blk_pin mv (snd a))
        pins (Some (s, n)) = Some (s', n')
      /\ (forall p, In p pins -> net_is_ignored c (pin_net c p) = false ->
            ts_bb_coord_new s' (pin_net c p)
            = fst (fst (get_bb_from_scratch c (pin_net c p) (fun _ => 0)))
            /\ (SMALL_NET c <= Z.of_nat (length (net_sinks c (pin_net c p))) ->
                ts_bb_edge_new s' (pin_net c p)
                = snd (fst (get_bb_from_scratch c (pin_net c p) (fun _ => 0)))))
      /\ forall net,
           (forall p, In p pins -> net_is_ignored c (pin_net c p) = false ->
              pin_net c p <> net) ->
           bb_updated_before s' net = bb_updated_before s net
           /\ ts_bb_coord_new s' net = ts_bb_coord_new s net
           /\ ts_bb_edge_new s' net = ts_bb_edge_new s net.
Proof.
  intros Hcube Hnew Hex.
  induction pins as [|pin pins IH]; intros s n Hpins Hnd Hcom Hclean.
  - exists s, n. split; [reflexivity|]. split; [intros p []|intros; repeat split].
  - cbn [fold_left]. unfold bind at 2. cbn [fst snd].
    rewrite update_net_info_on_pin_move_cube by exact Hcube.
    cbn [filter] in Hnd.
    destruct (net_is_ignored c (pin_net c pin)) eqn:Hign; cbn [negb] in Hnd.
    + destruct (IH s n) as (s' & n' & Hrun & Hin & Hout).
      * intros p Hp. apply Hpins. right. exact Hp.
      * exact Hnd.
      * exact Hcom.
      * intros p Hp. apply Hclean. right. exact Hp.
      * exists s', n'. split; [exact Hrun|]. split.
        -- intros p [<-|Hp] Hi; [congruence|apply Hin; assumption].
        -- intros net Hnet. apply Hout. intros p Hp. apply Hnet. right. exact Hp.
    + cbn [map] in Hnd. inversion Hnd as [|? ? Hfresh Hnd']; subst.
      destruct (Hpins pin (or_introl eq_refl) Hign) as [Hnet Hsole].
      destruct (record_affected_net_boxes_kept s (pin_net c pin) n) as (Rf & Rc & Re).
      pose proof (committed_record_affected_net s (pin_net c pin) n) as Rcom.
      set (sr := fst (record_affected_net s (pin_net c pin) n)) in *.
      set (nr := snd (record_affected_net s (pin_net c pin) n)).
      pose proof (frame_update_net_bb c sr (pin_net c pin) (block_num mv) pin mv) as Hframe.
      set (s1 := update_net_bb c sr (pin_net c pin) (block_num mv) pin mv) in *.
      assert (Hcom1 : committed_same s0 s1).
      { eapply committed_same_trans; [exact Hcom|].
        eapply committed_same_trans; [exact Rcom|apply Hframe]. }
      assert (Hhead :
        ts_bb_coord_new s1 (pin_net c pin)
        = fst (fst (get_bb_from_scratch c (pin_net c pin) (fun _ => 0)))
        /\ (SMALL_NET c <= Z.of_nat (length (net_sinks c (pin_net c pin))) ->
            ts_bb_edge_new s1 (pin_net c pin)
            = snd (fst (get_bb_from_scratch c (pin_net c pin) (fun _ => 0))))).
      { apply update_net_bb_exact; [exact Hnew|exact Hsole| |].
        - rewrite Rf. apply Hclean; [left; reflexivity|exact Hign].
        - intros Hbig.
          apply (state_exact_box (placed_back c (block_num mv) (old_loc mv)) s0 sr);
            try assumption.
          eapply committed_same_trans; [exact Hcom|exact Rcom]. }
      assert (Hothers : forall net, net <> pin_net c pin ->
                bb_updated_before s1 net = bb_updated_before s net
                /\ ts_bb_coord_new s1 net = ts_bb_coord_new s net
                /\ ts_bb_edge_new s1 net = ts_bb_edge_new s net).
      { intros net Hne. destruct Hframe as (_ & _ & _ & Ho).
        destruct (Ho net Hne) as (F1 & F2 & F3 & _).
        rewrite F1, F2, F3, Rf, Rc, Re. repeat split. }
      assert (Htail : forall p, In p pins -> net_is_ignored c (pin_net c p) = false ->
                pin_net c p <> pin_net c pin).
      { intros p Hp Hi Heq. apply Hfresh. rewrite <- Heq. apply in_map.
        apply filter_In. split; [exact Hp|]. rewrite Hi. reflexivity. }
      destruct (IH s1 nr) as (s' & n' & Hrun & Hin & Hout).
      * intros p Hp. apply Hpins. right. exact Hp.
      * exact Hnd'.
      * exact Hcom1.
      * intros p Hp Hi. destruct (Hothers (pin_net c p) (Htail p Hp Hi)) as (-> & _).
        apply Hclean; [right; exact Hp|exact Hi].
      * exists s', n'. split; [exact Hrun|]. split.
        -- intros p [<-|Hp] Hi; [|apply Hin; assumption].
           destruct (Hout (pin_net c pin)) as (_ & -> & ->).
           { intros q Hq Hqi. apply Htail; assumption. }
           exact Hhead.
        -- intros net Hnone.
           assert (Hne : net <> pin_net c pin).
           { intros ->. apply (Hnone pin (or_introl eq_refl) Hign). reflexivity. }
           destruct (Hout net) as (-> & -> & ->).
           { intros q Hq. apply Hnone. right. exact Hq. }
           apply Hothers. exact Hne.
Qed.

Lemma price_loop_cube (c : vpr_ctx) (l : list Z) :
  cube_bb c = true ->
  forall (s : cost_state) (d : Q) (s' : cost_state) (d' : Q),
    NoDup l ->
    (forall i j, In i l -> In j l ->
       ts_nets_to_update s i = ts_nets_to_update s j -> i = j) ->
    fold_left (price_affected_net c) l (Some (s, d)) = Some (s', d') ->
    ts_bb_coord_new s' = ts_bb_coord_new s
    /\ ts_bb_edge_new s' = ts_bb_edge_new s
    /\ forall i, In i l ->
         get_net_cost c (ts_nets_to_update s i) (ts_bb_coord_new s (ts_nets_to_update s i))
         = Some (proposed_net_cost s' (ts_nets_to_update s i)).
Proof.
  intros Hcube. induction l as [|i l IH]; intros s d s' d' Hnd Hinj H.
  - cbn [fold_left] in H. injection H as <- <-. repeat split. intros i [].
  - cbn [fold_left] in H.
    destruct (price_affected_net c (Some (s, d)) i) as [[s1 d1]|] eqn:E;
      [|rewrite price_affected_net_none in H; discriminate H].
    unfold price_affected_net, bind in E. cbn [fst snd] in E. rewrite Hcube in E.
    destruct (get_net_cost c (ts_nets_to_update s i)
                (ts_bb_coord_new s (ts_nets_to_update s i))) as [cost|] eqn:Ecost;
      [|discriminate E].
    injection E as <- <-.
    inversion Hnd as [|? ? Hnotin Hnd']; subst.
    assert (Hinj' : forall a b, In a l -> In b l ->
              ts_nets_to_update
                (set_proposed_net_cost s (ts_nets_to_update s i) cost) a
              = ts_nets_to_update
                  (set_proposed_net_cost s (ts_nets_to_update s i) cost) b -> a = b).
    { cbn [ts_nets_to_update set_proposed_net_cost]. intros a b Ha Hb.
      apply Hinj; right; assumption. }
    destruct (price_loop_sum c l _ _ _ _ Hnd' Hinj' H) as (_ & _ & Hother & _).
    destruct (IH _ _ _ _ Hnd' Hinj' H) as (Hco & Hed & Hin).
    cbn [ts_nets_to_update ts_bb_coord_new ts_bb_edge_new proposed_net_cost
         set_proposed_net_cost] in Hco, Hed, Hin, Hother.
    split; [exact Hco|]. split; [exact Hed|].
    intros j [<-|Hj]; [|apply Hin; exact Hj].
    rewrite Ecost, Hother; [rewrite upd_same; reflexivity|].
    intros j Hj Heq. apply Hnotin.
    rewrite <- (Hinj j i (or_intror Hj) (or_introl eq_refl) Heq). exact Hj.
Qed.

Lemma update_move_net_boxes (c : vpr_ctx) (s : cost_state) (i : Z) :
  bb_coords (update_move_net c true s i)
  = upd (bb_coords s) (ts_nets_to_update s i) (ts_bb_coord_new s (ts_nets_to_update s i))
  /\ bb_num_on_edges (update_move_net c true s i)
     = if Z.of_nat (length (net_sinks c (ts_nets_to_update s i))) >=? SMALL_NET c
       then upd (bb_num_on_edges s) (ts_nets_to_update s i)
              (ts_bb_edge_new s (ts_nets_to_update s i))
       else bb_num_on_edges s.
Proof.
  unfold update_move_net.
  cbn [set_bb_coords set_num_sink_pin_layer ts_nets_to_update bb_coords net_sinks
       ts_bb_edge_new ts_bb_coord_new].
  destruct (Z.of_nat (length (net_sinks c (ts_nets_to_update s i))) >=? SMALL_NET c);
    split; reflexivity.
Qed.

(** The loop of [update_move_nets] in a cube run: every listed net gets its
    scratch box, and its scratch edge counts if it is updated incrementally;
    the other nets keep theirs. *)
Lemma commit_loop_boxes (c : vpr_ctx) (l : list Z) :
  forall s : cost_state,
    (forall i, In i l ->
       bb_coords (fold_left (update_move_net c true) l s) (ts_nets_to_update s i)
       = ts_bb_coord_new s (ts_nets_to_update s i)
       /\ (SMALL_NET c <= Z.of_nat (length (net_sinks c (ts_nets_to_update s i))) ->
           bb_num_on_edges (fold_left (update_move_net c true) l s) (ts_nets_to_update s i)
           = ts_bb_edge_new s (ts_nets_to_update s i)))
    /\ forall net, (forall i, In i l -> ts_nets_to_update s i <> net) ->
         bb_coords (fold_left (update_move_net c true) l s) net = bb_coords s net
         /\ bb_num_on_edges (fold_left (update_move_net c true) l s) net
            = bb_num_on_edges s net.
Proof.
  induction l as [|i l IH]; intros s.
  - split; [intros i []|intros; split; reflexivity].
  - cbn [fold_left].
    destruct (update_move_net_fields c true s i) as ((S1 & S2 & _ & _ & _ & S6) & _).
    destruct (update_move_net_boxes c s i) as [Bco Bed].
    destruct (IH (update_move_net c true s i)) as [Hin Hout].
    rewrite S6 in Hin, Hout. rewrite S1, S2 in Hin.
    assert (Hhead :
      forall net, net = ts_nets_to_update s i ->
        (forall j, In j l -> ts_nets_to_update s j <> net) ->
        bb_coords (fold_left (update_move_net c true) l (update_move_net c true s i)) net
        = ts_bb_coord_new s net
        /\ (SMALL_NET c <= Z.of_nat (length (net_sinks c net)) ->
            bb_num_on_edges
              (fold_left (update_move_net c true) l (update_move_net c true s i)) net
            = ts_bb_edge_new s net)).
    { intros net -> Hnone. destruct (Hout _ Hnone) as [-> ->].
      rewrite Bco, Bed, upd_same. split; [reflexivity|].
      intros Hbig.
      destruct (Z.of_nat (length (net_sinks c (ts_nets_to_update s i))) >=? SMALL_NET c)
        eqn:E; [apply upd_same|lia]. }
    split.
    + intros j Hj.
      destruct (in_dec Nat.eq_dec (ts_nets_to_update s j) (map (ts_nets_to_update s) l))
        as [Hlater|Hnot].
      * apply in_map_iff in Hlater. destruct Hlater as [k [Hk Hkin]].
        rewrite <- Hk. apply Hin. exact Hkin.
      * destruct Hj as [<-|Hj]; [|exfalso; apply Hnot; apply in_map; exact Hj].
        apply Hhead; [reflexivity|].
        intros k Hk Heq. apply Hnot. rewrite <- Heq. apply in_map. exact Hk.
    + intros net Hnone.
      destruct (Hout net) as [-> ->].
      { intros j Hj. apply Hnone. right. exact Hj. }
      assert (Hne : net <> ts_nets_to_update s i)
        by (intros ->; apply (Hnone i (or_introl eq_refl)); reflexivity).
      rewrite Bco, Bed. rewrite upd_other by exact Hne.
      destruct (Z.of_nat (length (net_sinks c (ts_nets_to_update s i))) >=? SMALL_NET c);
        [rewrite upd_other by exact Hne|]; split; reflexivity.
Qed.

(** A net with no pin on the moved block has the same pins, hence the same
    box and the same cost, before and after the move. *)
Lemma off_block_same (c : vpr_ctx) (net : ClusterNetId) (blk : ClusterBlockId)
    (loc : t_pl_loc) :
  off_block c net blk ->
  fst (get_bb_from_scratch (placed_back c blk loc) net (fun _ => 0))
  = fst (get_bb_from_scratch c net (fun _ => 0))
  /\ exact_net_cost (placed_back c blk loc) net = exact_net_cost c net.
Proof.
  intros [Hdrv Hsinks].
  assert (Hxs : net_pin_xs (placed_back c blk loc) net = net_pin_xs c net
                /\ net_pin_ys (placed_back c blk loc) net = net_pin_ys c net).
  { destruct (placed_back_sinks c blk loc (net_sinks c net) Hsinks) as [Ex Ey].
    destruct (placed_back_other c blk (net_driver_block c net) loc
                (net_driver_tile_pin_index c net) Hdrv) as [Dx Dy].
    unfold net_pin_xs, net_pin_ys.
    change (net_sinks (placed_back c blk loc) net) with (net_sinks c net).
    rewrite Ex, Ey.
    change (net_driver_block (placed_back c blk loc) net) with (net_driver_block c net).
    change (net_driver_tile_pin_index (placed_back c blk loc) net)
      with (net_driver_tile_pin_index c net).
    change (grid_width (placed_back c blk loc)) with (grid_width c).
    change (grid_height (placed_back c blk loc)) with (grid_height c).
    rewrite Dx, Dy. split; reflexivity. }
  destruct Hxs as [Hx Hy].
  pose proof (get_bb_from_scratch_exact (placed_back c blk loc) net (fun _ => 0)) as H0.
  pose proof (get_bb_from_scratch_exact c net (fun _ => 0)) as H1.
  rewrite Hx, Hy in H0.
  destruct (exact_box_unique _ _ _ _ _ _ _ _ (Permutation_refl _) (Permutation_refl _) H1 H0)
    as [Eco Eed].
  assert (Hbox : fst (get_bb_from_scratch (placed_back c blk loc) net (fun _ => 0))
                 = fst (get_bb_from_scratch c net (fun _ => 0))).
  { destruct (fst (get_bb_from_scratch (placed_back c blk loc) net (fun _ => 0))),
             (fst (get_bb_from_scratch c net (fun _ => 0))).
    cbn [fst snd] in Eco, Eed. subst. reflexivity. }
  split; [exact Hbox|].
  unfold exact_net_cost. rewrite Hbox. reflexivity.
Qed.

Lemma price_loop_runs (c : vpr_ctx) (l : list Z) :
  cube_bb c = true ->
  forall (s : cost_state) (d : Q),
    exists s' d', fold_left (price_affected_net c) l (Some (s, d)) = Some (s', d').
Proof.
  intros Hcube. induction l as [|i l IH]; intros s d.
  - exists s, d. reflexivity.
  - cbn [fold_left]. unfold price_affected_net at 2. unfold bind. cbn [fst snd].
    rewrite Hcube.
    destruct (get_net_cost_defined c (ts_nets_to_update s i)
                (ts_bb_coord_new s (ts_nets_to_update s i))) as [cost ->].
    apply IH.
Qed.

Lemma sole_pin_not_off_block (c : vpr_ctx) (net : ClusterNetId) (blk : ClusterBlockId)
    (pin : ClusterPinId) :
  sole_pin_on_block c net blk pin -> ~ off_block c net blk.
Proof.
  intros [(_ & Hblk & _)|(_ & Hblk & _ & l1 & l2 & Hl & _)] [Hdrv Hsinks].
  - contradiction.
  - apply (Hsinks pin); [|exact Hblk].
    rewrite Hl. apply in_or_app. right. left. reflexivity.
Qed.

Lemma state_exact_ext (c : vpr_ctx) (s s' : cost_state) :
  committed_same s s' -> state_exact c s -> state_exact c s'.
Proof.
  intros (C1 & C2 & _ & _ & _ & C6) H net Hin Hign.
  rewrite C1, C2, C6. apply H; assumption.
Qed.

(** In a cube run, a swap that moves one block with one pin on each of its
    nets runs to its end; kept, it leaves the committed boxes, edge counts
    and costs exact for the new placement if they were exact for the old
    one; dropped, it leaves them exact for the old one. *)
Lemma swap_exact (c : vpr_ctx) (s : cost_state) (mv : t_pl_moved_block) :
  cube_bb c = true ->
  block_locs c (block_num mv) = new_loc mv ->
  one_pin_per_net c (block_num mv) ->
  between_swaps s ->
  state_exact (placed_back c (block_num mv) (old_loc mv)) s ->
  exists s1 n delta,
    find_affected_nets_and_update_costs c s [mv] = Some (s1, n, delta)
    /\ state_exact c (update_move_nets c s1 n true)
    /\ state_exact (placed_back c (block_num mv) (old_loc mv)) (reset_move_nets s1 n).
Proof.
  intros Hcube Hnew (Hnd & Hlive & Hnets) Hclean Hex.
  assert (Hpins : forall p, In p (block_pins c (block_num mv)) ->
            net_is_ignored c (pin_net c p) = false ->
            In (pin_net c p) (nets c)
            /\ sole_pin_on_block c (pin_net c p) (block_num mv) p).
  { intros p Hp Hi. apply Hlive. apply filter_In. split; [exact Hp|].
    rewrite Hi. reflexivity. }
  destruct (pins_loop_exact c mv s Hcube Hnew Hex (block_pins c (block_num mv)) s 0
              Hpins Hnd (committed_same_refl s)
              (fun p _ _ => proj1 (Hclean (pin_net c p))))
    as (sa & na & Erun & Hin & _).
  assert (E1 : fold_left (fun acc blk => update_block_pins c blk acc) [mv] (Some (s, 0))
               = Some (sa, na)) by exact Erun.
  assert (Hfind0 : find_invariant c [mv] s 0).
  { split; [split|split]; intros; lia. }
  destruct (moved_blocks_find c [mv] s [mv] (fun b Hb => Hb) s 0 sa na
              (swap_invariant_start s Hclean) Hfind0 E1)
    as (Hswap & (Hlist & _ & Hmoved) & Hna & _ & Hrec).
  destruct (price_loop_runs c (zrange na) Hcube sa 0%Q) as (sb & db & E2).
  assert (Hinj : forall i j, In i (zrange na) -> In j (zrange na) ->
            ts_nets_to_update sa i = ts_nets_to_update sa j -> i = j).
  { intros i j Hi Hj. apply Hlist; apply zrange_bounds; assumption. }
  destruct (price_loop_sum c (zrange na) sa 0%Q sb db (zrange_NoDup na) Hinj E2)
    as (Hts & Hcost & _ & _).
  destruct (price_loop_cube c (zrange na) Hcube sa 0%Q sb db (zrange_NoDup na) Hinj E2)
    as (Hco & Hed & Hprice).
  assert (Hcom : committed_same s sa) by apply Hswap.
  assert (Hcomb : committed_same s sb).
  { pose proof (committed_find_affected_nets c s sb [mv] na db) as Hc. apply Hc.
    unfold find_affected_nets_and_update_costs, bind. rewrite E1. cbn [fst snd].
    rewrite E2. reflexivity. }
  exists sb, na, db. split.
  { unfold find_affected_nets_and_update_costs, bind. rewrite E1. cbn [fst snd].
    rewrite E2. reflexivity. }
  rewrite <- Hts in Hinj.
  destruct (commit_loop_costs c true (zrange na) sb (zrange_NoDup na) Hinj)
    as [Kin Kout].
  destruct (commit_loop_boxes c (zrange na) sb) as [Bin Bout].
  fold (update_move_nets c sb na true) in Kin, Kout, Bin, Bout.
  split.
  - intros net Hnet Hign.
    destruct (Hnets net Hnet Hign) as [Hon|Hoff].
    + apply in_map_iff in Hon. destruct Hon as [pin [Epin Hpin]].
      apply filter_In in Hpin. destruct Hpin as [Hpin _]. subst net.
      destruct (Hrec mv pin (or_introl eq_refl) Hpin Hign) as [i [Hi Hrec_i]].
      apply zrange_bounds in Hi.
      destruct (Hin pin Hpin Hign) as [Hbox Hedge].
      rewrite <- Hts in Hrec_i.
      destruct (Bin i Hi) as [Bco Bed]. specialize (Kin i Hi).
      specialize (Hprice i Hi). rewrite <- Hts in Hprice.
      rewrite Hrec_i in Bco, Bed, Kin, Hprice.
      rewrite Hco in Bco. rewrite Hed in Bed.
      split; [rewrite Bco; exact Hbox|].
      split; [intros Hbig; rewrite (Bed Hbig); apply Hedge; exact Hbig|].
      rewrite Kin. rewrite Hbox, get_net_cost_exact in Hprice.
      injection Hprice as <-. reflexivity.
    + assert (Hnot : forall i, In i (zrange na) -> ts_nets_to_update sb i <> net).
      { intros i Hi Heq. apply zrange_bounds in Hi. rewrite Hts in Heq.
        destruct (Hmoved i Hi) as [Hi_ign (blk & pin & [<-|[]] & Hpin & Hpn)].
        rewrite Heq in Hpn. rewrite <- Hpn in Hoff, Hign.
        destruct (Hpins pin Hpin Hign) as [_ Hsole].
        exact (sole_pin_not_off_block _ _ _ _ Hsole Hoff). }
      destruct (Bout net Hnot) as [-> ->]. rewrite (Kout net Hnot).
      destruct Hcomb as (C1 & C2 & _ & _ & _ & C6). rewrite C1, C2, C6.
      destruct (Hex net Hnet Hign) as (Xco & Xed & Xcost).
      destruct (off_block_same c net (block_num mv) (old_loc mv) Hoff) as [Sbox Scost].
      rewrite <- Sbox, <- Scost. split; [exact Xco|]. split; [exact Xed|exact Xcost].
  - apply (state_exact_ext _ s); [|exact Hex].
    eapply committed_same_trans; [exact Hcomb|].
    destruct (reset_loop (zrange na) sb) as (Hc & _). exact Hc.
Qed.

(** X9.  A cube run, the driver pins known: a swap that moves one block
    with one pin on each net it touches runs to its end.  If the committed
    boxes, edge counts and costs were exact for the placement before the
    move, then keeping the swap with [update_move_nets] leaves them exact
    for the placement after it, and dropping it with [reset_move_nets]
    leaves them exact for the placement before it. *)
Theorem kept_swap_stays_exact (c : vpr_ctx) (s : cost_state) (mv : t_pl_moved_block) :
  cube_bb c = true ->
  drivers_known c ->
  block_locs c (block_num mv) = new_loc mv ->
  one_pin_per_net c (block_num mv) ->
  between_swaps s ->
  state_exact (placed_back c (block_num mv) (old_loc mv)) s ->
  exists s1 n delta,
    find_affected_nets_and_update_costs c s [mv] = Some (s1, n, delta)
    /\ state_exact c (update_move_nets c s1 n true)
    /\ state_exact (placed_back c (block_num mv) (old_loc mv)) (reset_move_nets s1 n).
Proof. intros Hcube _. apply swap_exact. exact Hcube. Qed.

Lemma kept_swap_stays_exact_witness :
  exists s1 n delta,
    find_affected_nets_and_update_costs (demo_after 1 true)
      (demo_placed (demo_before 1 true)) [demo_move]
    = Some (s1, n, delta)
    /\ state_exact (demo_after 1 true) (update_move_nets (demo_after 1 true) s1 n true).
Proof.
  destruct (kept_swap_stays_exact (demo_after 1 true) (demo_placed (demo_before 1 true))
              demo_move)
    as (s1 & n & delta & Hrun & Hkept & _).
  - reflexivity.
  - intros net [<-|[<-|[]]] _; vm_compute; discriminate.
  - reflexivity.
  - split; [|split].
    + repeat constructor. simpl. tauto.
    + intros pin [<-|[]]. split; [left; reflexivity|].
      right. split; [reflexivity|]. split; [reflexivity|]. split; [discriminate|].
      exists [1; 2; 3; 4]%nat, []. split; [reflexivity|].
      intros p [<-|[<-|[<-|[<-|[]]]]]; discriminate.
    + intros net [<-|[<-|[]]] _.
      * left. left. reflexivity.
      * right. split; [discriminate|]. intros p [<-|[]]. discriminate.
  - intros net. split; vm_compute; reflexivity.
  - intros net [<-|[<-|[]]] _.
    + split; [vm_compute; reflexivity|]. split; [intros _; vm_compute; reflexivity|].
      vm_compute. reflexivity.
    + split; [vm_compute; reflexivity|]. split; [|vm_compute; reflexivity].
      intros Hbig. exfalso. apply Hbig. reflexivity.
  - exists s1, n, delta. split; assumption.
Defined.

End SwapExactness.

(** ** The brute-force boxes of each layer *)

Section LayerBruteForce.
Import NetCost.
Local Open Scope Z_scope.

(** The sink loop of [get_non_updatable_layer_bb], seen from layer [l]: the
    box of the layer spans the driver and the sinks on the layer, and the
    count of the layer goes up by the number of those sinks. *)
Lemma non_updatable_layer_loop (c : vpr_ctx) (l : Z) (sinks : list ClusterPinId) :
  forall (xs ys : list Z) (acc : (Z -> t_bb) * (Z -> Z)),
    spans xs (xmin (fst acc l)) (xmax (fst acc l)) ->
    spans ys (ymin (fst acc l)) (ymax (fst acc l)) ->
    spans (xs ++ map (fun pin => pin_x c (pin_block c pin) (tile_pin_index c pin))
                   (filter (fun pin => pl_layer (block_locs c (pin_block c pin)) =? l) sinks))
      (xmin (fst (fold_left (non_updatable_layer_sink c) sinks acc) l))
      (xmax (fst (fold_left (non_updatable_layer_sink c) sinks acc) l))
    /\ spans (ys ++ map (fun pin => pin_y c (pin_block c pin) (tile_pin_index c pin))
                      (filter (fun pin => pl_layer (block_locs c (pin_block c pin)) =? l)
                         sinks))
         (ymin (fst (fold_left (non_updatable_layer_sink c) sinks acc) l))
         (ymax (fst (fold_left (non_updatable_layer_sink c) sinks acc) l))
    /\ snd (fold_left (non_updatable_layer_sink c) sinks acc) l
       = snd acc l
         + Z.of_nat (length (filter (fun pin => pl_layer (block_locs c (pin_block c pin)) =? l)
                               sinks)).
Proof.
  induction sinks as [|pin sinks IH]; intros xs ys acc Hx Hy; cbn [fold_left filter].
  - cbn [map length]. rewrite !app_nil_r. split; [exact Hx|]. split; [exact Hy|]. simpl. lia.
  - destruct (Z.eqb_spec (pl_layer (block_locs c (pin_block c pin))) l) as [E|E].
    + pose proof (non_updatable_step_spans xs
                    (pin_x c (pin_block c pin) (tile_pin_index c pin)) _ _ Hx) as Hx'.
      pose proof (non_updatable_step_spans ys
                    (pin_y c (pin_block c pin) (tile_pin_index c pin)) _ _ Hy) as Hy'.
      destruct (IH (xs ++ [pin_x c (pin_block c pin) (tile_pin_index c pin)])
                   (ys ++ [pin_y c (pin_block c pin) (tile_pin_index c pin)])
                   (non_updatable_layer_sink c acc pin)) as (Ix & Iy & Ic).
      * unfold non_updatable_layer_sink. cbn [fst snd]. rewrite E, updz_same.
        destruct (pin_x c _ _ <? xmin (fst acc l));
          [|destruct (pin_x c _ _ >? xmax (fst acc l))];
          destruct (pin_y c _ _ <? _); try destruct (pin_y c _ _ >? _); exact Hx'.
      * unfold non_updatable_layer_sink. cbn [fst snd]. rewrite E, updz_same.
        destruct (pin_x c _ _ <? xmin (fst acc l));
          [|destruct (pin_x c _ _ >? xmax (fst acc l))];
          destruct (pin_y c _ _ <? _); try destruct (pin_y c _ _ >? _); exact Hy'.
      * rewrite <- !app_assoc in Ix, Iy. cbn [map length].
        split; [exact Ix|]. split; [exact Iy|]. rewrite Ic.
        unfold non_updatable_layer_sink. cbn [snd]. rewrite E, updz_same. lia.
    + destruct (IH xs ys (non_updatable_layer_sink c acc pin)) as (Ix & Iy & Ic).
      * unfold non_updatable_layer_sink. cbn [fst snd].
        rewrite updz_other by (intros H; apply E; symmetry; exact H). exact Hx.
      * unfold non_updatable_layer_sink. cbn [fst snd].
        rewrite updz_other by (intros H; apply E; symmetry; exact H). exact Hy.
      * split; [exact Ix|]. split; [exact Iy|]. rewrite Ic.
        unfold non_updatable_layer_sink. cbn [snd].
        rewrite updz_other by (intros H; apply E; symmetry; exact H). reflexivity.
Qed.

Lemma tight_spans (l : list Z) (lo hi lo_edge hi_edge : Z) :
  tight l lo hi lo_edge hi_edge -> spans l lo hi.
Proof. intros (A1 & A2 & A3 & _). repeat split; try assumption; apply A3; assumption. Qed.

(** [get_non_updatable_layer_bb] and [get_layer_bb_from_scratch] find, for
    each layer of the device, the same box and the same sink count. *)
Lemma non_updatable_layer_is_from_scratch (c : vpr_ctx) (net : ClusterNetId)
    (ed0 co0 co1 : Z -> t_2D_bb) (cnt0 cnt1 : Z -> Z)
    (ed co : Z -> t_2D_bb) (cnt : Z -> Z) :
  get_layer_bb_from_scratch c net ed0 co0 cnt0 = Some (ed, co, cnt) ->
  forall l, 0 <= l < num_layers c ->
    fst (get_non_updatable_layer_bb c net co1 cnt1) l = co l
    /\ snd (get_non_updatable_layer_bb c net co1 cnt1) l = cnt l.
Proof.
  intros H l Hl.
  destruct (get_layer_bb_from_scratch_exact c net ed0 co0 cnt0) as [_ Hexact].
  destruct (Hexact ed co cnt H l Hl) as ([Hx Hy] & Hcnt & Hnum & _).
  apply tight_spans in Hx, Hy. cbn [flat xmin xmax ymin ymax] in Hx, Hy.
  unfold get_non_updatable_layer_bb. cbn [fst snd].
  rewrite copy_layers_inside by exact Hl.
  destruct (non_updatable_layer_loop c l (net_sinks c net)
              [pin_x c (net_driver_block c net) (net_driver_tile_pin_index c net)]
              [pin_y c (net_driver_block c net) (net_driver_tile_pin_index c net)]
              (fun _ => mk_bb (pin_x c (net_driver_block c net) (net_driver_tile_pin_index c net))
                          (pin_x c (net_driver_block c net) (net_driver_tile_pin_index c net))
                          (pin_y c (net_driver_block c net) (net_driver_tile_pin_index c net))
                          (pin_y c (net_driver_block c net) (net_driver_tile_pin_index c net)),
               zero_layers (num_layers c) cnt1)) as (Ix & Iy & Ic).
  - cbn [fst xmin xmax]. repeat split; simpl; auto; destruct H0 as [<-|[]]; lia.
  - cbn [fst ymin ymax]. repeat split; simpl; auto; destruct H0 as [<-|[]]; lia.
  - apply (spans_clip _ _ _ (grid_width c)) in Ix.
    apply (spans_clip _ _ _ (grid_height c)) in Iy.
    simpl app in Ix, Iy. simpl map in Ix, Iy. rewrite map_map in Ix, Iy.
    destruct (spans_unique _ _ _ _ _ Ix Hx) as [E1 E2].
    destruct (spans_unique _ _ _ _ _ Iy Hy) as [E3 E4].
    split.
    + destruct (co l) as [q1 q2 q3 q4 q5]. cbn in E1, E2, E3, E4, Hnum. subst.
      reflexivity.
    + rewrite Ic, Hcnt. cbn [snd]. unfold zero_layers, layer_sinks.
      destruct ((0 <=? l) && (l <? num_layers c)) eqn:E; [lia|lia].
Qed.

(** X10.  Whenever [get_layer_bb_from_scratch] returns for a net whose
    driver has a tile pin index, [get_non_updatable_layer_bb], which clips
    at the end and asserts nothing, has for each layer of the device the
    same box, with the layer number, and the same sink count. *)
Theorem layer_brute_force_agrees (c : vpr_ctx) (net : ClusterNetId)
    (ed0 co0 co1 : Z -> t_2D_bb) (cnt0 cnt1 : Z -> Z)
    (ed co : Z -> t_2D_bb) (cnt : Z -> Z) :
  driver_pin_known c net ->
  get_layer_bb_from_scratch c net ed0 co0 cnt0 = Some (ed, co, cnt) ->
  forall l, 0 <= l < num_layers c ->
    fst (get_non_updatable_layer_bb c net co1 cnt1) l = co l
    /\ snd (get_non_updatable_layer_bb c net co1 cnt1) l = cnt l.
Proof. intros _. apply non_updatable_layer_is_from_scratch. Qed.

Lemma layer_brute_force_agrees_witness :
  exists ed co cnt,
    get_layer_bb_from_scratch (demo_after 2 false) 0%nat (fun _ => mk_2D_bb 0 0 0 0 0)
      (fun _ => mk_2D_bb 0 0 0 0 0) (fun _ => 0) = Some (ed, co, cnt)
    /\ fst (get_non_updatable_layer_bb (demo_after 2 false) 0%nat
              (fun _ => mk_2D_bb 9 9 9 9 9) (fun _ => 9)) 1 = co 1
    /\ snd (get_non_updatable_layer_bb (demo_after 2 false) 0%nat
              (fun _ => mk_2D_bb 9 9 9 9 9) (fun _ => 9)) 1 = cnt 1.
Proof.
  assert (Hruns : completes (get_layer_bb_from_scratch (demo_after 2 false) 0%nat
                               (fun _ => mk_2D_bb 0 0 0 0 0) (fun _ => mk_2D_bb 0 0 0 0 0)
                               (fun _ => 0)) = true) by (vm_compute; reflexivity).
  destruct (get_layer_bb_from_scratch (demo_after 2 false) 0%nat
              (fun _ => mk_2D_bb 0 0 0 0 0) (fun _ => mk_2D_bb 0 0 0 0 0) (fun _ => 0))
    as [[[ed co] cnt]|] eqn:E; [|discriminate Hruns].
  exists ed, co, cnt. split; [reflexivity|].
  apply (layer_brute_force_agrees (demo_after 2 false) 0%nat
           (fun _ => mk_2D_bb 0 0 0 0 0) (fun _ => mk_2D_bb 0 0 0 0 0)
           (fun _ => mk_2D_bb 9 9 9 9 9) (fun _ => 0) (fun _ => 9) ed co cnt).
  - vm_compute. discriminate.
  - exact E.
  - vm_compute. split; [discriminate|reflexivity].
Defined.

End LayerBruteForce.

(** ** The per-layer cost of a placement *)

Section FirstLayerCost.
Import NetCost.
Local Open Scope Z_scope.

Lemma net_layer_cost_loop_ext (c : vpr_ctx) (bb bb' : Z -> t_2D_bb) (cnt cnt' : Z -> Z)
    (layers : list Z) :
  (forall l, In l layers -> bb' l = bb l /\ cnt' l = cnt l) ->
  forall q, net_layer_cost_loop c bb' cnt' layers q = net_layer_cost_loop c bb cnt layers q.
Proof.
  induction layers as [|l rest IH]; intros H q; [reflexivity|].
  cbn [net_layer_cost_loop]. unfold net_layer_cost_step.
  destruct (H l (or_introl eq_refl)) as [-> ->].
  destruct (cnt l =? OPEN c); [reflexivity|].
  destruct (cnt l =? 0); [apply IH; intros l' Hl'; apply H; right; exact Hl'|].
  destruct (wirelength_crossing_count _); [|reflexivity].
  apply IH. intros l' Hl'. apply H. right. exact Hl'.
Qed.

Lemma get_net_layer_cost_ext (c : vpr_ctx) (bb bb' : Z -> t_2D_bb) (cnt cnt' : Z -> Z) :
  (forall l, 0 <= l < num_layers c -> bb' l = bb l /\ cnt' l = cnt l) ->
  get_net_layer_cost c bb' cnt' = get_net_layer_cost c bb cnt.
Proof.
  intros H. unfold get_net_layer_cost. apply net_layer_cost_loop_ext.
  intros l Hl. apply H. apply zrange_bounds. exact Hl.
Qed.

Lemma layer_sinks_length (c : vpr_ctx) (net : ClusterNetId) (l : Z) :
  Z.of_nat (length (layer_sinks c net l)) <= Z.of_nat (length (net_sinks c net)).
Proof.
  unfold layer_sinks. apply inj_le. apply filter_length_le.
Qed.

(** On a net whose sinks are placed, the cost of what either routine
    returns is the per-layer cost of the net. *)
Lemma layer_costs_agree (c : vpr_ctx) (net : ClusterNetId)
    (ed0 co0 : Z -> t_2D_bb) (cnt0 : Z -> Z) :
  OPEN c < 0 ->
  sinks_on_device c net -> Z.of_nat (length (net_sinks c net)) < 2 ^ 31 ->
  exists ed co cnt,
    get_layer_bb_from_scratch c net ed0 co0 cnt0 = Some (ed, co, cnt)
    /\ get_net_layer_cost c co cnt = Some (layer_net_cost c net)
    /\ get_net_layer_cost c (fst (get_non_updatable_layer_bb c net co0 cnt0))
         (snd (get_non_updatable_layer_bb c net co0 cnt0))
       = Some (layer_net_cost c net)
    /\ layer_boxes_exact c net co cnt
    /\ layer_boxes_exact c net (fst (get_non_updatable_layer_bb c net co0 cnt0))
         (snd (get_non_updatable_layer_bb c net co0 cnt0)).
Proof.
  intros Hopen Hdev Hfit.
  destruct (get_layer_bb_from_scratch_exact c net ed0 co0 cnt0) as [Hruns Hexact].
  destruct (proj2 Hruns Hdev) as [[[ed co] cnt] E].
  exists ed, co, cnt. split; [exact E|].
  assert (Hboxes : layer_boxes_exact c net co cnt).
  { intros l Hl. destruct (Hexact ed co cnt E l Hl) as ([Hx Hy] & Hcnt & Hnum & _).
    apply tight_spans in Hx, Hy. cbn [flat xmin xmax ymin ymax] in Hx, Hy.
    split; [exact Hx|]. split; [exact Hy|]. split; assumption. }
  assert (Hdefined : exists q, get_net_layer_cost c co cnt = Some q).
  { destruct (net_layer_cost_loop_sum c co cnt (zrange (num_layers c)) Hopen)
      with (ncost := 0%Q) as [v [Hv _]].
    - intros l Hl. apply zrange_bounds in Hl.
      destruct (Hexact ed co cnt E l Hl) as (_ & -> & _).
      pose proof (layer_sinks_length c net l). lia.
    - exists v. exact Hv. }
  destruct Hdefined as [q Hq].
  assert (Hany : forall co1 cnt1,
            get_net_layer_cost c (fst (get_non_updatable_layer_bb c net co1 cnt1))
              (snd (get_non_updatable_layer_bb c net co1 cnt1)) = Some q).
  { intros co1 cnt1. rewrite <- Hq. apply get_net_layer_cost_ext.
    intros l Hl. apply (non_updatable_layer_is_from_scratch c net ed0 co0 co1 cnt0 cnt1
                          ed co cnt E l Hl). }
  assert (Hcost : layer_net_cost c net = q).
  { unfold layer_net_cost. rewrite Hany. reflexivity. }
  rewrite Hcost. split; [exact Hq|]. split; [apply Hany|]. split; [exact Hboxes|].
  intros l Hl.
  destruct (non_updatable_layer_is_from_scratch c net ed0 co0 co0 cnt0 cnt0
              ed co cnt E l Hl) as [-> ->].
  apply Hboxes. exact Hl.
Qed.

(** One round of [comp_layer_bb_cost] on a net that is not ignored. *)
Lemma comp_layer_bb_cost_net_step (c : vpr_ctx) (method : e_cost_methods)
    (s : cost_state) (q : Q) (net : ClusterNetId) :
  OPEN c < 0 ->
  sinks_on_device c net -> Z.of_nat (length (net_sinks c net)) < 2 ^ 31 ->
  net_is_ignored c net = false ->
  exists s',
    comp_layer_bb_cost_net c method (Some (s, q)) net
    = Some (s', (q + layer_net_cost c net)%Q)
    /\ net_cost s' net = layer_net_cost c net
    /\ layer_boxes_exact c net (layer_bb_coords s' net) (num_sink_pin_layer s' net)
    /\ forall net', net' <> net ->
         net_cost s' net' = net_cost s net'
         /\ layer_bb_coords s' net' = layer_bb_coords s net'
         /\ num_sink_pin_layer s' net' = num_sink_pin_layer s net'.
Proof.
  intros Hopen Hdev Hfit Hign.
  destruct (layer_costs_agree c net (layer_bb_num_on_edges s net) (layer_bb_coords s net)
              (num_sink_pin_layer s net) Hopen Hdev Hfit)
    as (ed & co & cnt & E & Hscratch & Hbrute & Xscratch & Xbrute).
  unfold comp_layer_bb_cost_net. unfold bind at 1. cbn [fst snd]. rewrite Hign. cbn [negb].
  destruct ((Z.of_nat (length (net_sinks c net)) >=? SMALL_NET c)
            && match method with NORMAL => true | CHECK => false end).
  - rewrite E. unfold bind.
    cbn [layer_bb_coords num_sink_pin_layer set_num_sink_pin_layer set_layer_bb_coords
         set_layer_bb_num_on_edges].
    rewrite !upd_same, Hscratch.
    eexists. split; [cbn [net_cost set_net_cost]; rewrite upd_same; reflexivity|].
    cbn [net_cost layer_bb_coords num_sink_pin_layer set_net_cost set_num_sink_pin_layer
         set_layer_bb_coords set_layer_bb_num_on_edges].
    rewrite !upd_same.
    split; [reflexivity|]. split; [exact Xscratch|].
    intros net' Hne. rewrite !upd_other by exact Hne. repeat split.
  - unfold bind.
    cbn [layer_bb_coords num_sink_pin_layer set_num_sink_pin_layer set_layer_bb_coords].
    rewrite !upd_same, Hbrute.
    eexists. split; [cbn [net_cost set_net_cost]; rewrite upd_same; reflexivity|].
    cbn [net_cost layer_bb_coords num_sink_pin_layer set_net_cost set_num_sink_pin_layer
         set_layer_bb_coords].
    rewrite !upd_same.
    split; [reflexivity|]. split; [exact Xbrute|].
    intros net' Hne. rewrite !upd_other by exact Hne. repeat split.
Qed.

Lemma comp_layer_bb_cost_loop (c : vpr_ctx) (method : e_cost_methods)
    (l : list ClusterNetId) :
  OPEN c < 0 ->
  (forall net, In net l -> net_is_ignored c net = false ->
     sinks_on_device c net /\ Z.of_nat (length (net_sinks c net)) < 2 ^ 31) ->
  forall (s : cost_state) (q : Q),
  exists s',
    fold_left (comp_layer_bb_cost_net c method) l (Some (s, q))
    = Some (s', fold_left
                  (fun cost net => if negb (net_is_ignored c net)
                                   then (cost + layer_net_cost c net)%Q else cost) l q)
    /\ (forall net, In net l -> net_is_ignored c net = false ->
          net_cost s' net = layer_net_cost c net
          /\ layer_boxes_exact c net (layer_bb_coords s' net) (num_sink_pin_layer s' net))
    /\ (forall net, ~ In net l ->
          net_cost s' net = net_cost s net
          /\ layer_bb_coords s' net = layer_bb_coords s net
          /\ num_sink_pin_layer s' net = num_sink_pin_layer s net).
Proof.
  intros Hopen. induction l as [|net l IH]; intros Hplaced s q; cbn [fold_left].
  - exists s. split; [reflexivity|]. split; [intros net []|intros; repeat split].
  - assert (Hrest : forall n, In n l -> net_is_ignored c n = false ->
              sinks_on_device c n /\ Z.of_nat (length (net_sinks c n)) < 2 ^ 31)
      by (intros n Hn; apply Hplaced; right; exact Hn).
    destruct (net_is_ignored c net) eqn:Hign.
    + assert (Hstep : comp_layer_bb_cost_net c method (Some (s, q)) net = Some (s, q)).
      { unfold comp_layer_bb_cost_net, bind. cbn [fst]. rewrite Hign. reflexivity. }
      rewrite Hstep. cbn [negb].
      destruct (IH Hrest s q) as (s' & Hrun & Hin & Hout).
      exists s'. split; [exact Hrun|]. split.
      * intros net' [<-|Hin'] Hi; [congruence|apply Hin; assumption].
      * intros net' Hnot. apply Hout. intros Hin'. apply Hnot. right. exact Hin'.
    + destruct (Hplaced net (or_introl eq_refl) Hign) as [Hdev Hfit].
      destruct (comp_layer_bb_cost_net_step c method s q net Hopen Hdev Hfit Hign)
        as (s1 & Hstep & Hcost & Hbox & Hother).
      rewrite Hstep. cbn [negb].
      destruct (IH Hrest s1 (q + layer_net_cost c net)%Q) as (s' & Hrun & Hin & Hout).
      exists s'. split; [exact Hrun|]. split.
      * intros net' Hin' Hi.
        destruct (in_dec Nat.eq_dec net' l) as [Hl|Hl]; [apply Hin; assumption|].
        destruct Hin' as [<-|Hin']; [|contradiction].
        destruct (Hout net Hl) as (-> & -> & ->). split; assumption.
      * intros net' Hnot.
        assert (net' <> net) by (intros ->; apply Hnot; left; reflexivity).
        destruct (Hout net') as (-> & -> & ->).
        { intros Hin'. apply Hnot. right. exact Hin'. }
        apply Hother. assumption.
Qed.

Lemma comp_layer_bb_cost_run (c : vpr_ctx) (s : cost_state) (method : e_cost_methods) :
  OPEN c < 0 ->
  sinks_placed c ->
  exists s',
    comp_layer_bb_cost c s method = Some (s', layer_placement_cost c)
    /\ recompute_bb_cost c s' = layer_placement_cost c
    /\ forall net, In net (nets c) -> net_is_ignored c net = false ->
         net_cost s' net = layer_net_cost c net
         /\ layer_boxes_exact c net (layer_bb_coords s' net) (num_sink_pin_layer s' net).
Proof.
  intros Hopen Hplaced.
  destruct (comp_layer_bb_cost_loop c method (nets c) Hopen Hplaced s 0%Q)
    as (s' & Hrun & Hin & _).
  exists s'. split; [exact Hrun|]. split; [|exact Hin].
  unfold recompute_bb_cost, layer_placement_cost.
  assert (H : forall l q,
            (forall net, In net l -> net_is_ignored c net = false ->
               net_cost s' net = layer_net_cost c net) ->
            fold_left (fun cost net => if negb (net_is_ignored c net)
                                       then (cost + net_cost s' net)%Q else cost) l q
            = fold_left (fun cost net => if negb (net_is_ignored c net)
                                         then (cost + layer_net_cost c net)%Q else cost) l q).
  { induction l as [|net l IH]; intros q H; cbn [fold_left]; [reflexivity|].
    rewrite IH by (intros n Hn; apply H; right; exact Hn).
    destruct (net_is_ignored c net) eqn:E; cbn [negb]; [reflexivity|].
    rewrite (H net (or_introl eq_refl) E). reflexivity. }
  apply H. intros net Hnet Hign. apply Hin; assumption.
Qed.

(** X11.  With [OPEN] negative, the driver pins known and the sinks of the
    nets that are not ignored on the layers of the device,
    [comp_layer_bb_cost] returns from any state and with either method, and
    returns the same cost: the sum over the nets that are not ignored of the
    per-layer cost of the net.  It leaves each of those nets with that cost,
    with a box on each layer that spans the driver and the sinks on the
    layer, and with the sink count of each layer, so [recompute_bb_cost] on
    the state it returns gives the same total. *)
Theorem comp_layer_bb_cost_is_placement_cost (c : vpr_ctx) (s : cost_state)
    (method : e_cost_methods) :
  OPEN c < 0 ->
  drivers_known c ->
  sinks_placed c ->
  exists s',
    comp_layer_bb_cost c s method = Some (s', layer_placement_cost c)
    /\ recompute_bb_cost c s' = layer_placement_cost c
    /\ forall net, In net (nets c) -> net_is_ignored c net = false ->
         net_cost s' net = layer_net_cost c net
         /\ layer_boxes_exact c net (layer_bb_coords s' net) (num_sink_pin_layer s' net).
Proof. intros Hopen _. apply comp_layer_bb_cost_run. exact Hopen. Qed.

Lemma comp_layer_bb_cost_is_placement_cost_witness :
  exists s',
    comp_layer_bb_cost (demo_after 2 false) demo_init NORMAL
    = Some (s', layer_placement_cost (demo_after 2 false))
    /\ recompute_bb_cost (demo_after 2 false) s' = layer_placement_cost (demo_after 2 false).
Proof.
  destruct (comp_layer_bb_cost_is_placement_cost (demo_after 2 false) demo_init NORMAL)
    as (s' & Hrun & Hsum & _).
  - reflexivity.
  - intros net [<-|[<-|[]]] _; vm_compute; discriminate.
  - intros net [<-|[<-|[]]] _.
    + split; [|reflexivity].
      intros pin [<-|[<-|[<-|[<-|[<-|[]]]]]]; vm_compute; split;
        first [discriminate | reflexivity].
    + split; [|reflexivity].
      intros pin [<-|[]]; vm_compute; split; first [discriminate | reflexivity].
  - exists s'. split; assumption.
Defined.

End FirstLayerCost.

(** ** A moved pin, layer by layer *)

Section LayerUpdate.
Import NetCost.
Local Open Scope Z_scope.

Lemma get_set_field_same (b : t_2D_bb) (f : bb_field) (v : Z) :
  get_field (set_field b f v) f = v.
Proof. destruct f; reflexivity. Qed.

Lemma get_set_field_other (b : t_2D_bb) (f f' : bb_field) (v : Z) :
  f' <> f -> get_field (set_field b f v) f' = get_field b f'.
Proof. intros H. destruct f, f'; try reflexivity; contradiction H; reflexivity. Qed.

Lemma layer_num_set_field (b : t_2D_bb) (f : bb_field) (v : Z) :
  layer_num (set_field b f v) = layer_num b.
Proof. destruct f; reflexivity. Qed.

Lemma set_vec_field_at (v : Z -> t_2D_bb) (L : Z) (f : bb_field) (x : Z) :
  set_vec_field v L f x L = set_field (v L) f x.
Proof. unfold set_vec_field. apply updz_same. Qed.

Lemma set_vec_field_off (v : Z -> t_2D_bb) (L l : Z) (f : bb_field) (x : Z) :
  l <> L -> set_vec_field v L f x l = v l.
Proof. intros H. unfold set_vec_field. apply updz_other. exact H. Qed.

Lemma is_axis_apart (lo hi : bb_field) : is_axis lo hi -> lo <> hi.
Proof. intros [[-> ->]|[-> ->]]; discriminate. Qed.

Lemma same_but_axis_refl (r : layer_scratch) (L : Z) (lo hi : bb_field) :
  same_but_axis r r L lo hi.
Proof.
  unfold same_but_axis. repeat split; reflexivity.
Qed.

(** Rewriting a field of the axis keeps the rest. *)
Lemma same_but_axis_set (r : layer_scratch) (L : Z) (lo hi f : bb_field)
    (fl : bb_flag) (ed co : Z -> t_2D_bb) (cnt : Z -> Z) (e x : Z) :
  f = lo \/ f = hi ->
  same_but_axis r (mk_layer_scratch fl ed co cnt) L lo hi ->
  same_but_axis r
    (mk_layer_scratch fl (set_vec_field ed L f e) (set_vec_field co L f x) cnt) L lo hi.
Proof.
  intros Hf (A1 & A2 & A3 & A4 & A5). unfold same_but_axis in *.
  cbn [ls_flag ls_count ls_coord ls_edge] in *.
  split; [exact A1|]. split; [exact A2|]. split; [|split].
  - intros l Hl. rewrite !set_vec_field_off by exact Hl. apply A3. exact Hl.
  - rewrite set_vec_field_at, layer_num_set_field. exact A4.
  - intros g Hlo Hhi. rewrite !set_vec_field_at.
    rewrite !get_set_field_other by (destruct Hf; congruence).
    apply A5; assumption.
Qed.

Lemma same_but_axis_eta (r : layer_scratch) (L : Z) (lo hi : bb_field) :
  same_but_axis r (mk_layer_scratch (ls_flag r) (ls_edge r) (ls_coord r) (ls_count r))
    L lo hi.
Proof.
  unfold same_but_axis. repeat split; reflexivity.
Qed.

Lemma edge_then_recomputed (c : vpr_ctx) (net : ClusterNetId) (r : layer_scratch)
    (k : layer_scratch -> option layer_scratch) :
  edge_then (recomputed c net r) k = recomputed c net r.
Proof.
  unfold edge_then, recomputed, bind.
  destruct (get_layer_bb_from_scratch c net (ls_edge r) (ls_coord r) (ls_count r))
    as [[[ed co] cnt]|]; reflexivity.
Qed.

Lemma update_bb_edge_cases (c : vpr_ctx) (net : ClusterNetId) (r : layer_scratch)
    (L : Z) (f : bb_field) (n x : Z) (k : layer_scratch -> option layer_scratch) :
  ls_flag r <> GOT_FROM_SCRATCH ->
  edge_then (update_bb_edge c net r L f n x) k
  = if n =? 1 then recomputed c net r
    else k (mk_layer_scratch (ls_flag r) (set_vec_field (ls_edge r) L f (n - 1))
              (set_vec_field (ls_coord r) L f x) (ls_count r)).
Proof.
  intros Hflag. unfold update_bb_edge. destruct (n =? 1).
  - apply (edge_then_recomputed c net r k).
  - unfold edge_then, bind. cbn [ls_flag].
    destruct (ls_flag r); try reflexivity. contradiction Hflag. reflexivity.
Qed.

(** One axis of [update_bb_same_layer] does what [update_axis] does. *)
Lemma same_layer_axis_spec (c : vpr_ctx) (net : ClusterNetId) (r : layer_scratch)
    (L : Z) (lo hi : bb_field) (v_old v_new : Z) (ce cc : Z -> t_2D_bb)
    (k : layer_scratch -> option layer_scratch) :
  is_axis lo hi ->
  ls_flag r <> GOT_FROM_SCRATCH ->
  get_field (ls_coord r L) lo = get_field (cc L) lo ->
  get_field (ls_coord r L) hi = get_field (cc L) hi ->
  get_field (ls_edge r L) lo = get_field (ce L) lo ->
  get_field (ls_edge r L) hi = get_field (ce L) hi ->
  match update_axis v_old v_new (get_field (cc L) lo) (get_field (cc L) hi)
          (get_field (ce L) lo) (get_field (ce L) hi) with
  | None => same_layer_axis c net r L lo hi v_old v_new ce cc k = recomputed c net r
  | Some (a, b, e1, e2) =>
      exists r',
        same_but_axis r r' L lo hi
        /\ get_field (ls_coord r' L) lo = a /\ get_field (ls_coord r' L) hi = b
        /\ get_field (ls_edge r' L) lo = e1 /\ get_field (ls_edge r' L) hi = e2
        /\ same_layer_axis c net r L lo hi v_old v_new ce cc k = k r'
  end.
Proof.
  intros Hax Hflag C1 C2 E1 E2.
  pose proof (is_axis_apart lo hi Hax) as Hne.
  assert (Hne' : hi <> lo) by congruence.
  unfold same_layer_axis, update_axis.
  rewrite !update_bb_edge_cases by exact Hflag.
  unfold arrive_at_edge. cbn [ls_flag ls_edge ls_coord ls_count].
  destruct (v_new <? v_old).
  - destruct (v_old =? get_field (cc L) hi); cbn [andb];
      [destruct (get_field (ce L) hi =? 1); [reflexivity|]|];
      (destruct (v_new <? get_field (cc L) lo);
        [|destruct (v_new =? get_field (cc L) lo) eqn:Eq]).
    all: try apply Z.eqb_eq in Eq.
    all: eexists; (split; [|split; [|split; [|split; [|split]]]]);
      [| | | | |reflexivity].
    all: try (first [apply same_but_axis_refl
                    |repeat (apply same_but_axis_set; [auto|]); apply same_but_axis_eta]).
    all: cbn [ls_flag ls_edge ls_coord ls_count];
      rewrite ?set_vec_field_at, ?get_set_field_same,
              ?(get_set_field_other _ _ _ _ Hne), ?(get_set_field_other _ _ _ _ Hne'),
              ?set_vec_field_at, ?get_set_field_same;
      congruence.
  - destruct (v_new >? v_old).
    + destruct (v_old =? get_field (cc L) lo); cbn [andb];
        [destruct (get_field (ce L) lo =? 1); [reflexivity|]|];
        (destruct (v_new >? get_field (cc L) hi);
          [|destruct (v_new =? get_field (cc L) hi) eqn:Eq]).
      all: try apply Z.eqb_eq in Eq.
      all: eexists; (split; [|split; [|split; [|split; [|split]]]]);
        [| | | | |reflexivity].
      all: try (first [apply same_but_axis_refl
                      |repeat (apply same_but_axis_set; [auto|]); apply same_but_axis_eta]).
      all: cbn [ls_flag ls_edge ls_coord ls_count];
        rewrite ?set_vec_field_at, ?get_set_field_same,
                ?(get_set_field_other _ _ _ _ Hne), ?(get_set_field_other _ _ _ _ Hne'),
                ?set_vec_field_at, ?get_set_field_same;
        congruence.
    + exists r. split; [apply same_but_axis_refl|]. repeat split; assumption.
Qed.

(** One axis of the layer a pin leaves in [update_bb_layer_changed]: on a
    box that is wider than one cell the edge counts follow the pin. *)
Lemma layer_changed_axis_spec (c : vpr_ctx) (net : ClusterNetId) (r : layer_scratch)
    (L : Z) (lo hi : bb_field) (v_old : Z) (ce cc : Z -> t_2D_bb)
    (k : layer_scratch -> option layer_scratch) (rest : list Z) :
  is_axis lo hi ->
  ls_flag r <> GOT_FROM_SCRATCH ->
  get_field (ls_coord r L) lo = get_field (cc L) lo ->
  get_field (ls_coord r L) hi = get_field (cc L) hi ->
  get_field (ls_edge r L) lo = get_field (ce L) lo ->
  get_field (ls_edge r L) hi = get_field (ce L) hi ->
  tight (v_old :: rest) (get_field (cc L) lo) (get_field (cc L) hi)
    (get_field (ce L) lo) (get_field (ce L) hi) ->
  get_field (cc L) lo < get_field (cc L) hi ->
  layer_changed_axis c net r L lo hi v_old ce cc k = recomputed c net r
  \/ exists r',
       same_but_axis r r' L lo hi
       /\ tight rest (get_field (ls_coord r' L) lo) (get_field (ls_coord r' L) hi)
            (get_field (ls_edge r' L) lo) (get_field (ls_edge r' L) hi)
       /\ layer_changed_axis c net r L lo hi v_old ce cc k = k r'.
Proof.
  intros Hax Hflag C1 C2 E1 E2 Ht Hwide.
  pose proof (is_axis_apart lo hi Hax) as Hne.
  assert (Hne' : hi <> lo) by congruence.
  destruct (tight_cons_elim _ _ _ _ _ _ Ht) as (Hall & Hold & Hle & Hhe & Hlo & Hhi).
  assert (Hnn : 0 <= count_at (get_field (cc L) lo) rest
                /\ 0 <= count_at (get_field (cc L) hi) rest).
  { unfold count_at. lia. }
  unfold layer_changed_axis.
  rewrite !update_bb_edge_cases by exact Hflag.
  destruct (Z.eqb_spec v_old (get_field (cc L) hi)) as [Q1|Q1].
  - subst v_old.
    destruct (Z.eqb_spec (get_field (ce L) hi) 1) as [Q2|Q2]; [left; reflexivity|].
    right. eexists. split; [|split; [|reflexivity]].
    + apply same_but_axis_set; [auto|]. apply same_but_axis_eta.
    + cbn [ls_flag ls_edge ls_coord ls_count].
      rewrite !set_vec_field_at, !get_set_field_same,
              !(get_set_field_other _ _ _ _ Hne), C1, E1.
      destruct (Z.eqb_spec (get_field (cc L) hi) (get_field (cc L) lo)); [lia|].
      unfold tight. rewrite !count_at_pos.
      split; [lia|]. split; [lia|]. split; [exact Hall|]. split; lia.
  - destruct (Z.eqb_spec v_old (get_field (cc L) lo)) as [Q3|Q3].
    + subst v_old.
      destruct (Z.eqb_spec (get_field (ce L) lo) 1) as [Q4|Q4]; [left; reflexivity|].
      destruct (Z.eqb_spec (get_field (cc L) lo) (get_field (cc L) hi)); [lia|].
      right. eexists. split; [|split; [|reflexivity]].
      * apply same_but_axis_set; [auto|]. apply same_but_axis_eta.
      * cbn [ls_flag ls_edge ls_coord ls_count].
        rewrite !set_vec_field_at, !get_set_field_same,
                !(get_set_field_other _ _ _ _ Hne'), C2, E2.
        unfold tight. rewrite !count_at_pos.
        split; [lia|]. split; [lia|]. split; [exact Hall|]. split; lia.
    + right. exists r. split; [apply same_but_axis_refl|]. split; [|reflexivity].
      rewrite C1, C2, E1, E2.
      destruct (Z.eqb_spec v_old (get_field (cc L) lo)); [contradiction|].
      destruct (Z.eqb_spec v_old (get_field (cc L) hi)); [contradiction|].
      unfold tight. rewrite !count_at_pos.
      split; [lia|]. split; [lia|]. split; [exact Hall|]. split; lia.
Qed.

(** One edge pair of [add_block_to_bb]: a pin joins the coordinates. *)
Lemma join_axis_tight (l : list Z) (v lo hi le he : Z) :
  tight l lo hi le he ->
  tight (v :: l)
    (if v <? lo then v else lo)
    (if v >? hi then v else hi)
    (if v <? lo then 1 else if v =? lo then le + 1 else le)
    (if v >? hi then 1 else if v =? hi then he + 1 else he).
Proof.
  intros (Hlo & Hhi & Hall & -> & ->).
  pose proof (Hall lo Hlo) as Hlohi.
  pose proof (count_at_outside l lo hi v Hall) as Hout.
  apply tight_cons_intro.
  - intros w Hw. pose proof (Hall w Hw).
    destruct (Z.ltb_spec v lo); destruct (v >? hi) eqn:G;
      try apply Z.gtb_lt in G; lia.
  - destruct (Z.ltb_spec v lo); destruct (v >? hi) eqn:G;
      try apply Z.gtb_lt in G; try lia.
    all: rewrite Z.gtb_ltb in G; apply Z.ltb_ge in G; lia.
  - destruct (Z.ltb_spec v lo).
    + rewrite Z.eqb_refl, Hout by lia. reflexivity.
    + destruct (Z.eqb_spec v lo); lia.
  - destruct (v >? hi) eqn:G.
    + apply Z.gtb_lt in G. rewrite Z.eqb_refl, Hout by lia. reflexivity.
    + destruct (Z.eqb_spec v hi); lia.
  - destruct (Z.ltb_spec v lo); [left; reflexivity|].
    right. apply count_at_pos. exact Hlo.
  - destruct (v >? hi); [left; reflexivity|].
    right. apply count_at_pos. exact Hhi.
Qed.

(** [add_block_to_bb] on an exact box leaves the exact box of the pins with
    the new one. *)
Lemma add_block_to_bb_exact (new_pin_loc : t_physical_tile_loc) (ed co : t_2D_bb)
    (xs ys : list Z) :
  exact_box xs ys (flat co) (flat ed) ->
  exact_box (tile_x new_pin_loc :: xs) (tile_y new_pin_loc :: ys)
    (flat (snd (add_block_to_bb new_pin_loc ed co ed co)))
    (flat (fst (add_block_to_bb new_pin_loc ed co ed co)))
  /\ layer_num (snd (add_block_to_bb new_pin_loc ed co ed co)) = layer_num co.
Proof.
  intros [Hx Hy].
  pose proof (join_axis_tight _ (tile_x new_pin_loc) _ _ _ _ Hx) as Jx.
  pose proof (join_axis_tight _ (tile_y new_pin_loc) _ _ _ _ Hy) as Jy.
  destruct Hx as (Hx1 & _ & Hx3 & _). destruct Hy as (Hy1 & _ & Hy3 & _).
  pose proof (Hx3 _ Hx1) as Xr. pose proof (Hy3 _ Hy1) as Yr.
  destruct co as [c1 c2 c3 c4 c5], ed as [e1 e2 e3 e4 e5].
  cbn [flat xmin xmax ymin ymax l_xmin l_xmax l_ymin l_ymax] in *.
  unfold add_block_to_bb, add_to_edge, exact_box.
  cbn [get_field l_xmin l_xmax l_ymin l_ymax fst snd].
  destruct (tile_x new_pin_loc >? c2) eqn:G1; destruct (tile_x new_pin_loc <? c1) eqn:G2;
    try (apply Z.gtb_lt in G1; apply Z.ltb_lt in G2; lia);
    destruct (tile_y new_pin_loc >? c4) eqn:G3; destruct (tile_y new_pin_loc <? c3) eqn:G4;
    try (apply Z.gtb_lt in G3; apply Z.ltb_lt in G4; lia);
    cbn [fst snd set_field get_field l_xmin l_xmax l_ymin l_ymax layer_num flat
         xmin xmax ymin ymax];
    repeat match goal with
           | |- context [?a =? ?b] => destruct (a =? b)
           end;
    cbn [fst snd set_field get_field l_xmin l_xmax l_ymin l_ymax layer_num flat
         xmin xmax ymin ymax];
    (split; [split; assumption|reflexivity]).
Qed.

Lemma recomputed_ok (c : vpr_ctx) (net : ClusterNetId) (r : layer_scratch) :
  sinks_on_device c net ->
  exists r', recomputed c net r = Some r' /\ layer_scratch_ok c net r'.
Proof.
  intros Hdev.
  destruct (get_layer_bb_from_scratch_exact c net (ls_edge r) (ls_coord r) (ls_count r))
    as [Hsome Hex].
  destruct (proj2 Hsome Hdev) as [[[ed co] cnt] E].
  unfold recomputed, bind. rewrite E. eexists. split; [reflexivity|].
  intros l Hl. destruct (Hex ed co cnt E l Hl) as (Hb & Hc & Hn & _).
  cbn [ls_coord ls_edge ls_count]. split; [exact Hb|]. split; [exact Hc|exact Hn].
Qed.

Lemma exact_box_fields (xs ys : list Z) (co ed : t_2D_bb) :
  exact_box xs ys (flat co) (flat ed)
  <-> tight xs (get_field co F_xmin) (get_field co F_xmax)
        (get_field ed F_xmin) (get_field ed F_xmax)
      /\ tight ys (get_field co F_ymin) (get_field co F_ymax)
           (get_field ed F_ymin) (get_field ed F_ymax).
Proof. unfold exact_box. reflexivity. Qed.

(** [update_bb_same_layer]: the pin moves within its layer. *)
Lemma update_bb_same_layer_ok (c : vpr_ctx) (net : ClusterNetId) (r : layer_scratch)
    (pin_old_loc pin_new_loc : t_physical_tile_loc) (rx ry : list Z) :
  sinks_on_device c net ->
  ls_flag r <> GOT_FROM_SCRATCH ->
  0 <= tile_layer_num pin_old_loc < num_layers c ->
  exact_box (tile_x pin_old_loc :: rx) (tile_y pin_old_loc :: ry)
    (flat (ls_coord r (tile_layer_num pin_old_loc)))
    (flat (ls_edge r (tile_layer_num pin_old_loc))) ->
  Permutation (tile_x pin_new_loc :: rx) (layer_pin_xs c net (tile_layer_num pin_old_loc)) ->
  Permutation (tile_y pin_new_loc :: ry) (layer_pin_ys c net (tile_layer_num pin_old_loc)) ->
  (forall l, 0 <= l < num_layers c -> l <> tile_layer_num pin_old_loc ->
     exact_box (layer_pin_xs c net l) (layer_pin_ys c net l)
       (flat (ls_coord r l)) (flat (ls_edge r l))) ->
  (forall l, 0 <= l < num_layers c -> layer_num (ls_coord r l) = l) ->
  (forall l, 0 <= l < num_layers c ->
     ls_count r l = Z.of_nat (length (layer_sinks c net l))) ->
  exists r',
    update_bb_same_layer c net r pin_old_loc pin_new_loc (ls_edge r) (ls_coord r) = Some r'
    /\ layer_scratch_ok c net r'.
Proof.
  intros Hdev Hflag HL Hbox Px Py Hothers Hnum Hcnt.
  set (L := tile_layer_num pin_old_loc) in *.
  apply exact_box_fields in Hbox. destruct Hbox as [Hx Hy].
  unfold update_bb_same_layer. fold L.
  match goal with
  | |- exists r', same_layer_axis _ _ _ _ _ _ _ _ _ _ ?k = _ /\ _ =>
      pose proof (same_layer_axis_spec c net r L F_xmin F_xmax
                    (tile_x pin_old_loc) (tile_x pin_new_loc) (ls_edge r) (ls_coord r) k
                    (or_introl (conj eq_refl eq_refl)) Hflag
                    eq_refl eq_refl eq_refl eq_refl) as Sx
  end.
  revert Sx.
  destruct (update_axis (tile_x pin_old_loc) (tile_x pin_new_loc) _ _ _ _)
    as [[[[a1 a2] a3] a4]|] eqn:Ux; intros Sx.
  2: { rewrite Sx. apply recomputed_ok. exact Hdev. }
  destruct Sx as (r1 & S1 & A1 & A2 & A3 & A4 & ->).
  pose proof (update_axis_tight _ _ _ _ _ _ _ _ _ _ _ Hx Ux) as Hx'.
  destruct S1 as (F1 & K1 & O1 & N1 & G1).
  assert (Hflag1 : ls_flag r1 <> GOT_FROM_SCRATCH) by (rewrite F1; exact Hflag).
  destruct (G1 F_ymin) as [Cy1 Ey1]; [discriminate|discriminate|].
  destruct (G1 F_ymax) as [Cy2 Ey2]; [discriminate|discriminate|].
  pose proof (same_layer_axis_spec c net r1 L F_ymin F_ymax
                (tile_y pin_old_loc) (tile_y pin_new_loc) (ls_edge r) (ls_coord r)
                (fun r => Some r)
                (or_intror (conj eq_refl eq_refl)) Hflag1 Cy1 Cy2 Ey1 Ey2) as Sy.
  revert Sy.
  destruct (update_axis (tile_y pin_old_loc) (tile_y pin_new_loc) _ _ _ _)
    as [[[[b1 b2] b3] b4]|] eqn:Uy; intros Sy.
  2: { rewrite Sy. apply recomputed_ok. exact Hdev. }
  destruct Sy as (r2 & S2 & B1 & B2 & B3 & B4 & ->).
  pose proof (update_axis_tight _ _ _ _ _ _ _ _ _ _ _ Hy Uy) as Hy'.
  destruct S2 as (F2 & K2 & O2 & N2 & G2).
  destruct (G2 F_xmin) as [Cx1 Ex1]; [discriminate|discriminate|].
  destruct (G2 F_xmax) as [Cx2 Ex2]; [discriminate|discriminate|].
  exists r2. split; [reflexivity|].
  intros l Hl. destruct (Z.eq_dec l L) as [->|Hne].
  - split; [|split].
    + apply (exact_box_perm _ _ _ _ _ _ Px Py).
      apply exact_box_fields. rewrite Cx1, Cx2, Ex1, Ex2, A1, A2, A3, A4, B1, B2, B3, B4.
      split; assumption.
    + rewrite K2, K1. apply Hcnt. exact Hl.
    + rewrite N2, N1. apply Hnum. exact Hl.
  - destruct (O2 l Hne) as [-> ->]. destruct (O1 l Hne) as [-> ->].
    split; [apply Hothers; assumption|]. split.
    + rewrite K2, K1. apply Hcnt. exact Hl.
    + apply Hnum. exact Hl.
Qed.

(** [update_bb_layer_changed]: the pin leaves a layer whose box is wider
    and higher than one cell, and joins another layer. *)
Lemma update_bb_layer_changed_ok (c : vpr_ctx) (net : ClusterNetId) (r : layer_scratch)
    (pin_old_loc pin_new_loc : t_physical_tile_loc) (rx ry nx ny : list Z) :
  sinks_on_device c net ->
  ls_flag r <> GOT_FROM_SCRATCH ->
  0 <= tile_layer_num pin_old_loc < num_layers c ->
  0 <= tile_layer_num pin_new_loc < num_layers c ->
  tile_layer_num pin_old_loc <> tile_layer_num pin_new_loc ->
  exact_box (tile_x pin_old_loc :: rx) (tile_y pin_old_loc :: ry)
    (flat (ls_coord r (tile_layer_num pin_old_loc)))
    (flat (ls_edge r (tile_layer_num pin_old_loc))) ->
  Permutation rx (layer_pin_xs c net (tile_layer_num pin_old_loc)) ->
  Permutation ry (layer_pin_ys c net (tile_layer_num pin_old_loc)) ->
  l_xmin (ls_coord r (tile_layer_num pin_old_loc))
  < l_xmax (ls_coord r (tile_layer_num pin_old_loc)) ->
  l_ymin (ls_coord r (tile_layer_num pin_old_loc))
  < l_ymax (ls_coord r (tile_layer_num pin_old_loc)) ->
  exact_box nx ny (flat (ls_coord r (tile_layer_num pin_new_loc)))
    (flat (ls_edge r (tile_layer_num pin_new_loc))) ->
  Permutation (tile_x pin_new_loc :: nx) (layer_pin_xs c net (tile_layer_num pin_new_loc)) ->
  Permutation (tile_y pin_new_loc :: ny) (layer_pin_ys c net (tile_layer_num pin_new_loc)) ->
  (forall l, 0 <= l < num_layers c ->
     l <> tile_layer_num pin_old_loc -> l <> tile_layer_num pin_new_loc ->
     exact_box (layer_pin_xs c net l) (layer_pin_ys c net l)
       (flat (ls_coord r l)) (flat (ls_edge r l))) ->
  (forall l, 0 <= l < num_layers c -> layer_num (ls_coord r l) = l) ->
  (forall l, 0 <= l < num_layers c ->
     ls_count r l = Z.of_nat (length (layer_sinks c net l))) ->
  exists r',
    update_bb_layer_changed c net r pin_old_loc pin_new_loc (ls_edge r) (ls_coord r)
    = Some r'
    /\ layer_scratch_ok c net r'.
Proof.
  intros Hdev Hflag HLo HLn Hdiff Hbox Prx Pry Wx Wy Hnew Pnx Pny Hothers Hnum Hcnt.
  set (Lo := tile_layer_num pin_old_loc) in *.
  set (Ln := tile_layer_num pin_new_loc) in *.
  apply exact_box_fields in Hbox. destruct Hbox as [Hx Hy].
  unfold update_bb_layer_changed. fold Lo. fold Ln.
  match goal with
  | |- exists r', layer_changed_axis _ _ _ _ _ _ _ _ _ ?k = _ /\ _ =>
      destruct (layer_changed_axis_spec c net r Lo F_xmin F_xmax
                  (tile_x pin_old_loc) (ls_edge r) (ls_coord r) k rx
                  (or_introl (conj eq_refl eq_refl)) Hflag
                  eq_refl eq_refl eq_refl eq_refl Hx Wx)
        as [Sx|(r1 & S1 & Tx & Sx)]; rewrite Sx; clear Sx
  end.
  { apply recomputed_ok. exact Hdev. }
  destruct S1 as (F1 & K1 & O1 & N1 & G1).
  assert (Hflag1 : ls_flag r1 <> GOT_FROM_SCRATCH) by (rewrite F1; exact Hflag).
  destruct (G1 F_ymin) as [Cy1 Ey1]; [discriminate|discriminate|].
  destruct (G1 F_ymax) as [Cy2 Ey2]; [discriminate|discriminate|].
  match goal with
  | |- exists r', layer_changed_axis _ _ _ _ _ _ _ _ _ ?k = _ /\ _ =>
      destruct (layer_changed_axis_spec c net r1 Lo F_ymin F_ymax
                  (tile_y pin_old_loc) (ls_edge r) (ls_coord r) k ry
                  (or_intror (conj eq_refl eq_refl)) Hflag1
                  Cy1 Cy2 Ey1 Ey2 Hy Wy)
        as [Sy|(r2 & S2 & Ty & Sy)]; rewrite Sy; clear Sy
  end.
  { apply recomputed_ok. exact Hdev. }
  destruct S2 as (F2 & K2 & O2 & N2 & G2).
  destruct (G2 F_xmin) as [Cx1 Ex1]; [discriminate|discriminate|].
  destruct (G2 F_xmax) as [Cx2 Ex2]; [discriminate|discriminate|].
  assert (HnLo : Ln <> Lo) by congruence.
  destruct (O2 Ln HnLo) as [Q1 Q2]. destruct (O1 Ln HnLo) as [Q3 Q4].
  rewrite Q1, Q2, Q3, Q4.
  destruct (add_block_to_bb_exact pin_new_loc (ls_edge r Ln) (ls_coord r Ln) nx ny Hnew)
    as [Hadd Hlayer].
  eexists. split; [reflexivity|].
  intros l Hl. cbn [ls_coord ls_edge ls_count].
  destruct (Z.eq_dec l Ln) as [->|HneN].
  - rewrite !updz_same. split; [|split].
    + apply (exact_box_perm _ _ _ _ _ _ Pnx Pny). exact Hadd.
    + rewrite K2, K1. apply Hcnt. exact Hl.
    + rewrite Hlayer. apply Hnum. exact Hl.
  - rewrite !updz_other by exact HneN.
    destruct (Z.eq_dec l Lo) as [->|HneO].
    + split; [|split].
      * apply (exact_box_perm _ _ _ _ _ _ Prx Pry).
        apply exact_box_fields. rewrite Cx1, Cx2, Ex1, Ex2. split; assumption.
      * rewrite K2, K1. apply Hcnt. exact Hl.
      * rewrite N2, N1. apply Hnum. exact Hl.
    + destruct (O2 l HneO) as [-> ->]. destruct (O1 l HneO) as [-> ->].
      split; [apply Hothers; assumption|]. split.
      * rewrite K2, K1. apply Hcnt. exact Hl.
      * apply Hnum. exact Hl.
Qed.

(** The sink counts after [update_bb_pin_sink_count]. *)
Lemma update_bb_pin_sink_count_runs (c : vpr_ctx)
    (pin_old_loc pin_new_loc : t_physical_tile_loc) (curr new0 : Z -> Z)
    (is_output_pin : bool) :
  0 <= tile_layer_num pin_old_loc < num_layers c ->
  0 <= tile_layer_num pin_new_loc < num_layers c ->
  (is_output_pin = false -> 0 < curr (tile_layer_num pin_old_loc)) ->
  exists cnt,
    update_bb_pin_sink_count c pin_old_loc pin_new_loc curr new0 is_output_pin = Some cnt
    /\ forall l, 0 <= l < num_layers c ->
         cnt l = curr l
                 + (if is_output_pin then 0
                    else (if l =? tile_layer_num pin_new_loc then 1 else 0)
                         - (if l =? tile_layer_num pin_old_loc then 1 else 0)).
Proof.
  intros HLo HLn Hpos. unfold update_bb_pin_sink_count, bind, vtr_assert.
  destruct is_output_pin; cbn [negb orb].
  - rewrite orb_true_r. eexists. split; [reflexivity|].
    intros l Hl. rewrite copy_layers_inside by exact Hl. lia.
  - specialize (Hpos eq_refl).
    destruct (curr (tile_layer_num pin_old_loc) >? 0) eqn:G;
      [|rewrite Z.gtb_ltb in G; apply Z.ltb_ge in G; lia].
    cbn [orb]. eexists. split; [reflexivity|].
    intros l Hl. unfold updz.
    destruct (Z.eqb_spec l (tile_layer_num pin_new_loc)) as [E1|E1];
      destruct (Z.eqb_spec l (tile_layer_num pin_old_loc)) as [E2|E2].
    + subst l. rewrite <- E2, Z.eqb_refl.
      rewrite copy_layers_inside by exact HLn. lia.
    + subst l. destruct (Z.eqb_spec (tile_layer_num pin_new_loc) (tile_layer_num pin_old_loc));
        [contradiction|].
      rewrite copy_layers_inside by exact HLn. lia.
    + subst l. rewrite copy_layers_inside by exact HLo. lia.
    + rewrite copy_layers_inside by exact Hl. lia.
Qed.

(** One pin of the net moves and [update_layer_bb] has not recomputed the
    net in this swap.  [X l], [Y l] are the coordinates of the pins of layer
    [l] that stay.  From boxes that are exact before the move the update
    leaves boxes that are exact after it, when a pin that changes layer
    leaves a box wider and higher than one cell. *)
Lemma update_layer_bb_exact (c : vpr_ctx) (s : cost_state) (net : ClusterNetId)
    (pin_old_loc pin_new_loc : t_physical_tile_loc) (is_output_pin : bool)
    (X Y : Z -> list Z) :
  sinks_on_device c net ->
  bb_updated_before s net <> GOT_FROM_SCRATCH ->
  0 <= tile_layer_num pin_old_loc < num_layers c ->
  0 <= tile_layer_num pin_new_loc < num_layers c ->
  (is_output_pin = false -> 0 < current_sink_count s net (tile_layer_num pin_old_loc)) ->
  (forall l, 0 <= l < num_layers c ->
     exact_box
       (if l =? tile_layer_num pin_old_loc
        then tile_x (clip_loc c pin_old_loc) :: X l else X l)
       (if l =? tile_layer_num pin_old_loc
        then tile_y (clip_loc c pin_old_loc) :: Y l else Y l)
       (flat (current_layer_coord s net l)) (flat (current_layer_edge s net l))
     /\ layer_num (current_layer_coord s net l) = l
     /\ current_sink_count s net l
        + (if is_output_pin then 0
           else (if l =? tile_layer_num pin_new_loc then 1 else 0)
                - (if l =? tile_layer_num pin_old_loc then 1 else 0))
        = Z.of_nat (length (layer_sinks c net l))) ->
  (forall l, 0 <= l < num_layers c ->
     Permutation
       (if l =? tile_layer_num pin_new_loc
        then tile_x (clip_loc c pin_new_loc) :: X l else X l)
       (layer_pin_xs c net l)
     /\ Permutation
          (if l =? tile_layer_num pin_new_loc
           then tile_y (clip_loc c pin_new_loc) :: Y l else Y l)
          (layer_pin_ys c net l)) ->
  (tile_layer_num pin_old_loc <> tile_layer_num pin_new_loc ->
   l_xmin (current_layer_coord s net (tile_layer_num pin_old_loc))
   < l_xmax (current_layer_coord s net (tile_layer_num pin_old_loc))
   /\ l_ymin (current_layer_coord s net (tile_layer_num pin_old_loc))
      < l_ymax (current_layer_coord s net (tile_layer_num pin_old_loc))) ->
  exists s',
    update_layer_bb c s net pin_old_loc pin_new_loc is_output_pin = Some s'
    /\ layer_scratch_exact c s' net.
Proof.
  intros Hdev Hflag HLo HLn Hpos Hpre Hpost Hwide.
  set (Lo := tile_layer_num pin_old_loc) in *.
  set (Ln := tile_layer_num pin_new_loc) in *.
  destruct (update_bb_pin_sink_count_runs c (clip_loc c pin_old_loc) (clip_loc c pin_new_loc)
              (current_sink_count s net) (ts_layer_sink_pin_count s net) is_output_pin
              HLo HLn Hpos) as (cnt & Hcnt & Hval).
  cbn [clip_loc tile_layer_num] in Hval. fold Lo in Hval. fold Ln in Hval.
  assert (Hcnt' : forall l, 0 <= l < num_layers c ->
                    cnt l = Z.of_nat (length (layer_sinks c net l))).
  { intros l Hl. rewrite (Hval l Hl). apply (Hpre l Hl). }
  set (r := mk_layer_scratch UPDATED_ONCE (current_layer_edge s net)
              (current_layer_coord s net) cnt).
  assert (Hr : exists r',
             (if negb (tile_layer_num pin_old_loc =? tile_layer_num pin_new_loc)
              then update_bb_layer_changed c net r (clip_loc c pin_old_loc)
                     (clip_loc c pin_new_loc) (current_layer_edge s net)
                     (current_layer_coord s net)
              else update_bb_same_layer c net r (clip_loc c pin_old_loc)
                     (clip_loc c pin_new_loc) (current_layer_edge s net)
                     (current_layer_coord s net)) = Some r'
             /\ layer_scratch_ok c net r').
  { fold Lo. fold Ln.
    destruct (Z.eqb_spec Lo Ln) as [E|E]; cbn [negb].
    - destruct (Hpre Lo HLo) as (Hbox & _ & _).
      destruct (Hpost Lo HLo) as [Px Py].
      rewrite Z.eqb_refl in Hbox. rewrite <- E, Z.eqb_refl in Px, Py.
      apply (update_bb_same_layer_ok c net r (clip_loc c pin_old_loc) (clip_loc c pin_new_loc)
               (X Lo) (Y Lo)); try assumption.
      + discriminate.
      + intros l Hl Hne. cbn [clip_loc tile_layer_num] in Hne. fold Lo in Hne.
        destruct (Hpre l Hl) as (Hb & _ & _). destruct (Hpost l Hl) as [Qx Qy].
        rewrite <- E in Qx, Qy.
        destruct (Z.eqb_spec l Lo); [contradiction|].
        apply (exact_box_perm _ _ _ _ _ _ Qx Qy). exact Hb.
      + intros l Hl. apply (Hpre l Hl).
    - destruct (Hwide E) as [Wx Wy].
      destruct (Hpre Lo HLo) as (Hbox & _ & _). rewrite Z.eqb_refl in Hbox.
      destruct (Hpost Lo HLo) as [Prx Pry].
      destruct (Z.eqb_spec Lo Ln) as [|_]; [contradiction|].
      destruct (Hpre Ln HLn) as (Hnew & _ & _).
      destruct (Z.eqb_spec Ln Lo) as [E'|_]; [symmetry in E'; contradiction|].
      destruct (Hpost Ln HLn) as [Pnx Pny]. rewrite Z.eqb_refl in Pnx, Pny.
      apply (update_bb_layer_changed_ok c net r (clip_loc c pin_old_loc)
               (clip_loc c pin_new_loc) (X Lo) (Y Lo) (X Ln) (Y Ln)); try assumption.
      + discriminate.
      + intros l Hl Hne1 Hne2. cbn [clip_loc tile_layer_num] in Hne1, Hne2.
        fold Lo in Hne1. fold Ln in Hne2.
        destruct (Hpre l Hl) as (Hb & _ & _). destruct (Hpost l Hl) as [Qx Qy].
        destruct (Z.eqb_spec l Lo); [contradiction|].
        destruct (Z.eqb_spec l Ln); [contradiction|].
        apply (exact_box_perm _ _ _ _ _ _ Qx Qy). exact Hb.
      + intros l Hl. apply (Hpre l Hl). }
  destruct Hr as (r' & Hr & Hok).
  exists (store_layer_scratch s net r'). split.
  - apply (update_layer_bb_run c s net pin_old_loc pin_new_loc is_output_pin cnt r' Hflag Hcnt).
    exact Hr.
  - unfold layer_scratch_exact.
    destruct (store_layer_scratch_fields net s r') as (_ & -> & -> & ->).
    intros l Hl. destruct (Hok l Hl) as (A & B & C).
    cbn [ls_coord ls_edge ls_count]. split; [exact A|]. split; [exact B|exact C].
Qed.

(** *** The pins of a layer before and after the move *)

Lemma placed_back_layer_filter (c : vpr_ctx) (blk : ClusterBlockId) (loc : t_pl_loc)
    (l : Z) (ps : list ClusterPinId) :
  (forall p, In p ps -> pin_block c p <> blk) ->
  filter (fun pin => pl_layer (block_locs (placed_back c blk loc)
                                 (pin_block (placed_back c blk loc) pin)) =? l) ps
  = filter (fun pin => pl_layer (block_locs c (pin_block c pin)) =? l) ps.
Proof.
  intros H. apply filter_ext_in. intros p Hp.
  unfold placed_back, with_block_locs. cbn [block_locs pin_block].
  rewrite upd_other by (apply H; exact Hp). reflexivity.
Qed.

Lemma layer_sinks_split (c : vpr_ctx) (net : ClusterNetId) (l : Z)
    (l1 l2 : list ClusterPinId) (pin : ClusterPinId) :
  net_sinks c net = l1 ++ pin :: l2 ->
  layer_sinks c net l
  = filter (fun p => pl_layer (block_locs c (pin_block c p)) =? l) l1
    ++ (if pl_layer (block_locs c (pin_block c pin)) =? l then [pin] else [])
    ++ filter (fun p => pl_layer (block_locs c (pin_block c p)) =? l) l2.
Proof.
  intros H. unfold layer_sinks. rewrite H, filter_app. cbn [filter].
  destruct (pl_layer (block_locs c (pin_block c pin)) =? l); reflexivity.
Qed.

Lemma in_filter_of {A : Type} (f : A -> bool) (ps : list A) (P : A -> Prop) :
  (forall p, In p ps -> P p) -> forall p, In p (filter f ps) -> P p.
Proof. intros H p Hp. apply filter_In in Hp. apply H. apply Hp. Qed.

(** The pins of the net on a layer before and after the move: the moved pin
    apart they are the same, and the number of sinks on the layer follows a
    moved sink. *)
Lemma moved_pin_layer_lists (c : vpr_ctx) (net : ClusterNetId) (pin : ClusterPinId)
    (mv : t_pl_moved_block) :
  block_locs c (block_num mv) = new_loc mv ->
  sole_pin_on_block c net (block_num mv) pin ->
  (pin_is_driver c pin = true -> num_layers c = 1) ->
  0 <= pl_layer (old_loc mv) < num_layers c ->
  0 <= pl_layer (new_loc mv) < num_layers c ->
  exists X Y : Z -> list Z,
    (pin_is_driver c pin = false ->
     0 < Z.of_nat (length (layer_sinks (placed_back c (block_num mv) (old_loc mv)) net
                             (pl_layer (old_loc mv)))))
    /\ forall l, 0 <= l < num_layers c ->
         Permutation (layer_pin_xs (placed_back c (block_num mv) (old_loc mv)) net l)
           (if l =? pl_layer (old_loc mv)
            then clip (pl_x (old_loc mv)
                       + pin_width_offset c (block_num mv) (tile_pin_index c pin))
                   (grid_width c) :: X l
            else X l)
         /\ Permutation (layer_pin_ys (placed_back c (block_num mv) (old_loc mv)) net l)
              (if l =? pl_layer (old_loc mv)
               then clip (pl_y (old_loc mv)
                          + pin_height_offset c (block_num mv) (tile_pin_index c pin))
                      (grid_height c) :: Y l
               else Y l)
         /\ Permutation
              (if l =? pl_layer (new_loc mv)
               then clip (pl_x (new_loc mv)
                          + pin_width_offset c (block_num mv) (tile_pin_index c pin))
                      (grid_width c) :: X l
               else X l)
              (layer_pin_xs c net l)
         /\ Permutation
              (if l =? pl_layer (new_loc mv)
               then clip (pl_y (new_loc mv)
                          + pin_height_offset c (block_num mv) (tile_pin_index c pin))
                      (grid_height c) :: Y l
               else Y l)
              (layer_pin_ys c net l)
         /\ Z.of_nat (length (layer_sinks (placed_back c (block_num mv) (old_loc mv)) net l))
            + (if pin_is_driver c pin then 0
               else (if l =? pl_layer (new_loc mv) then 1 else 0)
                    - (if l =? pl_layer (old_loc mv) then 1 else 0))
            = Z.of_nat (length (layer_sinks c net l)).
Proof.
  intros Hnew [(Hdrv & Hblk & Hidx & Hsinks)|(Hdrv & Hblk & Hdblk & l1 & l2 & Hl & Hothers)]
         Hone HLo HLn.
  - specialize (Hone Hdrv).
    exists (fun l => map (fun p => clip (pin_x c (pin_block c p) (tile_pin_index c p))
                                   (grid_width c)) (layer_sinks c net l)),
           (fun l => map (fun p => clip (pin_y c (pin_block c p) (tile_pin_index c p))
                                   (grid_height c)) (layer_sinks c net l)).
    split; [intros H; congruence|].
    intros l Hl.
    assert (El : l = pl_layer (old_loc mv)) by lia.
    assert (El' : l = pl_layer (new_loc mv)) by lia.
    rewrite <- El, <- El', Z.eqb_refl, Hdrv.
    assert (Hsame : layer_sinks (placed_back c (block_num mv) (old_loc mv)) net l
                    = layer_sinks c net l).
    { unfold layer_sinks.
      change (net_sinks (placed_back c (block_num mv) (old_loc mv)) net) with (net_sinks c net).
      apply placed_back_layer_filter. exact Hsinks. }
    destruct (placed_back_sinks c (block_num mv) (old_loc mv) (layer_sinks c net l))
      as [Ex Ey].
    { unfold layer_sinks. apply in_filter_of. exact Hsinks. }
    unfold layer_pin_xs, layer_pin_ys. rewrite Hsame, Ex, Ey.
    change (net_driver_block (placed_back c (block_num mv) (old_loc mv)) net)
      with (net_driver_block c net).
    change (net_driver_tile_pin_index (placed_back c (block_num mv) (old_loc mv)) net)
      with (net_driver_tile_pin_index c net).
    change (grid_width (placed_back c (block_num mv) (old_loc mv))) with (grid_width c).
    change (grid_height (placed_back c (block_num mv) (old_loc mv))) with (grid_height c).
    rewrite Hblk, Hidx.
    destruct (placed_back_same c (block_num mv) (old_loc mv) (tile_pin_index c pin))
      as [-> ->].
    destruct (pin_at_loc c (block_num mv) (new_loc mv) (tile_pin_index c pin) Hnew)
      as [-> ->].
    repeat split; try apply Permutation_refl. lia.
  - assert (H1 : forall p, In p l1 -> pin_block c p <> block_num mv)
      by (intros p Hp; apply Hothers; apply in_or_app; left; exact Hp).
    assert (H2 : forall p, In p l2 -> pin_block c p <> block_num mv)
      by (intros p Hp; apply Hothers; apply in_or_app; right; exact Hp).
    set (T := fun l p => pl_layer (block_locs c (pin_block c p)) =? l).
    set (gx := fun p => clip (pin_x c (pin_block c p) (tile_pin_index c p)) (grid_width c)).
    set (gy := fun p => clip (pin_y c (pin_block c p) (tile_pin_index c p)) (grid_height c)).
    set (dx := clip (pin_x c (net_driver_block c net) (net_driver_tile_pin_index c net))
                 (grid_width c)).
    set (dy := clip (pin_y c (net_driver_block c net) (net_driver_tile_pin_index c net))
                 (grid_height c)).
    exists (fun l => dx :: map gx (filter (T l) l1) ++ map gx (filter (T l) l2)),
           (fun l => dy :: map gy (filter (T l) l1) ++ map gy (filter (T l) l2)).
    assert (Hold : forall l,
              layer_sinks (placed_back c (block_num mv) (old_loc mv)) net l
              = filter (T l) l1
                ++ (if pl_layer (old_loc mv) =? l then [pin] else [])
                ++ filter (T l) l2).
    { intros l.
      rewrite (layer_sinks_split (placed_back c (block_num mv) (old_loc mv)) net l l1 l2 pin)
        by exact Hl.
      rewrite (placed_back_layer_filter c (block_num mv) (old_loc mv) l l1 H1).
      rewrite (placed_back_layer_filter c (block_num mv) (old_loc mv) l l2 H2).
      change (pin_block (placed_back c (block_num mv) (old_loc mv)) pin)
        with (pin_block c pin).
      rewrite Hblk. unfold placed_back, with_block_locs. cbn [block_locs].
      rewrite upd_same. reflexivity. }
    assert (Hnow : forall l,
              layer_sinks c net l
              = filter (T l) l1
                ++ (if pl_layer (new_loc mv) =? l then [pin] else [])
                ++ filter (T l) l2).
    { intros l. rewrite (layer_sinks_split c net l l1 l2 pin) by exact Hl.
      rewrite Hblk, Hnew. reflexivity. }
    assert (GnewX : gx pin
                    = clip (pl_x (new_loc mv)
                            + pin_width_offset c (block_num mv) (tile_pin_index c pin))
                        (grid_width c)).
    { unfold gx. rewrite Hblk.
      destruct (pin_at_loc c (block_num mv) (new_loc mv) (tile_pin_index c pin) Hnew)
        as [-> _]. reflexivity. }
    assert (GnewY : gy pin
                    = clip (pl_y (new_loc mv)
                            + pin_height_offset c (block_num mv) (tile_pin_index c pin))
                        (grid_height c)).
    { unfold gy. rewrite Hblk.
      destruct (pin_at_loc c (block_num mv) (new_loc mv) (tile_pin_index c pin) Hnew)
        as [_ ->]. reflexivity. }
    split.
    { intros _. rewrite Hold, Z.eqb_refl, !length_app. cbn [length]. lia. }
    intros l Hrange.
    destruct (placed_back_sinks c (block_num mv) (old_loc mv) (filter (T l) l1)
                (in_filter_of _ _ _ H1)) as [Ex1 Ey1].
    destruct (placed_back_sinks c (block_num mv) (old_loc mv) (filter (T l) l2)
                (in_filter_of _ _ _ H2)) as [Ex2 Ey2].
    destruct (placed_back_other c (block_num mv) (net_driver_block c net) (old_loc mv)
                (net_driver_tile_pin_index c net) Hdblk) as [Dx Dy].
    unfold layer_pin_xs, layer_pin_ys. rewrite Hold, Hnow, !map_app, Ex1, Ey1, Ex2, Ey2.
    change (net_driver_block (placed_back c (block_num mv) (old_loc mv)) net)
      with (net_driver_block c net).
    change (net_driver_tile_pin_index (placed_back c (block_num mv) (old_loc mv)) net)
      with (net_driver_tile_pin_index c net).
    change (grid_width (placed_back c (block_num mv) (old_loc mv))) with (grid_width c).
    change (grid_height (placed_back c (block_num mv) (old_loc mv))) with (grid_height c).
    rewrite Dx, Dy. fold dx dy gx gy.
    rewrite (Z.eqb_sym l (pl_layer (old_loc mv))), (Z.eqb_sym l (pl_layer (new_loc mv))).
    rewrite Hdrv, !length_app.
    destruct (pl_layer (old_loc mv) =? l); destruct (pl_layer (new_loc mv) =? l);
      cbn [map app length];
      change (pin_block (placed_back c (block_num mv) (old_loc mv)) pin)
        with (pin_block c pin);
      change (tile_pin_index (placed_back c (block_num mv) (old_loc mv)) pin)
        with (tile_pin_index c pin);
      rewrite ?Hblk;
      try (destruct (placed_back_same c (block_num mv) (old_loc mv) (tile_pin_index c pin))
             as [-> ->]);
      rewrite ?GnewX, ?GnewY.
    all: repeat split;
      try apply Permutation_refl;
      try (apply Permutation_sym; apply (Permutation_middle (_ :: _)));
      try apply (Permutation_middle (_ :: _));
      try lia.
Qed.

(** *** The first touch of a net by a swap, layer by layer *)

Lemma layer_tables_of_exact (c : vpr_ctx) (net : ClusterNetId)
    (co ed : Z -> t_2D_bb) (cnt : Z -> Z) :
  (forall l, 0 <= l < num_layers c ->
     exact_box (layer_pin_xs c net l) (layer_pin_ys c net l) (flat (co l)) (flat (ed l))
     /\ cnt l = Z.of_nat (length (layer_sinks c net l))
     /\ layer_num (co l) = l) ->
  layer_tables_exact c net co ed cnt.
Proof.
  intros H. split.
  - intros l Hl. destruct (H l Hl) as ([Hx Hy] & Hc & Hn).
    apply tight_spans in Hx, Hy. split; [exact Hx|]. split; [exact Hy|].
    split; [exact Hn|exact Hc].
  - intros _ l Hl. apply (H l Hl).
Qed.

(** The brute-force branch: boxes and sink counts of the new placement. *)
Lemma non_updatable_layer_tables (c : vpr_ctx) (net : ClusterNetId)
    (co1 ed1 : Z -> t_2D_bb) (cnt1 : Z -> Z) :
  sinks_on_device c net ->
  Z.of_nat (length (net_sinks c net)) < SMALL_NET c ->
  layer_tables_exact c net (fst (get_non_updatable_layer_bb c net co1 cnt1)) ed1
    (snd (get_non_updatable_layer_bb c net co1 cnt1)).
Proof.
  intros Hdev Hsmall.
  destruct (get_layer_bb_from_scratch_exact c net co1 co1 cnt1) as [Hsome Hex].
  destruct (proj2 Hsome Hdev) as [[[ed co] cnt] E].
  split; [|intros Hbig; lia].
  intros l Hl.
  destruct (non_updatable_layer_is_from_scratch c net co1 co1 co1 cnt1 cnt1 ed co cnt E l Hl)
    as [-> ->].
  destruct (Hex ed co cnt E l Hl) as ([Hx Hy] & Hc & Hn & _).
  apply tight_spans in Hx, Hy. split; [exact Hx|]. split; [exact Hy|].
  split; [exact Hn|exact Hc].
Qed.

(** X16.  A swap moves a block that carries one pin of a net, and the net
    is touched for the first time in the swap, its committed per-layer
    boxes, edge counts and sink counts being those of the placement before
    the move.  [update_net_layer_bb] then returns, and the scratch tables it
    leaves hold for every layer of the device the box and the sink count of
    the net in the new placement, with the edge counts when the net is not
    small, provided that a moved driver is on a device of one layer and that
    a pin changing layer leaves a box wider and higher than one cell. *)
Theorem moved_pin_layer_tables_exact (c : vpr_ctx) (s : cost_state) (net : ClusterNetId)
    (pin : ClusterPinId) (mv : t_pl_moved_block) :
  driver_pin_known c net ->
  sinks_on_device c net ->
  0 <= pl_layer (old_loc mv) < num_layers c ->
  0 <= pl_layer (new_loc mv) < num_layers c ->
  block_locs c (block_num mv) = new_loc mv ->
  sole_pin_on_block c net (block_num mv) pin ->
  (pin_is_driver c pin = true -> num_layers c = 1) ->
  bb_updated_before s net = NOT_UPDATED_YET ->
  layer_tables_exact (placed_back c (block_num mv) (old_loc mv)) net
    (layer_bb_coords s net) (layer_bb_num_on_edges s net) (num_sink_pin_layer s net) ->
  (pl_layer (old_loc mv) <> pl_layer (new_loc mv) ->
   l_xmin (layer_bb_coords s net (pl_layer (old_loc mv)))
   < l_xmax (layer_bb_coords s net (pl_layer (old_loc mv)))
   /\ l_ymin (layer_bb_coords s net (pl_layer (old_loc mv)))
      < l_ymax (layer_bb_coords s net (pl_layer (old_loc mv)))) ->
  exists s',
    update_net_layer_bb c s net (block_num mv) pin mv = Some s'
    /\ layer_tables_exact c net (layer_ts_bb_coord_new s' net) (layer_ts_bb_edge_new s' net)
         (ts_layer_sink_pin_count s' net).
Proof.
  intros _ Hdev HLo HLn Hnew Hsole Hone Hflag [Hboxes Hedges] Hwide.
  unfold update_net_layer_bb.
  destruct (Z.ltb_spec (Z.of_nat (length (net_sinks c net))) (SMALL_NET c)) as [Hsmall|Hbig].
  - rewrite Hflag. cbn [bb_flag_eqb]. eexists. split; [reflexivity|].
    cbn [layer_ts_bb_coord_new layer_ts_bb_edge_new ts_layer_sink_pin_count
         set_ts_layer_sink_pin_count set_layer_ts_bb_coord_new].
    rewrite !upd_same. apply non_updatable_layer_tables; assumption.
  - destruct (moved_pin_layer_lists c net pin mv Hnew Hsole Hone HLo HLn)
      as (X & Y & Hsink & Hlists).
    change (net_sinks (placed_back c (block_num mv) (old_loc mv)) net)
      with (net_sinks c net) in Hedges.
    change (SMALL_NET (placed_back c (block_num mv) (old_loc mv)))
      with (SMALL_NET c) in Hedges.
    change (num_layers (placed_back c (block_num mv) (old_loc mv)))
      with (num_layers c) in Hedges.
    specialize (Hedges Hbig).
    assert (Hcommitted : forall l, 0 <= l < num_layers c ->
              layer_num (layer_bb_coords s net l) = l
              /\ num_sink_pin_layer s net l
                 = Z.of_nat (length (layer_sinks (placed_back c (block_num mv) (old_loc mv))
                                       net l))).
    { intros l Hl. destruct (Hboxes l Hl) as (_ & _ & Hn & Hc). split; assumption. }
    destruct (update_layer_bb_exact c s net
                (mk_tile_loc
                   (pl_x (old_loc mv)
                    + pin_width_offset c (block_num mv) (tile_pin_index c pin))
                   (pl_y (old_loc mv)
                    + pin_height_offset c (block_num mv) (tile_pin_index c pin))
                   (pl_layer (old_loc mv)))
                (mk_tile_loc
                   (pl_x (new_loc mv)
                    + pin_width_offset c (block_num mv) (tile_pin_index c pin))
                   (pl_y (new_loc mv)
                    + pin_height_offset c (block_num mv) (tile_pin_index c pin))
                   (pl_layer (new_loc mv)))
                (pin_is_driver c pin) X Y) as (s' & Hrun & Hexact).
    + exact Hdev.
    + rewrite Hflag. discriminate.
    + exact HLo.
    + exact HLn.
    + intros Hd. unfold current_sink_count. rewrite Hflag. cbn [bb_flag_eqb tile_layer_num].
      rewrite (proj2 (Hcommitted _ HLo)). apply Hsink. exact Hd.
    + intros l Hl. unfold current_layer_coord, current_layer_edge, current_sink_count.
      rewrite Hflag. cbn [bb_flag_eqb tile_layer_num clip_loc tile_x tile_y].
      destruct (Hlists l Hl) as (P1 & P2 & _ & _ & Hlen).
      destruct (Hcommitted l Hl) as [Hn Hc].
      split; [|split; [exact Hn|rewrite Hc; exact Hlen]].
      apply (exact_box_perm _ _ _ _ _ _ P1 P2). apply Hedges. exact Hl.
    + intros l Hl. cbn [tile_layer_num clip_loc tile_x tile_y].
      destruct (Hlists l Hl) as (_ & _ & P3 & P4 & _). split; assumption.
    + unfold current_layer_coord. rewrite Hflag. cbn [bb_flag_eqb tile_layer_num].
      exact Hwide.
    + exists s'. split; [exact Hrun|].
      apply layer_tables_of_exact. intros l Hl.
      destruct (Hexact l Hl) as (A & B & C). cbn [ls_coord ls_edge ls_count] in A, B, C.
      split; [exact A|]. split; [exact B|exact C].
Qed.


Lemma moved_pin_layer_tables_exact_witness :
  exists s',
    update_net_layer_bb (placed_back (demo_after 2 false) 5%nat (mk_pl_loc 3 3 0 1))
      (demo_placed (demo_before 2 false)) 0%nat
      (block_num (mk_moved_block 5%nat (mk_pl_loc 1 1 0 0) (mk_pl_loc 3 3 0 1))) 5%nat
      (mk_moved_block 5%nat (mk_pl_loc 1 1 0 0) (mk_pl_loc 3 3 0 1))
    = Some s'
    /\ layer_tables_exact (placed_back (demo_after 2 false) 5%nat (mk_pl_loc 3 3 0 1)) 0%nat
         (layer_ts_bb_coord_new s' 0%nat) (layer_ts_bb_edge_new s' 0%nat)
         (ts_layer_sink_pin_count s' 0%nat).
Proof.
  apply (moved_pin_layer_tables_exact
           (placed_back (demo_after 2 false) 5%nat (mk_pl_loc 3 3 0 1))
           (demo_placed (demo_before 2 false)) 0%nat 5%nat
           (mk_moved_block 5%nat (mk_pl_loc 1 1 0 0) (mk_pl_loc 3 3 0 1))).
  - vm_compute. discriminate.
  - intros p [<-|[<-|[<-|[<-|[<-|[]]]]]]; (vm_compute; split; [discriminate|reflexivity]).
  - vm_compute. split; [discriminate|reflexivity].
  - vm_compute. split; [discriminate|reflexivity].
  - reflexivity.
  - right. split; [reflexivity|]. split; [reflexivity|]. split; [discriminate|].
    exists [1; 2; 3; 4]%nat, []. split; [reflexivity|].
    intros p [<-|[<-|[<-|[<-|[]]]]]; discriminate.
  - intros H. discriminate H.
  - vm_compute. reflexivity.
  - apply layer_tables_of_exact. intros l Hl.
    assert (El : l = 0 \/ l = 1) by (change (0 <= l < 2) in Hl; lia).
    destruct El as [-> | ->].
    + split; [apply exact_boxb_sound; vm_compute; reflexivity|].
      split; vm_compute; reflexivity.
    + split; [apply exact_boxb_sound; vm_compute; reflexivity|].
      split; vm_compute; reflexivity.
  - intros _. vm_compute. split; reflexivity.
Defined.

End LayerUpdate.

(** ** The ports of a memory *)

Section MemoryPorts.
Import BlockMemories.
Local Open Scope Z_scope.

Lemma take_pins_fold_none (pins : signal_list_t) (offset : Z) (l : list Z) :
  fold_left
    (fun acc i =>
       match acc with
       | None => None
       | Some sig =>
           match pin_at pins (offset + i) with
           | None => None
           | Some pin => Some (sig ++ [pin])
           end
       end) l None = None.
Proof. induction l; [reflexivity|assumption]. Qed.

(** The loop over the first [n] indices. *)
Lemma take_pins_upto (pins : signal_list_t) (offset : Z) (n : nat) :
  0 <= offset ->
  fold_left
    (fun acc i =>
       match acc with
       | None => None
       | Some sig =>
           match pin_at pins (offset + i) with
           | None => None
           | Some pin => Some (sig ++ [pin])
           end
       end) (map Z.of_nat (seq 0 n)) (Some [])
  = if offset + Z.of_nat n <=? count pins
    then Some (firstn n (skipn (Z.to_nat offset) pins))
    else if (n =? 0)%nat then Some [] else None.
Proof.
  intros Hoff. induction n as [|n IH].
  - cbn [seq map fold_left firstn Nat.eqb]. destruct (_ <=? _); reflexivity.
  - rewrite seq_S, map_app, fold_left_app, IH. cbn [map fold_left Nat.add Nat.eqb].
    unfold count in *.
    destruct (offset + Z.of_nat n <=? Z.of_nat (length pins)) eqn:E1.
    + apply Z.leb_le in E1. unfold pin_at.
      destruct (offset + Z.of_nat n <? 0) eqn:Eneg; [lia|].
      replace (Z.to_nat (offset + Z.of_nat n)) with (Z.to_nat offset + n)%nat by lia.
      destruct (offset + Z.of_nat (S n) <=? Z.of_nat (length pins)) eqn:E2.
      * apply Z.leb_le in E2.
        destruct (nth_error pins (Z.to_nat offset + n)) as [pin|] eqn:En.
        -- f_equal.
           assert (Hn : nth_error (skipn (Z.to_nat offset) pins) n = Some pin)
             by (rewrite nth_error_skipn; exact En).
           clear - Hn. revert n Hn.
           induction (skipn (Z.to_nat offset) pins) as [|x l IHl]; intros [|n] Hn;
             try discriminate.
           ++ cbn in Hn. injection Hn as ->. reflexivity.
           ++ cbn [firstn app]. f_equal. apply IHl. exact Hn.
        -- apply nth_error_None in En. lia.
      * apply Z.leb_gt in E2.
        destruct (nth_error pins (Z.to_nat offset + n)) as [pin|] eqn:En; [|reflexivity].
        assert (Hlt : (Z.to_nat offset + n < length pins)%nat)
          by (apply nth_error_Some; rewrite En; discriminate).
        lia.
    + apply Z.leb_gt in E1.
      destruct (offset + Z.of_nat (S n) <=? Z.of_nat (length pins)) eqn:E2;
        [apply Z.leb_le in E2; lia|].
      destruct n as [|n]; [|reflexivity].
      cbn [Nat.eqb]. unfold pin_at.
      destruct (offset + Z.of_nat 0 <? 0); [reflexivity|].
      destruct (nth_error pins (Z.to_nat (offset + Z.of_nat 0))) as [pin|] eqn:En;
        [|reflexivity].
      assert (Hlt : (Z.to_nat (offset + Z.of_nat 0) < length pins)%nat)
        by (apply nth_error_Some; rewrite En; discriminate).
      lia.
Qed.

(** What [take_pins] returns. *)
Lemma take_pins_result (pins : signal_list_t) (offset width : Z) :
  0 <= offset -> 0 <= width ->
  take_pins pins offset width
  = if offset + width <=? count pins
    then Some (firstn (Z.to_nat width) (skipn (Z.to_nat offset) pins))
    else if width =? 0 then Some [] else None.
Proof.
  intros Hoff Hw. unfold take_pins, NetCost.zrange.
  rewrite take_pins_upto by exact Hoff.
  rewrite Z2Nat.id by exact Hw.
  destruct (offset + width <=? count pins); [reflexivity|].
  destruct (Z.eqb_spec width 0) as [->|Hne]; [reflexivity|].
  destruct (Z.to_nat width) eqn:E; [lia|reflexivity].
Qed.

Lemma take_pins_some (pins : signal_list_t) (offset width : Z) :
  0 <= offset -> 0 <= width ->
  offset + width <= count pins ->
  take_pins pins offset width
  = Some (firstn (Z.to_nat width) (skipn (Z.to_nat offset) pins)).
Proof.
  intros Hoff Hw Hfit. rewrite take_pins_result by assumption.
  destruct (offset + width <=? count pins) eqn:E; [reflexivity|lia].
Qed.

Lemma firstn_skipn_count (pins : signal_list_t) (offset width : Z) :
  0 <= offset -> 0 <= width -> offset + width <= count pins ->
  count (firstn (Z.to_nat width) (skipn (Z.to_nat offset) pins)) = width.
Proof.
  intros Hoff Hw Hfit. unfold count in *. rewrite length_firstn, length_skipn. lia.
Qed.

(** Two slices that follow each other make one slice. *)
Lemma slices_join (pins : signal_list_t) (offset w1 w2 : nat) :
  firstn w1 (skipn offset pins) ++ firstn w2 (skipn (offset + w1) pins)
  = firstn (w1 + w2) (skipn offset pins).
Proof.
  rewrite Nat.add_comm, <- skipn_skipn.
  generalize (skipn offset pins) as l. intros l. revert l.
  induction w1 as [|w1 IH]; intros l; [reflexivity|].
  destruct l as [|x l]; [cbn; rewrite firstn_nil; reflexivity|].
  cbn [firstn skipn app Nat.add]. f_equal. apply IH.
Qed.

(** [init_block_memory] on a node with its seven input ports and its output
    port: the memory, if the pins are there. *)
Lemma init_block_memory_slices (node : nnode_t)
    (clk : signal_list_t -> signal_list_t -> signal_list_t) (a k e wa wk wd we d : Z) :
  input_port_sizes node = [a; k; e; wa; wk; wd; we] ->
  output_port_sizes node = [d] ->
  Forall (fun w => 0 <= w) [a; k; e; wa; wk; wd; we; d] ->
  init_block_memory node clk
  = if (a + k + e + wa + wk + wd + we <=? count (input_pins node))
       && (d <=? count (output_pins node))
    then
      Some (mk_block_memory
              (Some (firstn (Z.to_nat a) (skipn (Z.to_nat 0) (input_pins node))))
              (firstn (Z.to_nat k) (skipn (Z.to_nat (0 + a)) (input_pins node)))
              (firstn (Z.to_nat e) (skipn (Z.to_nat (0 + a + k)) (input_pins node)))
              (firstn (Z.to_nat d) (skipn (Z.to_nat 0) (output_pins node)))
              (Some (firstn (Z.to_nat wa)
                       (skipn (Z.to_nat (0 + a + k + e)) (input_pins node))))
              (firstn (Z.to_nat wk) (skipn (Z.to_nat (0 + a + k + e + wa)) (input_pins node)))
              (firstn (Z.to_nat wd)
                 (skipn (Z.to_nat (0 + a + k + e + wa + wk)) (input_pins node)))
              (firstn (Z.to_nat we)
                 (skipn (Z.to_nat (0 + a + k + e + wa + wk + wd)) (input_pins node)))
              (clk (firstn (Z.to_nat k) (skipn (Z.to_nat (0 + a)) (input_pins node)))
                 (firstn (Z.to_nat wk)
                    (skipn (Z.to_nat (0 + a + k + e + wa)) (input_pins node))))
              (node_attributes node))
    else None.
Proof.
  intros Hin Hout Hpos.
  repeat match goal with
         | H : Forall _ (_ :: _) |- _ => inversion H; subst; clear H
         end.
  unfold init_block_memory. rewrite Hin, Hout.
  change (pin_at [a; k; e; wa; wk; wd; we] 0) with (Some a).
  change (pin_at [a; k; e; wa; wk; wd; we] 1) with (Some k).
  change (pin_at [a; k; e; wa; wk; wd; we] 2) with (Some e).
  change (pin_at [a; k; e; wa; wk; wd; we] 3) with (Some wa).
  change (pin_at [a; k; e; wa; wk; wd; we] 4) with (Some wk).
  change (pin_at [a; k; e; wa; wk; wd; we] 5) with (Some wd).
  change (pin_at [a; k; e; wa; wk; wd; we] 6) with (Some we).
  change (pin_at [d] 0) with (Some d).
  cbv iota.
  destruct ((a + k + e + wa + wk + wd + we <=? count (input_pins node))
            && (d <=? count (output_pins node))) eqn:Efit.
  - apply andb_true_iff in Efit. destruct Efit as [E1 E2].
    apply Z.leb_le in E1, E2.
    rewrite !take_pins_some by lia. reflexivity.
  - apply andb_false_iff in Efit.
    rewrite !take_pins_result by lia.
    repeat match goal with
           | |- context [?x <=? ?y] => destruct (Z.leb_spec x y)
           end;
      repeat match goal with
             | |- context [?x =? 0] => destruct (Z.eqb_spec x 0)
             end;
      try reflexivity;
      exfalso; unfold count in *;
      destruct Efit as [Efit|Efit]; apply Z.leb_gt in Efit; lia.
Qed.

Lemma slices_join_at (pins : signal_list_t) (offset w1 w2 next : nat) :
  next = (offset + w1)%nat ->
  firstn w1 (skipn offset pins) ++ firstn w2 (skipn next pins)
  = firstn (w1 + w2) (skipn offset pins).
Proof. intros ->. apply slices_join. Qed.

(** X12.  A memory node with its seven input ports and its output port, the
    sizes not negative: [init_block_memory] returns a memory exactly when
    the node has as many input pins as the seven sizes add up to and as
    many output pins as the size of the output port; it reads outside the
    pin array otherwise.  The seven signal lists of the memory have the
    sizes of the ports and are, one after the other in the order of the
    node, the first input pins of the node: no pin is lost, repeated or
    moved to another port.  The read data are the first output pins. *)
Theorem init_block_memory_partitions (node : nnode_t)
    (clk : signal_list_t -> signal_list_t -> signal_list_t) (a k e wa wk wd we d : Z) :
  input_port_sizes node = [a; k; e; wa; wk; wd; we] ->
  output_port_sizes node = [d] ->
  Forall (fun w => 0 <= w) [a; k; e; wa; wk; wd; we; d] ->
  ((exists bram, init_block_memory node clk = Some bram)
   <-> a + k + e + wa + wk + wd + we <= count (input_pins node)
       /\ d <= count (output_pins node))
  /\ forall bram,
       init_block_memory node clk = Some bram ->
       concat (input_ports bram)
       = firstn (Z.to_nat (a + k + e + wa + wk + wd + we)) (input_pins node)
       /\ map count (input_ports bram) = [a; k; e; wa; wk; wd; we]
       /\ read_data bram = firstn (Z.to_nat d) (output_pins node)
       /\ attributes bram = node_attributes node.
Proof.
  intros Hin Hout Hpos.
  rewrite (init_block_memory_slices node clk a k e wa wk wd we d Hin Hout Hpos).
  repeat match goal with
         | H : Forall _ (_ :: _) |- _ => inversion H; subst; clear H
         end.
  destruct ((a + k + e + wa + wk + wd + we <=? count (input_pins node))
            && (d <=? count (output_pins node))) eqn:Efit.
  - apply andb_true_iff in Efit. destruct Efit as [E1 E2]. apply Z.leb_le in E1, E2.
    split; [split; [intros _; split; assumption|intros _; eexists; reflexivity]|].
    intros bram Hb. injection Hb as <-.
    cbn [input_ports read_addr read_clk read_en write_addr write_clk write_data write_en
         read_data attributes concat map].
    split; [|split; [|split; reflexivity]].
    + rewrite app_nil_r, !app_assoc.
      change (firstn (Z.to_nat a) (input_pins node))
        with (firstn (Z.to_nat a) (skipn 0 (input_pins node))).
      rewrite !slices_join_at by lia.
      cbn [skipn]. f_equal. lia.
    + change (firstn (Z.to_nat a) (input_pins node))
        with (firstn (Z.to_nat a) (skipn (Z.to_nat 0) (input_pins node))).
      rewrite !firstn_skipn_count by lia. reflexivity.
  - split; [|intros bram Hb; discriminate Hb].
    split; [intros [bram Hb]; discriminate Hb|].
    intros [E1 E2]. apply andb_false_iff in Efit.
    destruct Efit as [Efit|Efit]; apply Z.leb_gt in Efit; lia.
Qed.

Lemma init_block_memory_partitions_witness :
  exists bram,
    init_block_memory
      (mk_node [2; 1; 1; 2; 1; 3; 1] (demo_pins (ids_upto 11)) [3]
         (demo_pins [20; 21; 22]) (mk_attributes 4 2 3 1 1))
      (fun rd wr => rd ++ wr) = Some bram
    /\ concat (input_ports bram) = demo_pins (ids_upto 11)
    /\ read_data bram = demo_pins [20; 21; 22].
Proof.
  destruct (init_block_memory_partitions
              (mk_node [2; 1; 1; 2; 1; 3; 1] (demo_pins (ids_upto 11)) [3]
                 (demo_pins [20; 21; 22]) (mk_attributes 4 2 3 1 1))
              (fun rd wr => rd ++ wr) 2 1 1 2 1 3 1 3) as [[_ Hruns] Hports].
  - reflexivity.
  - reflexivity.
  - repeat constructor; discriminate.
  - destruct Hruns as [bram Hb]; [split; vm_compute; discriminate|].
    exists bram. split; [exact Hb|].
    destruct (Hports bram Hb) as (Hcat & _ & Hdata & _).
    split; [exact Hcat|exact Hdata].
Defined.

(** X14.  A ROM node with its three input ports and its output port, the
    sizes not negative: [init_read_only_memory] returns a memory exactly
    when the node has as many input pins as the three sizes add up to and
    as many output pins as the size of the output port.  The read address,
    read clock and read enable lists are then, one after the other, the
    first input pins of the node, and the read data the first output pins;
    the write data are pad pins, as many as there are read data pins, and
    there is no write address. *)
Theorem init_read_only_memory_partitions (node : nnode_t)
    (clk : signal_list_t -> signal_list_t) (a k e d : Z) :
  input_port_sizes node = [a; k; e] ->
  output_port_sizes node = [d] ->
  Forall (fun w => 0 <= w) [a; k; e; d] ->
  ((exists rom, init_read_only_memory node clk = Some rom)
   <-> a + k + e <= count (input_pins node) /\ d <= count (output_pins node))
  /\ forall rom,
       init_read_only_memory node clk = Some rom ->
       (exists addr, read_addr rom = Some addr
                     /\ addr ++ read_clk rom ++ read_en rom
                        = firstn (Z.to_nat (a + k + e)) (input_pins node)
                     /\ count addr = a)
       /\ count (read_clk rom) = k
       /\ count (read_en rom) = e
       /\ read_data rom = firstn (Z.to_nat d) (output_pins node)
       /\ write_data rom = repeat get_pad_pin (length (read_data rom))
       /\ write_addr rom = None
       /\ attributes rom = node_attributes node.
Proof.
  intros Hin Hout Hpos.
  repeat match goal with
         | H : Forall _ (_ :: _) |- _ => inversion H; subst; clear H
         end.
  unfold init_read_only_memory. rewrite Hin, Hout.
  change (pin_at [a; k; e] 0) with (Some a). change (pin_at [a; k; e] 1) with (Some k).
  change (pin_at [a; k; e] 2) with (Some e). change (pin_at [d] 0) with (Some d).
  cbv iota.
  destruct ((a + k + e <=? count (input_pins node)) && (d <=? count (output_pins node)))
    eqn:Efit.
  - apply andb_true_iff in Efit. destruct Efit as [E1 E2]. apply Z.leb_le in E1, E2.
    rewrite !take_pins_some by lia.
    split; [split; [intros _; split; assumption|intros _; eexists; reflexivity]|].
    intros rom Hb. injection Hb as <-.
    cbn [read_addr read_clk read_en write_addr write_data read_data attributes].
    split; [eexists; split; [reflexivity|split]|].
    + rewrite !app_assoc.
      change (firstn (Z.to_nat a) (input_pins node))
        with (firstn (Z.to_nat a) (skipn 0 (input_pins node))).
      rewrite !slices_join_at by lia.
      cbn [skipn]. f_equal. lia.
    + change (firstn (Z.to_nat a) (input_pins node))
        with (firstn (Z.to_nat a) (skipn (Z.to_nat 0) (input_pins node))).
      apply firstn_skipn_count; lia.
    + rewrite !firstn_skipn_count by lia.
      split; [reflexivity|]. split; [reflexivity|]. split; [reflexivity|].
      split; [|split; reflexivity].
      unfold pad_pins. f_equal. cbn [Z.to_nat skipn]. rewrite length_firstn.
      unfold count in E2. lia.
  - split; [|intros rom Hb; exfalso].
    + split.
      * intros [rom Hb]. exfalso. revert Hb. rewrite !take_pins_result by lia.
        apply andb_false_iff in Efit. unfold count in *.
        repeat match goal with
               | |- context [?x <=? ?y] => destruct (Z.leb_spec x y)
               end;
          repeat match goal with
                 | |- context [?x =? 0] => destruct (Z.eqb_spec x 0)
                 end;
          try discriminate;
          intros _; destruct Efit as [Efit|Efit]; apply Z.leb_gt in Efit; lia.
      * intros [E1 E2]. apply andb_false_iff in Efit.
        destruct Efit as [Efit|Efit]; apply Z.leb_gt in Efit; lia.
    + revert Hb. rewrite !take_pins_result by lia.
      apply andb_false_iff in Efit. unfold count in *.
      repeat match goal with
             | |- context [?x <=? ?y] => destruct (Z.leb_spec x y)
             end;
        repeat match goal with
               | |- context [?x =? 0] => destruct (Z.eqb_spec x 0)
               end;
        try discriminate;
        intros _; destruct Efit as [Efit|Efit]; apply Z.leb_gt in Efit; lia.
Qed.

Lemma init_read_only_memory_partitions_witness :
  exists rom,
    init_read_only_memory
      (mk_node [2; 1; 1] (demo_pins (ids_upto 4)) [3] (demo_pins [20; 21; 22])
         (mk_attributes 4 2 3 1 0))
      (fun rd => rd) = Some rom
    /\ write_data rom = repeat get_pad_pin 3
    /\ write_addr rom = None.
Proof.
  destruct (init_read_only_memory_partitions
              (mk_node [2; 1; 1] (demo_pins (ids_upto 4)) [3] (demo_pins [20; 21; 22])
                 (mk_attributes 4 2 3 1 0))
              (fun rd => rd) 2 1 1 3) as [[_ Hruns] Hports].
  - reflexivity.
  - reflexivity.
  - repeat constructor; discriminate.
  - destruct Hruns as [rom Hb]; [split; vm_compute; discriminate|].
    exists rom. split; [exact Hb|].
    destruct (Hports rom Hb) as (_ & _ & _ & Hdata & Hpad & Hnull & _).
    split; [rewrite Hpad, Hdata; reflexivity|exact Hnull].
Defined.

Lemma pin_at_head {A : Type} (l : list A) :
  (exists p, pin_at l 0 = Some p) <-> 1 <= Z.of_nat (length l).
Proof.
  unfold pin_at. cbn. destruct l; cbn [length]; split.
  - intros [p Hp]. discriminate Hp.
  - lia.
  - lia.
  - intros _. eexists. reflexivity.
Qed.

Lemma pin_at_second {A : Type} (l : list A) :
  (exists p, pin_at l 1 = Some p) <-> 2 <= Z.of_nat (length l).
Proof.
  unfold pin_at. cbn. destruct l as [|x [|y l]]; cbn [length]; split;
    try (intros [p Hp]; discriminate Hp); try lia; intros _; eexists; reflexivity.
Qed.

(** The two halves of a list of [2 w] pins. *)
Lemma halves_join (pins : signal_list_t) (w : Z) :
  0 <= w -> count pins = 2 * w ->
  firstn (Z.to_nat w) pins ++ firstn (Z.to_nat w) (skipn (Z.to_nat w) pins) = pins.
Proof.
  intros Hw Hcount. unfold count in Hcount.
  rewrite (firstn_all2 (n := Z.to_nat w) (skipn (Z.to_nat w) pins))
    by (rewrite length_skipn; lia).
  apply firstn_skipn.
Qed.

(** X13.  [create_2r_dual_port_ram] fills the signals of a dual-port RAM
    exactly when the ROM has two read ports and no write port, [2 * ABITS]
    read address pins, [2 * DBITS] read data pins, two read enable pins and
    a clock pin; an [oassert] fails or a pin is read outside its list
    otherwise.  The two address ports are then the two halves of the read
    address, the two outputs the two halves of the read data, in order and
    with nothing lost; both data inputs are [DBITS] pad pins and both write
    enables are the zero pin. *)
Theorem create_2r_dual_port_ram_splits (rom : block_memory) :
  ((exists signals, create_2r_dual_port_ram rom = Some signals)
   <-> RD_PORTS (attributes rom) = 2
       /\ WR_PORTS (attributes rom) = 0
       /\ (exists addr, read_addr rom = Some addr
                        /\ count addr = 2 * ABITS (attributes rom))
       /\ count (read_data rom) = 2 * DBITS (attributes rom)
       /\ 2 <= count (read_en rom)
       /\ 1 <= count (clk rom))
  /\ forall signals,
       create_2r_dual_port_ram rom = Some signals ->
       read_addr rom = Some (dp_addr1 signals ++ dp_addr2 signals)
       /\ count (dp_addr1 signals) = ABITS (attributes rom)
       /\ count (dp_addr2 signals) = ABITS (attributes rom)
       /\ read_data rom = dp_out1 signals ++ dp_out2 signals
       /\ count (dp_out1 signals) = DBITS (attributes rom)
       /\ count (dp_out2 signals) = DBITS (attributes rom)
       /\ dp_data1 signals = repeat get_pad_pin (Z.to_nat (DBITS (attributes rom)))
       /\ dp_data2 signals = repeat get_pad_pin (Z.to_nat (DBITS (attributes rom)))
       /\ dp_we1 signals = get_zero_pin
       /\ dp_we2 signals = Some get_zero_pin
       /\ dp_clk signals = hd_error (clk rom).
Proof.
  unfold create_2r_dual_port_ram, oassert.
  destruct (Z.eqb_spec (RD_PORTS (attributes rom)) 2) as [Hrd|Hrd];
    [|split; [split; [intros [x Hx]; discriminate Hx|intros (H & _); contradiction]
             |intros x Hx; discriminate Hx]].
  destruct (Z.eqb_spec (WR_PORTS (attributes rom)) 0) as [Hwr|Hwr];
    [|split; [split; [intros [x Hx]; discriminate Hx|intros (_ & H & _); contradiction]
             |intros x Hx; discriminate Hx]].
  destruct (read_addr rom) as [addr|];
    [|split; [split; [intros [x Hx]; discriminate Hx
                     |intros (_ & _ & (x & Hx & _) & _); discriminate Hx]
             |intros x Hx; discriminate Hx]].
  destruct (Z.eqb_spec (count addr) (2 * ABITS (attributes rom))) as [Ha|Ha];
    [|split; [split; [intros [x Hx]; discriminate Hx
                     |intros (_ & _ & (x & Hx & Hc) & _); injection Hx as <-; contradiction]
             |intros x Hx; discriminate Hx]].
  destruct (Z.eqb_spec (count (read_data rom)) (2 * DBITS (attributes rom))) as [Hd|Hd];
    [|split; [split; [intros [x Hx]; discriminate Hx
                     |intros (_ & _ & _ & H & _); contradiction]
             |intros x Hx; discriminate Hx]].
  assert (HA : 0 <= ABITS (attributes rom)) by (unfold count in Ha; lia).
  assert (HD : 0 <= DBITS (attributes rom)) by (unfold count in Hd; lia).
  rewrite !take_pins_some by lia.
  pose proof (pin_at_head (read_en rom)) as Hen0.
  pose proof (pin_at_second (read_en rom)) as Hen1.
  pose proof (pin_at_head (clk rom)) as Hclk.
  assert (Hhd : pin_at (clk rom) 0 = hd_error (clk rom)) by (destruct (clk rom); reflexivity).
  fold (count (read_en rom)) in Hen0, Hen1. fold (count (clk rom)) in Hclk.
  destruct (pin_at (read_en rom) 0) as [en0|];
    [|split; [split; [intros [x Hx]; discriminate Hx
                     |intros (_ & _ & _ & _ & H & _);
                      assert (H1 : 1 <= count (read_en rom)) by lia;
                      apply Hen0 in H1; destruct H1 as [p Hp]; discriminate Hp]
             |intros x Hx; discriminate Hx]].
  destruct (pin_at (clk rom) 0) as [clk_pin|];
    [|split; [split; [intros [x Hx]; discriminate Hx
                     |intros (_ & _ & _ & _ & _ & H);
                      apply Hclk in H; destruct H as [p Hp]; discriminate Hp]
             |intros x Hx; discriminate Hx]].
  destruct (pin_at (read_en rom) 1) as [en1|];
    [|split; [split; [intros [x Hx]; discriminate Hx
                     |intros (_ & _ & _ & _ & H & _);
                      apply Hen1 in H; destruct H as [p Hp]; discriminate Hp]
             |intros x Hx; discriminate Hx]].
  split.
  - split; [intros _|intros _; eexists; reflexivity].
    split; [exact Hrd|]. split; [exact Hwr|].
    split; [exists addr; split; [reflexivity|exact Ha]|].
    split; [exact Hd|].
    split; [apply Hen1; eexists; reflexivity|apply Hclk; eexists; reflexivity].
  - intros signals Hs. injection Hs as <-.
    cbn [dp_addr1 dp_addr2 dp_out1 dp_out2 dp_data1 dp_data2 dp_we1 dp_we2 dp_clk].
    rewrite (halves_join addr _ HA Ha), (halves_join (read_data rom) _ HD Hd).
    rewrite <- Hhd. unfold pad_pins, count in *.
    rewrite !length_firstn, !length_skipn. repeat split; lia.
Qed.

Lemma create_2r_dual_port_ram_splits_witness :
  exists signals,
    create_2r_dual_port_ram
      (mk_block_memory (Some (demo_pins [0; 1; 2; 3])) (demo_pins [9]) (demo_pins [7; 8])
         (demo_pins [10; 11; 12; 13; 14; 15]) None [] [] [] (demo_pins [9])
         (mk_attributes 4 2 3 2 0)) = Some signals
    /\ dp_addr1 signals = demo_pins [0; 1]
    /\ dp_addr2 signals = demo_pins [2; 3].
Proof.
  destruct (create_2r_dual_port_ram_splits
              (mk_block_memory (Some (demo_pins [0; 1; 2; 3])) (demo_pins [9])
                 (demo_pins [7; 8]) (demo_pins [10; 11; 12; 13; 14; 15]) None [] [] []
                 (demo_pins [9]) (mk_attributes 4 2 3 2 0))) as [[_ Hruns] _].
  destruct Hruns as [signals Hs].
  - split; [reflexivity|]. split; [reflexivity|].
    split; [eexists; split; reflexivity|].
    split; [reflexivity|]. split; vm_compute; discriminate.
  - exists signals. split; [exact Hs|].
    vm_compute in Hs. injection Hs as <-. split; reflexivity.
Defined.

End MemoryPorts.

(** ** Numbers typed into the panel *)

Section PanelNumbers.
Import String Ascii.
Import ManualMoves.
Local Open Scope Z_scope.






End PanelNumbers.
